(** * Kiro account manager: provisioning engine

    A shallow embedding of the parts of the repository that its
    specification talks about:

    - [JS]          strings as UTF-16 code units and the fragment of the
                    ECMAScript regular-expression semantics (backtracking,
                    leftmost match, greedy star) that the source patterns use;
    - [Extractor]   [extractCode] of [mailService.ts] and of the registration
                    module (both files carry the same function);
    - [Backends]    the per-mail extraction step of the two mailbox backends
                    and the poll loop of [getOutlookVerificationCode];
    - [Fingerprint] [fingerprint.ts];
    - [Store]       [updateAccountStatus] of the zustand store;
    - [Pool]        [runConcurrent] / [registerSingleAccount] of
                    [AutoRegisterPage.tsx] as a transition system;
    - [Orchestrator] [autoRegisterAWS] as a program over awaited effects. *)

From Stdlib Require Import ZArith NArith List String Ascii Bool Lia Arith.
From stdpp Require Import base list.
Import ListNotations.

Local Open Scope nat_scope.

(* ===================================================================== *)
(** ** JavaScript strings and regular expressions *)
(* ===================================================================== *)

Module JS.

(** A JS string is a sequence of UTF-16 code units. *)
Definition jsstring := list N.

Fixpoint str (s : string) : jsstring :=
  match s with
  | EmptyString => []
  | String a t => N_of_ascii a :: str t
  end.

Fixpoint eqs (a b : jsstring) : bool :=
  match a, b with
  | [], [] => true
  | x :: a', y :: b' => N.eqb x y && eqs a' b'
  | _, _ => false
  end.

Fixpoint startsWith (s p : jsstring) : bool :=
  match p, s with
  | [], _ => true
  | y :: p', x :: s' => N.eqb x y && startsWith s' p'
  | _ :: _, [] => false
  end.

(** [s.includes(sub)] *)
Fixpoint includes (s sub : jsstring) : bool :=
  startsWith s sub ||
  match s with
  | [] => false
  | _ :: t => includes t sub
  end.

(** [s.slice(a, b)] for [0 <= a], [b <= length s]. *)
Definition slice (s : jsstring) (a b : nat) : jsstring :=
  firstn (b - a) (skipn a s).

(** Character classes of ECMAScript. *)
Definition in_range (lo hi c : N) : bool := (N.leb lo c && N.leb c hi)%N.

Definition is_digit (c : N) : bool := in_range 48 57 c.

Definition is_word (c : N) : bool :=
  in_range 97 122 c || in_range 65 90 c || is_digit c || N.eqb c 95.

Definition is_line_terminator (c : N) : bool :=
  N.eqb c 10 || N.eqb c 13 || N.eqb c 8232 || N.eqb c 8233.

(** [\s]: WhiteSpace and LineTerminator. *)
Definition is_space (c : N) : bool :=
  in_range 9 13 c || N.eqb c 32 || N.eqb c 160 || N.eqb c 5760 ||
  in_range 8192 8202 c || N.eqb c 8232 || N.eqb c 8233 || N.eqb c 8239 ||
  N.eqb c 8287 || N.eqb c 12288 || N.eqb c 65279.

Definition is_hex (c : N) : bool :=
  is_digit c || in_range 97 102 c || in_range 65 70 c.

(** Canonicalisation under the [i] flag (no [u] flag): upper-casing, which
    for the literals of the source patterns (ASCII letters, blanks and CJK
    ideographs) only identifies the two cases of an ASCII letter. *)
Definition canon (c : N) : N :=
  if in_range 97 122 c then (c - 32)%N else c.

(** The fragment of the pattern language that the source uses.  A star is
    only ever applied to a character class. *)
Inductive re : Type :=
| RChar (c : N)
| RSet (p : N -> bool)
| RSeq (r1 r2 : re)
| RAlt (r1 r2 : re)
| RStar (p : N -> bool)
| RGroup (r : re)
| RBol
| REol
| RWordB
| REmpty.

Fixpoint lit (s : jsstring) : re :=
  match s with
  | [] => REmpty
  | [c] => RChar c
  | c :: t => RSeq (RChar c) (lit t)
  end.

Fixpoint rep (n : nat) (r : re) : re :=
  match n with
  | 0 => REmpty
  | 1 => r
  | S m => RSeq r (rep m r)
  end.

Record flags := { ignoreCase : bool; multiline : bool }.

(** A position in the subject: the code unit before it, what is left, and
    its index. *)
Record cursor := { prev : option N; rest : jsstring; pos : nat }.

Definition advance (c : cursor) : option (N * cursor) :=
  match rest c with
  | [] => None
  | ch :: t => Some (ch, {| prev := Some ch; rest := t; pos := S (pos c) |})
  end.

Section Matcher.
Context {X : Type}.
Variable fl : flags.

(** Greedy [p*]: the longest run first, then shorter ones on backtracking. *)
Fixpoint star (p : N -> bool) (pv : option N) (rs : jsstring) (i : nat)
         (k : cursor -> option X) : option X :=
  let here := {| prev := pv; rest := rs; pos := i |} in
  match rs with
  | ch :: t =>
      if p ch then
        match star p (Some ch) t (S i) k with
        | Some x => Some x
        | None => k here
        end
      else k here
  | [] => k here
  end.

Definition at_bol (c : cursor) : bool :=
  match prev c with
  | None => true
  | Some ch => multiline fl && is_line_terminator ch
  end.

Definition at_eol (c : cursor) : bool :=
  match rest c with
  | [] => true
  | ch :: _ => multiline fl && is_line_terminator ch
  end.

Definition word_before (c : cursor) : bool :=
  match prev c with Some ch => is_word ch | None => false end.

Definition word_after (c : cursor) : bool :=
  match rest c with ch :: _ => is_word ch | [] => false end.

Definition char_eq (a b : N) : bool :=
  if ignoreCase fl then N.eqb (canon a) (canon b) else N.eqb a b.

(** Backtracking matcher in continuation-passing style; [cap] is the text
    of capture group 1. *)
Fixpoint rmatch (r : re) (c : cursor) (cap : option jsstring)
         (k : cursor -> option jsstring -> option X) : option X :=
  match r with
  | REmpty => k c cap
  | RChar a =>
      match advance c with
      | Some (ch, c') => if char_eq a ch then k c' cap else None
      | None => None
      end
  | RSet p =>
      match advance c with
      | Some (ch, c') => if p ch then k c' cap else None
      | None => None
      end
  | RSeq r1 r2 => rmatch r1 c cap (fun c' cap' => rmatch r2 c' cap' k)
  | RAlt r1 r2 =>
      match rmatch r1 c cap k with
      | Some x => Some x
      | None => rmatch r2 c cap k
      end
  | RStar p => star p (prev c) (rest c) (pos c) (fun c' => k c' cap)
  | RGroup r1 =>
      rmatch r1 c cap
        (fun c' _ => k c' (Some (firstn (pos c' - pos c) (rest c))))
  | RBol => if at_bol c then k c cap else None
  | REol => if at_eol c then k c cap else None
  | RWordB => if xorb (word_before c) (word_after c) then k c cap else None
  end.
End Matcher.

(** One successful match: where it starts, where it ends, group 1. *)
Record rmatch_result := { m_index : nat; m_end : nat; m_group1 : option jsstring }.

Definition match_at (fl : flags) (r : re) (c : cursor) : option rmatch_result :=
  rmatch fl r c None
    (fun c' cap => Some {| m_index := pos c; m_end := pos c'; m_group1 := cap |}).

(** Leftmost match at or after the cursor. *)
Fixpoint search (fl : flags) (r : re) (pv : option N) (rs : jsstring) (i : nat)
  : option rmatch_result :=
  match match_at fl r {| prev := pv; rest := rs; pos := i |} with
  | Some m => Some m
  | None =>
      match rs with
      | [] => None
      | ch :: t => search fl r (Some ch) t (S i)
      end
  end.

(** [re.test(s)] for a pattern without the [g] flag. *)
Definition test (fl : flags) (r : re) (s : jsstring) : bool :=
  match search fl r None s 0 with Some _ => true | None => false end.

(** [c'] lies at or after [c] in the same subject. *)
Definition reach (c c' : cursor) : Prop :=
  exists d, rest c = d ++ rest c' /\ pos c' = pos c + length d.

(** Group 1 as it stands at [c'], when it stood as [cap] at [c]: unchanged,
    or the text between two cursors passed on the way. *)
Definition captured (c : cursor) (cap : option jsstring) (c' : cursor)
           (cap' : option jsstring) : Prop :=
  cap' = cap
  \/ exists c1 c2, reach c c1 /\ reach c1 c2 /\ reach c2 c'
       /\ cap' = Some (firstn (pos c2 - pos c1) (rest c1)).

End JS.

(* ===================================================================== *)
(** ** The verification-code extractor *)
(* ===================================================================== *)

Module Extractor.
Import JS.

Definition colon_or_space (c : N) : bool :=
  N.eqb c 65306 || N.eqb c 58 || is_space c.

Definition six_digits : re := RGroup (rep 6 (RSet is_digit)).

(** [/(?:verification\s*code|验证码|Your code is|code is)[：:\s]*(\d{6})/gi] *)
Definition pattern_label : re :=
  RSeq (RAlt (RSeq (lit (str "verification")) (RSeq (RStar is_space) (lit (str "code"))))
       (RAlt (lit [39564; 35777; 30721]%N)
       (RAlt (lit (str "Your code is"))
             (lit (str "code is")))))
       (RSeq (RStar colon_or_space) six_digits).

(** [/(?:is|为)[：:\s]*(\d{6})\b/gi] *)
Definition pattern_is : re :=
  RSeq (RAlt (lit (str "is")) (lit [20026%N]))
       (RSeq (RStar colon_or_space) (RSeq six_digits RWordB)).

(** [/^\s*(\d{6})\s*$/gm] *)
Definition pattern_line : re :=
  RSeq RBol (RSeq (RStar is_space) (RSeq six_digits (RSeq (RStar is_space) REol))).

(** [/>\s*(\d{6})\s*</g] *)
Definition pattern_tag : re :=
  RSeq (RChar 62) (RSeq (RStar is_space) (RSeq six_digits (RSeq (RStar is_space) (RChar 60)))).

Definition gi : flags := {| ignoreCase := true; multiline := false |}.
Definition gm : flags := {| ignoreCase := false; multiline := true |}.
Definition g : flags := {| ignoreCase := false; multiline := false |}.
Definition i_only : flags := {| ignoreCase := true; multiline := false |}.

Definition CODE_PATTERNS : list (flags * re) :=
  [ (gi, pattern_label); (gi, pattern_is); (gm, pattern_line); (g, pattern_tag) ].

(** [/^\d{6}$/] *)
Definition exactly_six_digits : re := RSeq RBol (RSeq (rep 6 (RSet is_digit)) REol).

(** [/color[:\s]*[^;]*\d{6}/i] *)
Definition css_color : re :=
  RSeq (lit (str "color"))
       (RSeq (RStar (fun c => N.eqb c 58 || is_space c))
       (RSeq (RStar (fun c => negb (N.eqb c 59)))
             (rep 6 (RSet is_digit)))).

(** [/rgb|rgba|hsl/i] *)
Definition css_function : re :=
  RAlt (lit (str "rgb")) (RAlt (lit (str "rgba")) (lit (str "hsl"))).

(** [/\d{7,}/] *)
Definition seven_digits : re := RSeq (rep 7 (RSet is_digit)) (RStar is_digit).

(** The body of the [while] loop for one match: [true] when the code is
    returned, [false] when the group is not six digits or one of the four
    exclusion filters says [continue]. *)
Definition accepts (text : jsstring) (m : rmatch_result) : bool :=
  match m_group1 m with
  | None => false
  | Some code =>
      if negb (match code with [] => false | _ => true end && test g exactly_six_digits code)
      then false
      else
        let start := Nat.max 0 (m_index m - 20) in
        let stop := Nat.min (length text) (m_index m + (m_end m - m_index m) + 20) in
        let context := slice text start stop in
        if includes context (35%N :: code) then false
        else if test i_only css_color context then false
        else if test i_only css_function context then false
        else if test g seven_digits context then false
        else true
  end.

(** [while ((match = pattern.exec(text)) !== null) { ... }] for one pattern
    with the [g] flag.  [skip] is [lastIndex - i]: positions before
    [lastIndex] are not tried.  After a rejected match the next search
    starts at the end of that match (every match of the four patterns has at
    least seven code units, so the scan always moves on). *)
Fixpoint scan (fl : flags) (r : re) (text : jsstring)
         (pv : option N) (rs : jsstring) (i skip : nat) : option jsstring :=
  let here :=
    match skip with
    | 0 => match_at fl r {| prev := pv; rest := rs; pos := i |}
    | S _ => None
    end in
  match here with
  | Some m =>
      if accepts text m then m_group1 m
      else
        match rs with
        | [] => None
        | ch :: t => scan fl r text (Some ch) t (S i) (m_end m - i - 1)
        end
  | None =>
      match rs with
      | [] => None
      | ch :: t => scan fl r text (Some ch) t (S i) (skip - 1)
      end
  end.

Fixpoint first_pattern (ps : list (flags * re)) (text : jsstring) : option jsstring :=
  match ps with
  | [] => None
  | (fl, r) :: ps' =>
      match scan fl r text None text 0 0 with
      | Some code => Some code
      | None => first_pattern ps' text
      end
  end.

(** [function extractCode(text: string): string | null] *)
Definition extractCode (text : jsstring) : option jsstring :=
  match text with
  | [] => None
  | _ => first_pattern CODE_PATTERNS text
  end.

End Extractor.

(* ===================================================================== *)
(** ** The two mailbox backends *)
(* ===================================================================== *)

Module Backends.
Import JS Extractor.

(** The extractor inputs a backend has used so far are recorded next to the
    result, so that statements can speak about what the extractor was run
    against. *)
Definition scanned (A : Type) : Type := (A * list jsstring)%type.

Definition run_extractor (text : jsstring) (seen : list jsstring)
  : scanned (option jsstring) :=
  (extractCode text, seen ++ [text]).

(** *** Disposable-mailbox backend ([MailService.waitForVerificationCode]) *)

(** [EmailDetail]: [text: string | null], [html: string | false]. *)
Record EmailDetail := { text : option jsstring; html : option jsstring }.

(** [`${text}\n${html}`] with [text = detail.text || ''] and
    [html = typeof detail.html === 'string' ? detail.html : '']. *)
Definition fullText (d : EmailDetail) : jsstring :=
  default [] (text d) ++ [10%N] ++ default [] (html d).

(** Lines 257-261 of [mailService.ts]: what is done with the detail of one
    mail from an allowed sender. *)
Definition detail_code (d : EmailDetail) : scanned (option jsstring) :=
  run_extractor (fullText d) [].

(** The reading of "the extractor is run against both versions": the markup
    and the stripped text are both among the extractor's inputs. *)
Definition runs_against_both (seen : list jsstring) (markup plain : jsstring) : Prop :=
  In markup seen /\ In plain seen.

Definition sample_detail : EmailDetail :=
  {| text := Some (str "Your verification code is 482913");
     html := Some (str "<p>Order 1234567</p>") |}.

(** *** Graph-refresh backend ([getOutlookVerificationCode]) *)

(** One entry of [mailData.value], with [body?.content || ''] and
    [bodyPreview || ''] already defaulted. *)
Record GraphMail := {
  mail_id : jsstring;
  from_address : jsstring;
  body_content : jsstring;
  bodyPreview : jsstring
}.

Definition AWS_SENDERS : list jsstring :=
  [ str "no-reply@signin.aws"; str "no-reply@login.awsapps.com";
    str "noreply@amazon.com"; str "account-update@amazon.com";
    str "no-reply@aws.amazon.com"; str "noreply@aws.amazon.com"; str "aws" ].

Section Host.
(** [htmlToText] (lines 196-228) and [String.prototype.toLowerCase] only
    supply the strings that are scanned; the poll loop is stated for any
    such pair of functions. *)
Variable htmlToText : jsstring -> jsstring.
Variable toLowerCase : jsstring -> jsstring.

(** Lines 374-385: the three attempts on one mail. *)
Definition mail_code (m : GraphMail) : scanned (option jsstring) :=
  let bodyText := htmlToText (body_content m) in
  let '(code, seen) :=
    match bodyText with
    | [] => (None, [])
    | _ => run_extractor bodyText []
    end in
  let '(code, seen) :=
    match code with
    | None => run_extractor (body_content m) seen
    | Some _ => (code, seen)
    end in
  match code with
  | None => run_extractor (bodyPreview m) seen
  | Some _ => (code, seen)
  end.

Definition isAwsSender (m : GraphMail) : bool :=
  existsb (fun s => includes (toLowerCase (from_address m)) (toLowerCase s)) AWS_SENDERS.

Definition has (ids : list jsstring) (id : jsstring) : bool := existsb (eqs id) ids.

(** Lines 363-392: the [for] loop over the listed mails.  [checkedIds] is
    the set of mails already inspected (a JS [Set], kept in insertion
    order). *)
Fixpoint scan_mails (mails : list GraphMail) (checkedIds : list jsstring)
  : option jsstring * list jsstring :=
  match mails with
  | [] => (None, checkedIds)
  | m :: rest =>
      if isAwsSender m && negb (has checkedIds (mail_id m)) then
        let checkedIds' := checkedIds ++ [mail_id m] in
        match fst (mail_code m) with
        | Some code => (Some code, checkedIds')
        | None => scan_mails rest checkedIds'
        end
      else scan_mails rest checkedIds
  end.

(** What the network answers in one turn of the poll loop. *)
Inductive token_response :=
| TokenOk (access_token : jsstring)   (* [tokenResponse.ok], body parsed *)
| TokenNotOk                          (* [!tokenResponse.ok] *)
| TokenThrows.                        (* [fetch] or [json()] rejects *)

Inductive mail_response :=
| MailOk (value : list GraphMail)
| MailNotOk (status : nat)
| MailThrows.                         (* [fetch] or [json()] rejects *)

Record turn := {
  consumers_endpoint : token_response;
  common_endpoint : token_response;
  mail_list : mail_response;
  elapsed : N;            (* ms spent awaiting the fetches of this turn *)
  timer_lag : N           (* ms by which [setTimeout] fires late *)
}.

Inductive log_entry :=
| TokenRefreshed
| TokenRefreshFailed
| MailFetchFailed (status : nat)
| MailError
| NoCodeYet
| Sleep (ms : N)
| FoundCode (code : jsstring)
| TimedOut.

Record poll_state := {
  now : N;                         (* [Date.now()], ms *)
  checkedIds : list jsstring;
  log : list log_entry
}.

Definition checkInterval : N := 5000.

Definition logs (e : list log_entry) (s : poll_state) : poll_state :=
  {| now := now s; checkedIds := checkedIds s; log := log s ++ e |}.

(** [await new Promise((r) => setTimeout(r, checkInterval))] *)
Definition sleep (lag : N) (s : poll_state) : poll_state :=
  {| now := (now s + checkInterval + lag)%N; checkedIds := checkedIds s;
     log := log s ++ [Sleep checkInterval] |}.

Definition spend (ms : N) (s : poll_state) : poll_state :=
  {| now := (now s + ms)%N; checkedIds := checkedIds s; log := log s |}.

(** Lines 293-318: the [for] loop over [tokenAttempts]; an [ok] answer ends
    it, whatever the token in it. *)
Fixpoint refresh (attempts : list token_response) : option jsstring :=
  match attempts with
  | [] => None
  | TokenOk tok :: _ => Some tok
  | _ :: rest => refresh rest
  end.

(** [!accessToken] *)
Definition no_token (t : option jsstring) : bool :=
  match t with
  | None | Some [] => true
  | Some (_ :: _) => false
  end.

Definition tokenAttempts (t : turn) : list token_response :=
  [consumers_endpoint t; common_endpoint t].

(** Lines 282-403.  [world k] is what the network does in the [k]-th turn
    of the loop; the result is [None] only when [fuel] turns were not
    enough, otherwise the returned [string | null] and the final state. *)
Fixpoint poll (fuel : nat) (world : nat -> turn) (k : nat) (startTime timeout : N)
         (s : poll_state) : option (option jsstring * poll_state) :=
  if negb (now s - startTime <? timeout * 1000)%N then
    Some (None, logs [TimedOut] s)
  else
    match fuel with
    | 0 => None
    | S fuel' =>
        let t := world k in
        let s := spend (elapsed t) s in
        let accessToken := refresh (tokenAttempts t) in
        let s := match accessToken with
                 | Some _ => logs [TokenRefreshed] s
                 | None => s
                 end in
        if no_token accessToken then
          Some (None, logs [TokenRefreshFailed] s)
        else
          match mail_list t with
          | MailNotOk status =>
              poll fuel' world (S k) startTime timeout
                   (sleep (timer_lag t) (logs [MailFetchFailed status] s))
          | MailThrows =>
              poll fuel' world (S k) startTime timeout
                   (sleep (timer_lag t) (logs [MailError] s))
          | MailOk value =>
              match scan_mails value (checkedIds s) with
              | (Some code, ids) =>
                  Some (Some code,
                        {| now := now s; checkedIds := ids;
                           log := log s ++ [FoundCode code] |})
              | (None, ids) =>
                  poll fuel' world (S k) startTime timeout
                       (sleep (timer_lag t)
                          {| now := now s; checkedIds := ids;
                             log := log s ++ [NoCodeYet] |})
              end
          end
    end.

(** An endpoint that does not hand out a token. *)
Definition refused (r : token_response) : Prop :=
  r = TokenNotOk \/ r = TokenThrows.

(** A mail-list fetch that fails: a status that is not [ok], or a
    rejection. *)
Definition failed_fetch (r : mail_response) : option log_entry :=
  match r with
  | MailNotOk status => Some (MailFetchFailed status)
  | MailThrows => Some MailError
  | MailOk _ => None
  end.

(** [getOutlookVerificationCode(refreshToken, clientId, log, timeout)],
    started at time [t0]. *)
Definition getOutlookVerificationCode (fuel : nat) (world : nat -> turn)
           (t0 timeout : N) : option (option jsstring * poll_state) :=
  poll fuel world 0 t0 timeout {| now := t0; checkedIds := []; log := [] |}.

End Host.

(** A network on which nothing works. *)
Definition dead_network (k : nat) : turn :=
  {| consumers_endpoint := TokenNotOk; common_endpoint := TokenThrows;
     mail_list := MailThrows; elapsed := 120; timer_lag := 3 |}.

(** A network that refreshes the token and then fails to list the mail. *)
Definition flaky_network (k : nat) : turn :=
  {| consumers_endpoint := TokenThrows; common_endpoint := TokenOk (str "t0k3n");
     mail_list := MailNotOk 503; elapsed := 120; timer_lag := 3 |}.

(** A mail from an allowed sender that carries no code, and one that
    carries one. *)
Definition promo_mail : GraphMail :=
  {| mail_id := str "m1"; from_address := str "No-Reply@Signin.AWS";
     body_content := str "<p>Welcome to AWS</p>"; bodyPreview := str "Welcome to AWS" |}.

Definition code_mail : GraphMail :=
  {| mail_id := str "m2"; from_address := str "no-reply@login.awsapps.com";
     body_content := str "<p>Your verification code is 482913</p>";
     bodyPreview := str "Your verification code is 482913" |}.

(** A network on which the mail with the code is listed from the second
    turn on. *)
Definition arriving_network (k : nat) : turn :=
  {| consumers_endpoint := TokenOk (str "t0k3n"); common_endpoint := TokenNotOk;
     mail_list := MailOk (match k with 0 => [promo_mail] | _ => [promo_mail; code_mail] end);
     elapsed := 120; timer_lag := 3 |}.

End Backends.

(* ===================================================================== *)
(** ** Browser fingerprints ([fingerprint.ts]) *)
(* ===================================================================== *)

Module Fingerprint.
Import JS.

Record Viewport := { width : nat; height : nat }.

Record BrowserFingerprint := {
  userAgent : jsstring;
  viewport : Viewport;
  locale : jsstring;
  timezone : jsstring;
  platform : jsstring;
  deviceScaleFactor : nat
}.

Definition USER_AGENTS : list jsstring := [
  str "Mozilla/5.0 (Linux; Android 13; SM-S918B) AppleWebKit/537.36 (KHTML, like Gecko) Chrome/120.0.0.0 Mobile Safari/537.36";
  str "Mozilla/5.0 (Linux; Android 13; Pixel 7) AppleWebKit/537.36 (KHTML, like Gecko) Chrome/121.0.0.0 Mobile Safari/537.36";
  str "Mozilla/5.0 (Linux; Android 14; SM-S921B) AppleWebKit/537.36 (KHTML, like Gecko) Chrome/122.0.0.0 Mobile Safari/537.36";
  str "Mozilla/5.0 (Linux; Android 13; SM-A536B) AppleWebKit/537.36 (KHTML, like Gecko) Chrome/120.0.0.0 Mobile Safari/537.36";
  str "Mozilla/5.0 (Linux; Android 12; SM-G998B) AppleWebKit/537.36 (KHTML, like Gecko) Chrome/121.0.0.0 Mobile Safari/537.36";
  str "Mozilla/5.0 (Linux; Android 13; Pixel 6 Pro) AppleWebKit/537.36 (KHTML, like Gecko) Chrome/122.0.0.0 Mobile Safari/537.36";
  str "Mozilla/5.0 (iPhone; CPU iPhone OS 17_2 like Mac OS X) AppleWebKit/605.1.15 (KHTML, like Gecko) Version/17.2 Mobile/15E148 Safari/604.1";
  str "Mozilla/5.0 (iPhone; CPU iPhone OS 17_1 like Mac OS X) AppleWebKit/605.1.15 (KHTML, like Gecko) Version/17.1 Mobile/15E148 Safari/604.1";
  str "Mozilla/5.0 (iPhone; CPU iPhone OS 16_6 like Mac OS X) AppleWebKit/605.1.15 (KHTML, like Gecko) Version/16.6 Mobile/15E148 Safari/604.1";
  str "Mozilla/5.0 (iPhone; CPU iPhone OS 17_0 like Mac OS X) AppleWebKit/605.1.15 (KHTML, like Gecko) Version/17.0 Mobile/15E148 Safari/604.1";
  str "Mozilla/5.0 (iPad; CPU OS 17_2 like Mac OS X) AppleWebKit/605.1.15 (KHTML, like Gecko) Version/17.2 Mobile/15E148 Safari/604.1";
  str "Mozilla/5.0 (iPad; CPU OS 16_6 like Mac OS X) AppleWebKit/605.1.15 (KHTML, like Gecko) Version/16.6 Mobile/15E148 Safari/604.1"
].

Definition VIEWPORTS : list Viewport := [
  {| width := 375; height := 667 |};
  {| width := 390; height := 844 |};
  {| width := 393; height := 852 |};
  {| width := 414; height := 896 |};
  {| width := 428; height := 926 |};
  {| width := 360; height := 640 |};
  {| width := 412; height := 915 |};
  {| width := 384; height := 854 |};
  {| width := 360; height := 780 |};
  {| width := 768; height := 1024 |};
  {| width := 820; height := 1180 |}
].

Definition LOCALES : list jsstring :=
  map str ["en-US"; "en-GB"; "zh-CN"; "zh-TW"; "ja-JP"; "ko-KR"; "de-DE"; "fr-FR"; "es-ES"]%string.

Definition TIMEZONES : list jsstring :=
  map str ["America/New_York"; "America/Los_Angeles"; "America/Chicago";
           "Europe/London"; "Europe/Paris"; "Europe/Berlin"; "Asia/Shanghai";
           "Asia/Tokyo"; "Asia/Seoul"; "Australia/Sydney"]%string.

Definition PLATFORMS : list jsstring :=
  map str ["Linux armv8l"; "Linux aarch64"; "iPhone"; "iPad"]%string.

Definition DEVICE_SCALE_FACTORS : list nat := [2; 3].

(** [array[Math.floor(Math.random() * array.length)]].  The random source
    is not modelled: [i] stands for the index
    [Math.floor(Math.random() * array.length)], which lies in
    [0 .. array.length - 1]; an index outside the array reads [undefined]. *)
Definition randomChoice {A : Type} (array : list A) (i : nat) : option A :=
  array !! i.

(** The five indices one call of a generator draws, in source order. *)
Record draws := {
  d_userAgent : nat;
  d_viewport : nat;
  d_locale : nat;
  d_timezone : nat;
  d_platform : nat;
  d_scale : nat
}.

Definition generateRandomFingerprint (d : draws) : option BrowserFingerprint :=
  ua ← randomChoice USER_AGENTS (d_userAgent d);
  vp ← randomChoice VIEWPORTS (d_viewport d);
  lc ← randomChoice LOCALES (d_locale d);
  tz ← randomChoice TIMEZONES (d_timezone d);
  pf ← randomChoice PLATFORMS (d_platform d);
  sf ← randomChoice DEVICE_SCALE_FACTORS (d_scale d);
  Some {| userAgent := ua; viewport := vp; locale := lc; timezone := tz;
          platform := pf; deviceScaleFactor := sf |}.

Definition getPlatformFromUserAgent (userAgent : jsstring) : jsstring :=
  if includes userAgent (str "iPhone") then str "iPhone"
  else if includes userAgent (str "iPad") then str "iPad"
  else if includes userAgent (str "Android") then str "Linux armv8l"
  else str "Linux armv8l".

(** [d_platform] is not drawn by this generator. *)
Definition generateSmartFingerprint (d : draws) : option BrowserFingerprint :=
  ua ← randomChoice USER_AGENTS (d_userAgent d);
  let pf := getPlatformFromUserAgent ua in
  vp ← randomChoice VIEWPORTS (d_viewport d);
  lc ← randomChoice LOCALES (d_locale d);
  tz ← randomChoice TIMEZONES (d_timezone d);
  sf ← randomChoice DEVICE_SCALE_FACTORS (d_scale d);
  Some {| userAgent := ua; viewport := vp; locale := lc; timezone := tz;
          platform := pf; deviceScaleFactor := sf |}.

(** What "the platform agrees with the user agent" asks of a fingerprint. *)
Definition consistent (fp : BrowserFingerprint) : Prop :=
  (includes (userAgent fp) (str "iPhone") = true -> platform fp = str "iPhone")
  /\ (includes (userAgent fp) (str "iPad") = true -> platform fp = str "iPad")
  /\ (includes (userAgent fp) (str "Android") = true ->
        platform fp = str "Linux armv8l"
        /\ In (platform fp) PLATFORMS
        /\ startsWith (platform fp) (str "Linux") = true).

Definition sample_draws : draws :=
  {| d_userAgent := 10; d_viewport := 9; d_locale := 0; d_timezone := 3;
     d_platform := 0; d_scale := 1 |}.

End Fingerprint.

(* ===================================================================== *)
(** ** The registration store ([store/autoRegister.ts]) *)
(* ===================================================================== *)

Module Store.
Import JS.

Inductive Status := pending | registering | getting_code | success | failed | exists_.

(** [RegisterAccount]; an absent optional field is [None]. *)
Record RegisterAccount := {
  id : jsstring;
  email : jsstring;
  status : Status;
  awsName : option jsstring;
  ssoToken : option jsstring;
  error : option jsstring
}.

(** [Partial<RegisterAccount>]: every key may be absent ([None]).  A key of
    an optional field may also be present and hold [undefined]
    ([Some None]), as in [{ awsName: result.awsName }]. *)
Record Updates := {
  u_id : option jsstring;
  u_email : option jsstring;
  u_status : option Status;
  u_awsName : option (option jsstring);
  u_ssoToken : option (option jsstring);
  u_error : option (option jsstring)
}.

Definition no_updates : Updates :=
  {| u_id := None; u_email := None; u_status := None;
     u_awsName := None; u_ssoToken := None; u_error := None |}.

(** [{ ...acc, ...updates }]: a key present in [updates] wins. *)
Definition spread (acc : RegisterAccount) (updates : Updates) : RegisterAccount :=
  {| id := default (id acc) (u_id updates);
     email := default (email acc) (u_email updates);
     status := default (status acc) (u_status updates);
     awsName := default (awsName acc) (u_awsName updates);
     ssoToken := default (ssoToken acc) (u_ssoToken updates);
     error := default (error acc) (u_error updates) |}.

Record AutoRegisterState := {
  accounts : list RegisterAccount;
  isRunning : bool;
  logs : list jsstring;
  concurrency : nat;
  shouldStop : bool
}.

Definition set_accounts (f : list RegisterAccount -> list RegisterAccount)
           (s : AutoRegisterState) : AutoRegisterState :=
  {| accounts := f (accounts s); isRunning := isRunning s; logs := logs s;
     concurrency := concurrency s; shouldStop := shouldStop s |}.

Definition addAccounts (newAccounts : list RegisterAccount) (s : AutoRegisterState) :=
  set_accounts (fun accs => accs ++ newAccounts) s.

Definition updateAccountStatus (i : jsstring) (updates : Updates)
           (s : AutoRegisterState) : AutoRegisterState :=
  set_accounts (map (fun acc => if eqs (id acc) i then spread acc updates else acc)) s.

Definition setConcurrency (c : nat) (s : AutoRegisterState) : AutoRegisterState :=
  {| accounts := accounts s; isRunning := isRunning s; logs := logs s;
     concurrency := Nat.min 10 (Nat.max 1 c); shouldStop := shouldStop s |}.

Definition setIsRunning (running : bool) (s : AutoRegisterState) : AutoRegisterState :=
  {| accounts := accounts s; isRunning := running; logs := logs s;
     concurrency := concurrency s; shouldStop := shouldStop s |}.

Definition requestStop (s : AutoRegisterState) : AutoRegisterState :=
  {| accounts := accounts s; isRunning := isRunning s; logs := logs s;
     concurrency := concurrency s; shouldStop := true |}.

Definition resetStop (s : AutoRegisterState) : AutoRegisterState :=
  {| accounts := accounts s; isRunning := isRunning s; logs := logs s;
     concurrency := concurrency s; shouldStop := false |}.

Definition sample_store : AutoRegisterState :=
  {| accounts := [
       {| id := str "a"; email := str "a@example.com"; status := pending;
          awsName := None; ssoToken := None; error := None |};
       {| id := str "b"; email := str "b@example.com"; status := pending;
          awsName := None; ssoToken := None; error := None |};
       {| id := str "c"; email := str "c@example.com"; status := exists_;
          awsName := None; ssoToken := None; error := None |};
       {| id := str "d"; email := str "d@example.com"; status := pending;
          awsName := None; ssoToken := None; error := None |};
       {| id := str "e"; email := str "e@example.com"; status := pending;
          awsName := None; ssoToken := None; error := None |};
       {| id := str "f"; email := str "f@example.com"; status := pending;
          awsName := None; ssoToken := None; error := None |} ];
     isRunning := false; logs := []; concurrency := 2; shouldStop := false |}.


(** *** The other actions of the store *)

Definition status_eqb (a b : Status) : bool :=
  match a, b with
  | pending, pending | registering, registering | getting_code, getting_code
  | success, success | failed, failed | exists_, exists_ => true
  | _, _ => false
  end.

(** [a => a.status === st] *)
Definition has_status (st : Status) (a : RegisterAccount) : bool := status_eqb (status a) st.

(** The object [getStats] returns; [n_running] is its key [running], and so
    on. *)
Record Stats := {
  n_total : nat; n_pending : nat; n_running : nat;
  n_success : nat; n_failed : nat; n_exists : nat
}.

Definition getStats (s : AutoRegisterState) : Stats :=
  let accounts := accounts s in
  {| n_total := length accounts;
     n_pending := length (filter (has_status pending) accounts);
     n_running := length (filter (has_status registering) accounts);
     n_success := length (filter (has_status success) accounts);
     n_failed := length (filter (has_status failed) accounts);
     n_exists := length (filter (has_status exists_) accounts) |}.

(** [clearAccounts]: [if (get().isRunning) return; set({ accounts: [], logs: [] })] *)
Definition clearAccounts (s : AutoRegisterState) : AutoRegisterState :=
  if isRunning s then s
  else {| accounts := []; isRunning := isRunning s; logs := [];
          concurrency := concurrency s; shouldStop := shouldStop s |}.

End Store.

(* ===================================================================== *)
(** ** The worker pool ([runConcurrent], [registerSingleAccount]) *)
(* ===================================================================== *)

Module Pool.
Import JS Store.

(** Where the promise of one [registerSingleAccount(account)] call stands.
    [Skipped]: the call returned at one of its two guards, its promise is
    resolved and the removal callback runs at the next [await].
    [InFlight]: suspended in [await window.api.autoRegisterAWS(...)].
    [Importing]: suspended in [await importWithSsoToken(...)].
    [Settled]: resolved, and the [.then] callback has taken it out of
    [running]. *)
Inductive phase := Skipped | InFlight | Importing | Settled.

Definition phase_eqb (a b : phase) : bool :=
  match a, b with
  | Skipped, Skipped | InFlight, InFlight | Importing, Importing | Settled, Settled => true
  | _, _ => false
  end.

(** A task is the promise pushed on [running]; its handle is its index in
    [tasks] (promises are compared by identity, not by account). *)
Record task := { t_account : RegisterAccount; t_phase : phase; t_launched : bool }.

(** Where [runConcurrent] itself stands: about to run the loop test,
    suspended in [await Promise.race(running)] on the promises it raced,
    returned, or turning in the outer loop without ever awaiting. *)
Inductive pc := AtHead | Awaiting (raced : list nat) | Exited | Spinning.

Record state := {
  store : AutoRegisterState;
  queue : list RegisterAccount;
  running : list nat;
  tasks : list task;
  at_ : pc
}.

(** What [window.api.autoRegisterAWS] hands back to the renderer: a result
    object, or a rejection. *)
Inductive api_result :=
| ApiReturns (success_ : bool) (ssoToken_ awsName_ error_ : option jsstring)
| ApiThrows (error_ : jsstring).

Inductive event :=
| Tick                              (* [runConcurrent] runs up to its next [await] *)
| UserStop                          (* the stop button: [requestStop()] *)
| Result (h : nat) (r : api_result) (* [autoRegisterAWS] of task [h] answers *)
| Imported (h : nat).               (* [importWithSsoToken] of task [h] is over *)

Definition just_status (st : Status) : Updates :=
  {| u_id := None; u_email := None; u_status := Some st;
     u_awsName := None; u_ssoToken := None; u_error := None |}.

(** The synchronous head of [registerSingleAccount], up to its first
    [await] (lines 252-263).  Log lines are not modelled. *)
Definition registerSingleAccount (account : RegisterAccount) (st : AutoRegisterState)
  : AutoRegisterState * phase :=
  if shouldStop st then (st, Skipped)
  else
    match status account with
    | success | exists_ => (st, Skipped)
    | _ => (updateAccountStatus (id account) (just_status registering) st, InFlight)
    end.

(** [while (queue.length > 0 && running.length < concurrency) { ... }] *)
Fixpoint fill (concurrency : nat) (q : list RegisterAccount) (st : AutoRegisterState)
         (run : list nat) (ts : list task)
  : list RegisterAccount * AutoRegisterState * list nat * list task :=
  match q with
  | [] => (q, st, run, ts)
  | account :: q' =>
      if length run <? concurrency then
        let '(st', ph) := registerSingleAccount account st in
        fill concurrency q' st' (run ++ [length ts])
             (ts ++ [{| t_account := account; t_phase := ph;
                        t_launched := phase_eqb ph InFlight |}])
      else (q, st, run, ts)
  end.

Definition has_phase (ts : list task) (p : phase) (h : nat) : bool :=
  match ts !! h with
  | Some t => phase_eqb (t_phase t) p
  | None => false
  end.

(** [const index = running.indexOf(task); if (index > -1) running.splice(index, 1)] *)
Fixpoint remove_first (h : nat) (run : list nat) : list nat :=
  match run with
  | [] => []
  | x :: r => if Nat.eqb x h then r else x :: remove_first h r
  end.

Definition set_phase (p : phase) (t : task) : task :=
  {| t_account := t_account t; t_phase := p; t_launched := t_launched t |}.

(** The callbacks of the promises that were already resolved when they were
    pushed run as soon as [runConcurrent] suspends. *)
Definition flush_run (ts : list task) (run : list nat) : list nat :=
  filter (fun h => negb (has_phase ts Skipped h)) run.

Definition flush_tasks (ts : list task) : list task :=
  map (fun t => if phase_eqb (t_phase t) Skipped then set_phase Settled t else t) ts.

(** One turn of the outer loop, from its test to the [await] (lines
    346-367). *)
Definition turn (concurrency : nat) (s : state) : state :=
  match queue s, running s with
  | [], [] => {| store := store s; queue := []; running := []; tasks := tasks s; at_ := Exited |}
  | _, _ =>
      if shouldStop (store s) then
        {| store := store s; queue := queue s; running := running s;
           tasks := tasks s; at_ := Exited |}
      else
        let '(q, st, run, ts) := fill concurrency (queue s) (store s) (running s) (tasks s) in
        match run with
        | [] => {| store := st; queue := q; running := run; tasks := ts; at_ := Spinning |}
        | _ :: _ =>
            {| store := st; queue := q; running := flush_run ts run;
               tasks := flush_tasks ts; at_ := Awaiting run |}
        end
  end.

Definition set_task (h : nat) (p : phase) (s : state) (st : AutoRegisterState)
           (run : list nat) : state :=
  {| store := st; queue := queue s; running := run;
     tasks := alter (set_phase p) h (tasks s); at_ := at_ s |}.

Definition truthy (v : option jsstring) : bool :=
  match v with
  | Some (_ :: _) => true
  | _ => false
  end.

Definition mark_failed (err : jsstring) : Updates :=
  {| u_id := None; u_email := None; u_status := Some failed;
     u_awsName := None; u_ssoToken := None; u_error := Some (Some err) |}.

(** The rest of [registerSingleAccount] once [autoRegisterAWS] has answered
    (lines 269-295).  [[27880; 20876; 22833; 36133]] is the default error
    text of line 283. *)
Definition on_result (h : nat) (t : task) (r : api_result) (s : state) : state :=
  let i := id (t_account t) in
  match r with
  | ApiReturns ok tok name err =>
      if ok && truthy tok then
        set_task h Importing s
          (updateAccountStatus i
             {| u_id := None; u_email := None; u_status := Some success;
                u_awsName := Some name; u_ssoToken := Some tok; u_error := None |}
             (store s))
          (running s)
      else
        set_task h Settled s
          (updateAccountStatus i
             (mark_failed (if truthy err then default [] err
                           else [27880; 20876; 22833; 36133]%N))
             (store s))
          (remove_first h (running s))
  | ApiThrows err =>
      set_task h Settled s
        (updateAccountStatus i (mark_failed err) (store s))
        (remove_first h (running s))
  end.

Definition suspended (s : state) : bool :=
  match at_ s with
  | Awaiting _ | Exited => true
  | AtHead | Spinning => false
  end.

(** One scheduling step of the renderer's event loop.  [None]: the event
    cannot happen in that state.  Everything but [Tick] happens while
    [runConcurrent] is suspended or has returned. *)
Definition step (concurrency : nat) (s : state) (e : event) : option state :=
  match e with
  | Tick =>
      match at_ s with
      | AtHead => Some (turn concurrency s)
      | Awaiting raced =>
          if existsb (has_phase (tasks s) Settled) raced
          then Some (turn concurrency s) else None
      | Exited => None
      | Spinning => Some s
      end
  | UserStop =>
      if suspended s then
        Some {| store := requestStop (store s); queue := queue s;
                running := running s; tasks := tasks s; at_ := at_ s |}
      else None
  | Result h r =>
      if suspended s then
        match tasks s !! h with
        | Some t =>
            match t_phase t with
            | InFlight => Some (on_result h t r s)
            | _ => None
            end
        | None => None
        end
      else None
  | Imported h =>
      if suspended s && has_phase (tasks s) Importing h then
        Some (set_task h Settled s (store s) (remove_first h (running s)))
      else None
  end.

Fixpoint run (concurrency : nat) (s : state) (es : list event) : option state :=
  match es with
  | [] => Some s
  | e :: es' =>
      match step concurrency s e with
      | Some s' => run concurrency s' es'
      | None => None
      end
  end.

Definition is_pending (a : RegisterAccount) : bool :=
  match status a with pending => true | _ => false end.

(** [startRegistration] from [setIsRunning(true)] on (lines 329-343): the
    queue is a copy of the pending accounts, the stop flag is reset. *)
Definition start (st : AutoRegisterState) : state :=
  {| store := resetStop (setIsRunning true st);
     queue := filter is_pending (accounts st);
     running := []; tasks := []; at_ := AtHead |}.

Definition in_flight (t : task) : bool :=
  match t_phase t with
  | InFlight | Importing => true
  | Skipped | Settled => false
  end.

(** How many registrations are under way. *)
Definition in_flight_count (s : state) : nat := length (filter in_flight (tasks s)).

Definition is_stop (e : event) : bool :=
  match e with UserStop => true | _ => false end.

(** A promise that is not settled yet. *)
Definition live (t : task) : bool := negb (phase_eqb (t_phase t) Settled).

(** [running] holds, once each, the handles of the promises that are not
    settled. *)
Definition tracked (ts : list task) (run : list nat) : Prop :=
  NoDup run /\ forall h, h ∈ run <-> exists t, ts !! h = Some t /\ live t = true.

(** What a run that is never stopped keeps: the accounts handed to
    [registerSingleAccount] followed by those still queued are the pending
    accounts it began with, every call went as far as [autoRegisterAWS], and
    the loop has returned only with nothing queued and nothing running. *)
Definition draining (q0 : list RegisterAccount) (s : state) : Prop :=
  map t_account (tasks s) ++ queue s = q0
  /\ Forall (fun t => t_launched t = true) (tasks s)
  /\ (at_ s = Exited -> queue s = [] /\ running s = []).

(** Between two stores no account has newly become [registering]. *)
Definition no_new_registration (st1 st2 : AutoRegisterState) : Prop :=
  length (accounts st2) = length (accounts st1)
  /\ forall k a1 a2,
       accounts st1 !! k = Some a1 -> accounts st2 !! k = Some a2 ->
       status a2 = registering -> status a1 = registering.

(** The event is not the answer that task [h] is waiting for. *)
Definition not_for (h : nat) (e : event) : Prop :=
  match e with
  | Result h' _ | Imported h' => h' <> h
  | Tick | UserStop => True
  end.

(** A schedule for the sample store: two registrations at a time, each
    answered before the next turn of the loop. *)
Definition sample_schedule : list event :=
  [ Tick;
    Result 1 (ApiReturns false None None (Some (str "proxy error")));
    Tick;
    Result 0 (ApiReturns true (Some (str "tok-a")) (Some (str "AB")) None);
    Result 2 (ApiThrows (str "ipc closed"));
    Tick;
    Imported 0;
    Result 3 (ApiReturns true (Some (str "tok-e")) None None);
    Tick;
    Result 4 (ApiReturns true None None None);
    Imported 3;
    Tick ].

(** The same start, stopped by the user while two registrations are under
    way. *)
Definition stopped_schedule : list event :=
  [ Tick; UserStop ].

(** What follows the stop: the two registrations under way are answered,
    and the loop takes its next turn in between. *)
Definition after_stop_schedule : list event :=
  [ Result 1 (ApiReturns false None None None);
    Tick;
    Result 0 (ApiReturns true (Some (str "tok-a")) (Some (str "AB")) None);
    Imported 0 ].


(** *** Predicates on the states of a run *)

(** [running.push(registerSingleAccount(account).then(...))] *)
Definition push (a : RegisterAccount) (ph : phase) (ts : list task) : list task :=
  ts ++ [{| t_account := a; t_phase := ph; t_launched := phase_eqb ph InFlight |}].

(** The statuses that the pool writes. *)
Definition written (st : Status) : Prop :=
  st = registering \/ st = success \/ st = failed.

(** The updates of [registerSingleAccount]: a status it writes, and never
    the keys [id] or [email]. *)
Definition pool_update (u : Updates) : Prop :=
  u_id u = None /\ u_email u = None /\ exists st, u_status u = Some st /\ written st.

(** The ids of the accounts that are pending when the run starts. *)
Definition pending_ids (st0 : AutoRegisterState) : list jsstring :=
  map id (filter is_pending (accounts st0)).

(** What a run keeps of the store [st0] it began with. *)
Definition framed (st0 st : AutoRegisterState) (q : list RegisterAccount) (ts : list task)
  : Prop :=
  isRunning st = true
  /\ concurrency st = concurrency st0
  /\ Store.logs st = Store.logs st0
  /\ length (accounts st) = length (accounts st0)
  /\ (forall k a0 a, accounts st0 !! k = Some a0 -> accounts st !! k = Some a ->
        id a = id a0 /\ email a = email a0
        /\ (a = a0 \/ (id a0 ∈ pending_ids st0 /\ written (status a))))
  /\ Forall (fun a => id a ∈ pending_ids st0) q
  /\ Forall (fun t => id (t_account t) ∈ pending_ids st0) ts.

(** Every account shown as [registering] has a registration under way. *)
Definition accounted (st : AutoRegisterState) (q : list RegisterAccount) (ts : list task) : Prop :=
  forall a, a ∈ accounts st -> status a = registering ->
    exists t, t ∈ ts /\ t_phase t = InFlight /\ id (t_account t) = id a.

(** The accounts handed out so far and the accounts still queued are the
    queue [q0] of the start. *)
Definition in_order (q0 : list RegisterAccount) (st : AutoRegisterState)
           (q : list RegisterAccount) (ts : list task) : Prop :=
  map t_account ts ++ q = q0
  /\ Forall (fun a => is_pending a = true) q
  /\ Forall (fun t => t_launched t = true /\ t_phase t <> Skipped) ts.

(** What the loop waits for: handles of promises that exist and whose
    callbacks have run if they were resolved from the start. *)
Definition waits_well (s : state) : Prop :=
  tracked (tasks s) (running s)
  /\ Forall (fun t => t_phase t <> Skipped) (tasks s)
  /\ match at_ s with
     | Awaiting raced =>
         raced <> [] /\ forall h, h ∈ raced -> exists t, tasks s !! h = Some t
     | Spinning => False
     | AtHead | Exited => True
     end.


End Pool.

(* ===================================================================== *)
(** ** The provisioning orchestrator ([autoRegisterAWS]) *)
(* ===================================================================== *)

Module Orchestrator.
Import JS.

(** What is thrown: an [Error] made at a [throw new Error(...)] of the
    module, named by its source line, or whatever an awaited call was
    rejected with. *)
Inductive exn :=
| Raised (line : N)
| Rejected (message : jsstring).

(** An awaited promise is fulfilled with a value or rejected. *)
Inductive outcome (A : Type) : Type :=
| Ok (a : A)
| Err (e : exn).
Arguments Ok {A} a.
Arguments Err {A} e.

Record Mailbox := { mb_email : jsstring; mb_password : jsstring }.

Record MailServiceConfig := { enabled : bool; apiUrl : jsstring; apiKey : jsstring; mailDomain : jsstring }.

Record SsoResult := {
  sso_success : bool;
  sso_accessToken : option jsstring;
  sso_refreshToken : option jsstring;
  sso_error : option jsstring
}.

Record Cookie := { c_name : jsstring; c_value : jsstring }.

(** One [input[type=password]] with what the loop reads from it:
    [getAttribute('placeholder').catch(() => '')] and
    [isVisible().catch(() => false)]. *)
Record PasswordInput := { pi_placeholder : option jsstring; pi_visible : bool }.

(** The value the classifier's [Promise.race] is fulfilled with:
    [`register-${index}`], ['login'] or ['login-password']. *)
Inductive winner := Register (index : nat) | Login | LoginPassword.

Inductive page_op :=
| NewContext (userAgent : jsstring)
| ClearCookies | ClearPermissions | NewPage | AddInitScript
| Goto (url : jsstring)
| WaitForLoadState
| WaitForTimeout.

(** The log lines that mark a branch or a clean-up; the other calls of
    [log] are left out. *)
Inductive line :=
| L_mailbox_created (email : jsstring)
| L_login_flow
| L_verify_flow
| L_auto_code (code : jsstring)
| L_auto_code_failed
| L_no_password_step
| L_sso_token
| L_browser_closed
| L_browser_kept_open
| L_sso_failed
| L_success
| L_mailbox_cleaned (email : jsstring)
| L_mailbox_cleanup_failed (e : exn)
| L_failed (e : exn).

(** Everything [autoRegisterAWS] asks of the outside, with the type of the
    answer.  The Playwright calls can be rejected.  Of the helpers of the
    interaction layer, [waitAndClickWithRetry] (called with its default of
    one attempt), [waitForManualInput], [waitForPageStable] and
    [randomPageInteraction] catch every error and answer with a flag or
    nothing; [waitAndFill] awaits a pause inside its own [catch] block
    (line 478), so it can be rejected as well.  [log] is taken not to
    throw. *)
Inductive eff : Type -> Type :=
| Log (l : line) : eff unit
| GenerateRandomName : eff jsstring
| GenerateUserCode : eff jsstring
| ImportMailService : eff (outcome unit)
| CheckHealth : eff bool
| CreateMailbox : eff (outcome Mailbox)
| DeleteMailbox (email : jsstring) : eff (outcome unit)
| WaitForVerificationCode (email password : jsstring) (maxWaitTime checkInterval : N)
  : eff (outcome jsstring)
| Draw : eff Fingerprint.draws
| Launch (proxyUrl : option jsstring) : eff (outcome unit)
| BrowserClose : eff (outcome unit)
| Page (op : page_op) : eff (outcome unit)
| RandomPageInteraction : eff unit
| WaitForPageStable : eff unit
| WaitAndFill (selector value : jsstring) (timeout maxRetries : N) (typeCharByChar : bool)
  : eff (outcome bool)
| WaitAndClickWithRetry (selector : jsstring) : eff bool
| WaitForManualInput (selector : jsstring) : eff bool
| RaceDetectors : eff (outcome winner)
| IsVisible (selector : jsstring) : eff (outcome bool)
| WaitVisible (selector : jsstring) (timeout : N) : eff (outcome unit)
| PasswordInputs : eff (outcome (list PasswordInput))
| FillInput (index : nat) (value : jsstring) : eff (outcome unit)
| Cookies : eff (outcome (list Cookie))
| DismissDialog : eff unit          (* lines 1622-1695, errors swallowed *)
| TestLoginDetection : eff unit     (* lines 1711-1780, errors swallowed *)
| SsoDeviceAuth (token region : jsstring) : eff (outcome SsoResult).

(** Programs over these requests. *)
Inductive prog (A : Type) : Type :=
| Ret (a : A)
| Do {X : Type} (e : eff X) (k : X -> prog A).
Arguments Ret {A} a.
Arguments Do {A X} e k.

Fixpoint pbind {A B : Type} (p : prog A) (f : A -> prog B) : prog B :=
  match p with
  | Ret a => f a
  | Do e k => Do e (fun x => pbind (k x) f)
  end.

(** The mutable locals of [autoRegisterAWS] that its [catch] block reads. *)
Record locals := {
  browser : bool;                  (* [browser !== null] *)
  tempMailbox : option Mailbox;
  mailService : bool;              (* [mailService !== null] *)
  email : option jsstring
}.

(** A computation reads and writes the locals, and ends with a value or
    with a thrown error; the locals survive the throw. *)
Definition M (A : Type) : Type := locals -> prog (outcome A * locals).

Definition ret {A : Type} (a : A) : M A := fun l => Ret (Ok a, l).

Definition throw {A : Type} (e : exn) : M A := fun l => Ret (Err e, l).

Definition bind {A B : Type} (m : M A) (f : A -> M B) : M B :=
  fun l => pbind (m l) (fun r =>
    match r with
    | (Ok a, l') => f a l'
    | (Err e, l') => Ret (Err e, l')
    end).

(** [try { m } catch (e) { h e }] *)
Definition try_catch {A : Type} (m : M A) (h : exn -> M A) : M A :=
  fun l => pbind (m l) (fun r =>
    match r with
    | (Ok a, l') => Ret (Ok a, l')
    | (Err e, l') => h e l'
    end).

Definition call {X : Type} (e : eff X) : M X := fun l => Do e (fun x => Ret (Ok x, l)).

(** [await e] for a promise that can be rejected. *)
Definition await {X : Type} (e : eff (outcome X)) : M X :=
  fun l => Do e (fun x => Ret (x, l)).

Definition get : M locals := fun l => Ret (Ok l, l).

Definition put (l : locals) : M unit := fun _ => Ret (Ok tt, l).

Declare Scope prog_scope.
Delimit Scope prog_scope with prog.
Notation "x <- m ;; k" := (bind m (fun x => k))
  (at level 100, m at next level, right associativity) : prog_scope.
Notation "m ;; k" := (bind m (fun _ => k))
  (at level 100, right associativity) : prog_scope.
Local Open Scope prog_scope.

Definition unless (b : bool) (e : exn) : M unit :=
  if b then ret tt else throw e.

Definition when (b : bool) (m : M unit) : M unit :=
  if b then m else ret tt.

Definition dq (s : string) : jsstring := [34%N] ++ str s ++ [34%N].

Definition password : jsstring := str "admin123456aA!".

Definition emailInputSelector : jsstring :=
  str "input[placeholder=" ++ dq "username@example.com" ++ str "]".

Definition primaryButton : jsstring :=
  str "button[data-testid=" ++ dq "test-primary-button" ++ str "]".

Definition loginHeadingSelector : jsstring :=
  str "span[class*=" ++ dq "awsui_heading-text" ++ str "]:has-text("
      ++ dq "Sign in with your AWS Builder ID" ++ str ")".

Definition nameInputSelectors : list jsstring := [
  str "input[placeholder=" ++ [34%N] ++ str "Maria Jos" ++ [233%N] ++ str " Silva" ++ [34%N] ++ str "]";
  str "input[placeholder*=" ++ dq "Silva" ++ str "]";
  str "input[placeholder*=" ++ dq "Maria" ++ str "]";
  str "input[placeholder*=" ++ [34%N] ++ str "Jos" ++ [233%N] ++ [34%N] ++ str "]";
  str "input[name=" ++ dq "fullName" ++ str "]";
  str "input[id*=" ++ dq "name" ++ str "]";
  str "input[data-testid*=" ++ dq "name" ++ str "]"
].

Definition loginPasswordSelector : jsstring :=
  str "input[placeholder=" ++ dq "Enter password" ++ str "]".

Definition confirmPasswordSelector : jsstring :=
  str "input[placeholder=" ++ dq "Re-enter password" ++ str "]".

Definition codeInputSelectors : list jsstring := [
  str "input[placeholder=" ++ dq "6-digit" ++ str "]";
  str "input[placeholder=" ++ [34%N; 54%N; 32%N; 20301%N; 25968%N; 34%N] ++ str "]";
  str "input[class*=" ++ dq "awsui_input" ++ str "][type=" ++ dq "text" ++ str "]"
].

Definition signupNextButton : jsstring :=
  str "button[data-testid=" ++ dq "signup-next-button" ++ str "]".

Definition verifyButton : jsstring :=
  str "button[data-testid=" ++ dq "email-verification-verify-button" ++ str "]".

Definition nonempty (s : option jsstring) : bool :=
  match s with
  | Some (_ :: _) => true
  | _ => false
  end.

Definition pause : M unit := await (Page WaitForTimeout).

Definition set_browser (b : bool) : M unit :=
  l <- get ;;
  put {| browser := b; tempMailbox := tempMailbox l;
         mailService := mailService l; email := email l |}.

Definition set_mailService : M unit :=
  l <- get ;;
  put {| browser := browser l; tempMailbox := tempMailbox l;
         mailService := true; email := email l |}.

Definition set_tempMailbox (mb : Mailbox) : M unit :=
  l <- get ;;
  put {| browser := browser l; tempMailbox := Some mb;
         mailService := mailService l; email := Some (mb_email mb) |}.

(** Step 0 (lines 974-993).  [createMailbox] answers with an object, so the
    test of line 988 never throws. *)
Definition create_mailbox_if_needed (cfg : option MailServiceConfig) : M unit :=
  l <- get ;;
  if match cfg with Some c => enabled c | None => false end && negb (nonempty (email l))
  then
    (await ImportMailService ;;
     set_mailService ;;
     isHealthy <- call CheckHealth ;;
     unless isHealthy (Raised 982%N) ;;
     mb <- await CreateMailbox ;;
     set_tempMailbox mb ;;
     call (Log (L_mailbox_created (mb_email mb))))
  else ret tt.

Definition registerUrl (userCode : jsstring) : jsstring :=
  str "https://view.awsapps.com/start/#/device?user_code=" ++ userCode.

(** Lines 995-1139: from the e-mail test to the page after the first
    [Continue]. *)
Definition submit_email (proxyUrl : option jsstring) (userCode : jsstring) : M unit :=
  l <- get ;;
  match email l with
  | Some (c :: e) =>
      d <- call Draw ;;
      match Fingerprint.generateSmartFingerprint d with
      | None => throw (Rejected (str "TypeError"))
      | Some fingerprint =>
          await (Launch (if nonempty proxyUrl then proxyUrl else None)) ;;
          set_browser true ;;
          await (Page (NewContext (Fingerprint.userAgent fingerprint))) ;;
          await (Page ClearCookies) ;;
          await (Page ClearPermissions) ;;
          await (Page NewPage) ;;
          await (Page AddInitScript) ;;
          await (Page (Goto (registerUrl userCode))) ;;
          await (Page WaitForLoadState) ;;
          await (Page WaitForLoadState) ;;
          pause ;;
          call RandomPageInteraction ;;
          filled <- await (WaitAndFill emailInputSelector (c :: e) 30000%N 999%N false) ;;
          unless filled (Raised 1125%N) ;;
          pause ;;
          clicked <- call (WaitAndClickWithRetry primaryButton) ;;
          unless clicked (Raised 1135%N) ;;
          call WaitForPageStable
      end
  | _ => throw (Raised 996%N)
  end.

(** [await locator.isVisible().catch(() => false)] *)
Definition visible (selector : jsstring) : M bool :=
  fun l => Do (IsVisible selector) (fun r =>
    Ret (Ok match r with Ok b => b | Err _ => false end, l)).

(** The [for] loop of lines 1200-1210. *)
Fixpoint any_visible (selectors : list jsstring) : M bool :=
  match selectors with
  | [] => ret false
  | selector :: rest =>
      isVisible <- visible selector ;;
      if isVisible then ret true else any_visible rest
  end.

(** The second phase of the classifier (lines 1197-1242): its answer is
    [isLoginFlow]. *)
Definition probe_sequentially : M bool :=
  try_catch
    (hasNameInput <- any_visible nameInputSelectors ;;
     if hasNameInput then ret false
     else
       hasLoginHeading <- visible loginHeadingSelector ;;
       if hasLoginHeading then ret true
       else
         hasLoginPassword <- visible loginPasswordSelector ;;
         if hasLoginPassword then ret true else ret false)
    (fun _ => ret false).

(** The flow classifier (lines 1164-1243): [(isLoginFlow, isVerifyFlow)]. *)
Definition classify : M (bool * bool) :=
  try_catch
    (result <- await RaceDetectors ;;
     match result with
     | Login | LoginPassword => ret (true, false)
     | Register _ => ret (false, false)
     end)
    (fun _ => isLoginFlow <- probe_sequentially ;; ret (isLoginFlow, false)).

(** The [for] loop over the code-input selectors (lines 1299-1308). *)
Fixpoint first_visible (selectors : list jsstring) : M (option jsstring) :=
  match selectors with
  | [] => ret None
  | selector :: rest =>
      try_catch
        (await (WaitVisible selector 10000%N) ;; ret (Some selector))
        (fun _ => first_visible rest)
  end.

(** [while (!codeInput && retryCount < maxRetries)] (lines 1298-1317 and
    1448-1467); [left] is [maxRetries - retryCount]. *)
Fixpoint find_code_input (left : nat) : M (option jsstring) :=
  match left with
  | 0 => ret None
  | S left' =>
      found <- first_visible codeInputSelectors ;;
      match found with
      | Some selector => ret (Some selector)
      | None =>
          when (0 <? left') pause ;;
          find_code_input left'
      end
  end.

(** Lines 1326-1353 and 1474-1500: the code comes from the temporary
    mailbox, or is typed by hand. *)
Definition enter_code (codeInput : jsstring) (timed_out : exn) : M unit :=
  l <- get ;;
  match mailService l, tempMailbox l with
  | true, Some mb =>
      try_catch
        (code <- await (WaitForVerificationCode (mb_email mb) (mb_password mb) 300000%N 5000%N) ;;
         call (Log (L_auto_code code)) ;;
         _ <- await (WaitAndFill codeInput code 30000%N 1%N false) ;;
         ret tt)
        (fun _ =>
           call (Log L_auto_code_failed) ;;
           typed <- call (WaitForManualInput codeInput) ;;
           unless typed timed_out)
  | _, _ =>
      typed <- call (WaitForManualInput codeInput) ;;
      unless typed timed_out
  end.

(** The login branch (lines 1246-1403). *)
Definition login_flow (isVerifyFlow : bool) : M unit :=
  call (Log (if isVerifyFlow then L_verify_flow else L_login_flow)) ;;
  when (negb isVerifyFlow)
    (filled <- await (WaitAndFill loginPasswordSelector password 30000%N 999%N true) ;;
     unless filled (Raised 1269%N) ;;
     pause ;;
     clicked <- call (WaitAndClickWithRetry primaryButton) ;;
     unless clicked (Raised 1278%N) ;;
     call WaitForPageStable) ;;
  loginCodeInput <- find_code_input 999 ;;
  match loginCodeInput with
  | None => throw (Raised 1320%N)
  | Some codeInput =>
      pause ;;
      enter_code codeInput (Raised 1344%N) ;;
      pause ;;
      clicked <- call (WaitAndClickWithRetry primaryButton) ;;
      unless clicked (Raised 1361%N) ;;
      call WaitForPageStable ;;
      try_catch
        (await (WaitVisible loginPasswordSelector 10000%N) ;;
         filled <- await (WaitAndFill loginPasswordSelector password 30000%N 3%N true) ;;
         unless filled (Raised 1382%N) ;;
         pause ;;
         filled <- await (WaitAndFill confirmPasswordSelector password 30000%N 3%N true) ;;
         unless filled (Raised 1389%N) ;;
         pause ;;
         clicked <- call (WaitAndClickWithRetry primaryButton) ;;
         unless clicked (Raised 1397%N) ;;
         pause)
        (fun _ => call (Log L_no_password_step))
  end.

(** The [for] loop of lines 1411-1416. *)
Fixpoint fill_name (selectors : list jsstring) (randomName : jsstring) : M bool :=
  match selectors with
  | [] => ret false
  | selector :: rest =>
      filled <- await (WaitAndFill selector randomName 30000%N 999%N true) ;;
      if filled then ret true else fill_name rest randomName
  end.

Definition confirmKeywords : list jsstring :=
  map str ["nouveau"; "erneut"; "re-enter"; "repeat"; "confirm"; "again"]%string.

(** [toLowerCase] on placeholders, for the code units of ASCII. *)
Definition toLowerCase (s : jsstring) : jsstring :=
  map (fun c => if in_range 65 90 c then (c + 32)%N else c) s.

(** The [for] loop of lines 1539-1557 over the password inputs, by index:
    the first visible one that is not a confirmation field, and the last
    visible confirmation field. *)
Fixpoint sort_inputs (inputs : list PasswordInput) (index : nat)
         (first confirm : option nat) : option nat * option nat :=
  match inputs with
  | [] => (first, confirm)
  | input :: rest =>
      if negb (pi_visible input) then sort_inputs rest (S index) first confirm
      else
        let placeholderLower := toLowerCase (default [] (pi_placeholder input)) in
        if existsb (includes placeholderLower) confirmKeywords
        then sort_inputs rest (S index) first (Some index)
        else
          match first with
          | None => sort_inputs rest (S index) (Some index) confirm
          | Some _ => sort_inputs rest (S index) first confirm
          end
  end.

(** [while (retryCount < maxRetries)] of lines 1525-1573; the answer is what
    the last turn found. *)
Fixpoint find_password_inputs (left : nat) (last : option nat * option nat)
  : M (option nat * option nat) :=
  match left with
  | 0 => ret last
  | S left' =>
      pause ;;
      allPasswordInputs <- await PasswordInputs ;;
      match sort_inputs allPasswordInputs 0 None None with
      | (Some first, Some confirm) => ret (Some first, Some confirm)
      | found => find_password_inputs left' found
      end
  end.

(** The registration branch (lines 1405-1605). *)
Definition registration_flow (randomName : jsstring) : M unit :=
  nameInputFilled <- fill_name nameInputSelectors randomName ;;
  unless nameInputFilled (Raised 1419%N) ;;
  pause ;;
  clicked <- call (WaitAndClickWithRetry signupNextButton) ;;
  unless clicked (Raised 1429%N) ;;
  call WaitForPageStable ;;
  codeInputSelector <- find_code_input 999 ;;
  match codeInputSelector with
  | None => throw (Raised 1470%N)
  | Some codeInput =>
      enter_code codeInput (Raised 1492%N) ;;
      pause ;;
      clicked <- call (WaitAndClickWithRetry verifyButton) ;;
      unless clicked (Raised 1509%N) ;;
      call WaitForPageStable ;;
      found <- find_password_inputs 999 (None, None) ;;
      match fst found with
      | None => throw (Raised 1580%N)
      | Some first =>
          await (FillInput first password) ;;
          pause ;;
          match snd found with
          | None => throw (Raised 1590%N)
          | Some confirm =>
              await (FillInput confirm password) ;;
              pause ;;
              clicked <- call (WaitAndClickWithRetry primaryButton) ;;
              unless clicked (Raised 1600%N) ;;
              call WaitForPageStable
          end
      end
  end.

Definition sso_cookie_name : jsstring := str "x-amz-sso_authn".

(** [for (let i = 0; i < 999; i++)] of lines 1611-1701. *)
Fixpoint harvest_token (left : nat) : M (option jsstring) :=
  match left with
  | 0 => ret None
  | S left' =>
      cookies <- await Cookies ;;
      match find (fun c => eqs (c_name c) sso_cookie_name) cookies with
      | Some ssoCookie =>
          call (Log L_sso_token) ;;
          pause ;;
          call DismissDialog ;;
          ret (Some (c_value ssoCookie))
      | None => pause ;; harvest_token left'
      end
  end.

(** The object [autoRegisterAWS] resolves to. *)
Record result := {
  success : bool;
  ssoToken : option jsstring;
  name : option jsstring;
  accessToken : option jsstring;
  refreshToken : option jsstring;
  error : option exn
}.

Definition failure (e : option exn) : result :=
  {| success := false; ssoToken := None; name := None;
     accessToken := None; refreshToken := None; error := e |}.

(** The clean-up of the temporary mailbox, as written at lines 1808-1815
    and again at lines 1833-1840. *)
Definition clean_mailbox : M unit :=
  l <- get ;;
  match mailService l, tempMailbox l with
  | true, Some mb =>
      try_catch
        (await (DeleteMailbox (mb_email mb)) ;;
         call (Log (L_mailbox_cleaned (mb_email mb))))
        (fun e => call (Log (L_mailbox_cleanup_failed e)))
  | _, _ => ret tt
  end.

(** Lines 1607-1823: the token, the browser, the device authorisation and
    the three ways out of the [try] block. *)
Definition finish (randomName : jsstring) (testLoginDetection keepBrowserOpen : bool)
  : M result :=
  ssoToken <- harvest_token 999 ;;
  match ssoToken with
  | Some (c :: t) =>
      when testLoginDetection (call TestLoginDetection) ;;
      (if keepBrowserOpen then call (Log L_browser_kept_open)
       else (await BrowserClose ;; set_browser false ;; call (Log L_browser_closed))) ;;
      ssoResult <- await (SsoDeviceAuth (c :: t) (str "us-east-1")) ;;
      if negb (sso_success ssoResult) then
        call (Log L_sso_failed) ;;
        ret (failure (option_map Rejected (sso_error ssoResult)))
      else
        call (Log L_success) ;;
        clean_mailbox ;;
        ret {| success := true; ssoToken := Some (c :: t); name := Some randomName;
               accessToken := sso_accessToken ssoResult;
               refreshToken := sso_refreshToken ssoResult; error := None |}
  | _ =>
      await BrowserClose ;;
      set_browser false ;;
      throw (Raised 1706%N)
  end.

(** The [try] block up to the classification (lines 973-1243). *)
Definition until_classified (proxyUrl : option jsstring) (cfg : option MailServiceConfig)
           (userCode : jsstring) : M (bool * bool) :=
  create_mailbox_if_needed cfg ;;
  submit_email proxyUrl userCode ;;
  classify.

(** The body of the [try] block. *)
Definition attempt (proxyUrl : option jsstring) (testLoginDetection keepBrowserOpen : bool)
           (cfg : option MailServiceConfig) (randomName userCode : jsstring) : M result :=
  flow <- until_classified proxyUrl cfg userCode ;;
  (if fst flow then login_flow (snd flow) else registration_flow randomName) ;;
  finish randomName testLoginDetection keepBrowserOpen.

(** The [catch] block (lines 1824-1843). *)
Definition recover (e : exn) : M result :=
  call (Log (L_failed e)) ;;
  l <- get ;;
  when (browser l) (try_catch (await BrowserClose) (fun _ => ret tt)) ;;
  clean_mailbox ;;
  ret (failure (Some e)).

(** The locals when the [try] block is entered. *)
Definition at_entry (email0 : option jsstring) : locals :=
  {| browser := false; tempMailbox := None; mailService := false; email := email0 |}.

Definition autoRegisterAWS (email0 : option jsstring) (proxyUrl : option jsstring)
           (testLoginDetection keepBrowserOpen : bool)
           (cfg : option MailServiceConfig) : prog (outcome result * locals) :=
  Do GenerateRandomName (fun randomName =>
  Do GenerateUserCode (fun userCode =>
    try_catch
      (attempt proxyUrl testLoginDetection keepBrowserOpen cfg randomName userCode)
      recover
      (at_entry email0))).

(** *** Running a program against the outside *)

(** What was asked, and what was answered. *)
Inductive entry : Type :=
| Did {X : Type} (e : eff X) (x : X).

(** The outside: the answer to the [n]-th request of a run. *)
Definition world : Type := forall X : Type, nat -> eff X -> X.

Fixpoint exec {A : Type} (w : world) (n : nat) (p : prog A) : A * nat * list entry :=
  match p with
  | Ret a => (a, n, [])
  | Do e k =>
      let x := w _ n e in
      let '(a, n', tr) := exec w (S n) (k x) in
      (a, n', Did e x :: tr)
  end.

Definition value_of {A : Type} (r : A * nat * list entry) : A := fst (fst r).
Definition trace_of {A : Type} (r : A * nat * list entry) : list entry := snd r.

(** What a run exchanges with the mailbox service and with the device
    authorisation: a mailbox was created, the deletion of a mailbox was
    asked for, the authorisation answered. *)
Inductive mail_event :=
| Created (mb : Mailbox)
| Deleted (email : jsstring)
| Authorised (granted : bool).

Definition traffic (en : entry) : option mail_event :=
  match en with
  | Did e x =>
      match e in eff X return X -> option mail_event with
      | CreateMailbox => fun x => match x with Ok mb => Some (Created mb) | Err _ => None end
      | DeleteMailbox email => fun _ => Some (Deleted email)
      | SsoDeviceAuth _ _ =>
          fun x => match x with Ok r => Some (Authorised (sso_success r)) | Err _ => None end
      | _ => fun _ => None
      end x
  end.

Definition fills (selectors : list jsstring) (en : entry) : bool :=
  match en with
  | Did e _ =>
      match e with
      | WaitAndFill selector _ _ _ _ => existsb (eqs selector) selectors
      | _ => false
      end
  end.

Definition clicks (selector : jsstring) (en : entry) : bool :=
  match en with
  | Did e _ =>
      match e with
      | WaitAndClickWithRetry s => eqs s selector
      | _ => false
      end
  end.

(** The selector an entry probes with [isVisible], if it is such a probe. *)
Definition probed (en : entry) : option jsstring :=
  match en with
  | Did e _ => match e with IsVisible selector => Some selector | _ => None end
  end.

(** An [isVisible] probe that was answered with [true]. *)
Definition saw (en : entry) : bool :=
  match en with
  | Did e x =>
      match e in eff X return X -> bool with
      | IsVisible _ => fun x => match x with Ok true => true | _ => false end
      | _ => fun _ => false
      end x
  end.

(** The selectors of the classifier's three detectors, in the order of the
    sequential probe. *)
Definition detector_selectors : list jsstring :=
  nameInputSelectors ++ [loginHeadingSelector; loginPasswordSelector].

(** *** A program logic *)

(** [sat P Q p]: whatever the outside answers, every request of [p] is one
    that [P] allows and the value [p] ends with satisfies [Q]. *)
Inductive sat {A : Type} (P : forall X, eff X -> Prop) (Q : A -> Prop) : prog A -> Prop :=
| sat_ret (a : A) : Q a -> sat P Q (Ret a)
| sat_do (X : Type) (e : eff X) (k : X -> prog A) :
    P X e -> (forall x, sat P Q (k x)) -> sat P Q (Do e k).

(** The same for a computation over the locals: [Q] speaks of the locals
    before, the value and the locals after a normal end, [E] of the locals
    before and after a throw. *)
Definition holds {A : Type} (P : forall X, eff X -> Prop)
           (Q : locals -> A -> locals -> Prop) (E : locals -> locals -> Prop)
           (m : M A) : Prop :=
  forall l, sat P (fun r => match r with
                            | (Ok a, l') => Q l a l'
                            | (Err _, l') => E l l'
                            end) (m l).

Definition allowed (P : forall X, eff X -> Prop) (en : entry) : Prop :=
  match en with Did e _ => P _ e end.

(** Requests that do not fill a full-name input. *)
Definition no_name_fill (X : Type) (e : eff X) : Prop :=
  match e with
  | WaitAndFill selector _ _ _ _ => existsb (eqs selector) nameInputSelectors = false
  | _ => True
  end.

(** Requests that do not click a button. *)
Definition no_click (X : Type) (e : eff X) : Prop :=
  match e with
  | WaitAndClickWithRetry _ => False
  | _ => True
  end.

(** A computation that only makes requests allowed by [P], whose value
    satisfies [Qv] when it ends normally, and that throws only if [Ev]. *)
Definition calm {A : Type} (P : forall X, eff X -> Prop) (Qv : A -> Prop) (Ev : Prop)
           (m : M A) : Prop :=
  holds P (fun _ a _ => Qv a) (fun _ _ => Ev) m.

(** A computation that never fills a full-name input. *)
Definition quiet {A : Type} (Qv : A -> Prop) (m : M A) : Prop :=
  calm no_name_fill Qv True m.

(** Requests that are no traffic with the mailbox service or the device
    authorisation. *)
Definition no_mailbox (X : Type) (e : eff X) : Prop :=
  match e with
  | CreateMailbox | DeleteMailbox _ | SsoDeviceAuth _ _ => False
  | _ => True
  end.

(** The requests of the page work that the login branch shares with the
    steps before and after it: no such traffic, and no name fill. *)
Definition routine (X : Type) (e : eff X) : Prop :=
  match e with
  | CreateMailbox | DeleteMailbox _ | SsoDeviceAuth _ _ => False
  | WaitAndFill selector _ _ _ _ => existsb (eqs selector) nameInputSelectors = false
  | _ => True
  end.

(** The locals that the clean-up reads are as they were. *)
Definition keeps (l l' : locals) : Prop :=
  tempMailbox l' = tempMailbox l /\ mailService l' = mailService l.

(** A computation that only makes requests allowed by [P] and keeps those
    locals, however it ends. *)
Definition steady {A : Type} (P : forall X, eff X -> Prop) (Qv : A -> Prop) (m : M A) : Prop :=
  holds P (fun l a l' => keeps l l' /\ Qv a) keeps m.

(** The traffic of the clean-up block (lines 1808-1815, 1833-1840). *)
Definition cleanup (l : locals) : list mail_event :=
  match mailService l, tempMailbox l with
  | true, Some mb => [Deleted (mb_email mb)]
  | _, _ => []
  end.

Definition made (o : option Mailbox) : list mail_event :=
  match o with Some mb => [Created mb] | None => [] end.

Definition gone (o : option Mailbox) : list mail_event :=
  match o with Some mb => [Deleted (mb_email mb)] | None => [] end.

(** The selector found, if any, is one of the list. *)
Definition among (selectors : list jsstring) (found : option jsstring) : Prop :=
  forall s, found = Some s -> In s selectors.

(** What a run resolved to. *)
Definition result_of (r : (outcome result * locals) * nat * list entry) : option result :=
  match value_of r with
  | (Ok res, _) => Some res
  | (Err _, _) => None
  end.

(** *** Scripted outsides *)

Definition sample_mailbox : Mailbox :=
  {| mb_email := str "temp_1@mail.example"; mb_password := str "Pass_x!" |}.

Definition sample_config : MailServiceConfig :=
  {| enabled := true; apiUrl := str "https://mail.example:8443";
     apiKey := str "key"; mailDomain := str "mail.example" |}.

Definition sso_granted : SsoResult :=
  {| sso_success := true; sso_accessToken := Some (str "access");
     sso_refreshToken := Some (str "refresh"); sso_error := None |}.

Definition sso_refused : SsoResult :=
  {| sso_success := false; sso_accessToken := None;
     sso_refreshToken := None; sso_error := Some (str "authorization_pending") |}.

(** A page that shows the sign-in heading and the elements of the login
    path, a mailbox service and a device authorisation that work. *)
Definition login_page : world :=
  fun X n e =>
    match e in eff X return X with
    | Log _ => tt
    | GenerateRandomName => str "QZ"
    | GenerateUserCode => str "ABCD-2345"
    | ImportMailService => Ok tt
    | CheckHealth => true
    | CreateMailbox => Ok sample_mailbox
    | DeleteMailbox _ => Ok tt
    | WaitForVerificationCode _ _ _ _ => Ok (str "482913")
    | Draw => Fingerprint.sample_draws
    | Launch _ => Ok tt
    | BrowserClose => Ok tt
    | Page _ => Ok tt
    | RandomPageInteraction => tt
    | WaitForPageStable => tt
    | WaitAndFill selector _ _ _ _ => Ok (negb (existsb (eqs selector) nameInputSelectors))
    | WaitAndClickWithRetry _ => true
    | WaitForManualInput _ => true
    | RaceDetectors => Ok Login
    | IsVisible selector => Ok (eqs selector loginHeadingSelector)
    | WaitVisible selector _ =>
        if eqs selector loginPasswordSelector && (20 <? n)
        then Err (Rejected (str "Timeout 10000ms exceeded"))
        else Ok tt
    | PasswordInputs => Ok []
    | FillInput _ _ => Ok tt
    | Cookies => Ok [ {| c_name := sso_cookie_name; c_value := str "sso-token" |} ]
    | DismissDialog => tt
    | TestLoginDetection => tt
    | SsoDeviceAuth _ _ => Ok sso_granted
    end.

(** The same, but the device authorisation answers with a failure. *)
Definition sso_refusing : world :=
  fun X n e =>
    match e in eff X return nat -> X with
    | SsoDeviceAuth _ _ => fun _ => Ok sso_refused
    | e' => fun n => login_page _ n e'
    end n.

(** The same as [login_page], but the login password field never takes the
    password. *)
Definition password_field_missing : world :=
  fun X n e =>
    match e in eff X return nat -> X with
    | WaitAndFill _ _ _ _ _ => fun n => Ok (n <? 20)
    | e' => fun n => login_page _ n e'
    end n.

(** The same as [login_page], but the detectors of the race all time out. *)
Definition slow_page : world :=
  fun X n e =>
    match e in eff X return nat -> X with
    | RaceDetectors => fun _ => Err (Rejected (str "Timeout 10000ms exceeded"))
    | e' => fun n => login_page _ n e'
    end n.

(** A page on which nothing can be seen and every probe is rejected. *)
Definition blank_page : world :=
  fun X n e =>
    match e in eff X return nat -> X with
    | RaceDetectors => fun _ => Err (Rejected (str "Timeout 10000ms exceeded"))
    | IsVisible _ => fun n => if Nat.even n then Ok false else Err (Rejected (str "detached"))
    | e' => fun n => login_page _ n e'
    end n.

(** The locals of the sample runs once the mailbox is there and the
    browser is up. *)
Definition sample_locals : locals :=
  {| browser := true; tempMailbox := Some sample_mailbox; mailService := true;
     email := Some (mb_email sample_mailbox) |}.

(** A run with the mail service switched on and no address given. *)
Definition sample_run (w : world) : (outcome result * locals) * nat * list entry :=
  exec w 0 (autoRegisterAWS None None true false (Some sample_config)).

(** *** What a run does with the browser *)

(** The browser was launched, or asked to close, with the answer. *)
Inductive browser_event :=
| Launched
| CloseAsked (closed : bool).

Definition browsing (en : entry) : option browser_event :=
  match en with
  | Did e x =>
      match e in eff X return X -> option browser_event with
      | Launch _ => fun x => match x with Ok _ => Some Launched | Err _ => None end
      | BrowserClose =>
          fun x => Some (CloseAsked (match x with Ok _ => true | Err _ => false end))
      | _ => fun _ => None
      end x
  end.

(** Requests that neither launch nor close the browser. *)
Definition no_browser (X : Type) (e : eff X) : Prop :=
  match e with
  | Launch _ | BrowserClose => False
  | _ => True
  end.

(** The local [browser] is as it was. *)
Definition same_browser (l l' : locals) : Prop := browser l' = browser l.

(** A computation that leaves the browser and the local alone, however it
    ends. *)
Definition tidy {A : Type} (Qv : A -> Prop) (m : M A) : Prop :=
  holds no_browser (fun l a l' => same_browser l l' /\ Qv a) same_browser m.

End Orchestrator.

(* ===================================================================== *)
(** ** The disposable-mailbox service ([mailService.ts]) *)
(* ===================================================================== *)

Module MailService.
Import JS Extractor Backends.

(** [AWS_SENDERS] of [mailService.ts] (the list of the registration module
    has the entry ['aws'] in addition). *)
Definition AWS_SENDERS : list jsstring :=
  [ str "no-reply@signin.aws"; str "no-reply@login.awsapps.com";
    str "noreply@amazon.com"; str "account-update@amazon.com";
    str "no-reply@aws.amazon.com"; str "noreply@aws.amazon.com" ].

(** What a request to the mail API comes to: the parsed answer, or an
    exception ([fetch] rejected, or the status was not [ok]). *)
Inductive fetched (A : Type) : Type :=
| Fetched (a : A)
| FetchThrows.
Arguments Fetched {A} a.
Arguments FetchThrows {A}.

(** One [EmailMessage] of the list: the addresses of its [from] entries,
    and what [getMessageDetail] answers when it is asked for this message
    in this turn. *)
Record EmailMessage := {
  uid : nat;
  from : list jsstring;
  detail : fetched EmailDetail
}.

Section Host.
Variable toLowerCase : jsstring -> jsstring.

(** [message.from[0]?.address.toLowerCase() || ''] *)
Definition fromAddress (message : EmailMessage) : jsstring :=
  match from message with
  | address :: _ => toLowerCase address
  | [] => []
  end.

Definition isFromAWS (message : EmailMessage) : bool :=
  existsb (fun sender => includes (fromAddress message) (toLowerCase sender)) AWS_SENDERS.

(** How the [for] loop over the messages ends (lines 248-267): with a code,
    with nothing, or with the exception of a [getMessageDetail]. *)
Inductive pass :=
| Found (code : jsstring)
| Nothing
| Threw.

Fixpoint check_messages (messages : list EmailMessage) : pass :=
  match messages with
  | [] => Nothing
  | message :: rest =>
      if isFromAWS message then
        match detail message with
        | FetchThrows => Threw
        | Fetched d =>
            match fst (detail_code d) with
            | Some code => Found code
            | None => check_messages rest
            end
        end
      else check_messages rest
  end.

(** What the mail API does in one turn of the loop. *)
Record turn := {
  messages : fetched (list EmailMessage);   (* [getMessages(email, password, 10)] *)
  elapsed : N;                              (* ms spent awaiting the requests *)
  timer_lag : N                             (* ms by which [setTimeout] fires late *)
}.

(** [return code], or [throw new Error('等待验证码超时')]. *)
Inductive answer :=
| Code (code : jsstring)
| TimedOut.

(** [waitForVerificationCode] (lines 234-277), entered at time
    [startTime]; [now] is [Date.now()] at the loop test and [k] counts the
    turns.  The result is [None] only when [fuel] turns were not enough,
    otherwise the answer, the time and the number of turns taken. *)
Fixpoint wait (fuel : nat) (world : nat -> turn) (k : nat)
         (startTime maxWaitTime checkInterval now : N) : option (answer * N * nat) :=
  if negb (now - startTime <? maxWaitTime)%N then Some (TimedOut, now, k)
  else
    match fuel with
    | 0 => None
    | S fuel' =>
        let t := world k in
        let now := (now + elapsed t)%N in
        let again :=
          wait fuel' world (S k) startTime maxWaitTime checkInterval
               (now + checkInterval + timer_lag t)%N in
        match messages t with
        | FetchThrows => again
        | Fetched listed =>
            match check_messages listed with
            | Found code => Some (Code code, now, k)
            | Nothing | Threw => again
            end
        end
    end.

Definition waitForVerificationCode (fuel : nat) (world : nat -> turn)
           (startTime maxWaitTime checkInterval : N) : option (answer * N * nat) :=
  wait fuel world 0 startTime maxWaitTime checkInterval startTime.

End Host.

(** A mail API on which every request fails. *)
Definition dead_api (k : nat) : turn :=
  {| messages := FetchThrows; elapsed := 40; timer_lag := 2 |}.

Definition aws_message (d : fetched EmailDetail) : EmailMessage :=
  {| uid := 7; from := [str "No-Reply@signin.aws"]; detail := d |}.

(** A mail API that first fails, then lists a mail whose detail cannot be
    fetched, then delivers the mail. *)
Definition slow_api (k : nat) : turn :=
  match k with
  | 0 => {| messages := FetchThrows; elapsed := 40; timer_lag := 2 |}
  | 1 => {| messages := Fetched [aws_message FetchThrows]; elapsed := 60; timer_lag := 0 |}
  | _ => {| messages := Fetched
              [ {| uid := 3; from := []; detail := FetchThrows |};
                aws_message (Fetched {| text := Some (str "Your verification code is 482913");
                                        html := None |}) ];
            elapsed := 80; timer_lag := 1 |}
  end.

End MailService.

(* ===================================================================== *)
(** ** The page: importing accounts and preparing a run
       ([AutoRegisterPage.tsx]) *)
(* ===================================================================== *)

Module Page.
Import JS Store Pool.

(** [String.prototype.trim]: white space and line terminators are removed
    at both ends. *)
Fixpoint trimStart (s : jsstring) : jsstring :=
  match s with
  | c :: t => if is_space c then trimStart t else s
  | [] => []
  end.

Definition trimEnd (s : jsstring) : jsstring := rev (trimStart (rev s)).

Definition trim (s : jsstring) : jsstring := trimEnd (trimStart s).

(** [s.split(sep)] for a separator of one code unit. *)
Fixpoint split (sep : N) (s : jsstring) : list jsstring :=
  match s with
  | [] => [[]]
  | c :: t =>
      if N.eqb c sep then [] :: split sep t
      else match split sep t with
           | piece :: pieces => (c :: piece) :: pieces
           | [] => [[c]]
           end
  end.

(** [{ id, email, status }]: the optional fields are absent. *)
Definition fresh (i e : jsstring) (st : Status) : RegisterAccount :=
  {| id := i; email := e; status := st; awsName := None; ssoToken := None; error := None |}.

(** ['(自动生成)'], the e-mail of an account whose mailbox is made by the
    run. *)
Definition virtualEmail : jsstring := [40; 33258; 21160; 29983; 25104; 41]%N.

(** The state [registerCount: number | '']: the empty input, or a number,
    which is an integer or, when restored from a damaged setting by
    [parseInt], [NaN]. *)
Inductive RegisterCount :=
| Blank
| Number (n : Z)
| NotANumber.

(** How often the body of [for (let i = 0; i < count; i++)] runs, for
    [count = typeof registerCount === 'number' ? registerCount : 1]. *)
Definition rounds (registerCount : RegisterCount) : nat :=
  match registerCount with
  | Blank => 1
  | Number n => Z.to_nat n
  | NotANumber => 0
  end.

Section Host.
Variable toLowerCase : jsstring -> jsstring.
(** [uuidv4 k] is what the [k]-th call of [uuidv4()] of the session
    returns. *)
Variable uuidv4 : nat -> jsstring.
(** The values of [acc.email] over [existingAccounts.values()]. *)
Variable existingAccounts : list jsstring.

(** Lines 79-84. *)
Definition isEmailExists (email : jsstring) : bool :=
  let emailLower := toLowerCase email in
  existsb (fun acc_email => eqs (toLowerCase acc_email) emailLower) existingAccounts.

(** The body of the [for] loop of [parseAccounts] (lines 103-118), on
    [parsed] and the number of ids drawn so far. *)
Definition parse_line (acc : list RegisterAccount * nat) (line : jsstring)
  : list RegisterAccount * nat :=
  let '(parsed, k) := acc in
  let trimmed := trim line in
  if match trimmed with [] => true | _ => false end || startsWith trimmed (str "#")
  then acc
  else if includes trimmed (str "@") then
    let email := trim trimmed in
    let email_exists := isEmailExists email in
    (parsed ++ [fresh (uuidv4 k) email (if email_exists then exists_ else pending)], S k)
  else acc.

(** The trimmed lines that the loop takes: not empty, no comment, and
    with an [@]. *)
Definition taken (trimmed : jsstring) : bool :=
  negb (match trimmed with [] => true | _ => false end || startsWith trimmed (str "#"))
  && includes trimmed (str "@").

(** Lines 99-121. *)
Definition parseAccounts (text : jsstring) (k : nat) : list RegisterAccount * nat :=
  fold_left parse_line (split 10 (trim text)) ([], k).

(** Lines 313-322: the virtual accounts of one start. *)
Fixpoint virtualAccounts (count k : nat) : list RegisterAccount :=
  match count with
  | 0 => []
  | S count' => fresh (uuidv4 k) virtualEmail pending :: virtualAccounts count' (S k)
  end.

(** [a => a.email !== '(自动生成)'] *)
Definition nonVirtual (a : RegisterAccount) : bool := negb (eqs (email a) virtualEmail).

(** Lines 299-326 of [startRegistration]: what is done to the store before
    the pending accounts are read.  [accounts] is the list the page was
    rendered with, taken to be the one of the store; the two pauses of a
    tenth of a second are taken to pass without another action on the
    store. *)
Definition prepare (enabled : bool) (registerCount : RegisterCount) (k : nat)
           (st : AutoRegisterState) : AutoRegisterState * nat :=
  if enabled then
    let accounts := accounts st in
    let nonVirtualAccounts := filter nonVirtual accounts in
    let st :=
      if length nonVirtualAccounts <? length accounts then
        let st := clearAccounts st in
        if 0 <? length nonVirtualAccounts then addAccounts nonVirtualAccounts st else st
      else st in
    let count := rounds registerCount in
    (addAccounts (virtualAccounts count k) st, k + count)
  else (st, k).

(** [startRegistration] up to the call of [runConcurrent]: [None] when the
    alert is shown and nothing is run. *)
Definition startRegistration (enabled : bool) (registerCount : RegisterCount) (k : nat)
           (st : AutoRegisterState) : option state * nat :=
  let '(st, k) := prepare enabled registerCount k st in
  match filter is_pending (accounts st) with
  | [] => (None, k)
  | _ => (Some (start st), k)
  end.

(** The ids of the store were drawn before the [k]-th call. *)
Definition issued (k : nat) (st : AutoRegisterState) : Prop :=
  exists js, map id (accounts st) = map uuidv4 js /\ NoDup js /\ Forall (fun j => j < k) js.

End Host.

Definition numbered (k : nat) : jsstring := str "id-" ++ [N.of_nat k].

Definition virtual_store : AutoRegisterState :=
  {| accounts := [ fresh (numbered 0) (str "ann@example.com") pending;
                   fresh (numbered 1) virtualEmail success;
                   fresh (numbered 2) (str "bob@example.com") failed ];
     isRunning := false; logs := [str "done"]; concurrency := 2; shouldStop := false |}.

Definition pasted : jsstring :=
  [32; 32]%N ++ str "# my accounts" ++ [10]%N ++ str " Ann@Example.com " ++ [13; 10; 10]%N
  ++ str "not an address" ++ [10]%N ++ str "bob@example.com" ++ [10; 9]%N.

End Page.

(* ===================================================================== *)
(** ** The helpers of the interaction layer ([part_001], lines 77-193 and
       409-680) *)
(* ===================================================================== *)

Module Helpers.
Import JS Extractor Orchestrator.

(** A time in milliseconds handed to Playwright: a literal, the share
    [timeout / selectors.length], or a value of [randomDelay]. *)
Inductive duration :=
| Ms (n : N)
| Share (timeout : N) (parts : nat)
| Random.

Inductive element_state := visible_ | attached.

Inductive load_state := domcontentloaded | networkidle.

(** What the helpers ask of the page, with the type of the answer; a
    promise of Playwright can be rejected.  [log] is taken not to throw and
    is left out. *)
Inductive op : Type -> Type :=
| WaitFor (selector : jsstring) (state : element_state) (timeout : duration)
  : op (outcome unit)
| WaitForTimeout (ms : duration) : op (outcome unit)
| WaitForLoadState (state : load_state) : op (outcome unit)
| BoundingBox (selector : jsstring) : op (outcome bool)     (* is the box not [null] *)
| HasViewport : op bool                                     (* [page.viewportSize()] *)
| Chance : op bool                  (* a comparison of [Math.random()] with a bound *)
| PathSteps : op nat                (* [Math.floor(distance / 50)], [randomDelay(8, 0.3)] *)
| MouseMove : op (outcome unit)
| MouseWheel : op (outcome unit)
| Clear (selector : jsstring) : op (outcome unit)
| Click (selector : jsstring) : op (outcome unit)
| KeyboardType (char : N) : op (outcome unit)
| Fill (selector value : jsstring) : op (outcome unit)
| CountAll (selector : jsstring) : op (outcome nat)         (* [locator(selector).all()] *)
| TextContent (selector : jsstring) (index : nat) : op (outcome (option jsstring))
| Launch : op (outcome unit)                                (* [chromium.launch] *)
| NewContext : op (outcome unit)
| NewPage : op (outcome unit)
| Goto (url : jsstring) : op (outcome unit)
| BrowserClose : op (outcome unit)
| LowerCaseUrl : op jsstring.                               (* [page.url().toLowerCase()] *)

Inductive script (A : Type) : Type :=
| Done (a : A)
| Ask {X : Type} (e : op X) (k : X -> script A).
Arguments Done {A} a.
Arguments Ask {A X} e k.

(** An [async] function: it ends with a value or with a rejection. *)
Definition H (A : Type) : Type := script (outcome A).

Definition hret {A : Type} (a : A) : H A := Done (Ok a).

Fixpoint hbind {A B : Type} (p : H A) (f : A -> H B) : H B :=
  match p with
  | Done (Ok a) => f a
  | Done (Err e) => Done (Err e)
  | Ask e k => Ask e (fun x => hbind (k x) f)
  end.

(** [try { p } catch (e) { h e }] *)
Fixpoint htry {A : Type} (p : H A) (h : exn -> H A) : H A :=
  match p with
  | Done (Ok a) => Done (Ok a)
  | Done (Err e) => h e
  | Ask e k => Ask e (fun x => htry (k x) h)
  end.

Definition ask {X : Type} (e : op X) : H X := Ask e (fun x => Done (Ok x)).

(** [await e] *)
Definition attempt {X : Type} (e : op (outcome X)) : H X := Ask e (fun x => Done x).

Declare Scope script_scope.
Delimit Scope script_scope with script.
Notation "x <- m ;; k" := (hbind m (fun x => k))
  (at level 100, m at next level, right associativity) : script_scope.
Notation "m ;; k" := (hbind m (fun _ => k))
  (at level 100, right associativity) : script_scope.
Local Open Scope script_scope.

(** Lines 77-98. *)
Definition waitForPageStable : H unit :=
  htry
    (attempt (WaitForLoadState domcontentloaded) ;;
     attempt (WaitForLoadState networkidle) ;;
     attempt (WaitForTimeout Random))
    (fun _ => hret tt).

(** The [for] loops of lines 132-145 and 174-180: [points] moves of the
    mouse, each followed by a pause. *)
Fixpoint mouse_path (points : nat) : H unit :=
  match points with
  | 0 => hret tt
  | S points' =>
      attempt MouseMove ;;
      attempt (WaitForTimeout Random) ;;
      mouse_path points'
  end.

(** Lines 106-150. *)
Definition moveMouseToElement (selector : jsstring) : H unit :=
  htry
    (box <- attempt (BoundingBox selector) ;;
     if box then
       d <- ask PathSteps ;;
       let steps := Nat.max 5 (Nat.min 20 d) in
       mouse_path (S steps)
     else hret tt)
    (fun _ => hret tt).

(** Lines 158-193. *)
Definition randomPageInteraction : H unit :=
  htry
    (viewport <- ask HasViewport ;;
     if negb viewport then hret tt
     else
       skip <- ask Chance ;;
       if skip then hret tt
       else
         steps <- ask PathSteps ;;
         mouse_path (S steps) ;;
         scroll <- ask Chance ;;
         if scroll then
           attempt MouseWheel ;;
           attempt (WaitForTimeout Random)
         else hret tt)
    (fun _ => hret tt).

(** Lines 447-470: the value is typed code unit by code unit, or filled
    in at once. *)
Fixpoint type_chars (value : jsstring) : H unit :=
  match value with
  | [] => hret tt
  | char :: rest =>
      attempt (KeyboardType char) ;;
      attempt (WaitForTimeout Random) ;;
      type_chars rest
  end.

(** Lines 424-473: the [try] block of [waitAndFill]. *)
Definition fill_once (selector value : jsstring) (timeout : N) (typeCharByChar : bool)
  : H bool :=
  attempt (WaitFor selector visible_ (Ms timeout)) ;;
  attempt (WaitFor selector attached (Ms 5000)) ;;
  attempt (WaitForTimeout (Ms 800)) ;;
  moveMouseToElement selector ;;
  attempt (WaitForTimeout Random) ;;
  attempt (Clear selector) ;;
  attempt (WaitForTimeout (Ms 300)) ;;
  attempt (Click selector) ;;
  attempt (WaitForTimeout (Ms 200)) ;;
  (if typeCharByChar then type_chars value else attempt (Fill selector value)) ;;
  hret true.

(** The [while (retryCount < maxRetries)] loop of [waitAndFill], entered
    with [left = maxRetries - retryCount]. *)
Fixpoint waitAndFill_from (left : nat) (selector value : jsstring) (timeout : N)
         (typeCharByChar : bool) : H bool :=
  match left with
  | 0 => hret false
  | S left' =>
      htry (fill_once selector value timeout typeCharByChar)
           (fun _ =>
              if 0 <? left' then
                attempt (WaitForTimeout Random) ;;
                waitAndFill_from left' selector value timeout typeCharByChar
              else hret false)
  end.

(** Lines 409-487. *)
Definition waitAndFill (selector value : jsstring) (timeout : N) (maxRetries : nat)
           (typeCharByChar : bool) : H bool :=
  waitAndFill_from maxRetries selector value timeout typeCharByChar.

(** Lines 528-549. *)
Fixpoint try_selectors (selectors : list jsstring) (timeout : N) (parts : nat) : H bool :=
  match selectors with
  | [] => hret false
  | selector :: rest =>
      htry
        (attempt (WaitFor selector visible_ (Share timeout parts)) ;;
         attempt (WaitForTimeout (Ms 300)) ;;
         attempt (Click selector) ;;
         hret true)
        (fun _ => try_selectors rest timeout parts)
  end.

Definition tryClickSelectors (selectors : list jsstring) (timeout : N) : H bool :=
  try_selectors selectors timeout (length selectors).

Definition errorSelectors : list jsstring :=
  [ str "div.awsui_content_mx3cw_97dyn_391";
    str "[class*=" ++ [34%N] ++ str "awsui_content_" ++ [34%N] ++ str "]";
    str ".awsui-flash-error";
    str "[data-testid=" ++ [34%N] ++ str "flash-error" ++ [34%N] ++ str "]" ].

Definition errorTexts : list jsstring :=
  [ [25265; 27465; 65292; 22788; 29702; 24744; 30340; 35831; 27714; 26102; 20986; 38169]%N;
    str "Sorry, there was an error processing your request";
    str "error processing your request";
    str "Please try again";
    [35831; 37325; 35797]%N ].

(** [text && errorTexts.some((errText) => text.includes(errText))] *)
Definition is_error_text (text : option jsstring) : bool :=
  match text with
  | Some (c :: t) => existsb (includes (c :: t)) errorTexts
  | _ => false
  end.

(** Lines 588-595: the elements of one selector, from [index] on. *)
Fixpoint scan_texts (selector : jsstring) (index count : nat) : H bool :=
  match count with
  | 0 => hret false
  | S count' =>
      text <- attempt (TextContent selector index) ;;
      if is_error_text text then hret true
      else scan_texts selector (S index) count'
  end.

(** Lines 584-600: is one of the error panels shown. *)
Fixpoint has_error (selectors : list jsstring) : H bool :=
  match selectors with
  | [] => hret false
  | selector :: rest =>
      hasError <- htry (count <- attempt (CountAll selector) ;; scan_texts selector 0 count)
                       (fun _ => hret false) ;;
      if hasError then hret true else has_error rest
  end.

(** The [for] loop of [checkAndRetryOnError], entered with
    [left = maxRetries - retry]. *)
Fixpoint checkAndRetryOnError_from (left : nat) (buttonSelector : jsstring) (retryDelay : N)
  : H bool :=
  match left with
  | 0 => hret false
  | S left' =>
      attempt (WaitForTimeout (Ms 1500)) ;;
      hasError <- has_error errorSelectors ;;
      if negb hasError then hret true
      else
        (if 0 <? left' then
           attempt (WaitForTimeout (Ms retryDelay)) ;;
           htry (attempt (WaitFor buttonSelector visible_ (Ms 5000)) ;;
                 attempt (Click buttonSelector))
                (fun _ => hret tt)
         else hret tt) ;;
        checkAndRetryOnError_from left' buttonSelector retryDelay
  end.

(** Lines 555-625. *)
Definition checkAndRetryOnError (buttonSelector : jsstring) (maxRetries : nat) (retryDelay : N)
  : H bool :=
  checkAndRetryOnError_from maxRetries buttonSelector retryDelay.

(** Lines 645-666: the [try] block of [waitAndClickWithRetry]. *)
Definition click_once (selector : jsstring) (timeout : N) (maxRetries : nat) : H bool :=
  attempt (WaitFor selector visible_ (Ms timeout)) ;;
  attempt (WaitFor selector attached (Ms 5000)) ;;
  attempt (WaitForTimeout (Ms 800)) ;;
  moveMouseToElement selector ;;
  attempt (WaitForTimeout Random) ;;
  attempt (Click selector) ;;
  checkAndRetryOnError selector maxRetries 2000.

Fixpoint waitAndClickWithRetry_from (left : nat) (selector : jsstring) (timeout : N)
         (maxRetries : nat) : H bool :=
  match left with
  | 0 => hret false
  | S left' =>
      htry (click_once selector timeout maxRetries)
           (fun _ =>
              if 0 <? left' then
                attempt (WaitForTimeout Random) ;;
                waitAndClickWithRetry_from left' selector timeout maxRetries
              else hret false)
  end.

(** Lines 630-680. *)
Definition waitAndClickWithRetry (selector : jsstring) (timeout : N) (maxRetries : nat)
  : H bool :=
  waitAndClickWithRetry_from maxRetries selector timeout maxRetries.

(** *** The activation of an Outlook mailbox (lines 686-932) *)

Definition emailInputSelectors : list jsstring :=
  [ str "input#i0116[type=" ++ [34]%N ++ str "email" ++ [34]%N ++ str "]";
    str "input[name=" ++ [34]%N ++ str "loginfmt" ++ [34]%N ++ str "]";
    str "input[type=" ++ [34]%N ++ str "email" ++ [34]%N ++ str "]" ].

Definition firstNextSelectors : list jsstring :=
  [ str "input#idSIButton9[type=" ++ [34]%N ++ str "submit" ++ [34]%N ++ str "]";
    str "input[type=" ++ [34]%N ++ str "submit" ++ [34]%N ++ str "][value=" ++ [34; 19979; 19968; 27493; 34]%N ++ str "]";
    str "input[type=" ++ [34]%N ++ str "submit" ++ [34]%N ++ str "][value=" ++ [34]%N ++ str "Next" ++ [34]%N ++ str "]" ].

Definition passwordInputSelectors : list jsstring :=
  [ str "input#passwordEntry[type=" ++ [34]%N ++ str "password" ++ [34]%N ++ str "]";
    str "input#i0118[type=" ++ [34]%N ++ str "password" ++ [34]%N ++ str "]";
    str "input[name=" ++ [34]%N ++ str "passwd" ++ [34]%N ++ str "][type=" ++ [34]%N ++ str "password" ++ [34]%N ++ str "]";
    str "input[type=" ++ [34]%N ++ str "password" ++ [34]%N ++ str "]" ].

Definition loginButtonSelectors : list jsstring :=
  [ str "button[type=" ++ [34]%N ++ str "submit" ++ [34]%N ++ str "][data-testid=" ++ [34]%N ++ str "primaryButton" ++ [34]%N ++ str "]";
    str "input#idSIButton9[type=" ++ [34]%N ++ str "submit" ++ [34]%N ++ str "]";
    str "button:has-text(" ++ [34; 19979; 19968; 27493; 34]%N ++ str ")";
    str "button:has-text(" ++ [34; 30331; 24405; 34]%N ++ str ")";
    str "button:has-text(" ++ [34]%N ++ str "Sign in" ++ [34]%N ++ str ")";
    str "button:has-text(" ++ [34]%N ++ str "Next" ++ [34]%N ++ str ")" ].

Definition cancelButtonSelectors : list jsstring :=
  [ str "button[data-testid=" ++ [34]%N ++ str "secondaryButton" ++ [34]%N ++ str "]:has-text(" ++ [34; 21462; 28040; 34]%N ++ str ")";
    str "button[data-testid=" ++ [34]%N ++ str "secondaryButton" ++ [34]%N ++ str "]:has-text(" ++ [34]%N ++ str "Cancel" ++ [34]%N ++ str ")";
    str "button[type=" ++ [34]%N ++ str "button" ++ [34]%N ++ str "]:has-text(" ++ [34; 21462; 28040; 34]%N ++ str ")";
    str "button[type=" ++ [34]%N ++ str "button" ++ [34]%N ++ str "]:has-text(" ++ [34]%N ++ str "Cancel" ++ [34]%N ++ str ")" ].

Definition yesButtonSelectors : list jsstring :=
  [ str "button[type=" ++ [34]%N ++ str "submit" ++ [34]%N ++ str "][data-testid=" ++ [34]%N ++ str "primaryButton" ++ [34]%N ++ str "]:has-text(" ++ [34; 26159; 34]%N ++ str ")";
    str "button[type=" ++ [34]%N ++ str "submit" ++ [34]%N ++ str "][data-testid=" ++ [34]%N ++ str "primaryButton" ++ [34]%N ++ str "]:has-text(" ++ [34]%N ++ str "Yes" ++ [34]%N ++ str ")";
    str "input#idSIButton9[value=" ++ [34; 26159; 34]%N ++ str "]";
    str "input#idSIButton9[value=" ++ [34]%N ++ str "Yes" ++ [34]%N ++ str "]";
    str "button:has-text(" ++ [34; 26159; 34]%N ++ str ")";
    str "button:has-text(" ++ [34]%N ++ str "Yes" ++ [34]%N ++ str ")" ].

Definition newMailSelectors : list jsstring :=
  [ str "button[aria-label=" ++ [34]%N ++ str "New mail" ++ [34]%N ++ str "]";
    str "button:has-text(" ++ [34]%N ++ str "New mail" ++ [34]%N ++ str ")";
    str "button:has-text(" ++ [34; 26032; 37038; 20214; 34]%N ++ str ")";
    str "span:has-text(" ++ [34]%N ++ str "New mail" ++ [34]%N ++ str ")";
    str "[data-automation-type=" ++ [34]%N ++ str "RibbonSplitButton" ++ [34]%N ++ str "]" ].


Definition activationUrl : jsstring :=
  str "https://go.microsoft.com/fwlink/p/?linkid=2125442".

Definition skipSelector : jsstring := str "a#iShowSkip".

(** The loops of lines 741-752 and 784-795: the value is filled into the
    element of the first selector that becomes visible and takes it. *)
Fixpoint fill_first (selectors : list jsstring) (value : jsstring) (timeout : N) : H bool :=
  match selectors with
  | [] => hret false
  | selector :: rest =>
      htry
        (attempt (WaitFor selector visible_ (Ms timeout)) ;;
         attempt (Fill selector value) ;;
         hret true)
        (fun _ => fill_first rest value timeout)
  end.

(** Lines 823-831 and 835-843: a link that is clicked if it shows up. *)
Definition skip_if_shown (timeout : N) : H unit :=
  htry
    (attempt (WaitFor skipSelector visible_ (Ms timeout)) ;;
     attempt (Click skipSelector) ;;
     attempt (WaitForTimeout (Ms 3000)))
    (fun _ => hret tt).

(** The loop of lines 888-899: does an element of one of the selectors
    become visible. *)
Fixpoint any_shown (selectors : list jsstring) (timeout : N) : H bool :=
  match selectors with
  | [] => hret false
  | selector :: rest =>
      htry (attempt (WaitFor selector visible_ (Ms timeout)) ;; hret true)
           (fun _ => any_shown rest timeout)
  end.

(** [{ success, error }]: the error is the message of what was thrown, or
    the text of line 921. *)
Inductive failure_text :=
| Thrown (e : exn)
| NotLoaded.

Record Activation := { act_success : bool; act_error : option failure_text }.

Definition hthrow {A : Type} (e : exn) : H A := Done (Err e).

(** Lines 718-912, from the new context to the last pause: the part of
    the [try] block in which [browser] holds the launched browser. *)
Definition activation_steps (email emailPassword : jsstring) : H bool :=
  attempt NewContext ;;
  attempt NewPage ;;
  attempt (Goto activationUrl) ;;
  attempt (WaitForTimeout (Ms 2000)) ;;
  emailFilled <- fill_first emailInputSelectors email 10000 ;;
  (if emailFilled then hret tt else hthrow (Raised 755)) ;;
  attempt (WaitForTimeout (Ms 1000)) ;;
  clicked <- tryClickSelectors firstNextSelectors 15000 ;;
  (if clicked then hret tt else hthrow (Raised 769)) ;;
  attempt (WaitForTimeout (Ms 3000)) ;;
  passwordFilled <- fill_first passwordInputSelectors emailPassword 15000 ;;
  (if passwordFilled then hret tt else hthrow (Raised 798)) ;;
  attempt (WaitForTimeout (Ms 1000)) ;;
  clicked <- tryClickSelectors loginButtonSelectors 15000 ;;
  (if clicked then hret tt else hthrow (Raised 815)) ;;
  attempt (WaitForTimeout (Ms 3000)) ;;
  skip_if_shown 30000 ;;
  skip_if_shown 15000 ;;
  tryClickSelectors cancelButtonSelectors 15000 ;;
  attempt (WaitForTimeout (Ms 3000)) ;;
  tryClickSelectors yesButtonSelectors 15000 ;;
  attempt (WaitForTimeout (Ms 5000)) ;;
  shown <- any_shown newMailSelectors 30000 ;;
  outlookLoaded <-
    (if shown then hret true
     else
       currentUrl <- ask LowerCaseUrl ;;
       hret (includes currentUrl (str "outlook") || includes currentUrl (str "mail"))) ;;
  attempt (WaitForTimeout (Ms 2000)) ;;
  hret outlookLoaded.

(** Lines 686-932.  [browser] is not [null] from the launch to the
    assignment of line 914, after which nothing is awaited: the [catch]
    block closes the browser exactly for what is thrown between the two. *)
Definition activateOutlook (email emailPassword : jsstring) : H Activation :=
  htry
    (attempt Launch ;;
     htry
       (outlookLoaded <- activation_steps email emailPassword ;;
        attempt BrowserClose ;;
        hret (if outlookLoaded
              then {| act_success := true; act_error := None |}
              else {| act_success := false; act_error := Some NotLoaded |}))
       (fun e =>
          htry (attempt BrowserClose) (fun _ => hret tt) ;;
          hret {| act_success := false; act_error := Some (Thrown e) |}))
    (fun e => hret {| act_success := false; act_error := Some (Thrown e) |}).

(** *** Waiting for a code typed by hand *)

(** What the page does in one turn of the loop of [waitForManualInput]:
    the answer of [element.inputValue()], the answer of the pause of one
    second, the time the two requests took and the time by which the pause
    was late. *)
Record look := {
  input_value : outcome jsstring;
  paused : outcome unit;
  elapsed : N;
  timer_lag : N
}.

(** [value && /^\d{6}$/.test(value.trim())] *)
Definition six_digits_typed (value : jsstring) : bool :=
  match value with [] => false | _ => true end
  && test g exactly_six_digits (Page.trim value).

(** Lines 506-515: the loop, entered at time [now]; [k] counts the turns.
    The result is [None] only when [fuel] turns were not enough, otherwise
    the answer, the time and the number of turns taken.  A rejection is
    caught at line 519 and gives [false]. *)
Fixpoint watch_input (fuel : nat) (world : nat -> look) (k : nat)
         (startTime timeout now : N) : option (bool * N * nat) :=
  if negb (now - startTime <? timeout)%N then Some (false, now, k)
  else
    match fuel with
    | 0 => None
    | S fuel' =>
        let t := world k in
        let now := (now + elapsed t)%N in
        match input_value t with
        | Err _ => Some (false, now, k)
        | Ok value =>
            if six_digits_typed value then Some (true, now, k)
            else
              match paused t with
              | Err _ => Some (false, now, k)
              | Ok _ =>
                  watch_input fuel' world (S k) startTime timeout
                              (now + 1000 + timer_lag t)%N
              end
        end
    end.

(** Lines 492-523.  [appeared] is the answer of the wait for the element,
    [startTime] the time after it. *)
Definition waitForManualInput (appeared : outcome unit) (fuel : nat) (world : nat -> look)
           (startTime timeout : N) : option (bool * N * nat) :=
  match appeared with
  | Err _ => Some (false, startTime, 0)
  | Ok _ => watch_input fuel world 0 startTime timeout startTime
  end.

(** A user who has typed the code at the third look. *)
Definition slow_typist (k : nat) : look :=
  {| input_value := Ok (match k with
                        | 0 => []
                        | 1 => str "4829"
                        | _ => str " 482913 "
                        end);
     paused := Ok tt; elapsed := 15; timer_lag := 2 |}.

(** A user who never types. *)
Definition absent_user (k : nat) : look :=
  {| input_value := Ok []; paused := Ok tt; elapsed := 15; timer_lag := 2 |}.

(** *** Running a script against a page *)

Inductive event : Type :=
| Asked {X : Type} (e : op X) (x : X).

(** The page answers the [n]-th request [e] with [w _ n e]. *)
Definition page_world : Type := forall X : Type, nat -> op X -> X.

Fixpoint run_script {A : Type} (w : page_world) (n : nat) (p : script A)
  : A * nat * list event :=
  match p with
  | Done a => (a, n, [])
  | Ask e k =>
      let x := w _ n e in
      let '(a, n', t) := run_script w (S n) (k x) in
      (a, n', Asked e x :: t)
  end.

Definition answer_of {A : Type} (r : A * nat * list event) : A := fst (fst r).
Definition asked_of {A : Type} (r : A * nat * list event) : list event := snd r.

(** Every way a script can go ends with [Q], said of what was asked on the
    way and of the value. *)
Fixpoint sat {A : Type} (Q : list event -> A -> Prop) (h : list event) (p : script A)
  : Prop :=
  match p with
  | Done a => Q h a
  | Ask e k => forall x, sat Q (h ++ [Asked e x]) (k x)
  end.

(** A script that is never rejected. *)
Definition never_rejects {A : Type} (p : H A) : Prop :=
  forall h, sat (fun _ r => exists a, r = Ok a) h p.

(** A request that was fulfilled. *)
Definition fulfilled (e : op (outcome unit)) : event := Asked e (Ok tt).

(** The requests of the typing of lines 447-470. *)
Definition typing (selector value : jsstring) (typeCharByChar : bool) : list event :=
  if typeCharByChar
  then flat_map (fun char => [fulfilled (KeyboardType char); fulfilled (WaitForTimeout Random)])
                value
  else [fulfilled (Fill selector value)].

(** The selector whose element the event waits to be visible. *)
Definition waited (ev : event) : option jsstring :=
  match ev with
  | Asked e _ =>
      match e with
      | WaitFor s visible_ _ => Some s
      | _ => None
      end
  end.

(** The event is a click that went through. *)
Definition is_click (ev : event) : option jsstring :=
  match ev with
  | Asked e x =>
      match e in op X return X -> option jsstring with
      | Click s => fun x => match x with Ok _ => Some s | Err _ => None end
      | _ => fun _ => None
      end x
  end.

(** The event is a text that [is_error_text] takes for an error. *)
Definition saw_error (ev : event) : bool :=
  match ev with
  | Asked e x =>
      match e in op X return X -> bool with
      | TextContent _ _ =>
          fun x => match x with Ok text => is_error_text text | Err _ => false end
      | _ => fun _ => false
      end x
  end.

Definition is_mouse_move (ev : event) : bool :=
  match ev with
  | Asked e _ => match e with MouseMove => true | _ => false end
  end.

(** What happened to the browser. *)
Inductive browser_step :=
| Opened
| CloseAsked (closed : bool).

Definition browser_step_of (ev : event) : option browser_step :=
  match ev with
  | Asked e x =>
      match e in op X return X -> option browser_step with
      | Launch => fun x => match x with Ok _ => Some Opened | Err _ => None end
      | BrowserClose =>
          fun x => Some (CloseAsked (match x with Ok _ => true | Err _ => false end))
      | _ => fun _ => None
      end x
  end.

(** The event is a fill that went through: the selector and the value. *)
Definition is_fill (ev : event) : option (jsstring * jsstring) :=
  match ev with
  | Asked e x =>
      match e in op X return X -> option (jsstring * jsstring) with
      | Fill s v => fun x => match x with Ok _ => Some (s, v) | Err _ => None end
      | _ => fun _ => None
      end x
  end.

(** From the history [h] to the history [h'] the browser went through
    [bs], the fills [fs] and the clicks [cs] went through. *)
Definition after (h : list event) (bs : list browser_step) (fs : list (jsstring * jsstring))
           (cs : list jsstring) (h' : list event) : Prop :=
  omap browser_step_of h' = omap browser_step_of h ++ bs
  /\ omap is_fill h' = omap is_fill h ++ fs
  /\ omap is_click h' = omap is_click h ++ cs.

(** An event that is no wait for an element to be visible, no click and no
    text of an error panel. *)
Definition plain (ev : event) : Prop :=
  waited ev = None /\ is_click ev = None /\ saw_error ev = false.

(** What [waitAndFill] asks last when it answers [true] (lines 440-470). *)
Definition filling (selector value : jsstring) (typeCharByChar : bool) : list event :=
  [ fulfilled (Clear selector); fulfilled (WaitForTimeout (Ms 300));
    fulfilled (Click selector); fulfilled (WaitForTimeout (Ms 200)) ]
  ++ typing selector value typeCharByChar.

(** No text of an error panel was read. *)
Definition no_error_seen (h : list event) : Prop :=
  forallb (fun ev => negb (saw_error ev)) h = true.

(** A page on which the field appears at the second attempt. *)
Definition late_field : page_world :=
  fun X n e =>
    match e in op X return X with
    | WaitFor _ _ _ => if n <? 1 then Err (Rejected (str "Timeout")) else Ok tt
    | WaitForTimeout _ => Ok tt
    | WaitForLoadState _ => Ok tt
    | BoundingBox _ => Ok false
    | HasViewport => false
    | Chance => true
    | PathSteps => 7
    | MouseMove => Ok tt
    | MouseWheel => Ok tt
    | Clear _ => Ok tt
    | Click _ => Ok tt
    | KeyboardType _ => Ok tt
    | Fill _ _ => Ok tt
    | CountAll _ => Ok 0
    | TextContent _ _ => Ok None
    | Launch => Ok tt
    | NewContext => Ok tt
    | NewPage => Ok tt
    | Goto _ => Ok tt
    | BrowserClose => Ok tt
    | LowerCaseUrl => str "https://outlook.live.com/mail/0/"
    end.

End Helpers.

(* ===================================================================== *)
(** ** The device connection ([deviceConnection.ts]) *)
(* ===================================================================== *)

Module Device.
Import JS.

(** What the service does to the outside: a socket is made, a message is
    emitted on a socket, a socket is disconnected. *)
Inductive emission :=
| IoOpen (socket : nat) (serverUrl : jsstring)
| EmitRegister (socket : nat) (token deviceId deviceName deviceType accountType : jsstring)
| EmitHeartbeat (socket : nat) (deviceId : jsstring)
| SocketDisconnect (socket : nat).

(** The fields of [DeviceConnectionService], with the sockets and interval
    timers named by numbers, and next to them what the fields do not show:
    the interval timers that were set and not cleared, how many sockets and
    timers were made, and what was done to the outside. *)
Record state := {
  socket : option nat;
  authToken : jsstring;
  deviceId : jsstring;
  deviceName : jsstring;
  accountType : jsstring;
  heartbeatInterval : option nat;
  timers : list nat;
  sockets : nat;
  intervals : nat;
  sent : list emission
}.

Definition initial : state :=
  {| socket := None; authToken := []; deviceId := []; deviceName := [];
     accountType := str "supplier"; heartbeatInterval := None;
     timers := []; sockets := 0; intervals := 0; sent := [] |}.

(** [this.socket?.connected], where [connected] is what the socket held
    says of itself. *)
Definition socket_connected (connected : bool) (s : state) : bool :=
  match socket s with
  | Some _ => connected
  | None => false
  end.

Definition emit (e : emission) (s : state) : state :=
  {| socket := socket s; authToken := authToken s; deviceId := deviceId s;
     deviceName := deviceName s; accountType := accountType s;
     heartbeatInterval := heartbeatInterval s; timers := timers s;
     sockets := sockets s; intervals := intervals s; sent := sent s ++ [e] |}.

(** Lines 101-106. *)
Definition stopHeartbeat (s : state) : state :=
  match heartbeatInterval s with
  | Some t =>
      {| socket := socket s; authToken := authToken s; deviceId := deviceId s;
         deviceName := deviceName s; accountType := accountType s;
         heartbeatInterval := None;
         timers := filter (fun t' => negb (Nat.eqb t' t)) (timers s);
         sockets := sockets s; intervals := intervals s; sent := sent s |}
  | None => s
  end.

(** Lines 82-88. *)
Definition sendHeartbeat (connected : bool) (s : state) : state :=
  match socket s with
  | Some k => if connected then emit (EmitHeartbeat k (deviceId s)) s else s
  | None => s
  end.

(** Lines 90-99. *)
Definition startHeartbeat (connected : bool) (s : state) : state :=
  let s := stopHeartbeat s in
  let s := sendHeartbeat connected s in
  {| socket := socket s; authToken := authToken s; deviceId := deviceId s;
     deviceName := deviceName s; accountType := accountType s;
     heartbeatInterval := Some (intervals s);
     timers := timers s ++ [intervals s];
     sockets := sockets s; intervals := S (intervals s); sent := sent s |}.

(** Lines 67-80; the device type is ['desktop'] on every platform. *)
Definition register (connected : bool) (s : state) : state :=
  match socket s with
  | Some k =>
      if connected
      then emit (EmitRegister k (authToken s) (deviceId s) (deviceName s) (str "desktop")
                              (accountType s)) s
      else s
  | None => s
  end.

(** Lines 108-116. *)
Definition disconnect (s : state) : state :=
  let s := stopHeartbeat s in
  match socket s with
  | Some k =>
      let s := emit (SocketDisconnect k) s in
      {| socket := None; authToken := authToken s; deviceId := deviceId s;
         deviceName := deviceName s; accountType := accountType s;
         heartbeatInterval := heartbeatInterval s; timers := timers s;
         sockets := sockets s; intervals := intervals s; sent := sent s |}
  | None => s
  end.

(** Lines 12-65, without the handlers, which are the events below. *)
Definition connect (connected : bool)
           (serverUrl token device name account : jsstring) (s : state) : state :=
  let s := if socket_connected connected s then disconnect s else s in
  let s := emit (IoOpen (sockets s) serverUrl) s in
  {| socket := Some (sockets s); authToken := token; deviceId := device;
     deviceName := name; accountType := account;
     heartbeatInterval := heartbeatInterval s; timers := timers s;
     sockets := S (sockets s); intervals := intervals s; sent := sent s |}.

(** What can happen to the service: a call of one of its two public
    methods, an event of a socket it made (the handlers do not look at
    which one), or a tick of an interval timer.  [connected] is what the
    socket held says of itself during the handler. *)
Inductive event :=
| CallConnect (connected : bool) (serverUrl token device name account : jsstring)
| CallDisconnect
| OnConnect (connected : bool)
| OnDisconnect
| OnRegistered (connected : bool) (success : bool)
| OnError (message : jsstring)
| OnConnectError
| Tick (timer : nat) (connected : bool).

(** One event; a timer that was cleared does not tick. *)
Definition step (s : state) (e : event) : option state :=
  match e with
  | CallConnect connected serverUrl token device name account =>
      Some (connect connected serverUrl token device name account s)
  | CallDisconnect => Some (disconnect s)
  | OnConnect connected => Some (startHeartbeat connected (register connected s))
  | OnDisconnect => Some (stopHeartbeat s)
  | OnRegistered connected success =>
      Some (if success then sendHeartbeat connected s else s)
  | OnError message =>
      Some (if eqs message (str "Authentication failed") then disconnect s else s)
  | OnConnectError => Some s
  | Tick timer connected =>
      if existsb (Nat.eqb timer) (timers s) then Some (sendHeartbeat connected s) else None
  end.

Fixpoint run (s : state) (es : list event) : option state :=
  match es with
  | [] => Some s
  | e :: es' =>
      match step s e with
      | Some s' => run s' es'
      | None => None
      end
  end.

(** The interval timers that are set are the one the service holds. *)
Definition held (s : state) : Prop :=
  timers s = match heartbeatInterval s with Some t => [t] | None => [] end.

Definition is_connect (e : event) : bool :=
  match e with
  | CallConnect _ _ _ _ _ _ => true
  | _ => false
  end.

(** A message emitted on a socket. *)
Definition is_message (e : emission) : bool :=
  match e with
  | EmitRegister _ _ _ _ _ _ | EmitHeartbeat _ _ => true
  | _ => false
  end.

(** A session: the server refuses the token after the second connection. *)
Definition refused_session : list event :=
  [ CallConnect false (str "wss://hub") (str "t1") (str "d1") (str "desk") (str "supplier");
    OnConnect true;
    OnRegistered true true;
    Tick 0 true;
    OnDisconnect;
    OnConnect true;
    OnError (str "Authentication failed") ].

End Device.

(* ===================================================================== *)
(** ** The generated name and device code ([part_001], lines 36-57) *)
(* ===================================================================== *)

Module Names.
Import JS.

Definition name_chars : jsstring := str "ABCDEFGHIJKLMNOPQRSTUVWXYZ".

(** Without [I], [O], [0] and [1]. *)
Definition code_chars : jsstring := str "ABCDEFGHJKLMNPQRSTUVWXYZ23456789".

(** [chars[Math.floor(Math.random() * chars.length)]], where [i] stands for
    the index drawn, which lies in [0 .. chars.length - 1]; an index outside
    the string reads [undefined]. *)
Definition pick (chars : jsstring) (i : nat) : option N := chars !! i.

(** Lines 36-41. *)
Definition generateRandomName (i j : nat) : option jsstring :=
  first ← pick name_chars i;
  second ← pick name_chars j;
  Some [first; second].

(** [Array.from({ length: 4 }, () => chars[...]).join('')] *)
Definition part (draws : nat * nat * nat * nat) : option jsstring :=
  let '(a, b, c, d) := draws in
  x1 ← pick code_chars a;
  x2 ← pick code_chars b;
  x3 ← pick code_chars c;
  x4 ← pick code_chars d;
  Some [x1; x2; x3; x4].

(** Lines 46-57. *)
Definition generateUserCode (draws1 draws2 : nat * nat * nat * nat) : option jsstring :=
  part1 ← part draws1;
  part2 ← part draws2;
  Some (part1 ++ [45%N] ++ part2).

(** The four indices are indices of [chars]. *)
Definition drawn (chars : jsstring) (draws : nat * nat * nat * nat) : Prop :=
  let '(a, b, c, d) := draws in
  a < length chars /\ b < length chars /\ c < length chars /\ d < length chars.

(** A capital letter or a digit that cannot be taken for another sign. *)
Definition unambiguous (c : N) : bool :=
  (in_range 65 90 c || in_range 50 57 c) && negb (N.eqb c 73) && negb (N.eqb c 79).

End Names.

(* ===================================================================== *)
(** * Properties *)
(* ===================================================================== *)

Import JS.

Lemma eqs_spec (a b : jsstring) : eqs a b = true <-> a = b.
Proof.
  revert b. induction a as [|x a IH]; intros [|y b]; simpl; split; intros H;
    try reflexivity; try discriminate.
  - apply andb_true_iff in H as [Hx Hab]. apply N.eqb_eq in Hx.
    apply IH in Hab. congruence.
  - injection H as -> ->. apply andb_true_iff. split.
    + apply N.eqb_refl.
    + apply IH. reflexivity.
Qed.

Lemma eqs_refl (a : jsstring) : eqs a a = true.
Proof. apply eqs_spec. reflexivity. Qed.

Lemma eqs_false (a b : jsstring) : a <> b -> eqs a b = false.
Proof.
  intros H. destruct (eqs a b) eqn:E; [|reflexivity].
  apply eqs_spec in E. contradiction.
Qed.

(* --------------------------------------------------------------------- *)
(** ** The extractor on the three sample texts *)
(* --------------------------------------------------------------------- *)

(** C5.  [extractCode] finds the code in the labelled sentence and finds
    none in the colour-like text nor in the text with the seven-digit
    number. *)
Theorem extractCode_samples :
  Extractor.extractCode (str "Your verification code is 482913") = Some (str "482913")
  /\ Extractor.extractCode (str "#482913 background") = None
  /\ Extractor.extractCode (str "order number 4829135") = None.
Proof. repeat split; vm_compute; reflexivity. Qed.

(** In the first sample the match is the one of the label pattern, at the
    words "code is". *)
Example label_match_of_first_sample :
  match_at Extractor.gi Extractor.pattern_label
    {| prev := Some 32%N; rest := str "code is 482913"; pos := 18 |}
  = Some {| m_index := 18; m_end := 32; m_group1 := Some (str "482913") |}.
Proof. vm_compute. reflexivity. Qed.

(* --------------------------------------------------------------------- *)
(** ** What the backends scan *)
(* --------------------------------------------------------------------- *)

Import Backends Extractor.

(** C4, refuted on the disposable-mailbox backend: for this mail the
    extractor is run once, on the joined string, which is neither the markup
    nor free of markup; the code that the text part alone yields is lost to
    the digits that follow it in the joined string. *)
Lemma disposable_backend_scans_joined_text_only :
  snd (detail_code sample_detail) = [fullText sample_detail]
  /\ ~ runs_against_both (snd (detail_code sample_detail))
         (str "<p>Order 1234567</p>") (str "Your verification code is 482913")
  /\ (forall t, In t (snd (detail_code sample_detail)) -> includes t (str "<p>") = true)
  /\ extractCode (str "Your verification code is 482913") = Some (str "482913")
  /\ fst (detail_code sample_detail) = None.
Proof.
  split; [reflexivity|]. split.
  - intros [H _]. simpl in H. destruct H as [H|[]].
    apply eqs_spec in H. vm_compute in H. discriminate.
  - split.
    + intros t [<-|[]]. vm_compute. reflexivity.
    + split; vm_compute; reflexivity.
Qed.

(** C4, as the code has it.  Graph backend: the stripped body is scanned
    when it is not empty; the markup is scanned only when that gave no code,
    and the preview only when the markup gave none either; the answer is the
    first code found.  Disposable backend: one scan, of the text part, a
    line feed and the HTML part joined. *)
Theorem backends_scan_order :
  (forall (htmlToText : jsstring -> jsstring) (m : GraphMail),
     let stripped := htmlToText (body_content m) in
     let first := match stripped with [] => None | _ => extractCode stripped end in
     snd (mail_code htmlToText m)
       = match stripped with [] => [] | _ => [stripped] end
         ++ match first with
            | Some _ => []
            | None => body_content m ::
                match extractCode (body_content m) with
                | Some _ => []
                | None => [bodyPreview m]
                end
            end
     /\ fst (mail_code htmlToText m)
        = match first with
          | Some c => Some c
          | None => match extractCode (body_content m) with
                    | Some c => Some c
                    | None => extractCode (bodyPreview m)
                    end
          end)
  /\ (forall d : EmailDetail,
        snd (detail_code d) = [default [] (text d) ++ [10%N] ++ default [] (html d)]
        /\ fst (detail_code d)
           = extractCode (default [] (text d) ++ [10%N] ++ default [] (html d))).
Proof.
  split.
  - intros htmlToText m. unfold mail_code, run_extractor. cbv zeta.
    destruct (htmlToText (body_content m)) as [|c s] eqn:Hs.
    + destruct (extractCode (body_content m)); split; reflexivity.
    + destruct (extractCode (c :: s)); [split; reflexivity|].
      destruct (extractCode (body_content m)); split; reflexivity.
  - intros d. split; reflexivity.
Qed.

(* --------------------------------------------------------------------- *)
(** ** The poll loop of the Graph backend *)
(* --------------------------------------------------------------------- *)

Section Poll.
Variables htmlToText toLowerCase : jsstring -> jsstring.

Local Abbreviation poll := (Backends.poll htmlToText toLowerCase).

Lemma refused_no_token (t : turn) :
  Forall refused (tokenAttempts t) -> refresh (tokenAttempts t) = None.
Proof.
  unfold tokenAttempts. intros H.
  apply Forall_cons in H as [H1 H]. apply Forall_cons in H as [H2 _].
  destruct H1 as [-> | ->], H2 as [-> | ->]; reflexivity.
Qed.

(** One turn of the loop, as an equation. *)
Lemma poll_turn (fuel : nat) (world : nat -> turn) (k : nat) (t0 timeout : N)
      (s : poll_state) :
  (now s - t0 < timeout * 1000)%N ->
  poll (S fuel) world k t0 timeout s =
    let t := world k in
    let s1 := spend (elapsed t) s in
    let accessToken := refresh (tokenAttempts t) in
    let s2 := match accessToken with
              | Some _ => Backends.logs [TokenRefreshed] s1
              | None => s1
              end in
    if no_token accessToken then Some (None, Backends.logs [TokenRefreshFailed] s2)
    else
      match mail_list t with
      | MailNotOk status =>
          poll fuel world (S k) t0 timeout
               (sleep (timer_lag t) (Backends.logs [MailFetchFailed status] s2))
      | MailThrows =>
          poll fuel world (S k) t0 timeout
               (sleep (timer_lag t) (Backends.logs [MailError] s2))
      | MailOk value =>
          match scan_mails htmlToText toLowerCase value (checkedIds s2) with
          | (Some code, ids) =>
              Some (Some code,
                    {| now := now s2; checkedIds := ids;
                       log := Backends.log s2 ++ [FoundCode code] |})
          | (None, ids) =>
              poll fuel world (S k) t0 timeout
                   (sleep (timer_lag t)
                      {| now := now s2; checkedIds := ids;
                         log := Backends.log s2 ++ [NoCodeYet] |})
          end
      end.
Proof.
  intros Hin. apply N.ltb_lt in Hin.
  unfold poll. cbn [Backends.poll]. rewrite Hin. reflexivity.
Qed.

Lemma poll_over (fuel : nat) (world : nat -> turn) (k : nat) (t0 timeout : N)
      (s : poll_state) :
  (timeout * 1000 <= now s - t0)%N ->
  poll fuel world k t0 timeout s = Some (None, Backends.logs [TimedOut] s).
Proof.
  intros Hout. apply N.ltb_ge in Hout.
  unfold poll. destruct fuel; cbn [Backends.poll]; rewrite Hout; reflexivity.
Qed.

(** Enough fuel for the time that is left always gives an answer. *)
Lemma poll_answers (world : nat -> turn) (t0 timeout : N) (fuel : nat) :
  forall (k : nat) (s : poll_state),
    (t0 <= now s)%N ->
    (timeout * 1000 - (now s - t0) <= 5000 * N.of_nat fuel)%N ->
    poll fuel world k t0 timeout s <> None.
Proof.
  induction fuel as [|fuel IH]; intros k s Ht Hleft.
  - rewrite poll_over; [discriminate | lia].
  - destruct (N.lt_ge_cases (now s - t0) (timeout * 1000)) as [Hin|Hout].
    + rewrite (poll_turn _ _ _ _ _ _ Hin). cbv zeta.
      destruct (no_token _); [discriminate|].
      set (s2 := match refresh (tokenAttempts (world k)) with
                 | Some _ => Backends.logs [TokenRefreshed] (spend (elapsed (world k)) s)
                 | None => spend (elapsed (world k)) s
                 end).
      assert (now s2 = (now s + elapsed (world k))%N) as Hnow
        by (subst s2; destruct (refresh _); reflexivity).
      clearbody s2.
      destruct (mail_list (world k)) as [value|status|].
      * destruct (scan_mails _ _ _ _) as [[code|] ids]; [discriminate|].
        apply IH; unfold sleep, checkInterval; cbn [now]; lia.
      * apply IH; unfold sleep, checkInterval, Backends.logs; cbn [now]; lia.
      * apply IH; unfold sleep, checkInterval, Backends.logs; cbn [now]; lia.
    + rewrite poll_over; [discriminate | lia].
Qed.

(** C8.  Within the wait budget: (a) when every token endpoint refuses, the
    call answers [null] at once, without sleeping and whatever the network
    would do later; (b) when the token is there and the mail-list fetch
    fails or is rejected, the loop sleeps one [checkInterval] and goes
    round again; (c) the retries end with the budget: [timeout / 5 + 1]
    turns always give an answer. *)
Theorem outlook_poll_failure_classes :
  (forall (world : nat -> turn) (k : nat) (t0 timeout : N) (s : poll_state) (fuel : nat),
     (now s - t0 < timeout * 1000)%N ->
     Forall refused (tokenAttempts (world k)) ->
     poll (S fuel) world k t0 timeout s
       = Some (None, Backends.logs [TokenRefreshFailed] (spend (elapsed (world k)) s)))
  /\ (forall (world : nat -> turn) (k : nat) (t0 timeout : N) (s : poll_state) (fuel : nat)
        (entry : log_entry),
        (now s - t0 < timeout * 1000)%N ->
        no_token (refresh (tokenAttempts (world k))) = false ->
        failed_fetch (mail_list (world k)) = Some entry ->
        poll (S fuel) world k t0 timeout s
          = poll fuel world (S k) t0 timeout
              {| now := (now s + elapsed (world k) + checkInterval + timer_lag (world k))%N;
                 checkedIds := checkedIds s;
                 log := Backends.log s ++ [TokenRefreshed; entry; Sleep checkInterval] |})
  /\ (forall (world : nat -> turn) (t0 timeout : N) (fuel : nat),
        (N.to_nat (timeout / 5) < fuel)%nat ->
        Backends.getOutlookVerificationCode htmlToText toLowerCase fuel world t0 timeout
          <> None).
Proof.
  split; [|split].
  - intros world k t0 timeout s fuel Hin Hall.
    rewrite (poll_turn _ _ _ _ _ _ Hin). cbv zeta.
    rewrite (refused_no_token _ Hall). reflexivity.
  - intros world k t0 timeout s fuel entry Hin Htok Hfetch.
    rewrite (poll_turn _ _ _ _ _ _ Hin). cbv zeta.
    rewrite Htok.
    destruct (refresh (tokenAttempts (world k))) as [tok|] eqn:Hr;
      [|discriminate].
    destruct (mail_list (world k)) as [value|status|]; cbn in Hfetch;
      [discriminate| |]; injection Hfetch as <-;
      unfold sleep, Backends.logs, spend; cbn [now checkedIds Backends.log];
      rewrite <- !app_assoc; reflexivity.
  - intros world t0 timeout fuel Hfuel.
    unfold Backends.getOutlookVerificationCode. apply poll_answers; cbn [now]; [lia|].
    assert (timeout / 5 < N.of_nat fuel)%N as H by lia.
    pose proof (N.mod_lt timeout 5 ltac:(lia)).
    pose proof (N.div_mod timeout 5 ltac:(lia)).
    lia.
Qed.

End Poll.

(** The three statements of [outlook_poll_failure_classes] on a network
    where nothing works, on one that refreshes the token and then fails to
    list the mail, and for the default budget of 120 seconds. *)
Lemma outlook_poll_failure_classes_witness :
  Backends.poll (fun x => x) (fun x => x) 1 dead_network 0 1000 120
     {| now := 1000; checkedIds := []; log := [] |}
   = Some (None, {| now := 1120; checkedIds := []; log := [TokenRefreshFailed] |})
  /\ Backends.poll (fun x => x) (fun x => x) 2 flaky_network 0 1000 120
        {| now := 1000; checkedIds := []; log := [] |}
      = Backends.poll (fun x => x) (fun x => x) 1 flaky_network 1 1000 120
          {| now := 6123; checkedIds := [];
             log := [TokenRefreshed; MailFetchFailed 503; Sleep 5000] |}
  /\ Backends.getOutlookVerificationCode (fun x => x) (fun x => x) 25 flaky_network 1000 120
      <> None.
Proof.
  destruct (outlook_poll_failure_classes (fun x => x) (fun x => x)) as (Ha & Hb & Hc).
  split; [|split].
  - apply (Ha dead_network 0 1000%N 120%N {| now := 1000; checkedIds := []; log := [] |} 0).
    + reflexivity.
    + unfold tokenAttempts.
      constructor; [left; reflexivity|constructor; [right; reflexivity|constructor]].
  - apply (Hb flaky_network 0 1000%N 120%N {| now := 1000; checkedIds := []; log := [] |} 1
              (MailFetchFailed 503)); reflexivity.
  - apply (Hc flaky_network 1000%N 120%N 25). apply Nat.ltb_lt. reflexivity.
Defined.

(* --------------------------------------------------------------------- *)
(** ** Fingerprints *)
(* --------------------------------------------------------------------- *)

Import Fingerprint.

Lemma platform_of_pool_is_consistent (ua : jsstring) :
  In ua USER_AGENTS ->
  (includes ua (str "iPhone") = true -> getPlatformFromUserAgent ua = str "iPhone")
  /\ (includes ua (str "iPad") = true -> getPlatformFromUserAgent ua = str "iPad")
  /\ (includes ua (str "Android") = true ->
        getPlatformFromUserAgent ua = str "Linux armv8l"
        /\ In (getPlatformFromUserAgent ua) PLATFORMS
        /\ startsWith (getPlatformFromUserAgent ua) (str "Linux") = true).
Proof.
  intros Hin. unfold USER_AGENTS in Hin. cbn [In] in Hin.
  repeat (destruct Hin as [<- | Hin];
          [ split; [|split]; intros H; vm_compute in H; try discriminate H;
            repeat split; vm_compute; auto 10 | ]).
  destruct Hin.
Qed.

(** C9.  Every fingerprint the smart generator returns takes its user agent
    from the pool and has the platform of that user agent's family; and
    with indices inside the pools the generator does return one. *)
Theorem smart_fingerprint_consistent :
  (forall (d : draws) (fp : BrowserFingerprint),
     generateSmartFingerprint d = Some fp ->
     In (userAgent fp) USER_AGENTS /\ consistent fp)
  /\ (forall d : draws,
        d_userAgent d < length USER_AGENTS -> d_viewport d < length VIEWPORTS ->
        d_locale d < length LOCALES -> d_timezone d < length TIMEZONES ->
        d_scale d < length DEVICE_SCALE_FACTORS ->
        exists fp, generateSmartFingerprint d = Some fp).
Proof.
  split.
  - intros d fp H. unfold generateSmartFingerprint, randomChoice in H.
    destruct (USER_AGENTS !! d_userAgent d) as [ua|] eqn:Hua; [|discriminate].
    cbn [mbind option_bind] in H.
    destruct (VIEWPORTS !! d_viewport d); [|discriminate].
    destruct (LOCALES !! d_locale d); [|discriminate].
    destruct (TIMEZONES !! d_timezone d); [|discriminate].
    destruct (DEVICE_SCALE_FACTORS !! d_scale d); [|discriminate].
    cbn in H. injection H as <-. cbn [userAgent platform].
    assert (In ua USER_AGENTS) as Hin.
    { apply list_elem_of_In. eapply list_elem_of_lookup_2. exact Hua. }
    split; [exact Hin|]. unfold consistent. cbn [userAgent platform].
    apply platform_of_pool_is_consistent. exact Hin.
  - intros d H1 H2 H3 H4 H5. unfold generateSmartFingerprint, randomChoice.
    apply lookup_lt_is_Some_2 in H1 as [ua ->].
    apply lookup_lt_is_Some_2 in H2 as [vp ->].
    apply lookup_lt_is_Some_2 in H3 as [lc ->].
    apply lookup_lt_is_Some_2 in H4 as [tz ->].
    apply lookup_lt_is_Some_2 in H5 as [sf ->].
    eexists. reflexivity.
Qed.

(** An iPad user agent drawn from the pool gets the platform [iPad]. *)
Lemma smart_fingerprint_consistent_witness :
  exists fp, generateSmartFingerprint sample_draws = Some fp
             /\ platform fp = str "iPad" /\ consistent fp.
Proof.
  destruct smart_fingerprint_consistent as [Hsound Htotal].
  destruct (Htotal sample_draws) as [fp Hfp]; try (vm_compute; lia).
  exists fp. split; [exact Hfp|].
  destruct (Hsound sample_draws fp Hfp) as [_ Hc].
  split; [|exact Hc].
  vm_compute in Hfp. injection Hfp as <-. reflexivity.
Defined.

(* --------------------------------------------------------------------- *)
(** ** The account store *)
(* --------------------------------------------------------------------- *)

Import Store.

(** The list after [updateAccountStatus], position by position. *)
Lemma updateAccountStatus_lookup (i : jsstring) (updates : Updates) (s : AutoRegisterState)
      (k : nat) (acc : RegisterAccount) :
  accounts s !! k = Some acc ->
  accounts (updateAccountStatus i updates s) !! k
    = Some (if decide (id acc = i) then spread acc updates else acc).
Proof.
  unfold updateAccountStatus, set_accounts. cbn [accounts].
  intros Hk. rewrite list_lookup_fmap, Hk. cbn. f_equal.
  destruct (decide (id acc = i)) as [->|Hne].
  - rewrite eqs_refl. reflexivity.
  - rewrite (eqs_false _ _ Hne). reflexivity.
Qed.

Lemma updateAccountStatus_length (i : jsstring) (updates : Updates) (s : AutoRegisterState) :
  length (accounts (updateAccountStatus i updates s)) = length (accounts s).
Proof. unfold updateAccountStatus, set_accounts. cbn [accounts]. apply length_map. Qed.

(** C10.  [updateAccountStatus id updates] rewrites the accounts whose [id]
    is the given one with the keys of [updates] and leaves every other
    account, the length and the order of the list, and the rest of the
    store as they were; without such an account the list is unchanged. *)
Theorem updateAccountStatus_frame (i : jsstring) (updates : Updates) (s : AutoRegisterState) :
  length (accounts (updateAccountStatus i updates s)) = length (accounts s)
  /\ (forall (k : nat) (acc : RegisterAccount),
        accounts s !! k = Some acc ->
        accounts (updateAccountStatus i updates s) !! k
          = Some (if decide (id acc = i) then spread acc updates else acc))
  /\ (forall acc : RegisterAccount,
        id (spread acc updates) = default (id acc) (u_id updates)
        /\ email (spread acc updates) = default (email acc) (u_email updates)
        /\ status (spread acc updates) = default (status acc) (u_status updates)
        /\ awsName (spread acc updates) = default (awsName acc) (u_awsName updates)
        /\ ssoToken (spread acc updates) = default (ssoToken acc) (u_ssoToken updates)
        /\ error (spread acc updates) = default (error acc) (u_error updates))
  /\ ((forall acc, In acc (accounts s) -> id acc <> i) ->
        updateAccountStatus i updates s = s)
  /\ isRunning (updateAccountStatus i updates s) = isRunning s
  /\ Store.logs (updateAccountStatus i updates s) = Store.logs s
  /\ concurrency (updateAccountStatus i updates s) = concurrency s
  /\ shouldStop (updateAccountStatus i updates s) = shouldStop s.
Proof.
  split; [apply updateAccountStatus_length|].
  split; [intros k acc; apply updateAccountStatus_lookup|].
  unfold updateAccountStatus, set_accounts. cbn [accounts isRunning Store.logs concurrency shouldStop].
  split; [intros acc; repeat split|]. split; [|repeat split].
  intros Hnone. destruct s as [accs r l c st]. cbn in *. f_equal.
  induction accs as [|a accs IH]; [reflexivity|]. cbn.
  rewrite (eqs_false (id a) i) by (apply Hnone; left; reflexivity).
  f_equal. apply IH. intros acc Hacc. apply Hnone. right. exact Hacc.
Qed.

(** On the sample store: the account [b] is marked, its neighbours are
    not, and an unknown id changes nothing. *)
Lemma updateAccountStatus_frame_witness :
  accounts (updateAccountStatus (str "b") (Pool.just_status registering) sample_store) !! 1
    = Some {| id := str "b"; email := str "b@example.com"; status := registering;
              awsName := None; ssoToken := None; error := None |}
  /\ accounts (updateAccountStatus (str "b") (Pool.just_status registering) sample_store) !! 0
     = accounts sample_store !! 0
  /\ updateAccountStatus (str "zz") (Pool.just_status registering) sample_store = sample_store.
Proof.
  pose proof (updateAccountStatus_frame (str "b") (Pool.just_status registering) sample_store)
    as (_ & Hk & _).
  pose proof (updateAccountStatus_frame (str "zz") (Pool.just_status registering) sample_store)
    as (_ & _ & _ & Hnone & _).
  split; [|split].
  - rewrite (Hk 1 _ eq_refl). reflexivity.
  - rewrite (Hk 0 _ eq_refl). reflexivity.
  - apply Hnone. intros acc Hacc Hid.
    cbn in Hacc. repeat (destruct Hacc as [<- | Hacc]; [vm_compute in Hid; discriminate|]).
    destruct Hacc.
Defined.

(* --------------------------------------------------------------------- *)
(** ** The worker pool *)
(* --------------------------------------------------------------------- *)

Import Pool.

Lemma remove_first_spec (h : nat) (run : list nat) :
  NoDup run ->
  NoDup (remove_first h run)
  /\ (forall h', h' ∈ remove_first h run <-> h' ∈ run /\ h' <> h)
  /\ length (remove_first h run) <= length run.
Proof.
  induction 1 as [|x run Hx Hnd IH]; cbn.
  - split; [constructor|]. split; [|lia]. intros h'. split.
    + intros H. inversion H.
    + intros [H _]. inversion H.
  - destruct (Nat.eqb_spec x h) as [->|Hne].
    + split; [exact Hnd|]. split; [|lia]. intros h'. rewrite elem_of_cons.
      split.
      * intros H. split; [right; exact H|]. intros ->. contradiction.
      * intros [[->|H] Hneq]; [contradiction|exact H].
    + destruct IH as (IH1 & IH2 & IH3). split; [|split; [|cbn; lia]].
      * constructor; [|exact IH1]. rewrite IH2. tauto.
      * intros h'. rewrite !elem_of_cons, IH2. split.
        -- intros [->|[H1 H2]]; [split; [left; reflexivity|exact Hne]|].
           split; [right; exact H1|exact H2].
        -- intros [[->|H1] H2]; [left; reflexivity|right; split; assumption].
Qed.

Lemma live_in_flight (t : task) : in_flight t = true -> live t = true.
Proof. unfold in_flight, live. destruct (t_phase t); cbn; congruence. Qed.

(** As many promises are unsettled as [running] has entries. *)
Lemma tracked_length (ts : list task) :
  forall run, tracked ts run -> length (filter live ts) = length run.
Proof.
  induction ts as [|t ts IH] using rev_ind; intros run [Hnd Hrun].
  - destruct run as [|h run]; [reflexivity|].
    destruct (proj1 (Hrun h)) as (t & Ht & _); [left|]. discriminate Ht.
  - rewrite filter_app, length_app.
    destruct (live t) eqn:Hlive.
    + assert (length ts ∈ run) as Hin.
      { apply Hrun. exists t. split; [|exact Hlive].
        apply lookup_snoc_Some. right. split; reflexivity. }
      apply elem_of_Permutation in Hin as [k Hk].
      rewrite Hk in Hnd. apply NoDup_cons in Hnd as [Hnotin Hnd].
      rewrite Hk. cbn [length].
      rewrite (IH k).
      * rewrite filter_cons_True by (rewrite Hlive; exact I). cbn. lia.
      * split; [exact Hnd|]. intros h. split.
        -- intros Hh. destruct (proj1 (Hrun h)) as (t' & Ht' & Hl').
           { rewrite Hk. right. exact Hh. }
           apply lookup_snoc_Some in Ht' as [[_ Ht']|[-> _]].
           ++ exists t'. split; assumption.
           ++ contradiction.
        -- intros (t' & Ht' & Hl').
           assert (h ∈ run) as Hh.
           { apply Hrun. exists t'. split; [|exact Hl'].
             apply lookup_snoc_Some. left. split; [|exact Ht'].
             eapply lookup_lt_Some. exact Ht'. }
           rewrite Hk in Hh. apply elem_of_cons in Hh as [->|Hh]; [|exact Hh].
           apply lookup_lt_Some in Ht'. lia.
    + rewrite filter_cons_False by (rewrite Hlive; exact (fun F => F)). cbn.
      rewrite (IH run); [lia|]. split; [exact Hnd|]. intros h. split.
      * intros Hh. destruct (proj1 (Hrun h) Hh) as (t' & Ht' & Hl').
        apply lookup_snoc_Some in Ht' as [[_ Ht']|[_ <-]].
        -- exists t'. split; assumption.
        -- congruence.
      * intros (t' & Ht' & Hl'). apply Hrun. exists t'. split; [|exact Hl'].
        apply lookup_snoc_Some. left. split; [|exact Ht'].
        eapply lookup_lt_Some. exact Ht'.
Qed.

Lemma in_flight_le_live (ts : list task) :
  length (filter in_flight ts) <= length (filter live ts).
Proof.
  induction ts as [|t ts IH]; [reflexivity|].
  destruct (in_flight t) eqn:Hf.
  - rewrite (filter_cons_True in_flight) by (rewrite Hf; exact I).
    rewrite (filter_cons_True live) by (rewrite (live_in_flight _ Hf); exact I).
    cbn. lia.
  - rewrite (filter_cons_False in_flight) by (rewrite Hf; exact (fun F => F)).
    destruct (live t) eqn:Hl.
    + rewrite (filter_cons_True live) by (rewrite Hl; exact I). cbn. lia.
    + rewrite (filter_cons_False live) by (rewrite Hl; exact (fun F => F)). exact IH.
Qed.

Lemma tracked_push (ts : list task) (run : list nat) (t : task) :
  tracked ts run -> live t = true -> tracked (ts ++ [t]) (run ++ [length ts]).
Proof.
  intros [Hnd Hrun] Hlive. split.
  - apply NoDup_app. split; [exact Hnd|]. split; [|apply NoDup_singleton].
    intros h Hh Hin. apply list_elem_of_singleton in Hin as ->.
    apply Hrun in Hh as (t' & Ht' & _). apply lookup_lt_Some in Ht'. lia.
  - intros h. rewrite elem_of_app, list_elem_of_singleton, Hrun. split.
    + intros [(t' & Ht' & Hl')| ->].
      * exists t'. split; [|exact Hl']. apply lookup_snoc_Some. left.
        split; [eapply lookup_lt_Some|]; exact Ht'.
      * exists t. split; [|exact Hlive]. apply lookup_snoc_Some. right. tauto.
    + intros (t' & Ht' & Hl'). apply lookup_snoc_Some in Ht' as [[_ Ht']|[-> _]].
      * left. exists t'. tauto.
      * right. reflexivity.
Qed.

Lemma tracked_flush (ts : list task) (run : list nat) :
  tracked ts run -> tracked (flush_tasks ts) (flush_run ts run).
Proof.
  intros [Hnd Hrun]. split; [apply NoDup_filter; exact Hnd|].
  intros h. unfold flush_run, flush_tasks. rewrite list_elem_of_filter, Hrun.
  unfold has_phase. rewrite list_lookup_fmap. split.
  - intros [Hns (t & Ht & Hl)]. rewrite Ht in *. cbn.
    destruct (phase_eqb (t_phase t) Skipped); [destruct Hns|].
    exists t. tauto.
  - intros (t' & Ht' & Hl'). destruct (ts !! h) as [t|]; [|discriminate].
    cbn in Ht'. injection Ht' as <-.
    destruct (phase_eqb (t_phase t) Skipped); [discriminate Hl'|].
    split; [exact I|]. exists t. tauto.
Qed.

Lemma tracked_alter_live (ts : list task) (run : list nat) (h : nat) (p : phase) :
  tracked ts run -> p <> Settled -> has_phase ts InFlight h = true ->
  tracked (alter (set_phase p) h ts) run.
Proof.
  intros [Hnd Hrun] Hp Hh. split; [exact Hnd|]. intros h'. rewrite Hrun.
  unfold has_phase in Hh. destruct (ts !! h) as [t|] eqn:Ht; [|discriminate].
  destruct (decide (h = h')) as [<-|Hne].
  - rewrite list_lookup_alter_eq, Ht. cbn. split; intros _.
    + eexists. split; [reflexivity|]. unfold live. cbn. destruct p; cbn; congruence.
    + exists t. split; [reflexivity|]. unfold live.
      destruct (t_phase t); cbn in *; congruence.
  - rewrite list_lookup_alter_ne by exact Hne. reflexivity.
Qed.

Lemma tracked_settle (ts : list task) (run : list nat) (h : nat) :
  tracked ts run -> tracked (alter (set_phase Settled) h ts) (remove_first h run).
Proof.
  intros [Hnd Hrun]. destruct (remove_first_spec h run Hnd) as (H1 & H2 & _).
  split; [exact H1|]. intros h'. rewrite H2, Hrun.
  destruct (decide (h = h')) as [<-|Hne].
  - rewrite list_lookup_alter_eq. split.
    + intros [_ Hneq]. contradiction.
    + intros (t' & Ht' & Hl'). destruct (ts !! h); [|discriminate].
      cbn in Ht'. injection Ht' as <-. discriminate Hl'.
  - rewrite list_lookup_alter_ne by exact Hne. split.
    + intros [H _]. exact H.
    + intros H. split; [exact H|]. congruence.
Qed.

Lemma registerSingleAccount_live (a : RegisterAccount) (st st' : AutoRegisterState) (ph : phase) :
  registerSingleAccount a st = (st', ph) ->
  (ph = Skipped \/ ph = InFlight)
  /\ shouldStop st' = shouldStop st
  /\ (shouldStop st = false -> is_pending a = true -> ph = InFlight).
Proof.
  unfold registerSingleAccount, is_pending.
  destruct (shouldStop st) eqn:Hs.
  - intros [= <- <-]. split; [left; reflexivity|]. split; [exact Hs|discriminate].
  - destruct (status a); intros [= <- <-]; cbn; rewrite ?Hs; split; auto;
      split; auto; discriminate.
Qed.

(** What the fill loop keeps. *)
Lemma fill_keeps (concurrency : nat) (q : list RegisterAccount) :
  forall st run ts q' st' run' ts',
    fill concurrency q st run ts = (q', st', run', ts') ->
    tracked ts run -> length run <= concurrency ->
    tracked ts' run' /\ length run' <= concurrency
    /\ map t_account ts' ++ q' = map t_account ts ++ q
    /\ shouldStop st' = shouldStop st
    /\ exists new, ts' = ts ++ new
         /\ (shouldStop st = false -> Forall (fun a => is_pending a = true) q ->
             Forall (fun t => t_launched t = true) new).
Proof.
  induction q as [|a q IH]; intros st run ts q' st' run' ts' Hfill Htr Hlen.
  - cbn in Hfill. injection Hfill as <- <- <- <-.
    split; [exact Htr|]. split; [exact Hlen|]. split; [reflexivity|].
    split; [reflexivity|]. exists []. rewrite app_nil_r. split; [reflexivity|].
    intros _ _. constructor.
  - cbn [fill] in Hfill. destruct (length run <? concurrency) eqn:Hlt.
    + apply Nat.ltb_lt in Hlt.
      destruct (registerSingleAccount a st) as [st1 ph] eqn:Hreg.
      destruct (registerSingleAccount_live _ _ _ _ Hreg) as (Hph & Hstop & Hpend).
      apply IH in Hfill as (H1 & H2 & H3 & H4 & new & H5 & H6).
      * split; [exact H1|]. split; [exact H2|]. split.
        { rewrite H3, map_app. cbn. rewrite <- app_assoc. reflexivity. }
        split; [congruence|].
        exists ({| t_account := a; t_phase := ph; t_launched := phase_eqb ph InFlight |} :: new).
        split; [rewrite H5, <- app_assoc; reflexivity|].
        intros Hs Hall. apply Forall_cons in Hall as [Ha Hall]. constructor.
        -- cbn. rewrite (Hpend Hs Ha). reflexivity.
        -- apply H6; [congruence|exact Hall].
      * apply tracked_push; [exact Htr|]. unfold live. cbn.
        destruct Hph as [-> | ->]; reflexivity.
      * rewrite length_app. cbn. lia.
    + injection Hfill as <- <- <- <-.
      split; [exact Htr|]. split; [exact Hlen|]. split; [reflexivity|].
      split; [reflexivity|].
      exists []. rewrite app_nil_r. split; [reflexivity|]. intros _ _. constructor.
Qed.

(** The pool's bookkeeping: [running] tracks the unsettled promises and is
    never longer than the limit. *)
Lemma turn_bounded (concurrency : nat) (s : state) :
  tracked (tasks s) (running s) -> length (running s) <= concurrency ->
  tracked (tasks (turn concurrency s)) (running (turn concurrency s))
  /\ length (running (turn concurrency s)) <= concurrency.
Proof.
  intros Htr Hlen. unfold turn.
  assert (tracked (tasks s) [] -> running s = [] ->
          tracked (tasks s) [] /\ length ([] : list nat) <= concurrency) as Hnil
    by (intros H _; split; [exact H|cbn; lia]).
  destruct (queue s) as [|a q] eqn:Hq, (running s) as [|h r] eqn:Hr;
    try (cbn [tasks running]; apply Hnil; [exact Htr|reflexivity]).
  all: destruct (shouldStop (store s)); [cbn [tasks running]; tauto|].
  all: destruct (fill concurrency _ (store s) _ (tasks s)) as [[[q' st'] run'] ts'] eqn:Hfill;
         destruct (fill_keeps _ _ _ _ _ _ _ _ _ Hfill Htr Hlen) as (H1 & H2 & _);
         destruct run' as [|h' r']; cbn [tasks running]; [tauto|];
         split; [apply tracked_flush; exact H1|];
         unfold flush_run; etransitivity; [apply length_filter|exact H2].
Qed.

Lemma step_bounded (concurrency : nat) (s s' : state) (e : event) :
  step concurrency s e = Some s' ->
  tracked (tasks s) (running s) -> length (running s) <= concurrency ->
  tracked (tasks s') (running s') /\ length (running s') <= concurrency.
Proof.
  intros Hstep Htr Hlen. destruct e as [| |h r|h]; cbn [step] in Hstep.
  - destruct (at_ s) as [|raced| |].
    + injection Hstep as <-. apply turn_bounded; assumption.
    + destruct (existsb _ raced); [|discriminate]. injection Hstep as <-.
      apply turn_bounded; assumption.
    + discriminate.
    + injection Hstep as <-. tauto.
  - destruct (suspended s); [|discriminate]. injection Hstep as <-. cbn. tauto.
  - destruct (suspended s); [|discriminate].
    destruct (tasks s !! h) as [t|] eqn:Ht; [|discriminate].
    destruct (t_phase t) eqn:Hph; try discriminate. injection Hstep as <-.
    assert (has_phase (tasks s) InFlight h = true) as Hh
      by (unfold has_phase; rewrite Ht, Hph; reflexivity).
    destruct (remove_first_spec h (running s) (proj1 Htr)) as (_ & _ & Hle).
    unfold on_result.
    destruct r as [ok tok name err|err]; [destruct (ok && truthy tok)|];
      cbn [set_task tasks running];
      (split; [first [apply tracked_alter_live; [exact Htr|discriminate|exact Hh]
                     |apply tracked_settle; exact Htr] | lia]).
  - destruct (suspended s && has_phase (tasks s) Importing h); [|discriminate].
    injection Hstep as <-. cbn [set_task tasks running].
    destruct (remove_first_spec h (running s) (proj1 Htr)) as (_ & _ & Hle).
    split; [apply tracked_settle; exact Htr|lia].
Qed.

Lemma run_bounded (concurrency : nat) (es : list event) :
  forall s s', run concurrency s es = Some s' ->
    tracked (tasks s) (running s) -> length (running s) <= concurrency ->
    tracked (tasks s') (running s') /\ length (running s') <= concurrency.
Proof.
  induction es as [|e es IH]; intros s s' Hrun Htr Hlen; cbn in Hrun.
  - injection Hrun as <-. tauto.
  - destruct (step concurrency s e) as [s1|] eqn:Hstep; [|discriminate].
    destruct (step_bounded _ _ _ _ Hstep Htr Hlen) as [H1 H2].
    eapply IH; eassumption.
Qed.

Lemma start_tracked (st : AutoRegisterState) :
  tracked (tasks (start st)) (running (start st)).
Proof.
  split; [constructor|]. intros h. cbn. split.
  - intros H. inversion H.
  - intros (t & Ht & _). discriminate Ht.
Qed.

Lemma accounts_alter (p : phase) (h : nat) (ts : list task) :
  map t_account (alter (set_phase p) h ts) = map t_account ts.
Proof.
  revert h. induction ts as [|t ts IH]; intros [|h]; cbn; try reflexivity.
  f_equal. apply IH.
Qed.

Lemma launched_alter (p : phase) (h : nat) (ts : list task) :
  Forall (fun t => t_launched t = true) ts ->
  Forall (fun t => t_launched t = true) (alter (set_phase p) h ts).
Proof. intros H. apply Forall_alter; [exact H|]. intros t _ Ht. exact Ht. Qed.

Lemma accounts_flush (ts : list task) :
  map t_account (flush_tasks ts) = map t_account ts.
Proof.
  unfold flush_tasks. induction ts as [|t ts IH]; [reflexivity|]. cbn.
  rewrite IH. destruct (phase_eqb (t_phase t) Skipped); reflexivity.
Qed.

Lemma launched_flush (ts : list task) :
  Forall (fun t => t_launched t = true) ts ->
  Forall (fun t => t_launched t = true) (flush_tasks ts).
Proof.
  unfold flush_tasks. induction 1 as [|t ts Ht Hts IH]; cbn; constructor; [|exact IH].
  destruct (phase_eqb (t_phase t) Skipped); exact Ht.
Qed.

Lemma fill_stop_flag (concurrency : nat) (q : list RegisterAccount) :
  forall st run ts q' st' run' ts',
    fill concurrency q st run ts = (q', st', run', ts') ->
    shouldStop st' = shouldStop st.
Proof.
  induction q as [|a q IH]; intros st run ts q' st' run' ts' Hfill; cbn [fill] in Hfill.
  - injection Hfill as _ <- _ _. reflexivity.
  - destruct (length run <? concurrency).
    + destruct (registerSingleAccount a st) as [st1 ph] eqn:Hreg.
      apply registerSingleAccount_live in Hreg as (_ & Hk & _).
      apply IH in Hfill. congruence.
    + injection Hfill as _ <- _ _. reflexivity.
Qed.

(** The stop flag is only ever raised, and only by the stop button. *)
Lemma step_stop_flag (concurrency : nat) (s s' : state) (e : event) :
  step concurrency s e = Some s' ->
  shouldStop (store s') = shouldStop (store s) || is_stop e.
Proof.
  intros Hstep. destruct e as [| |h r|h]; cbn [step is_stop] in *;
    rewrite ?orb_false_r, ?orb_true_r.
  - assert (shouldStop (store (turn concurrency s)) = shouldStop (store s)) as Hturn.
    { unfold turn.
      destruct (queue s) as [|a q], (running s) as [|h r]; try reflexivity.
      all: destruct (shouldStop (store s)) eqn:Hs; [exact Hs|].
      all: destruct (fill concurrency _ (store s) _ (tasks s)) as [[[q' st'] run'] ts'] eqn:Hfill.
      all: apply fill_stop_flag in Hfill.
      all: destruct run'; cbn [store]; congruence. }
    destruct (at_ s) as [|raced| |].
    + injection Hstep as <-. exact Hturn.
    + destruct (existsb _ raced); [|discriminate]. injection Hstep as <-. exact Hturn.
    + discriminate.
    + injection Hstep as <-. reflexivity.
  - destruct (suspended s); [|discriminate]. injection Hstep as <-. reflexivity.
  - destruct (suspended s); [|discriminate].
    destruct (tasks s !! h) as [t|]; [|discriminate].
    destruct (t_phase t); try discriminate. injection Hstep as <-.
    unfold on_result. destruct r as [ok tok name err|err];
      [destruct (ok && truthy tok)|]; reflexivity.
  - destruct (suspended s && has_phase (tasks s) Importing h); [|discriminate].
    injection Hstep as <-. reflexivity.
Qed.

Lemma turn_draining (concurrency : nat) (q0 : list RegisterAccount) (s : state) :
  Forall (fun a => is_pending a = true) q0 ->
  tracked (tasks s) (running s) -> length (running s) <= concurrency ->
  shouldStop (store s) = false ->
  draining q0 s -> draining q0 (turn concurrency s).
Proof.
  intros Hq0 Htr Hlen Hs (Hacc & Hl & Hex). unfold turn, draining.
  assert (Forall (fun a => is_pending a = true) (queue s)) as Hpend.
  { rewrite <- Hacc in Hq0. apply Forall_app in Hq0. tauto. }
  destruct (queue s) as [|a q] eqn:Hq, (running s) as [|h r] eqn:Hr;
    [cbn; tauto| | |].
  all: rewrite Hs.
  all: destruct (fill concurrency _ (store s) _ (tasks s)) as [[[q' st'] run'] ts'] eqn:Hfill;
         destruct (fill_keeps _ _ _ _ _ _ _ _ _ Hfill Htr Hlen)
           as (_ & _ & H3 & _ & new & H5 & H6);
         assert (Forall (fun t => t_launched t = true) ts') as Hl'
           by (rewrite H5; apply Forall_app; split; [exact Hl|apply H6; assumption]);
         destruct run' as [|h' r']; cbn [tasks queue running at_];
         (split; [|split; [|discriminate]]);
         rewrite ?accounts_flush; try (apply launched_flush); try assumption;
         rewrite H3; exact Hacc.
Qed.

Lemma step_draining (concurrency : nat) (q0 : list RegisterAccount) (s s' : state) (e : event) :
  Forall (fun a => is_pending a = true) q0 ->
  step concurrency s e = Some s' ->
  tracked (tasks s) (running s) -> length (running s) <= concurrency ->
  shouldStop (store s) = false -> is_stop e = false ->
  draining q0 s -> draining q0 s'.
Proof.
  intros Hq0 Hstep Htr Hlen Hs He Hd. destruct e as [| |h r|h]; cbn [step] in Hstep.
  - destruct (at_ s) as [|raced| |] eqn:Hat.
    + injection Hstep as <-. apply turn_draining; assumption.
    + destruct (existsb _ raced); [|discriminate]. injection Hstep as <-.
      apply turn_draining; assumption.
    + discriminate.
    + injection Hstep as <-. exact Hd.
  - discriminate He.
  - destruct (suspended s); [|discriminate].
    destruct (tasks s !! h) as [t|] eqn:Ht; [|discriminate].
    destruct (t_phase t) eqn:Hph; try discriminate. injection Hstep as <-.
    destruct Hd as (Hacc & Hl & Hex). unfold on_result, draining.
    destruct r as [ok tok name err|err]; [destruct (ok && truthy tok)|];
      cbn [set_task tasks queue running at_]; rewrite accounts_alter;
      (split; [exact Hacc|]); (split; [apply launched_alter; exact Hl|]);
      intros Hexit; destruct (Hex Hexit) as [E1 E2]; rewrite ?E2; tauto.
  - destruct (suspended s && has_phase (tasks s) Importing h); [|discriminate].
    injection Hstep as <-. destruct Hd as (Hacc & Hl & Hex). unfold draining.
    cbn [set_task tasks queue running at_]. rewrite accounts_alter.
    split; [exact Hacc|]. split; [apply launched_alter; exact Hl|].
    intros Hexit. destruct (Hex Hexit) as [E1 E2]. rewrite E2. tauto.
Qed.

Lemma run_draining (concurrency : nat) (q0 : list RegisterAccount) (es : list event) :
  Forall (fun a => is_pending a = true) q0 ->
  forall s s', run concurrency s es = Some s' ->
    tracked (tasks s) (running s) -> length (running s) <= concurrency ->
    shouldStop (store s) = false -> existsb is_stop es = false ->
    draining q0 s -> draining q0 s'.
Proof.
  intros Hq0. induction es as [|e es IH]; intros s s' Hrun Htr Hlen Hs Hes Hd; cbn in Hrun.
  - injection Hrun as <-. exact Hd.
  - destruct (step concurrency s e) as [s1|] eqn:Hstep; [|discriminate].
    cbn in Hes. apply orb_false_iff in Hes as [He Hes].
    destruct (step_bounded _ _ _ _ Hstep Htr Hlen) as [H1 H2].
    apply (IH s1 s' Hrun H1 H2); [|exact Hes|].
    + rewrite (step_stop_flag _ _ _ _ Hstep), Hs, He. reflexivity.
    + eapply step_draining; eassumption.
Qed.

Lemma pending_filter (accs : list RegisterAccount) :
  Forall (fun a => is_pending a = true) (filter is_pending accs).
Proof.
  apply Forall_forall. intros a Ha. apply list_elem_of_filter in Ha as [Ha _].
  destruct (is_pending a); [reflexivity|destruct Ha].
Qed.

(** C2.  In every state a run of the pool reaches, at most [concurrency]
    registrations are under way; and when the stop button was never pressed
    and [runConcurrent] has returned, nothing is queued any more and every
    pending account of the store was handed to [autoRegisterAWS], in order,
    and its promise is settled. *)
Theorem pool_limit_and_drain (concurrency : nat) (st : AutoRegisterState)
        (es : list event) (s : state) :
  run concurrency (start st) es = Some s ->
  in_flight_count s <= concurrency
  /\ (existsb is_stop es = false -> at_ s = Exited ->
       queue s = []
       /\ map t_account (tasks s) = filter is_pending (accounts st)
       /\ Forall (fun t => t_launched t = true /\ t_phase t = Settled) (tasks s)).
Proof.
  intros Hrun.
  destruct (run_bounded _ _ _ _ Hrun (start_tracked st)) as [Htr Hlen]; [cbn; lia|].
  split.
  - unfold in_flight_count. etransitivity; [apply in_flight_le_live|].
    rewrite (tracked_length _ _ Htr). exact Hlen.
  - intros Hes Hexit.
    assert (draining (filter is_pending (accounts st)) s) as (Hacc & Hl & Hex).
    { eapply run_draining; try exact Hrun; try exact Hes.
      - apply pending_filter.
      - apply start_tracked.
      - cbn. lia.
      - reflexivity.
      - split; [reflexivity|]. split; [constructor|]. discriminate. }
    destruct (Hex Hexit) as [Hq Hr]. split; [exact Hq|]. split.
    + rewrite <- Hacc, Hq, app_nil_r. reflexivity.
    + apply Forall_lookup. intros h t Ht. split.
      * eapply (proj1 (Forall_lookup _ _) Hl). exact Ht.
      * destruct Htr as [_ Htr]. rewrite Hr in Htr.
        destruct (live t) eqn:Hlive.
        -- exfalso. assert (h ∈ ([] : list nat)) as Hin
             by (apply Htr; exists t; tauto).
           inversion Hin.
        -- unfold live in Hlive. destruct (t_phase t); cbn in Hlive; congruence.
Qed.

(** The sample store with a limit of two: five registrations, never more
    than two at once, all of them settled when the loop returns. *)
Lemma pool_limit_and_drain_witness :
  exists s, run 2 (start sample_store) sample_schedule = Some s
            /\ at_ s = Exited
            /\ in_flight_count s <= 2
            /\ length (tasks s) = 5
            /\ Forall (fun t => t_launched t = true /\ t_phase t = Settled) (tasks s).
Proof.
  destruct (run 2 (start sample_store) sample_schedule) as [s|] eqn:Hrun;
    [|vm_compute in Hrun; discriminate].
  exists s. split; [reflexivity|].
  destruct (pool_limit_and_drain 2 sample_store sample_schedule s Hrun) as [Hle Hdone].
  assert (at_ s = Exited) as Hexit
    by (vm_compute in Hrun; injection Hrun as <-; reflexivity).
  destruct (Hdone eq_refl Hexit) as (_ & Hacc & Hall).
  split; [exact Hexit|]. split; [exact Hle|]. split; [|exact Hall].
  rewrite <- (length_map t_account), Hacc. reflexivity.
Defined.

(* --------------------------------------------------------------------- *)
(** ** The stop flag *)
(* --------------------------------------------------------------------- *)

Lemma no_new_registration_refl (st : AutoRegisterState) : no_new_registration st st.
Proof. split; [reflexivity|]. intros k a1 a2 H1 H2. congruence. Qed.

Lemma no_new_registration_trans (st1 st2 st3 : AutoRegisterState) :
  no_new_registration st1 st2 -> no_new_registration st2 st3 ->
  no_new_registration st1 st3.
Proof.
  intros [L12 H12] [L23 H23]. split; [congruence|]. intros k a1 a3 H1 H3 Hreg.
  destruct (accounts st2 !! k) as [a2|] eqn:H2.
  - eapply H12; [exact H1|exact H2|]. eapply H23; eassumption.
  - apply lookup_lt_Some in H1. apply lookup_ge_None in H2. lia.
Qed.

Lemma update_no_new_registration (i : jsstring) (u : Updates) (st : AutoRegisterState) :
  u_status u <> Some registering ->
  no_new_registration st (updateAccountStatus i u st).
Proof.
  intros Hu. split; [apply updateAccountStatus_length|]. intros k a1 a2 H1 H2 Hreg.
  rewrite (updateAccountStatus_lookup i u st k a1 H1) in H2. injection H2 as <-.
  destruct (decide (id a1 = i)); [|exact Hreg].
  cbn in Hreg. destruct (u_status u) as [x|]; cbn in Hreg; [|exact Hreg].
  congruence.
Qed.

(** While the flag is up [runConcurrent] is suspended or has returned. *)
Lemma stopped_is_suspended (concurrency : nat) (es : list event) :
  forall s s', run concurrency s es = Some s' ->
    (shouldStop (store s) = true -> suspended s = true) ->
    shouldStop (store s') = true -> suspended s' = true.
Proof.
  induction es as [|e es IH]; intros s s' Hrun Hs; cbn in Hrun.
  - injection Hrun as <-. exact Hs.
  - destruct (step concurrency s e) as [s1|] eqn:Hstep; [|discriminate].
    apply (IH s1 s' Hrun). intros Hs1.
    pose proof (step_stop_flag _ _ _ _ Hstep) as Hflag.
    destruct e as [| |h r|h]; cbn [step is_stop] in *.
    + rewrite orb_false_r in Hflag.
      assert (suspended (turn concurrency s) = true) as Hturn.
      { specialize (Hs ltac:(congruence)). unfold turn.
        destruct (queue s), (running s); try reflexivity.
        all: replace (shouldStop (store s)) with true by congruence.
        all: reflexivity. }
      destruct (at_ s) as [|raced| |] eqn:Hat.
      * injection Hstep as <-. exact Hturn.
      * destruct (existsb _ raced); [|discriminate]. injection Hstep as <-. exact Hturn.
      * discriminate.
      * injection Hstep as <-. apply Hs. congruence.
    + destruct (suspended s) eqn:Hsus; [|discriminate]. injection Hstep as <-.
      unfold suspended in *. cbn. exact Hsus.
    + destruct (suspended s) eqn:Hsus; [|discriminate].
      destruct (tasks s !! h) as [t|]; [|discriminate].
      destruct (t_phase t); try discriminate. injection Hstep as <-.
      unfold on_result. destruct r as [ok tok name err|err];
        [destruct (ok && truthy tok)|]; exact Hsus.
    + destruct (suspended s) eqn:Hsus; [|discriminate]. cbn in Hstep.
      destruct (has_phase (tasks s) Importing h); [|discriminate].
      injection Hstep as <-. exact Hsus.
Qed.

(** One step with the flag up. *)
Lemma step_stopped (concurrency : nat) (s s' : state) (e : event) :
  step concurrency s e = Some s' -> shouldStop (store s) = true ->
  queue s' = queue s
  /\ length (tasks s') = length (tasks s)
  /\ no_new_registration (store s) (store s')
  /\ (forall h, not_for h e -> tasks s' !! h = tasks s !! h).
Proof.
  intros Hstep Hs. destruct e as [| |h r|h]; cbn [step] in Hstep.
  - assert (turn concurrency s
            = {| store := store s; queue := queue s; running := running s;
                 tasks := tasks s; at_ := Exited |}) as Hturn.
    { unfold turn. rewrite Hs. destruct (queue s), (running s); reflexivity. }
    assert (s' = turn concurrency s \/ s' = s) as [-> | ->].
    { destruct (at_ s) as [|raced| |].
      - injection Hstep as <-. left. reflexivity.
      - destruct (existsb _ raced); [|discriminate]. injection Hstep as <-.
        left. reflexivity.
      - discriminate.
      - injection Hstep as <-. right. reflexivity. }
    + rewrite Hturn. cbn. repeat split; intros; try reflexivity; congruence.
    + repeat split; intros; try reflexivity; congruence.
  - destruct (suspended s); [|discriminate]. injection Hstep as <-.
    cbn [queue tasks store]. unfold no_new_registration, requestStop. cbn [accounts].
    repeat split; intros; try reflexivity; congruence.
  - destruct (suspended s); [|discriminate].
    destruct (tasks s !! h) as [t|] eqn:Ht; [|discriminate].
    destruct (t_phase t); try discriminate. injection Hstep as <-.
    unfold on_result. destruct r as [ok tok name err|err];
      [destruct (ok && truthy tok)|];
      cbn [set_task tasks queue store]; rewrite length_alter;
      (split; [reflexivity|]); (split; [reflexivity|]);
      (split; [apply update_no_new_registration; discriminate|]);
      intros h' Hne; cbn in Hne; apply list_lookup_alter_ne; exact Hne.
  - destruct (suspended s && has_phase (tasks s) Importing h); [|discriminate].
    injection Hstep as <-. cbn [set_task tasks queue store]. rewrite length_alter.
    split; [reflexivity|]. split; [reflexivity|].
    split; [apply no_new_registration_refl|].
    intros h' Hne. cbn in Hne. apply list_lookup_alter_ne. exact Hne.
Qed.

Lemma run_stopped (concurrency : nat) (es : list event) :
  forall s s', run concurrency s es = Some s' -> shouldStop (store s) = true ->
    shouldStop (store s') = true
    /\ queue s' = queue s
    /\ length (tasks s') = length (tasks s)
    /\ no_new_registration (store s) (store s')
    /\ (forall h, Forall (not_for h) es -> tasks s' !! h = tasks s !! h).
Proof.
  induction es as [|e es IH]; intros s s' Hrun Hs; cbn in Hrun.
  - injection Hrun as <-. repeat split; intros; try reflexivity; congruence.
  - destruct (step concurrency s e) as [s1|] eqn:Hstep; [|discriminate].
    destruct (step_stopped _ _ _ _ Hstep Hs) as (Hq & Hl & Hn & Ht).
    assert (shouldStop (store s1) = true) as Hs1
      by (rewrite (step_stop_flag _ _ _ _ Hstep), Hs; reflexivity).
    destruct (IH s1 s' Hrun Hs1) as (Hs' & Hq' & Hl' & Hn' & Ht').
    split; [exact Hs'|]. split; [congruence|]. split; [congruence|].
    split; [eapply no_new_registration_trans; eassumption|].
    intros h Hall. apply Forall_cons in Hall as [He Hall].
    rewrite (Ht' h Hall). apply Ht. exact He.
Qed.

(** C3.  Once the stop flag is up in a run of the pool: the head of
    [registerSingleAccount] returns without touching the store; whatever
    happens next, no account is taken off the queue, no promise is made and
    no account becomes [registering]; a registration under way keeps its
    state until its own answer arrives, and that answer can always be
    delivered. *)
Theorem stop_suppresses_new_registrations (concurrency : nat) (st : AutoRegisterState)
        (es1 es2 : list event) (s1 s2 : state) :
  run concurrency (start st) es1 = Some s1 ->
  shouldStop (store s1) = true ->
  run concurrency s1 es2 = Some s2 ->
  (forall a, registerSingleAccount a (store s2) = (store s2, Skipped))
  /\ queue s2 = queue s1
  /\ length (tasks s2) = length (tasks s1)
  /\ no_new_registration (store s1) (store s2)
  /\ (forall h, Forall (not_for h) es2 -> tasks s2 !! h = tasks s1 !! h)
  /\ (forall h r, has_phase (tasks s2) InFlight h = true ->
        exists s3, step concurrency s2 (Result h r) = Some s3
                   /\ has_phase (tasks s3) InFlight h = false)
  /\ (forall h, has_phase (tasks s2) Importing h = true ->
        exists s3, step concurrency s2 (Imported h) = Some s3
                   /\ has_phase (tasks s3) Settled h = true).
Proof.
  intros Hrun1 Hs1 Hrun2.
  destruct (run_stopped _ _ _ _ Hrun2 Hs1) as (Hs2 & Hq & Hl & Hn & Ht).
  assert (suspended s2 = true) as Hsus.
  { assert (suspended s1 = true) as Hsus1.
    { eapply (stopped_is_suspended _ _ _ _ Hrun1); [|exact Hs1]. cbn. discriminate. }
    eapply (stopped_is_suspended _ _ _ _ Hrun2); [|exact Hs2]. intros _. exact Hsus1. }
  split.
  { intros a. unfold registerSingleAccount. rewrite Hs2. reflexivity. }
  split; [exact Hq|]. split; [exact Hl|]. split; [exact Hn|]. split; [exact Ht|].
  split.
  - intros h r Hh. cbn [step]. rewrite Hsus. unfold has_phase in Hh.
    destruct (tasks s2 !! h) as [t|] eqn:Hth; [|discriminate].
    destruct (t_phase t) eqn:Hph; try discriminate.
    eexists. split; [reflexivity|].
    unfold on_result, has_phase.
    destruct r as [ok tok name err|err]; [destruct (ok && truthy tok)|];
      cbn [set_task tasks]; rewrite list_lookup_alter_eq, Hth; reflexivity.
  - intros h Hh. cbn [step]. rewrite Hsus, Hh. cbn.
    eexists. split; [reflexivity|].
    unfold has_phase in *. cbn [set_task tasks]. rewrite list_lookup_alter_eq.
    destruct (tasks s2 !! h); [reflexivity|discriminate].
Qed.

(** The sample store, stopped while the registrations of [a] and [b] are
    under way: both are answered afterwards and end as [success] and
    [failed]; [d], [e] and [f] stay queued and [pending]. *)
Lemma stop_suppresses_new_registrations_witness :
  exists s1 s2,
    run 2 (start sample_store) stopped_schedule = Some s1
    /\ run 2 s1 after_stop_schedule = Some s2
    /\ in_flight_count s1 = 2
    /\ length (queue s2) = 3
    /\ length (tasks s2) = 2
    /\ no_new_registration (store s1) (store s2)
    /\ map status (accounts (store s2))
       = [success; failed; exists_; pending; pending; pending].
Proof.
  destruct (run 2 (start sample_store) stopped_schedule) as [s1|] eqn:Hrun1;
    [|vm_compute in Hrun1; discriminate].
  destruct (run 2 s1 after_stop_schedule) as [s2|] eqn:Hrun2;
    [|vm_compute in Hrun1; injection Hrun1 as <-; vm_compute in Hrun2; discriminate].
  exists s1, s2. split; [reflexivity|]. split; [exact Hrun2|].
  assert (shouldStop (store s1) = true) as Hs1
    by (vm_compute in Hrun1; injection Hrun1 as <-; reflexivity).
  destruct (stop_suppresses_new_registrations 2 sample_store stopped_schedule
              after_stop_schedule s1 s2 Hrun1 Hs1 Hrun2)
    as (_ & Hq & Hl & Hn & _).
  vm_compute in Hrun1. injection Hrun1 as <-.
  split; [reflexivity|]. split; [rewrite Hq; reflexivity|].
  split; [rewrite Hl; reflexivity|]. split; [exact Hn|].
  vm_compute in Hrun2. injection Hrun2 as <-. reflexivity.
Defined.

(* --------------------------------------------------------------------- *)
(** ** The orchestrator: running programs *)
(* --------------------------------------------------------------------- *)

Import Orchestrator.

Lemma exec_pbind {A B : Type} (w : world) (p : prog A) (f : A -> prog B) :
  forall n,
    exec w n (pbind p f)
    = let '(a, n1, t1) := exec w n p in
      let '(b, n2, t2) := exec w n1 (f a) in
      (b, n2, t1 ++ t2).
Proof.
  induction p as [a|X e k IH]; intros n; cbn.
  - destruct (exec w n (f a)) as [[b n2] t2]. reflexivity.
  - rewrite IH. destruct (exec w (S n) (k (w X n e))) as [[a n1] t1].
    destruct (exec w n1 (f a)) as [[b n2] t2]. reflexivity.
Qed.

Lemma exec_bind {A B : Type} (w : world) (n : nat) (m : M A) (f : A -> M B) (l : locals) :
  exec w n (bind m f l)
  = match exec w n (m l) with
    | ((Ok a, l1), n1, t1) =>
        match exec w n1 (f a l1) with
        | (r, n2, t2) => (r, n2, t1 ++ t2)
        end
    | ((Err e, l1), n1, t1) => ((Err e, l1), n1, t1)
    end.
Proof.
  unfold bind. rewrite exec_pbind.
  destruct (exec w n (m l)) as [[[[a|e] l1] n1] t1]; [reflexivity|].
  cbn. rewrite app_nil_r. reflexivity.
Qed.

Lemma exec_try_catch {A : Type} (w : world) (n : nat) (m : M A) (h : exn -> M A) (l : locals) :
  exec w n (try_catch m h l)
  = match exec w n (m l) with
    | ((Ok a, l1), n1, t1) => ((Ok a, l1), n1, t1)
    | ((Err e, l1), n1, t1) =>
        match exec w n1 (h e l1) with
        | (r, n2, t2) => (r, n2, t1 ++ t2)
        end
    end.
Proof.
  unfold try_catch. rewrite exec_pbind.
  destruct (exec w n (m l)) as [[[[a|e] l1] n1] t1]; [|reflexivity].
  cbn. rewrite app_nil_r. reflexivity.
Qed.

Lemma exec_ret {A : Type} (w : world) (n : nat) (a : A) (l : locals) :
  exec w n (ret a l) = ((Ok a, l), n, []).
Proof. reflexivity. Qed.

Lemma exec_visible (w : world) (n : nat) (selector : jsstring) (l : locals) :
  exec w n (visible selector l)
  = ((Ok (saw (Did (IsVisible selector) (w _ n (IsVisible selector)))), l), S n,
     [Did (IsVisible selector) (w _ n (IsVisible selector))]).
Proof. cbn. destruct (w _ n (IsVisible selector)) as [[|]|]; reflexivity. Qed.

(** The loop over the name selectors probes them in order and stops at the
    first one that is visible. *)
Lemma exec_any_visible (selectors : list jsstring) :
  forall (w : world) (n : nat) (l : locals),
  exists tr k,
    exec w n (any_visible selectors l) = ((Ok (existsb saw tr), l), n + length tr, tr)
    /\ map probed tr = map Some (take k selectors)
    /\ k <= length selectors
    /\ (existsb saw tr = false -> k = length selectors).
Proof.
  induction selectors as [|selector rest IH]; intros w n l.
  - exists [], 0. cbn. rewrite Nat.add_0_r. auto.
  - cbn [any_visible]. rewrite exec_bind, exec_visible.
    destruct (saw (Did (IsVisible selector) (w _ n (IsVisible selector)))) eqn:Hsaw.
    + exists [Did (IsVisible selector) (w _ n (IsVisible selector))], 1.
      rewrite exec_ret. cbn [app length existsb]. rewrite Hsaw.
      replace (n + 1) with (S n) by lia. split; [reflexivity|].
      split; [reflexivity|]. split; [cbn; lia|discriminate].
    + destruct (IH w (S n) l) as (tr & k & Hexec & Hprobed & Hk & Hnone).
      exists (Did (IsVisible selector) (w _ n (IsVisible selector)) :: tr), (S k).
      rewrite Hexec. cbn [app length existsb]. rewrite Hsaw. cbn [orb].
      replace (n + S (length tr)) with (S n + length tr) by lia.
      split; [reflexivity|]. split; [|split; [cbn; lia|]].
      * cbn [map take]. rewrite Hprobed. reflexivity.
      * intros H. cbn [length]. rewrite (Hnone H). reflexivity.
Qed.

Lemma exec_probe_sequentially (w : world) (n : nat) (l : locals) :
  exists tr k isLoginFlow,
    exec w n (probe_sequentially l) = ((Ok isLoginFlow, l), n + length tr, tr)
    /\ map probed tr = map Some (take k detector_selectors)
    /\ (existsb saw tr = false -> isLoginFlow = false /\ k = length detector_selectors).
Proof.
  unfold probe_sequentially. rewrite exec_try_catch, exec_bind.
  destruct (exec_any_visible nameInputSelectors w n l)
    as (tr & k & Hexec & Hprobed & Hk & Hnone).
  rewrite Hexec. destruct (existsb saw tr) eqn:Hsaw.
  - exists tr, k, false. rewrite exec_ret, app_nil_r. split; [reflexivity|].
    split; [|rewrite Hsaw; discriminate].
    rewrite Hprobed. unfold detector_selectors.
    rewrite take_app_le by exact Hk. reflexivity.
  - specialize (Hnone eq_refl). subst k. rewrite firstn_all in Hprobed.
    rewrite exec_bind, exec_visible.
    set (h := Did (IsVisible loginHeadingSelector) _).
    destruct (saw h) eqn:Hh.
    + exists (tr ++ [h]), 8, true. rewrite exec_ret, app_nil_r.
      rewrite length_app. cbn [length].
      replace (n + (length tr + 1)) with (S (n + length tr)) by lia.
      split; [reflexivity|]. split.
      * rewrite map_app, Hprobed. reflexivity.
      * rewrite existsb_app. cbn [existsb]. rewrite Hh, orb_true_r. discriminate.
    + rewrite exec_bind, exec_visible.
      set (p := Did (IsVisible loginPasswordSelector) _).
      exists (tr ++ [h; p]), 9, (saw p). rewrite length_app. cbn [length].
      replace (n + (length tr + 2)) with (S (S (n + length tr))) by lia.
      split.
      * destruct (saw p); rewrite exec_ret; reflexivity.
      * split; [rewrite map_app, Hprobed; reflexivity|].
        rewrite existsb_app, Hsaw. cbn [existsb orb]. rewrite Hh, orb_false_r.
        cbn [orb]. intros ->. split; reflexivity.
Qed.

Lemma exec_classify (w : world) (n : nat) (l : locals) :
  exec w n (classify l)
  = match w _ n RaceDetectors with
    | Ok winner =>
        ((Ok (match winner with Register _ => false | _ => true end, false), l), S n,
         [Did RaceDetectors (Ok winner)])
    | Err e =>
        match exec w (S n) (probe_sequentially l) with
        | ((Ok isLoginFlow, l1), n1, t1) =>
            ((Ok (isLoginFlow, false), l1), n1, Did RaceDetectors (Err e) :: t1)
        | ((Err e', l1), n1, t1) =>
            ((Err e', l1), n1, Did RaceDetectors (Err e) :: t1)
        end
    end.
Proof.
  unfold classify. rewrite exec_try_catch, exec_bind. unfold await. cbn [exec].
  destruct (w _ n RaceDetectors) as [winner|e].
  - destruct winner; rewrite exec_ret; reflexivity.
  - rewrite exec_bind.
    destruct (exec w (S n) (probe_sequentially l)) as [[[[b|e'] l1] n1] t1];
      rewrite ?exec_ret; cbn; rewrite ?app_nil_r; reflexivity.
Qed.

(** C7.  The classifier never throws and leaves the locals alone; when the
    race of the detectors is rejected, what follows is a run of [isVisible]
    probes over the detectors' selectors, in their order and up to the
    first visible one, and when none is visible every selector was probed
    and the flow is the registration flow. *)
Theorem classifier_falls_back (w : world) (n : nat) (l : locals) :
  (exists flow, value_of (exec w n (classify l)) = (Ok flow, l))
  /\ (forall e, w _ n RaceDetectors = Err e ->
      exists probes k isLoginFlow,
        trace_of (exec w n (classify l)) = Did RaceDetectors (Err e) :: probes
        /\ map probed probes = map Some (take k detector_selectors)
        /\ value_of (exec w n (classify l)) = (Ok (isLoginFlow, false), l)
        /\ (existsb saw probes = false ->
            isLoginFlow = false /\ k = length detector_selectors)).
Proof.
  rewrite exec_classify.
  destruct (exec_probe_sequentially w (S n) l) as (tr & k & b & Hexec & Hprobed & Hnone).
  destruct (w _ n RaceDetectors) as [winner|e] eqn:Hrace.
  - split; [|discriminate]. eexists. reflexivity.
  - rewrite Hexec. split.
    + eexists. reflexivity.
    + intros e' [= <-]. exists tr, k, b. auto.
Qed.

(** On a page where nothing can be seen the nine selectors are probed and
    the flow is the registration flow. *)
Lemma classifier_falls_back_witness :
  exists probes,
    trace_of (exec blank_page 23 (classify (at_entry None)))
      = Did RaceDetectors (Err (Rejected (str "Timeout 10000ms exceeded"))) :: probes
    /\ map probed probes = map Some detector_selectors
    /\ value_of (exec blank_page 23 (classify (at_entry None)))
       = (Ok (false, false), at_entry None).
Proof.
  destruct (classifier_falls_back blank_page 23 (at_entry None)) as [_ H].
  destruct (H _ eq_refl) as (probes & k & b & Htr & Hprobed & Hval & Hnone).
  exists probes. split; [exact Htr|].
  assert (existsb saw probes = false) as Hsaw.
  { vm_compute in Htr. injection Htr as <-. reflexivity. }
  destruct (Hnone Hsaw) as [-> ->]. split; [|exact Hval].
  rewrite Hprobed. reflexivity.
Defined.

(** The page whose detectors time out while it shows the sign-in heading:
    the eighth probe sees the heading and the flow is the login flow. *)
Example slow_page_is_a_login_page :
  value_of (exec slow_page 23 (classify (at_entry None))) = (Ok (true, false), at_entry None)
  /\ map probed (trace_of (exec slow_page 23 (classify (at_entry None))))
     = None :: map Some (take 8 detector_selectors).
Proof. split; vm_compute; reflexivity. Qed.

(* --------------------------------------------------------------------- *)
(** ** The orchestrator: what a program can ask for *)
(* --------------------------------------------------------------------- *)

Lemma sat_exec {A : Type} (P : forall X, eff X -> Prop) (Q : A -> Prop) (p : prog A) :
  sat P Q p ->
  forall (w : world) (n : nat),
    Forall (allowed P) (trace_of (exec w n p)) /\ Q (value_of (exec w n p)).
Proof.
  induction 1 as [a Ha|X e k He Hk IH]; intros w n; cbn.
  - split; [constructor|exact Ha].
  - specialize (IH (w X n e) w (S n)).
    destruct (exec w (S n) (k (w X n e))) as [[a n1] t1]. cbn in *.
    split; [constructor; [exact He|tauto]|tauto].
Qed.

Lemma sat_pbind {A B : Type} (P : forall X, eff X -> Prop) (Q : A -> Prop) (R : B -> Prop)
      (p : prog A) (f : A -> prog B) :
  sat P Q p -> (forall a, Q a -> sat P R (f a)) -> sat P R (pbind p f).
Proof.
  induction 1 as [a Ha|X e k He Hk IH]; intros Hf; cbn.
  - apply Hf. exact Ha.
  - constructor; [exact He|]. intros x. apply IH. exact Hf.
Qed.

Lemma sat_weaken {A : Type} (P : forall X, eff X -> Prop) (Q Q' : A -> Prop) (p : prog A) :
  sat P Q p -> (forall a, Q a -> Q' a) -> sat P Q' p.
Proof.
  induction 1 as [a Ha|X e k He Hk IH]; intros HQ; constructor; auto.
Qed.

Section Holds.
Variable P : forall X, eff X -> Prop.

Lemma holds_weaken {A : Type} (Q Q' : locals -> A -> locals -> Prop)
      (E E' : locals -> locals -> Prop) (m : M A) :
  holds P Q E m ->
  (forall l a l', Q l a l' -> Q' l a l') -> (forall l l', E l l' -> E' l l') ->
  holds P Q' E' m.
Proof.
  intros Hm HQ HE l. eapply sat_weaken; [apply Hm|].
  intros [[a|e] l']; cbn; auto.
Qed.

Lemma holds_ret {A : Type} (Q : locals -> A -> locals -> Prop)
      (E : locals -> locals -> Prop) (a : A) :
  (forall l, Q l a l) -> holds P Q E (ret a).
Proof. intros HQ l. constructor. apply HQ. Qed.

Lemma holds_throw {A : Type} (Q : locals -> A -> locals -> Prop)
      (E : locals -> locals -> Prop) (e : exn) :
  (forall l, E l l) -> holds P Q E (throw e).
Proof. intros HE l. constructor. apply HE. Qed.

Lemma holds_bind {A B : Type} (Q : locals -> A -> locals -> Prop)
      (R : locals -> B -> locals -> Prop) (E : locals -> locals -> Prop)
      (m : M A) (f : A -> M B) :
  holds P Q E m ->
  (forall l a l1, Q l a l1 ->
     sat P (fun r => match r with
                     | (Ok b, l2) => R l b l2
                     | (Err _, l2) => E l l2
                     end) (f a l1)) ->
  holds P R E (bind m f).
Proof.
  intros Hm Hf l. unfold bind. eapply sat_pbind; [apply Hm|].
  intros [[a|e] l1] Ha; cbn in Ha.
  - apply (Hf l a l1 Ha).
  - constructor. exact Ha.
Qed.

Lemma holds_try_catch {A : Type} (Q : locals -> A -> locals -> Prop)
      (E E' : locals -> locals -> Prop) (m : M A) (h : exn -> M A) :
  holds P Q E m ->
  (forall l e l1, E l l1 ->
     sat P (fun r => match r with
                     | (Ok a, l2) => Q l a l2
                     | (Err _, l2) => E' l l2
                     end) (h e l1)) ->
  holds P Q E' (try_catch m h).
Proof.
  intros Hm Hh l. unfold try_catch. eapply sat_pbind; [apply Hm|].
  intros [[a|e] l1] Ha; cbn in Ha.
  - constructor. exact Ha.
  - apply (Hh l e l1 Ha).
Qed.

Lemma holds_call {X : Type} (Q : locals -> X -> locals -> Prop)
      (E : locals -> locals -> Prop) (e : eff X) :
  P X e -> (forall l x, Q l x l) -> holds P Q E (call e).
Proof. intros He HQ l. constructor; [exact He|]. intros x. constructor. apply HQ. Qed.

Lemma holds_await {X : Type} (Q : locals -> X -> locals -> Prop)
      (E : locals -> locals -> Prop) (e : eff (outcome X)) :
  P _ e -> (forall l x, Q l x l) -> (forall l, E l l) -> holds P Q E (await e).
Proof.
  intros He HQ HE l. constructor; [exact He|].
  intros [x|err]; constructor; [apply HQ|apply HE].
Qed.

Lemma holds_get (Q : locals -> locals -> locals -> Prop) (E : locals -> locals -> Prop) :
  (forall l, Q l l l) -> holds P Q E get.
Proof. intros HQ l. constructor. apply HQ. Qed.

End Holds.

(* --------------------------------------------------------------------- *)
(** ** The login branch *)
(* --------------------------------------------------------------------- *)

Section Calm.
Variable P : forall X, eff X -> Prop.
Variable Ev : Prop.

Lemma calm_weaken {A : Type} (Qv Qv' : A -> Prop) (m : M A) :
  calm P Qv Ev m -> (forall a, Qv a -> Qv' a) -> calm P Qv' Ev m.
Proof. intros Hm HQ. eapply holds_weaken; [exact Hm| |]; cbn; auto. Qed.

Lemma calm_ret {A : Type} (Qv : A -> Prop) (a : A) : Qv a -> calm P Qv Ev (ret a).
Proof. intros Ha. apply holds_ret. intros _. exact Ha. Qed.

Lemma calm_throw {A : Type} (Qv : A -> Prop) (e : exn) : Ev -> calm P Qv Ev (throw e).
Proof. intros He. apply holds_throw. intros _. exact He. Qed.

Lemma calm_bind {A B : Type} (Qv : A -> Prop) (Rv : B -> Prop) (m : M A) (f : A -> M B) :
  calm P Qv Ev m -> (forall a, Qv a -> calm P Rv Ev (f a)) -> calm P Rv Ev (bind m f).
Proof.
  intros Hm Hf. eapply holds_bind; [exact Hm|]. intros l a l1 Ha.
  eapply sat_weaken; [apply (Hf a Ha l1)|]. intros [[b|e] l2]; auto.
Qed.

Lemma calm_try_catch {A : Type} (Qv : A -> Prop) (m : M A) (h : exn -> M A) :
  calm P Qv True m -> (forall e, calm P Qv Ev (h e)) -> calm P Qv Ev (try_catch m h).
Proof.
  intros Hm Hh. eapply holds_try_catch; [exact Hm|]. intros l e l1 _.
  eapply sat_weaken; [apply (Hh e l1)|]. intros [[b|e'] l2]; auto.
Qed.

Lemma calm_call {X : Type} (e : eff X) : P X e -> calm P (fun _ => True) Ev (call e).
Proof. intros He. apply holds_call; [exact He|]. intros _ _. exact I. Qed.

Lemma calm_await {X : Type} (e : eff (outcome X)) :
  P _ e -> Ev -> calm P (fun _ => True) Ev (await e).
Proof. intros He Hev. apply holds_await; [exact He| |]; intros; first [exact I|exact Hev]. Qed.

Lemma calm_get : calm P (fun _ => True) Ev get.
Proof. apply holds_get. intros _. exact I. Qed.

Lemma calm_put (l : locals) : calm P (fun _ => True) Ev (put l).
Proof. intros l0. constructor. exact I. Qed.

Lemma calm_unless (b : bool) (e : exn) : Ev -> calm P (fun _ => True) Ev (unless b e).
Proof. intros He. destruct b; [apply calm_ret; exact I|apply calm_throw; exact He]. Qed.

Lemma calm_when (b : bool) (m : M unit) :
  calm P (fun _ => True) Ev m -> calm P (fun _ => True) Ev (when b m).
Proof. intros Hm. destruct b; [exact Hm|apply calm_ret; exact I]. Qed.

Lemma calm_visible (selector : jsstring) :
  P _ (IsVisible selector) -> calm P (fun _ => True) Ev (visible selector).
Proof. intros He l. constructor; [exact He|]. intros x. constructor. exact I. Qed.

End Calm.

Lemma quiet_weaken {A : Type} (Qv Qv' : A -> Prop) (m : M A) :
  quiet Qv m -> (forall a, Qv a -> Qv' a) -> quiet Qv' m.
Proof. apply calm_weaken. Qed.

Lemma quiet_ret {A : Type} (Qv : A -> Prop) (a : A) : Qv a -> quiet Qv (ret a).
Proof. apply calm_ret. Qed.

Lemma quiet_throw {A : Type} (Qv : A -> Prop) (e : exn) : quiet Qv (throw e).
Proof. apply calm_throw. exact I. Qed.

Lemma quiet_bind {A B : Type} (Qv : A -> Prop) (Rv : B -> Prop) (m : M A) (f : A -> M B) :
  quiet Qv m -> (forall a, Qv a -> quiet Rv (f a)) -> quiet Rv (bind m f).
Proof. apply calm_bind. Qed.

Lemma quiet_try_catch {A : Type} (Qv : A -> Prop) (m : M A) (h : exn -> M A) :
  quiet Qv m -> (forall e, quiet Qv (h e)) -> quiet Qv (try_catch m h).
Proof. apply calm_try_catch. Qed.

Lemma quiet_call {X : Type} (e : eff X) : no_name_fill X e -> quiet (fun _ => True) (call e).
Proof. apply calm_call. Qed.

Lemma quiet_await {X : Type} (e : eff (outcome X)) :
  no_name_fill _ e -> quiet (fun _ => True) (await e).
Proof. intros He. apply calm_await; [exact He|exact I]. Qed.

Lemma quiet_get : quiet (fun _ => True) get.
Proof. apply calm_get. Qed.

Lemma quiet_put (l : locals) : quiet (fun _ => True) (put l).
Proof. apply calm_put. Qed.

Lemma quiet_unless (b : bool) (e : exn) : quiet (fun _ => True) (unless b e).
Proof. apply calm_unless. exact I. Qed.

Lemma quiet_when (b : bool) (m : M unit) :
  quiet (fun _ => True) m -> quiet (fun _ => True) (when b m).
Proof. apply calm_when. Qed.

Lemma quiet_visible (selector : jsstring) : quiet (fun _ => True) (visible selector).
Proof. apply calm_visible. exact I. Qed.

Create HintDb quiet.
#[local] Hint Resolve quiet_get quiet_put quiet_unless quiet_throw quiet_visible : quiet.

(** Takes a computation apart along its binds, tests and handlers. *)
Ltac quiet_steps :=
  repeat (intros;
    first
      [ exact I
      | solve [eauto with quiet]
      | apply quiet_when
      | apply quiet_call; [first [exact I | vm_compute; reflexivity]]
      | apply quiet_await; first [exact I | vm_compute; reflexivity]
      | apply quiet_ret; exact I
      | eapply quiet_bind with (Qv := fun _ => True)
      | apply quiet_try_catch
      | match goal with
        | |- quiet _ (if ?b then _ else _) => destruct b
        | |- quiet _ (match ?x with _ => _ end) => destruct x
        end ]).

Lemma quiet_set_browser (b : bool) : quiet (fun _ => True) (set_browser b).
Proof. unfold set_browser. quiet_steps. Qed.

Lemma quiet_create_mailbox (cfg : option MailServiceConfig) :
  quiet (fun _ => True) (create_mailbox_if_needed cfg).
Proof. unfold create_mailbox_if_needed, set_mailService, set_tempMailbox. quiet_steps. Qed.

Lemma code_input_is_no_name_input (selector : jsstring) :
  In selector codeInputSelectors -> existsb (eqs selector) nameInputSelectors = false.
Proof.
  intros [<-|[<-|[<-|[]]]]; vm_compute; reflexivity.
Qed.

(** *** Computations that leave the mailbox alone *)

Lemma keeps_refl (l : locals) : keeps l l.
Proof. split; reflexivity. Qed.

Lemma keeps_trans (l1 l2 l3 : locals) : keeps l1 l2 -> keeps l2 l3 -> keeps l1 l3.
Proof. intros [H1 H2] [H3 H4]. split; congruence. Qed.

Section Steady.
Variable P : forall X, eff X -> Prop.

Lemma steady_weaken {A : Type} (Qv Qv' : A -> Prop) (m : M A) :
  steady P Qv m -> (forall a, Qv a -> Qv' a) -> steady P Qv' m.
Proof.
  intros Hm HQ. eapply holds_weaken; [exact Hm| |]; cbn; [|auto].
  intros l a l' [Hk Ha]. auto.
Qed.

Lemma steady_ret {A : Type} (Qv : A -> Prop) (a : A) : Qv a -> steady P Qv (ret a).
Proof. intros Ha. apply holds_ret. intros l. split; [apply keeps_refl|exact Ha]. Qed.

Lemma steady_throw {A : Type} (Qv : A -> Prop) (e : exn) : steady P Qv (throw e).
Proof. apply holds_throw. apply keeps_refl. Qed.

Lemma steady_bind {A B : Type} (Qv : A -> Prop) (Rv : B -> Prop) (m : M A) (f : A -> M B) :
  steady P Qv m -> (forall a, Qv a -> steady P Rv (f a)) -> steady P Rv (bind m f).
Proof.
  intros Hm Hf. eapply holds_bind; [exact Hm|]. intros l a l1 [Hk Ha].
  eapply sat_weaken; [apply (Hf a Ha l1)|].
  intros [[b|e] l2]; [intros [Hk' Hb]; split; [|exact Hb]|intros Hk']; eapply keeps_trans; eauto.
Qed.

Lemma steady_try_catch {A : Type} (Qv : A -> Prop) (m : M A) (h : exn -> M A) :
  steady P Qv m -> (forall e, steady P Qv (h e)) -> steady P Qv (try_catch m h).
Proof.
  intros Hm Hh. eapply holds_try_catch; [exact Hm|]. intros l e l1 Hk.
  eapply sat_weaken; [apply (Hh e l1)|].
  intros [[b|e'] l2]; [intros [Hk' Hb]; split; [|exact Hb]|intros Hk']; eapply keeps_trans; eauto.
Qed.

Lemma steady_call {X : Type} (e : eff X) : P X e -> steady P (fun _ => True) (call e).
Proof. intros He. apply holds_call; [exact He|]. intros l _. split; [apply keeps_refl|exact I]. Qed.

Lemma steady_await {X : Type} (e : eff (outcome X)) :
  P _ e -> steady P (fun _ => True) (await e).
Proof.
  intros He. apply holds_await; [exact He| |apply keeps_refl].
  intros l _. split; [apply keeps_refl|exact I].
Qed.

Lemma steady_get : steady P (fun _ => True) get.
Proof. apply holds_get. intros l. split; [apply keeps_refl|exact I]. Qed.

Lemma steady_unless (b : bool) (e : exn) : steady P (fun _ => True) (unless b e).
Proof. destruct b; [apply steady_ret; exact I|apply steady_throw]. Qed.

Lemma steady_when (b : bool) (m : M unit) :
  steady P (fun _ => True) m -> steady P (fun _ => True) (when b m).
Proof. intros Hm. destruct b; [exact Hm|apply steady_ret; exact I]. Qed.

Lemma steady_visible (selector : jsstring) :
  P _ (IsVisible selector) -> steady P (fun _ => True) (visible selector).
Proof.
  intros He l. constructor; [exact He|]. intros x. constructor.
  split; [apply keeps_refl|exact I].
Qed.

Lemma steady_set_browser (b : bool) : steady P (fun _ => True) (set_browser b).
Proof. intros l. constructor. split; [split; reflexivity|exact I]. Qed.

End Steady.

Create HintDb steady.
#[local] Hint Resolve steady_get steady_unless steady_throw steady_set_browser : steady.

Ltac steady_steps side :=
  repeat (intros;
    first
      [ exact I
      | solve [eauto with steady]
      | apply steady_when
      | apply steady_call; side
      | apply steady_await; side
      | apply steady_visible; side
      | apply steady_ret; exact I
      | eapply steady_bind with (Qv := fun _ => True)
      | apply steady_try_catch
      | match goal with
        | |- steady _ _ (if ?b then _ else _) => destruct b
        | |- steady _ _ (match ?x with _ => _ end) => destruct x
        end ]).

Section Routine.
Variable P : forall X, eff X -> Prop.
Hypothesis P_routine : forall X (e : eff X), routine X e -> P X e.

Local Ltac routine_steps :=
  steady_steps ltac:(apply P_routine; first [exact I | vm_compute; reflexivity]).

Lemma steady_submit_email (proxyUrl : option jsstring) (userCode : jsstring) :
  steady P (fun _ => True) (submit_email proxyUrl userCode).
Proof. unfold submit_email, pause. routine_steps. Qed.

Lemma steady_any_visible (selectors : list jsstring) :
  steady P (fun _ => True) (any_visible selectors).
Proof. induction selectors as [|selector rest IH]; cbn [any_visible]; routine_steps. Qed.

Lemma steady_classify : steady P (fun flow => snd flow = false) classify.
Proof.
  pose proof steady_any_visible. unfold classify, probe_sequentially.
  apply steady_try_catch.
  - eapply steady_bind with (Qv := fun _ => True); [routine_steps|].
    intros [i| |] _; apply steady_ret; reflexivity.
  - intros e. eapply steady_bind with (Qv := fun _ => True); [routine_steps|].
    intros b _. apply steady_ret. reflexivity.
Qed.

Lemma steady_first_visible (selectors : list jsstring) :
  steady P (among selectors) (first_visible selectors).
Proof.
  induction selectors as [|selector rest IH]; cbn [first_visible].
  - apply steady_ret. intros s. discriminate.
  - apply steady_try_catch.
    + eapply steady_bind with (Qv := fun _ => True); [routine_steps|].
      intros _ _. apply steady_ret. intros s [= <-]. left. reflexivity.
    + intros _. eapply steady_weaken; [exact IH|].
      intros found Hfound s Hs. right. apply (Hfound s Hs).
Qed.

Lemma steady_find_code_input (left : nat) :
  steady P (among codeInputSelectors) (find_code_input left).
Proof.
  induction left as [|left IH]; cbn [find_code_input].
  - apply steady_ret. intros s. discriminate.
  - eapply steady_bind; [apply steady_first_visible|].
    intros [selector|] Hfound.
    + apply steady_ret. exact Hfound.
    + eapply steady_bind with (Qv := fun _ => True); [unfold pause; routine_steps|].
      intros _ _. exact IH.
Qed.

Lemma steady_enter_code (codeInput : jsstring) (timed_out : exn) :
  In codeInput codeInputSelectors ->
  steady P (fun _ => True) (enter_code codeInput timed_out).
Proof.
  intros Hin. apply code_input_is_no_name_input in Hin.
  assert (forall code, steady P (fun _ => True) (await (WaitAndFill codeInput code 30000 1 false)))
    as Hfill by (intros code; apply steady_await, P_routine; exact Hin).
  unfold enter_code. routine_steps.
Qed.

Lemma steady_login_flow (isVerifyFlow : bool) :
  steady P (fun _ => True) (login_flow isVerifyFlow).
Proof.
  unfold login_flow.
  eapply steady_bind with (Qv := fun _ => True); [routine_steps|]. intros _ _.
  eapply steady_bind with (Qv := fun _ => True); [unfold pause; routine_steps|]. intros _ _.
  eapply steady_bind; [apply (steady_find_code_input 999)|].
  intros [codeInput|] Hfound; [|apply steady_throw].
  specialize (Hfound codeInput eq_refl).
  pose proof (steady_enter_code codeInput (Raised 1344) Hfound).
  unfold pause. routine_steps.
Qed.

Lemma steady_harvest_token (left : nat) : steady P (fun _ => True) (harvest_token left).
Proof.
  induction left as [|left IH]; cbn [harvest_token]; unfold pause; routine_steps.
Qed.

End Routine.

Lemma routine_no_mailbox (X : Type) (e : eff X) : routine X e -> no_mailbox X e.
Proof. destruct e; cbn; auto. Qed.

Lemma routine_no_name_fill (X : Type) (e : eff X) : routine X e -> no_name_fill X e.
Proof. destruct e; cbn; auto. Qed.

Lemma steady_quiet {A : Type} (Qv : A -> Prop) (m : M A) :
  steady no_name_fill Qv m -> quiet Qv m.
Proof.
  intros Hm. eapply holds_weaken; [exact Hm| |]; cbn; [|auto].
  intros l a l' [_ Ha]. exact Ha.
Qed.

(** The classifier never answers with the direct-verification subtype. *)
Lemma quiet_until_classified (proxyUrl : option jsstring) (cfg : option MailServiceConfig)
      (userCode : jsstring) :
  quiet (fun flow => snd flow = false) (until_classified proxyUrl cfg userCode).
Proof.
  unfold until_classified.
  eapply quiet_bind; [apply quiet_create_mailbox|]. intros _ _.
  eapply quiet_bind;
    [apply steady_quiet, (steady_submit_email _ routine_no_name_fill)|]. intros _ _.
  apply steady_quiet, (steady_classify _ routine_no_name_fill).
Qed.

Lemma quiet_login_flow (isVerifyFlow : bool) : quiet (fun _ => True) (login_flow isVerifyFlow).
Proof. apply steady_quiet, (steady_login_flow _ routine_no_name_fill). Qed.

Lemma quiet_harvest_token (left : nat) : quiet (fun _ => True) (harvest_token left).
Proof. apply steady_quiet, (steady_harvest_token _ routine_no_name_fill). Qed.

Lemma quiet_clean_mailbox : quiet (fun _ => True) clean_mailbox.
Proof. unfold clean_mailbox. quiet_steps. Qed.

Lemma quiet_finish (randomName : jsstring) (testLoginDetection keepBrowserOpen : bool) :
  quiet (fun _ => True) (finish randomName testLoginDetection keepBrowserOpen).
Proof.
  pose proof quiet_clean_mailbox. pose proof quiet_set_browser.
  pose proof (quiet_harvest_token 999).
  unfold finish. quiet_steps.
Qed.

Lemma quiet_recover (e : exn) : quiet (fun _ => True) (recover e).
Proof. pose proof quiet_clean_mailbox. unfold recover. quiet_steps. Qed.

Lemma trace_do {A X : Type} (w : world) (n : nat) (e : eff X) (k : X -> prog A) :
  trace_of (exec w n (Do e k)) = Did e (w _ n e) :: trace_of (exec w (S n) (k (w _ n e))).
Proof. cbn. destruct (exec w (S n) (k (w X n e))) as [[a n'] tr]. reflexivity. Qed.

Lemma value_do {A X : Type} (w : world) (n : nat) (e : eff X) (k : X -> prog A) :
  value_of (exec w n (Do e k)) = value_of (exec w (S n) (k (w _ n e))).
Proof. cbn. destruct (exec w (S n) (k (w X n e))) as [[a n'] tr]. reflexivity. Qed.

(** How the login branch begins: the password is typed into the login
    password field; when the field has taken it, a pause and the click on
    the submit button follow; when it has not, or when the helper is
    rejected, the branch throws. *)
Lemma login_flow_head {B : Type} (w : world) (n : nat) (K : unit -> M B) (l : locals) :
  exists filled rest,
    trace_of (exec w n (bind (login_flow false) K l))
      = Did (Log L_login_flow) tt
          :: Did (WaitAndFill loginPasswordSelector password 30000 999 true) filled :: rest
    /\ (filled = Ok true ->
          exists paused rest',
            rest = Did (Page WaitForTimeout) paused :: rest'
            /\ (paused = Ok tt ->
                  exists clicked rest'',
                    rest' = Did (WaitAndClickWithRetry primaryButton) clicked :: rest''))
    /\ (forall e, filled = Ok false /\ e = Raised 1269 \/ filled = Err e ->
          rest = [] /\ value_of (exec w n (bind (login_flow false) K l)) = (Err e, l)).
Proof.
  unfold login_flow, bind, call, when, await. cbn [negb pbind].
  rewrite trace_do, value_do. destruct (w unit n (Log L_login_flow)).
  cbn [pbind]. rewrite trace_do, value_do.
  destruct (w _ (S n) (WaitAndFill loginPasswordSelector password 30000 999 true))
    as [[|]|e0] eqn:Hfill.
  - eexists (Ok true), _. split; [reflexivity|]. split.
    + intros _. unfold unless, ret, pause, await. cbn [pbind]. rewrite trace_do.
      eexists _, _. split; [reflexivity|]. intros ->.
      cbn [pbind]. rewrite trace_do. eexists _, _. reflexivity.
    + intros e [[H _]|H]; discriminate H.
  - eexists (Ok false), _. split; [reflexivity|]. split; [discriminate|].
    intros e [[_ ->]|H]; [|discriminate H]. unfold unless, throw. cbn. auto.
  - eexists (Err e0), _. split; [reflexivity|]. split; [discriminate|].
    intros e [[H _]|[= <-]]; [discriminate H|]. cbn. auto.
Qed.

(** The [catch] block never throws, clicks nothing, and answers with the
    error it caught. *)
Lemma recover_fails (e : exn) :
  calm no_click (fun r => r = failure (Some e)) False (recover e).
Proof.
  assert (calm no_click (fun _ => True) False clean_mailbox) as Hclean.
  { unfold clean_mailbox. eapply calm_bind; [apply calm_get|]. intros l _.
    destruct (mailService l), (tempMailbox l) as [mb|]; try (apply calm_ret; exact I).
    apply calm_try_catch.
    - eapply calm_bind; [apply calm_await; exact I|]. intros _ _. apply calm_call. exact I.
    - intros e'. apply calm_call. exact I. }
  unfold recover.
  eapply calm_bind; [apply calm_call; exact I|]. intros _ _.
  eapply calm_bind; [apply calm_get|]. intros l _.
  eapply calm_bind with (Qv := fun _ => True).
  - apply calm_when. apply calm_try_catch; [apply calm_await; exact I|].
    intros _. apply calm_ret. exact I.
  - intros _ _. eapply calm_bind; [exact Hclean|]. intros _ _. apply calm_ret. reflexivity.
Qed.

Lemma allowed_no_name_fill (en : entry) :
  allowed no_name_fill en -> fills nameInputSelectors en = false.
Proof. destruct en as [X e x]. destruct e; cbn; auto. Qed.

Lemma quiet_trace {A : Type} (Qv : A -> Prop) (m : M A) (w : world) (n : nat) (l : locals) :
  quiet Qv m ->
  Forall (fun en => fills nameInputSelectors en = false) (trace_of (exec w n (m l)))
  /\ match value_of (exec w n (m l)) with
     | (Ok a, _) => Qv a
     | (Err _, _) => True
     end.
Proof.
  intros Hm. destruct (sat_exec _ _ _ (Hm l) w n) as [Htr Hv]. split.
  - eapply Forall_impl; [exact Htr|]. apply allowed_no_name_fill.
  - destruct (value_of (exec w n (m l))) as [[a|e] l']; exact Hv.
Qed.

(** C6.  In a run in which the classifier's answer is the login flow, no
    full-name input is ever filled, and what follows the classification is
    the login branch: the password is typed into the login password field;
    when the field has taken it, a pause and the click on the submit button
    follow; when it has not (or the helper is rejected), nothing more is
    clicked and the run ends as failed, with the error of line 1269 (or
    with the rejection). *)
Theorem login_flow_is_taken (w : world) (email0 proxyUrl : option jsstring)
        (testLoginDetection keepBrowserOpen : bool) (cfg : option MailServiceConfig)
        (isVerifyFlow : bool) (l1 : locals) :
  let randomName := w _ 0 GenerateRandomName in
  let userCode := w _ 1 GenerateUserCode in
  let classified := exec w 2 (until_classified proxyUrl cfg userCode (at_entry email0)) in
  let run := exec w 0 (autoRegisterAWS email0 proxyUrl testLoginDetection keepBrowserOpen cfg) in
  value_of classified = (Ok (true, isVerifyFlow), l1) ->
  Forall (fun en => fills nameInputSelectors en = false) (trace_of run)
  /\ exists filled rest,
       trace_of run
         = Did GenerateRandomName randomName :: Did GenerateUserCode userCode
             :: trace_of classified
             ++ Did (Log L_login_flow) tt
             :: Did (WaitAndFill loginPasswordSelector password 30000 999 true) filled
             :: rest
       /\ (filled = Ok true ->
            exists paused rest',
              rest = Did (Page WaitForTimeout) paused :: rest'
              /\ (paused = Ok tt ->
                    exists clicked rest'',
                      rest' = Did (WaitAndClickWithRetry primaryButton) clicked :: rest''))
       /\ (forall e, filled = Ok false /\ e = Raised 1269 \/ filled = Err e ->
            result_of run = Some (failure (Some e))
            /\ Forall (fun en => clicks primaryButton en = false) rest).
Proof.
  intros randomName userCode classified run Hflow.
  assert (trace_of run
          = Did GenerateRandomName randomName :: Did GenerateUserCode userCode
              :: trace_of (exec w 2 (try_catch
                   (attempt proxyUrl testLoginDetection keepBrowserOpen cfg randomName userCode)
                   recover (at_entry email0)))
          /\ result_of run
             = result_of (exec w 2 (try_catch
                   (attempt proxyUrl testLoginDetection keepBrowserOpen cfg randomName userCode)
                   recover (at_entry email0)))) as [Htrace Hresult].
  { subst run. unfold autoRegisterAWS, result_of.
    rewrite !trace_do, !value_do. split; reflexivity. }
  rewrite Htrace, Hresult. clear Htrace Hresult.
  destruct (quiet_trace _ _ w 2 (at_entry email0)
              (quiet_until_classified proxyUrl cfg userCode)) as [Hpre Hsnd].
  fold classified in Hpre, Hsnd. rewrite Hflow in Hsnd. cbn in Hsnd. subst isVerifyFlow.
  rewrite exec_try_catch. unfold attempt. rewrite exec_bind.
  fold classified. destruct classified as [[c n1] t0] eqn:Hc.
  cbn [value_of fst] in Hflow. subst c. cbn [trace_of snd] in *. cbn [fst snd].
  set (K := fun _ : unit => finish randomName testLoginDetection keepBrowserOpen).
  destruct (quiet_trace (fun _ => True) (bind (login_flow false) K) w n1 l1) as [Hlogin _].
  { eapply quiet_bind; [apply quiet_login_flow|]. intros u _. apply quiet_finish. }
  destruct (login_flow_head w n1 K l1) as (filled & rest & Hhead & Hok & Hfail).
  destruct (exec w n1 (bind (login_flow false) K l1)) as [[[[res|e] l2] n2] t2] eqn:Hrun.
  - cbn [trace_of snd] in *. split.
    + repeat constructor. apply Forall_app. split; assumption.
    + exists filled, rest. rewrite Hhead. split; [reflexivity|]. split; [exact Hok|].
      intros e Hf. destruct (Hfail e Hf) as [_ Hv]. discriminate Hv.
  - destruct (quiet_trace (fun _ => True) (recover e) w n2 l2 (quiet_recover e))
      as [Hrec _].
    destruct (exec w n2 (recover e l2)) as [[r3 n3] t3] eqn:Hrecover.
    cbn [trace_of snd] in *. split.
    + repeat constructor. rewrite !Forall_app. tauto.
    + exists filled, (rest ++ t3). rewrite Hhead. cbn [app].
      rewrite <- !app_assoc. cbn [app]. split; [reflexivity|]. split.
      * intros Hf. destruct (Hok Hf) as (paused & rest' & -> & Hclick).
        exists paused, (rest' ++ t3). split; [reflexivity|].
        intros Hp. destruct (Hclick Hp) as (clicked & rest'' & ->).
        exists clicked, (rest'' ++ t3). reflexivity.
      * intros e' Hf. destruct (Hfail e' Hf) as [-> Hv].
        cbn [value_of fst] in Hv. injection Hv as -> ->. cbn [app].
        pose proof (recover_fails e' l1) as Hsat.
        destruct (sat_exec _ _ _ Hsat w n2) as [Hnoclick Hval].
        rewrite Hrecover in Hnoclick, Hval. cbn [trace_of value_of fst snd] in *.
        split.
        -- unfold result_of. cbn [value_of fst]. destruct r3 as [[res|e3] l3];
             [subst res; reflexivity|destruct Hval].
        -- eapply Forall_impl; [exact Hnoclick|]. intros [X e x]. destruct e; cbn; tauto.
Qed.

Lemma race_login_is_login_flow (w : world) (n : nat) (l : locals) :
  w _ n RaceDetectors = Ok Login \/ w _ n RaceDetectors = Ok LoginPassword ->
  value_of (exec w n (classify l)) = (Ok (true, false), l).
Proof. rewrite exec_classify. intros [-> | ->]; reflexivity. Qed.

(** On the page that shows the sign-in heading the run takes the login
    branch, types the password, clicks the submit button, never touches a
    name input, and succeeds. *)
Lemma login_flow_is_taken_witness :
  login_page _ 22 RaceDetectors = Ok Login
  /\ Forall (fun en => fills nameInputSelectors en = false) (trace_of (sample_run login_page))
  /\ existsb (fills [loginPasswordSelector]) (trace_of (sample_run login_page)) = true
  /\ existsb (clicks primaryButton) (trace_of (sample_run login_page)) = true
  /\ option_map success (result_of (sample_run login_page)) = Some true.
Proof.
  split; [reflexivity|].
  destruct (login_flow_is_taken login_page None None true false (Some sample_config)
              false sample_locals) as [Hquiet _].
  - vm_compute. reflexivity.
  - split; [exact Hquiet|]. repeat split; vm_compute; reflexivity.
Defined.

(* --------------------------------------------------------------------- *)
(** ** The temporary mailbox *)
(* --------------------------------------------------------------------- *)

Local Ltac mailbox_steps := steady_steps ltac:(exact I).

Lemma steady_fill_name (selectors : list jsstring) (randomName : jsstring) :
  steady no_mailbox (fun _ => True) (fill_name selectors randomName).
Proof. induction selectors as [|selector rest IH]; cbn [fill_name]; mailbox_steps. Qed.

Lemma steady_find_password_inputs (left : nat) (last : option nat * option nat) :
  steady no_mailbox (fun _ => True) (find_password_inputs left last).
Proof.
  revert last. induction left as [|left IH]; intros last; cbn [find_password_inputs].
  - apply steady_ret. exact I.
  - unfold pause. mailbox_steps.
Qed.

Lemma steady_registration_flow (randomName : jsstring) :
  steady no_mailbox (fun _ => True) (registration_flow randomName).
Proof.
  unfold registration_flow.
  eapply steady_bind; [apply steady_fill_name|]. intros nameInputFilled _.
  eapply steady_bind with (Qv := fun _ => True); [mailbox_steps|]. intros _ _.
  eapply steady_bind with (Qv := fun _ => True); [unfold pause; mailbox_steps|]. intros _ _.
  eapply steady_bind with (Qv := fun _ => True); [mailbox_steps|]. intros clicked _.
  eapply steady_bind with (Qv := fun _ => True); [mailbox_steps|]. intros _ _.
  eapply steady_bind with (Qv := fun _ => True); [mailbox_steps|]. intros _ _.
  eapply steady_bind; [apply (steady_find_code_input _ routine_no_mailbox 999)|].
  intros [codeInput|] Hfound; [|apply steady_throw].
  specialize (Hfound codeInput eq_refl).
  pose proof (steady_enter_code _ routine_no_mailbox codeInput (Raised 1492) Hfound).
  pose proof (steady_find_password_inputs 999 (None, None)).
  unfold pause. mailbox_steps.
Qed.

(** The part of the [try] block between the creation of the mailbox and the
    harvest of the token. *)
Lemma steady_flow (flow : bool * bool) (randomName : jsstring) :
  steady no_mailbox (fun _ => True)
    (if fst flow then login_flow (snd flow) else registration_flow randomName).
Proof.
  destruct (fst flow);
    [apply (steady_login_flow _ routine_no_mailbox)|apply steady_registration_flow].
Qed.

Lemma no_mailbox_traffic (t : list entry) :
  Forall (allowed no_mailbox) t -> omap traffic t = [].
Proof.
  induction 1 as [|[X e x] t He _ IH]; [reflexivity|].
  cbn [omap list_omap]. rewrite IH. destruct e; cbn in *; tauto.
Qed.

Lemma steady_exec {A : Type} (Qv : A -> Prop) (m : M A) (w : world) (n : nat) (l : locals) :
  steady no_mailbox Qv m ->
  omap traffic (trace_of (exec w n (m l))) = []
  /\ keeps l (snd (value_of (exec w n (m l)))).
Proof.
  intros Hm. destruct (sat_exec _ _ _ (Hm l) w n) as [Htr Hv].
  split; [apply no_mailbox_traffic, Htr|].
  destruct (value_of (exec w n (m l))) as [[a|e] l']; cbn; tauto.
Qed.

Lemma exec_call {X : Type} (w : world) (n : nat) (e : eff X) (l : locals) :
  exec w n (call e l) = ((Ok (w _ n e), l), S n, [Did e (w _ n e)]).
Proof. reflexivity. Qed.

Lemma exec_await {X : Type} (w : world) (n : nat) (e : eff (outcome X)) (l : locals) :
  exec w n (await e l) = ((w _ n e, l), S n, [Did e (w _ n e)]).
Proof. reflexivity. Qed.

Lemma create_mailbox_traffic (w : world) (n : nat) (cfg : option MailServiceConfig)
      (email0 : option jsstring) :
  let r := exec w n (create_mailbox_if_needed cfg (at_entry email0)) in
  (omap traffic (trace_of r) = [] /\ tempMailbox (snd (value_of r)) = None)
  \/ (exists mb,
        omap traffic (trace_of r) = [Created mb]
        /\ tempMailbox (snd (value_of r)) = Some mb
        /\ mailService (snd (value_of r)) = true).
Proof.
  unfold create_mailbox_if_needed. cbv zeta. rewrite exec_bind. cbn [exec get at_entry email].
  destruct (_ && _); [|left; split; reflexivity].
  rewrite exec_bind, exec_await.
  destruct (w _ n ImportMailService) as [[]|e]; [|left; split; reflexivity].
  rewrite exec_bind. cbn [exec set_mailService bind get put pbind].
  rewrite exec_bind, exec_call.
  destruct (w _ (S n) CheckHealth); rewrite exec_bind; cbn [unless];
    [|left; split; reflexivity].
  rewrite exec_ret, exec_bind, exec_await.
  destruct (w _ (S (S n)) CreateMailbox) as [mb|e]; [|left; split; reflexivity].
  right. exists mb. rewrite exec_bind. cbn. auto.
Qed.

Lemma clean_mailbox_traffic (w : world) (n : nat) (l : locals) :
  omap traffic (trace_of (exec w n (clean_mailbox l))) = cleanup l
  /\ value_of (exec w n (clean_mailbox l)) = (Ok tt, l).
Proof.
  unfold clean_mailbox, cleanup. rewrite exec_bind. cbn [exec get].
  destruct (mailService l), (tempMailbox l) as [mb|]; try (split; reflexivity).
  rewrite exec_try_catch, exec_bind, exec_await.
  destruct (w _ n (DeleteMailbox (mb_email mb))) as [[]|e]; rewrite exec_call.
  - destruct (w _ (S n) (Log (L_mailbox_cleaned (mb_email mb)))). split; reflexivity.
  - destruct (w _ (S n) (Log (L_mailbox_cleanup_failed e))). split; reflexivity.
Qed.

Lemma keeps_cleanup (l l' : locals) : keeps l l' -> cleanup l' = cleanup l.
Proof. intros [H1 H2]. unfold cleanup. rewrite H1, H2. reflexivity. Qed.

Lemma omap_traffic_cons (en : entry) (t : list entry) :
  omap traffic (en :: t) = from_option (fun ev => [ev]) [] (traffic en) ++ omap traffic t.
Proof. cbn. destruct (traffic en); reflexivity. Qed.

Lemma recover_traffic (w : world) (n : nat) (e : exn) (l : locals) :
  omap traffic (trace_of (exec w n (recover e l))) = cleanup l
  /\ fst (value_of (exec w n (recover e l))) = Ok (failure (Some e)).
Proof.
  unfold recover. rewrite exec_bind, exec_call, exec_bind. cbn [exec get].
  rewrite exec_bind.
  assert (exists n1 t1,
            exec w (S n) (when (browser l) (try_catch (await BrowserClose) (fun _ => ret tt)) l)
              = ((Ok tt, l), n1, t1) /\ omap traffic t1 = []) as (n1 & t1 & -> & Ht1).
  { destruct (browser l); cbn [when]; [|eexists _, _; split; reflexivity].
    rewrite exec_try_catch, exec_await.
    destruct (w _ (S n) BrowserClose) as [[]|e']; eexists _, _; split; reflexivity. }
  rewrite exec_bind.
  destruct (clean_mailbox_traffic w n1 l) as [Ht Hv].
  destruct (exec w n1 (clean_mailbox l)) as [[[r l'] n2] t2].
  cbn [trace_of value_of fst snd] in Ht, Hv. injection Hv as -> ->.
  rewrite exec_ret. cbn [trace_of value_of fst snd app].
  rewrite app_nil_r, omap_traffic_cons, omap_app, Ht1. split; [exact Ht|reflexivity].
Qed.

(** What [finish] does once the token is there and the browser is dealt
    with. *)
Lemma finish_traffic (w : world) (n : nat) (randomName : jsstring)
      (testLoginDetection keepBrowserOpen : bool) (l : locals) :
  let r := exec w n (finish randomName testLoginDetection keepBrowserOpen l) in
  match fst (value_of r) with
  | Err _ => omap traffic (trace_of r) = [] /\ keeps l (snd (value_of r))
  | Ok res =>
      omap traffic (trace_of r) = [Authorised false] /\ success res = false
      \/ omap traffic (trace_of r) = Authorised true :: cleanup l /\ success res = true
  end.
Proof.
  cbv zeta. unfold finish. rewrite exec_bind.
  destruct (steady_exec _ _ w n l (steady_harvest_token _ routine_no_mailbox 999))
    as [Ht1 Hk1].
  destruct (exec w n (harvest_token 999 l)) as [[[[ssoToken|e] l1] n1] t1];
    cbn [trace_of value_of fst snd] in *; [|split; assumption].
  destruct ssoToken as [[|c tok]|].
  1, 3: rewrite exec_bind, exec_await;
    destruct (w _ n1 BrowserClose) as [[]|e]; cbn; rewrite ?omap_app, ?Ht1;
    (split; [reflexivity|exact Hk1]).
  rewrite exec_bind.
  set (before := when testLoginDetection (call TestLoginDetection)).
  assert (steady no_mailbox (fun _ => True) before) as Hbefore
    by (unfold before; steady_steps ltac:(exact I)).
  destruct (steady_exec _ _ w n1 l1 Hbefore) as [Ht2 Hk2].
  destruct (exec w n1 (before l1)) as [[[[[]|e] l2] n2] t2];
    cbn [trace_of value_of fst snd] in *;
    [|rewrite omap_app, Ht1, Ht2; split; [reflexivity|eapply keeps_trans; eassumption]].
  rewrite exec_bind.
  set (closing := if keepBrowserOpen then call (Log L_browser_kept_open)
                  else (await BrowserClose ;; set_browser false ;;
                        call (Log L_browser_closed))%prog).
  assert (steady no_mailbox (fun _ => True) closing) as Hclosing
    by (unfold closing; steady_steps ltac:(exact I)).
  destruct (steady_exec _ _ w n2 l2 Hclosing) as [Ht3 Hk3].
  destruct (exec w n2 (closing l2)) as [[[[[]|e] l3] n3] t3];
    cbn [trace_of value_of fst snd] in *;
    [|rewrite !omap_app, Ht1, Ht2, Ht3; split;
       [reflexivity|repeat (eapply keeps_trans; [eassumption|]); apply keeps_refl]].
  assert (cleanup l3 = cleanup l) as Hclean.
  { apply keeps_cleanup. repeat (eapply keeps_trans; [eassumption|]). apply keeps_refl. }
  rewrite exec_bind, exec_await.
  destruct (w _ n3 (SsoDeviceAuth (c :: tok) (str "us-east-1"))) as [ssoResult|e] eqn:Hsso.
  2: { cbn [trace_of value_of fst snd]. rewrite !omap_app, Ht1, Ht2, Ht3.
       cbn. split; [reflexivity|].
       repeat (eapply keeps_trans; [eassumption|]). apply keeps_refl. }
  destruct (sso_success ssoResult) eqn:Hgranted; cbn [negb].
  - rewrite exec_bind, exec_call, exec_bind.
    destruct (clean_mailbox_traffic w (S (S n3)) l3) as [Ht Hv].
    destruct (exec w (S (S n3)) (clean_mailbox l3)) as [[[r l'] n4] t4].
    cbn [trace_of value_of fst snd] in Ht, Hv. injection Hv as -> ->.
    rewrite exec_ret. cbn [trace_of value_of fst snd]. right.
    rewrite !omap_app, Ht1, Ht2, Ht3, Ht, Hclean. cbn. rewrite Hgranted.
    rewrite app_nil_r. split; reflexivity.
  - rewrite exec_bind, exec_call, exec_ret. cbn [trace_of value_of fst snd]. left.
    rewrite !omap_app, Ht1, Ht2, Ht3. cbn. rewrite Hgranted. split; reflexivity.
Qed.

Lemma until_classified_traffic (w : world) (n : nat) (proxyUrl : option jsstring)
      (cfg : option MailServiceConfig) (userCode : jsstring) (email0 : option jsstring) :
  let r := exec w n (until_classified proxyUrl cfg userCode (at_entry email0)) in
  exists o, omap traffic (trace_of r) = made o /\ cleanup (snd (value_of r)) = gone o.
Proof.
  cbv zeta. unfold until_classified. rewrite exec_bind.
  assert (exists o,
            omap traffic (trace_of (exec w n (create_mailbox_if_needed cfg (at_entry email0))))
              = made o
            /\ cleanup (snd (value_of (exec w n (create_mailbox_if_needed cfg (at_entry email0)))))
               = gone o) as (o & Ht1 & Hc1).
  { destruct (create_mailbox_traffic w n cfg email0) as [[Ht Hl]|(mb & Ht & Hl & Hs)].
    - exists None. split; [exact Ht|]. unfold cleanup. rewrite Hl.
      destruct (mailService _); reflexivity.
    - exists (Some mb). split; [exact Ht|]. unfold cleanup. rewrite Hl, Hs. reflexivity. }
  exists o.
  destruct (exec w n (create_mailbox_if_needed cfg (at_entry email0)))
    as [[[[[]|e] l1] n1] t1]; cbn [trace_of value_of fst snd] in *; [|split; assumption].
  set (rest := (submit_email proxyUrl userCode ;; classify)%prog).
  assert (steady no_mailbox (fun flow => snd flow = false) rest) as Hrest.
  { eapply steady_bind; [apply (steady_submit_email _ routine_no_mailbox)|].
    intros _ _. apply (steady_classify _ routine_no_mailbox). }
  destruct (steady_exec _ _ w n1 l1 Hrest) as [Ht2 Hk2].
  destruct (exec w n1 (rest l1)) as [[[r l2] n2] t2]. cbn [trace_of value_of fst snd] in *.
  rewrite omap_app, Ht1, Ht2, app_nil_r, (keeps_cleanup _ _ Hk2).
  split; [reflexivity|exact Hc1].
Qed.

(** X13.  What a run exchanges with the mailbox service and the device
    authorisation, whatever the outside answers: the creation of the
    mailbox, if the run asks for one and gets it; then the deletion of that
    mailbox, in a run that fails by an exception; or the granted
    authorisation and the deletion, in a run that succeeds; or the refused
    authorisation and nothing more, in a run that fails by that refusal. *)
Theorem mailbox_traffic_of_a_run (w : world) (email0 proxyUrl : option jsstring)
        (testLoginDetection keepBrowserOpen : bool) (cfg : option MailServiceConfig) :
  let run := exec w 0 (autoRegisterAWS email0 proxyUrl testLoginDetection keepBrowserOpen cfg) in
  exists res o,
    result_of run = Some res
    /\ (omap traffic (trace_of run) = made o ++ gone o /\ success res = false
        \/ omap traffic (trace_of run) = made o ++ Authorised true :: gone o
           /\ success res = true
        \/ omap traffic (trace_of run) = made o ++ [Authorised false]
           /\ success res = false).
Proof.
  cbv zeta. unfold autoRegisterAWS, result_of. rewrite !trace_do, !value_do.
  rewrite !omap_traffic_cons. cbn [traffic from_option app].
  set (randomName := w _ 0 GenerateRandomName). set (userCode := w _ 1 GenerateUserCode).
  rewrite exec_try_catch. unfold attempt. rewrite exec_bind.
  destruct (until_classified_traffic w 2 proxyUrl cfg userCode email0) as (o & Ht1 & Hc1).
  destruct (exec w 2 (until_classified proxyUrl cfg userCode (at_entry email0)))
    as [[[[flow|e] l1] n1] t1]; cbn [trace_of value_of fst snd] in *.
  2: { destruct (recover_traffic w n1 e l1) as [Ht Hv].
       destruct (exec w n1 (recover e l1)) as [[[r l'] n2] t2].
       cbn [trace_of value_of fst snd] in *. subst r.
       exists (failure (Some e)), o. split; [reflexivity|]. left.
       rewrite omap_app, Ht1, Ht, Hc1. split; reflexivity. }
  rewrite exec_bind.
  destruct (steady_exec _ _ w n1 l1 (steady_flow flow randomName)) as [Ht2 Hk2].
  destruct (exec w n1 ((if fst flow then login_flow (snd flow)
                        else registration_flow randomName) l1))
    as [[[[[]|e] l2] n2] t2]; cbn [trace_of value_of fst snd] in *.
  2: { destruct (recover_traffic w n2 e l2) as [Ht Hv].
       destruct (exec w n2 (recover e l2)) as [[[r l'] n3] t3].
       cbn [trace_of value_of fst snd] in *. subst r.
       exists (failure (Some e)), o. split; [reflexivity|]. left.
       rewrite !omap_app, Ht1, Ht2, Ht, (keeps_cleanup _ _ Hk2), Hc1, ?app_nil_r.
       split; reflexivity. }
  pose proof (finish_traffic w n2 randomName testLoginDetection keepBrowserOpen l2) as Hfinish.
  cbv zeta in Hfinish.
  destruct (exec w n2 (finish randomName testLoginDetection keepBrowserOpen l2))
    as [[[[res|e] l3] n3] t3]; cbn [trace_of value_of fst snd] in *.
  - exists res, o. split; [reflexivity|].
    destruct Hfinish as [[Ht Hs]|[Ht Hs]]; [right; right|right; left].
    + rewrite !omap_app, Ht1, Ht2, Ht, ?app_nil_r. split; [reflexivity|exact Hs].
    + rewrite !omap_app, Ht1, Ht2, Ht, (keeps_cleanup _ _ Hk2), Hc1, ?app_nil_r.
      split; [reflexivity|exact Hs].
  - destruct Hfinish as [Ht3 Hk3].
    destruct (recover_traffic w n3 e l3) as [Ht Hv].
    destruct (exec w n3 (recover e l3)) as [[[r l'] n4] t4].
    cbn [trace_of value_of fst snd] in *. subst r.
    exists (failure (Some e)), o. split; [reflexivity|]. left.
    rewrite !omap_app, Ht1, Ht2, Ht3, Ht, (keeps_cleanup _ _ Hk3), (keeps_cleanup _ _ Hk2), Hc1.
    rewrite ?app_nil_r. split; reflexivity.
Qed.

(** C1, on the run in which everything works except the device
    authorisation, which answers with a failure: the mailbox that was
    created is never deleted and the run ends as failed.  On the run that
    succeeds, and on the run that fails by an exception, the mailbox is
    deleted, once. *)
Theorem sso_refusal_leaves_mailbox_behind :
  omap traffic (trace_of (sample_run sso_refusing))
    = [Created sample_mailbox; Authorised false]
  /\ option_map success (result_of (sample_run sso_refusing)) = Some false
  /\ omap traffic (trace_of (sample_run login_page))
     = [Created sample_mailbox; Authorised true; Deleted (mb_email sample_mailbox)]
  /\ option_map success (result_of (sample_run login_page)) = Some true
  /\ omap traffic (trace_of (sample_run password_field_missing))
     = [Created sample_mailbox; Deleted (mb_email sample_mailbox)]
  /\ option_map success (result_of (sample_run password_field_missing)) = Some false.
Proof. repeat split; vm_compute; reflexivity. Qed.

(* ===================================================================== *)
(** * More of the store and of the worker pool *)
(* ===================================================================== *)

Import Store Pool.

(* --------------------------------------------------------------------- *)
(** ** The statistics *)
(* --------------------------------------------------------------------- *)

Lemma getStats_sum (s : AutoRegisterState) :
  n_total (getStats s)
  = n_pending (getStats s) + n_running (getStats s) + n_success (getStats s)
    + n_failed (getStats s) + n_exists (getStats s)
    + length (filter (has_status getting_code) (accounts s)).
Proof.
  unfold getStats. cbn. induction (accounts s) as [|a accs IH]; [reflexivity|].
  unfold has_status in *.
  destruct (status a) eqn:Hst;
    repeat match goal with
    | |- context [filter ?f (a :: accs)] =>
        first [ rewrite (filter_cons_True f) by (cbn; rewrite Hst; exact I)
              | rewrite (filter_cons_False f) by (cbn; rewrite Hst; exact (fun F => F)) ]
    end; cbn [length]; lia.
Qed.

Lemma has_status_spec (st : Status) (a : RegisterAccount) :
  has_status st a = true <-> status a = st.
Proof. unfold has_status. destruct (status a), st; cbn; split; congruence. Qed.

Lemma no_status (st : Status) (accs : list RegisterAccount) :
  Forall (fun a => status a <> st) accs -> filter (has_status st) accs = [].
Proof.
  induction 1 as [|a accs Ha _ IH]; [reflexivity|].
  rewrite filter_cons_False; [exact IH|]. intros Hs. apply Ha, has_status_spec.
  destruct (has_status st a); [reflexivity|destruct Hs].
Qed.

(* --------------------------------------------------------------------- *)
(** ** Invariants of the pool, step by step *)
(* --------------------------------------------------------------------- *)

Lemma run_invariant (concurrency : nat) (I : state -> Prop) :
  (forall s e s', I s -> step concurrency s e = Some s' -> I s') ->
  forall es s s', I s -> run concurrency s es = Some s' -> I s'.
Proof.
  intros Hstep. induction es as [|e es IH]; intros s s' Hs Hrun; cbn in Hrun.
  - injection Hrun as <-. exact Hs.
  - destruct (step concurrency s e) as [s1|] eqn:He; [|discriminate].
    eapply IH; [|exact Hrun]. eapply Hstep; eassumption.
Qed.

Section StoreAndTasks.
Variable I : AutoRegisterState -> list RegisterAccount -> list task -> Prop.

Hypothesis I_register : forall a q st ts st' ph,
  I st (a :: q) ts -> shouldStop st = false ->
  registerSingleAccount a st = (st', ph) -> I st' q (push a ph ts).
Hypothesis I_flush : forall st q ts, I st q ts -> I st q (flush_tasks ts).
Hypothesis I_result : forall s h t r,
  I (store s) (queue s) (tasks s) -> tasks s !! h = Some t -> t_phase t = InFlight ->
  I (store (on_result h t r s)) (queue s) (tasks (on_result h t r s)).
Hypothesis I_imported : forall st q ts h,
  I st q ts -> has_phase ts Importing h = true -> I st q (alter (set_phase Settled) h ts).
Hypothesis I_stop : forall st q ts, I st q ts -> I (requestStop st) q ts.

Lemma fill_invariant (concurrency : nat) (q : list RegisterAccount) :
  forall st run ts q' st' run' ts',
    fill concurrency q st run ts = (q', st', run', ts') ->
    shouldStop st = false -> I st q ts -> I st' q' ts'.
Proof.
  induction q as [|a q IH]; intros st run ts q' st' run' ts' Hfill Hs HI; cbn [fill] in Hfill.
  - injection Hfill as <- <- _ <-. exact HI.
  - destruct (length run <? concurrency).
    + destruct (registerSingleAccount a st) as [st1 ph] eqn:Hreg.
      eapply IH; [exact Hfill| |].
      * apply registerSingleAccount_live in Hreg as (_ & Hk & _). congruence.
      * eapply I_register; eassumption.
    + injection Hfill as <- <- _ <-. exact HI.
Qed.

Lemma turn_invariant (concurrency : nat) (s : state) :
  I (store s) (queue s) (tasks s) ->
  I (store (turn concurrency s)) (queue (turn concurrency s)) (tasks (turn concurrency s)).
Proof.
  intros HI. unfold turn.
  destruct (queue s) as [|a q] eqn:Hq, (running s) as [|h r] eqn:Hr; [exact HI| | |].
  all: destruct (shouldStop (store s)) eqn:Hs; [cbn; rewrite ?Hq; exact HI|].
  all: destruct (fill concurrency _ (store s) _ (tasks s)) as [[[q' st'] run'] ts'] eqn:Hfill.
  all: pose proof (fill_invariant _ _ _ _ _ _ _ _ _ Hfill Hs HI) as HI'.
  all: destruct run'; cbn; [exact HI'|apply I_flush; exact HI'].
Qed.

Lemma step_invariant (concurrency : nat) (s s' : state) (e : event) :
  I (store s) (queue s) (tasks s) -> step concurrency s e = Some s' ->
  I (store s') (queue s') (tasks s').
Proof.
  intros HI Hstep. destruct e as [| |h r|h]; cbn [step] in Hstep.
  - destruct (at_ s) as [|raced| |].
    + injection Hstep as <-. apply turn_invariant, HI.
    + destruct (existsb _ raced); [|discriminate]. injection Hstep as <-.
      apply turn_invariant, HI.
    + discriminate.
    + injection Hstep as <-. exact HI.
  - destruct (suspended s); [|discriminate]. injection Hstep as <-. cbn.
    apply I_stop, HI.
  - destruct (suspended s); [|discriminate].
    destruct (tasks s !! h) as [t|] eqn:Ht; [|discriminate].
    destruct (t_phase t) eqn:Hph; try discriminate. injection Hstep as <-.
    assert (queue (on_result h t r s) = queue s) as ->
      by (unfold on_result; destruct r as [ok tok name err|err];
          [destruct (ok && truthy tok)|]; reflexivity).
    apply I_result; assumption.
  - destruct (suspended s); [|discriminate]. cbn [andb] in Hstep.
    destruct (has_phase (tasks s) Importing h) eqn:Hh; [|discriminate].
    injection Hstep as <-. cbn. apply I_imported; assumption.
Qed.

Lemma pool_invariant (concurrency : nat) (es : list event) (s s' : state) :
  I (store s) (queue s) (tasks s) -> run concurrency s es = Some s' ->
  I (store s') (queue s') (tasks s').
Proof.
  apply (run_invariant concurrency (fun s => I (store s) (queue s) (tasks s))).
  intros s0 e s1. apply step_invariant.
Qed.

End StoreAndTasks.

(* --------------------------------------------------------------------- *)
(** ** What a run does to the accounts *)
(* --------------------------------------------------------------------- *)

Lemma on_result_store (h : nat) (t : task) (r : api_result) (s : state) :
  exists u, pool_update u
    /\ u_status u <> Some registering
    /\ store (on_result h t r s) = updateAccountStatus (id (t_account t)) u (store s)
    /\ exists p, (p = Importing \/ p = Settled)
         /\ tasks (on_result h t r s) = alter (set_phase p) h (tasks s).
Proof.
  unfold on_result. destruct r as [ok tok name err|err]; [destruct (ok && truthy tok)|].
  all: eexists; (split; [|split; [|split; [reflexivity|]]]);
    [split; [reflexivity|split; [reflexivity|eexists; split; [reflexivity|]]]| |];
    try discriminate; unfold written; auto.
  all: eexists; split; [|reflexivity]; auto.
Qed.

Lemma registerSingleAccount_store (a : RegisterAccount) (st st' : AutoRegisterState) (ph : phase) :
  registerSingleAccount a st = (st', ph) ->
  (ph = Skipped /\ st' = st)
  \/ (ph = InFlight /\ st' = updateAccountStatus (id a) (just_status registering) st).
Proof.
  unfold registerSingleAccount. destruct (shouldStop st); [intros [= <- <-]; auto|].
  destruct (status a); intros [= <- <-]; auto.
Qed.

Lemma framed_update (st0 : AutoRegisterState) (i : jsstring) (u : Updates)
      (st : AutoRegisterState) (q : list RegisterAccount) (ts : list task) :
  pool_update u -> i ∈ pending_ids st0 -> framed st0 st q ts ->
  framed st0 (updateAccountStatus i u st) q ts.
Proof.
  intros (Hid & Hem & stw & Hst & Hw) Hi (Hr & Hc & Hl & Hlen & Hacc & Hq & Hts).
  split; [exact Hr|]. split; [exact Hc|]. split; [exact Hl|].
  split; [rewrite updateAccountStatus_length; exact Hlen|].
  split; [|split; assumption].
  intros k a0 a Ha0 Ha.
  destruct (accounts st !! k) as [a1|] eqn:Ha1.
  2: { apply lookup_ge_None in Ha1. apply lookup_lt_Some in Ha0. lia. }
  rewrite (updateAccountStatus_lookup i u st k a1 Ha1) in Ha. injection Ha as <-.
  destruct (Hacc k a0 a1 Ha0 Ha1) as (H1 & H2 & H3).
  destruct (decide (id a1 = i)) as [Heq|Hne]; [|tauto].
  unfold spread. cbn. rewrite Hid, Hem, Hst. cbn.
  split; [exact H1|]. split; [exact H2|]. right. split; [|exact Hw]. congruence.
Qed.

Lemma framed_invariant (st0 : AutoRegisterState) (concurrency : nat) (es : list event)
      (s s' : state) :
  framed st0 (store s) (queue s) (tasks s) -> run concurrency s es = Some s' ->
  framed st0 (store s') (queue s') (tasks s').
Proof.
  apply pool_invariant.
  - intros a q st ts st' ph (Hr & Hc & Hl & Hlen & Hacc & Hq & Hts) _ Hreg.
    apply Forall_cons in Hq as [Ha Hq].
    assert (framed st0 st q (push a ph ts)) as HI.
    { repeat (split; [assumption|]).
      apply Forall_app. split; [exact Hts|]. constructor; [exact Ha|constructor]. }
    destruct (registerSingleAccount_store _ _ _ _ Hreg) as [[_ ->]|[_ ->]]; [exact HI|].
    apply framed_update; [|exact Ha|exact HI].
    split; [reflexivity|]. split; [reflexivity|]. exists registering. unfold written. auto.
  - intros st q ts (Hr & Hc & Hl & Hlen & Hacc & Hq & Hts).
    repeat (split; [assumption|]). unfold flush_tasks.
    apply Forall_fmap. eapply Forall_impl; [exact Hts|]. intros t Ht. cbn.
    destruct (phase_eqb (t_phase t) Skipped); exact Ht.
  - intros s0 h t r HI Ht _.
    destruct (on_result_store h t r s0) as (u & Hu & _ & -> & p & _ & ->).
    assert (id (t_account t) ∈ pending_ids st0) as Hin.
    { destruct HI as (_ & _ & _ & _ & _ & _ & Hts).
      apply (proj1 (Forall_lookup _ _) Hts h t Ht). }
    apply framed_update; [exact Hu|exact Hin|].
    destruct HI as (Hr & Hc & Hl & Hlen & Hacc & Hq & Hts).
    repeat (split; [assumption|]).
    apply Forall_alter; [exact Hts|]. intros t' _ Ht'. exact Ht'.
  - intros st q ts h (Hr & Hc & Hl & Hlen & Hacc & Hq & Hts) _.
    repeat (split; [assumption|]).
    apply Forall_alter; [exact Hts|]. intros t' _ Ht'. exact Ht'.
  - intros st q ts HI. exact HI.
Qed.

Lemma framed_start (st0 : AutoRegisterState) :
  framed st0 (store (start st0)) (queue (start st0)) (tasks (start st0)).
Proof.
  split; [reflexivity|]. split; [reflexivity|]. split; [reflexivity|].
  split; [reflexivity|]. split; [|split; [|constructor]].
  - intros k a0 a Ha0 Ha. change (accounts st0 !! k = Some a) in Ha.
    rewrite Ha0 in Ha. injection Ha as <-. auto.
  - apply Forall_forall. intros a Ha. unfold pending_ids.
    apply list_elem_of_fmap. exists a. split; [reflexivity|exact Ha].
Qed.



(** X1.  The five counters of [getStats] add up to [total], and [total] stays the
    number of accounts the run began with, when no account has the status
    [getting_code] at the start (no code of the renderer writes it). *)
Theorem stats_add_up (concurrency : nat) (st : AutoRegisterState)
        (es : list event) (s : state) :
  Forall (fun a => status a <> getting_code) (accounts st) ->
  run concurrency (start st) es = Some s ->
  n_total (getStats (store s))
  = n_pending (getStats (store s)) + n_running (getStats (store s))
    + n_success (getStats (store s)) + n_failed (getStats (store s))
    + n_exists (getStats (store s))
  /\ n_total (getStats (store s)) = length (accounts st).
Proof.
  intros Hnone Hrun.
  destruct (framed_invariant st _ _ _ _ (framed_start st) Hrun)
    as (_ & _ & _ & Hlen & Hacc & _).
  split; [|exact Hlen]. rewrite getStats_sum, no_status; [cbn; lia|].
  apply Forall_lookup. intros k a Ha Hg.
  destruct (accounts st !! k) as [a0|] eqn:Ha0.
  - destruct (Hacc k a0 a Ha0 Ha) as (_ & _ & [->|[_ Hw]]).
    + apply (proj1 (Forall_lookup _ _) Hnone k a0 Ha0 Hg).
    + rewrite Hg in Hw. destruct Hw as [H|[H|H]]; discriminate H.
  - apply lookup_lt_Some in Ha. apply lookup_ge_None in Ha0. lia.
Qed.

Lemma stats_add_up_witness :
  exists s, run 2 (start sample_store) sample_schedule = Some s
    /\ getStats (store s)
       = {| n_total := 6; n_pending := 0; n_running := 0;
            n_success := 2; n_failed := 3; n_exists := 1 |}.
Proof.
  destruct (run 2 (start sample_store) sample_schedule) as [s|] eqn:Hrun;
    [|vm_compute in Hrun; discriminate].
  exists s. split; [reflexivity|].
  assert (Forall (fun a => status a <> getting_code) (accounts sample_store)) as Hnone
    by (repeat constructor; discriminate).
  destruct (stats_add_up 2 sample_store sample_schedule s Hnone Hrun) as [Hsum Htotal].
  vm_compute in Hrun. injection Hrun as <-. reflexivity.
Defined.

(* --------------------------------------------------------------------- *)
(** ** Registrations shown as running *)
(* --------------------------------------------------------------------- *)

Lemma NoDup_ids_filter (P : RegisterAccount -> bool) (accs : list RegisterAccount) :
  NoDup (map id accs) -> NoDup (map id (filter P accs)).
Proof.
  induction accs as [|a accs IH]; intros Hnd; [constructor|].
  cbn in Hnd. apply NoDup_cons in Hnd as [Hnotin Hnd].
  destruct (P a) eqn:Ha.
  - rewrite filter_cons_True by (rewrite Ha; exact I). cbn. apply NoDup_cons.
    split; [|apply IH, Hnd]. intros Hin. apply Hnotin.
    apply list_elem_of_fmap in Hin as (a' & -> & Ha').
    apply list_elem_of_filter in Ha' as [_ Ha'].
    apply list_elem_of_fmap. exists a'. tauto.
  - rewrite filter_cons_False by (rewrite Ha; exact (fun F => F)). apply IH, Hnd.
Qed.

Lemma elem_of_updateAccountStatus (i : jsstring) (u : Updates) (st : AutoRegisterState)
      (a : RegisterAccount) :
  a ∈ accounts (updateAccountStatus i u st) ->
  exists a1, a1 ∈ accounts st /\ a = if decide (id a1 = i) then spread a1 u else a1.
Proof.
  intros Ha. apply list_elem_of_lookup in Ha as [k Hk].
  destruct (accounts st !! k) as [a1|] eqn:Ha1.
  - rewrite (updateAccountStatus_lookup i u st k a1 Ha1) in Hk. injection Hk as <-.
    exists a1. split; [|reflexivity]. eapply list_elem_of_lookup_2. exact Ha1.
  - apply lookup_ge_None in Ha1. apply lookup_lt_Some in Hk.
    rewrite updateAccountStatus_length in Hk. lia.
Qed.

Lemma accounted_invariant (concurrency : nat) (es : list event) (s s' : state) :
  accounted (store s) (queue s) (tasks s) -> run concurrency s es = Some s' ->
  accounted (store s') (queue s') (tasks s').
Proof.
  apply pool_invariant.
  - intros a q st ts st' ph HI _ Hreg.
    assert (forall t, t ∈ ts -> t ∈ push a ph ts) as Hpush
      by (intros t Ht; apply elem_of_app; left; exact Ht).
    destruct (registerSingleAccount_store _ _ _ _ Hreg) as [[_ ->]|[-> ->]].
    + intros a' Ha' Hs. destruct (HI a' Ha' Hs) as (t & Ht & H). exists t. auto.
    + intros a' Ha' Hs.
      apply elem_of_updateAccountStatus in Ha' as (a1 & Ha1 & ->).
      destruct (decide (id a1 = id a)) as [Heq|Hne].
      * eexists. split; [apply elem_of_app; right; apply list_elem_of_singleton; reflexivity|].
        cbn. split; [reflexivity|]. symmetry. exact Heq.
      * destruct (HI a1 Ha1 Hs) as (t & Ht & H). exists t. auto.
  - intros st q ts HI a Ha Hs. destruct (HI a Ha Hs) as (t & Ht & Hph & Hid).
    exists t. split; [|tauto]. unfold flush_tasks. apply list_elem_of_fmap.
    exists t. split; [|exact Ht]. rewrite Hph. reflexivity.
  - intros s0 h t r HI Ht Hph.
    destruct (on_result_store h t r s0) as (u & (Hid & _ & stw & Hst & _) & Hnr & -> & p & _ & ->).
    intros a Ha Hs. apply elem_of_updateAccountStatus in Ha as (a1 & Ha1 & ->).
    destruct (decide (id a1 = id (t_account t))) as [Heq|Hne].
    { exfalso. unfold spread in Hs. cbn in Hs. rewrite Hst in Hs. cbn in Hs.
      apply Hnr. congruence. }
    destruct (HI a1 Ha1 Hs) as (t' & Ht' & Hph' & Hid').
    exists t'. split; [|tauto].
    apply list_elem_of_lookup in Ht' as [h' Hh'].
    assert (h' <> h) as Hh by (intros ->; rewrite Ht in Hh'; congruence).
    apply (list_elem_of_lookup_2 _ h'). rewrite list_lookup_alter_ne by congruence. exact Hh'.
  - intros st q ts h HI Hh a Ha Hs. destruct (HI a Ha Hs) as (t & Ht & Hph & Hid).
    exists t. split; [|tauto].
    apply list_elem_of_lookup in Ht as [h' Hh'].
    assert (h' <> h) as Hne.
    { intros ->. unfold has_phase in Hh. rewrite Hh' in Hh. rewrite Hph in Hh. discriminate. }
    apply (list_elem_of_lookup_2 _ h'). rewrite list_lookup_alter_ne by congruence. exact Hh'.
  - intros st q ts HI. exact HI.
Qed.

Lemma in_flight_phase (t : task) : t_phase t = InFlight -> in_flight t = true.
Proof. unfold in_flight. intros ->. reflexivity. Qed.

(** With distinct ids, as many accounts are shown as [registering] as the
    pool has registrations under way, at most. *)
Lemma accounted_count (st : AutoRegisterState) (q : list RegisterAccount) (ts : list task) :
  NoDup (map id (accounts st)) -> accounted st q ts ->
  length (filter (has_status registering) (accounts st)) <= length (filter in_flight ts).
Proof.
  intros Hnd HI.
  rewrite <- (length_map id (filter _ (accounts st))).
  rewrite <- (length_map (fun t => id (t_account t)) (filter in_flight ts)).
  apply submseteq_length, NoDup_submseteq.
  - apply NoDup_ids_filter, Hnd.
  - intros i Hi. apply list_elem_of_fmap in Hi as (a & -> & Ha).
    apply list_elem_of_filter in Ha as [Hs Ha].
    destruct (HI a Ha) as (t & Ht & Hph & Hid).
    { apply has_status_spec. destruct (has_status registering a); [reflexivity|destruct Hs]. }
    apply list_elem_of_fmap. exists t. split; [congruence|].
    apply list_elem_of_filter. split; [|exact Ht].
    rewrite (in_flight_phase _ Hph). exact I.
Qed.
Lemma in_flight_bound (concurrency : nat) (st : AutoRegisterState) (es : list event)
      (s : state) :
  run concurrency (start st) es = Some s ->
  length (filter in_flight (tasks s)) <= concurrency.
Proof.
  intros Hrun.
  destruct (run_bounded _ _ _ _ Hrun (start_tracked st)) as [Htr Hlen]; [cbn; lia|].
  etransitivity; [apply in_flight_le_live|]. rewrite (tracked_length _ _ Htr). exact Hlen.
Qed.

(** X2.  The number that the statistics show as running never exceeds the
    concurrency limit, when the accounts have distinct ids and none is shown
    as [registering] when the run starts. *)
Theorem running_within_limit (concurrency : nat) (st : AutoRegisterState)
        (es : list event) (s : state) :
  NoDup (map id (accounts st)) ->
  Forall (fun a => status a <> registering) (accounts st) ->
  run concurrency (start st) es = Some s ->
  n_running (getStats (store s)) <= concurrency.
Proof.
  intros Hnd Hnone Hrun. cbn [getStats n_running].
  etransitivity; [|apply (in_flight_bound _ _ _ _ Hrun)].
  apply (accounted_count _ (queue s)).
  - pose proof (framed_invariant st _ _ _ _ (framed_start st) Hrun)
      as (_ & _ & _ & Hlen & Hacc & _).
    replace (map id (accounts (store s))) with (map id (accounts st)); [exact Hnd|].
    apply list_eq. intros k. rewrite !list_lookup_fmap.
    destruct (accounts st !! k) as [a0|] eqn:Ha0, (accounts (store s) !! k) as [a|] eqn:Ha;
      cbn; try reflexivity.
    + destruct (Hacc k a0 a Ha0 Ha) as (-> & _). reflexivity.
    + apply lookup_lt_Some in Ha0. apply lookup_ge_None in Ha. lia.
    + apply lookup_lt_Some in Ha. apply lookup_ge_None in Ha0. lia.
  - eapply accounted_invariant; [|exact Hrun].
    intros a Ha Hs. exfalso.
    apply (proj1 (Forall_forall _ _) Hnone a); [exact Ha|exact Hs].
Qed.

Lemma running_within_limit_witness :
  exists s, run 2 (start sample_store) stopped_schedule = Some s
            /\ n_running (getStats (store s)) = 2
            /\ n_running (getStats (store s)) <= 2.
Proof.
  destruct (run 2 (start sample_store) stopped_schedule) as [s|] eqn:Hrun;
    [|vm_compute in Hrun; discriminate].
  exists s. split; [reflexivity|]. split.
  - vm_compute in Hrun. injection Hrun as <-. reflexivity.
  - apply (running_within_limit 2 sample_store stopped_schedule s); [| |exact Hrun].
    + cbn. repeat (apply NoDup_cons; split;
        [rewrite ?elem_of_cons, elem_of_nil; intros H;
         repeat (destruct H as [H|H]; [apply eqs_spec in H; vm_compute in H; discriminate|]);
         exact H|]).
      apply NoDup_nil_2.
    + repeat constructor; discriminate.
Defined.

(* --------------------------------------------------------------------- *)
(** ** The order of the registrations *)
(* --------------------------------------------------------------------- *)

Lemma in_order_invariant (q0 : list RegisterAccount) (concurrency : nat) (es : list event)
      (s s' : state) :
  in_order q0 (store s) (queue s) (tasks s) -> run concurrency s es = Some s' ->
  in_order q0 (store s') (queue s') (tasks s').
Proof.
  apply pool_invariant.
  - intros a q st ts st' ph (Hq0 & Hq & Hts) Hs Hreg.
    apply Forall_cons in Hq as [Ha Hq].
    apply registerSingleAccount_live in Hreg as (_ & _ & Hph).
    rewrite (Hph Hs Ha). split; [|split; [exact Hq|]].
    + unfold push. rewrite map_app, <- app_assoc. exact Hq0.
    + apply Forall_app. split; [exact Hts|].
      constructor; [|constructor]. split; [reflexivity|discriminate].
  - intros st q ts (Hq0 & Hq & Hts). split; [|split; [exact Hq|]].
    + rewrite accounts_flush. exact Hq0.
    + unfold flush_tasks. apply Forall_fmap. eapply Forall_impl; [exact Hts|].
      intros t [Hl Hph]. cbn.
      destruct (t_phase t) eqn:E; cbn; rewrite ?E; split; first [assumption|discriminate].
  - intros s0 h t r (Hq0 & Hq & Hts) Ht _.
    destruct (on_result_store h t r s0) as (u & _ & _ & _ & p & Hp & ->).
    split; [|split; [exact Hq|]].
    + rewrite accounts_alter. exact Hq0.
    + apply Forall_alter; [exact Hts|]. intros t' _ [Hl _]. cbn. split; [exact Hl|].
      destruct Hp as [-> | ->]; discriminate.
  - intros st q ts h (Hq0 & Hq & Hts) _. split; [|split; [exact Hq|]].
    + rewrite accounts_alter. exact Hq0.
    + apply Forall_alter; [exact Hts|]. intros t' _ [Hl _]. cbn. split; [exact Hl|discriminate].
  - intros st q ts HI. exact HI.
Qed.

(** X4.  At every moment of a run, stopped or not, the accounts handed to
    [registerSingleAccount] so far, followed by the accounts still queued,
    are the pending accounts of the start in their order: none is handed
    out twice, none is passed over, and each of them got as far as
    [autoRegisterAWS]. *)
Theorem registrations_in_order (concurrency : nat) (st : AutoRegisterState)
        (es : list event) (s : state) :
  run concurrency (start st) es = Some s ->
  map t_account (tasks s) ++ queue s = filter is_pending (accounts st)
  /\ Forall (fun t => t_launched t = true) (tasks s).
Proof.
  intros Hrun.
  assert (in_order (filter is_pending (accounts st)) (store (start st))
            (queue (start st)) (tasks (start st))) as Hstart
    by (split; [reflexivity|split; [apply pending_filter|constructor]]).
  destruct (in_order_invariant _ _ _ _ _ Hstart Hrun) as (Hq & _ & Hts).
  split; [exact Hq|]. eapply Forall_impl; [exact Hts|]. intros t [H _]. exact H.
Qed.

Lemma registrations_in_order_witness :
  exists s, run 2 (start sample_store) (stopped_schedule ++ after_stop_schedule) = Some s
    /\ map (fun t => id (t_account t)) (tasks s) = [str "a"; str "b"]
    /\ map id (queue s) = [str "d"; str "e"; str "f"].
Proof.
  destruct (run 2 (start sample_store) (stopped_schedule ++ after_stop_schedule))
    as [s|] eqn:Hrun; [|vm_compute in Hrun; discriminate].
  exists s. split; [reflexivity|].
  destruct (registrations_in_order 2 sample_store _ s Hrun) as [Hq _].
  vm_compute in Hrun. injection Hrun as <-. split; reflexivity.
Defined.

(* --------------------------------------------------------------------- *)
(** ** The loop is never idle *)
(* --------------------------------------------------------------------- *)

Lemma fill_extends (concurrency : nat) (q : list RegisterAccount) :
  forall st run ts q' st' run' ts',
    fill concurrency q st run ts = (q', st', run', ts') ->
    exists more, run' = run ++ more
      /\ (1 <= concurrency -> q <> [] -> run' <> []).
Proof.
  induction q as [|a q IH]; intros st run ts q' st' run' ts' Hfill; cbn [fill] in Hfill.
  - injection Hfill as _ _ <- _. exists []. rewrite app_nil_r. split; [reflexivity|]. tauto.
  - destruct (length run <? concurrency) eqn:Hlt.
    + destruct (registerSingleAccount a st) as [st1 ph].
      apply IH in Hfill as (more & -> & _). rewrite <- app_assoc.
      eexists. split; [reflexivity|]. intros _ _. destruct run; discriminate.
    + injection Hfill as _ _ <- _. exists []. rewrite app_nil_r. split; [reflexivity|].
      intros Hc _. apply Nat.ltb_ge in Hlt. destruct run; [cbn in Hlt; lia|discriminate].
Qed.

Lemma flush_not_skipped (ts : list task) :
  Forall (fun t => t_phase t <> Skipped) (flush_tasks ts).
Proof.
  unfold flush_tasks. apply Forall_fmap, Forall_forall. intros t _. cbn.
  destruct (t_phase t) eqn:E; cbn; rewrite ?E; discriminate.
Qed.

Lemma turn_waits_well (concurrency : nat) (s : state) :
  1 <= concurrency -> waits_well s -> length (running s) <= concurrency ->
  waits_well (turn concurrency s).
Proof.
  intros Hc (Htr & Hns & _) Hlen. unfold turn.
  destruct (queue s) as [|a q] eqn:Hq, (running s) as [|h r] eqn:Hr;
    [split; [exact Htr|split; [exact Hns|exact I]]| | |].
  all: destruct (shouldStop (store s));
         [split; [exact Htr|split; [exact Hns|exact I]]|].
  all: destruct (fill concurrency _ (store s) _ (tasks s)) as [[[q' st'] run'] ts'] eqn:Hfill.
  all: destruct (fill_keeps _ _ _ _ _ _ _ _ _ Hfill Htr Hlen) as (Htr' & _).
  all: destruct (fill_extends _ _ _ _ _ _ _ _ _ Hfill) as (more & Hmore & Hne).
  all: assert (run' <> []) as Hrun'
         by (first [apply Hne; [exact Hc|discriminate]
                   |rewrite Hmore; discriminate]).
  all: destruct run' as [|h' r']; [contradiction|].
  all: split; [apply tracked_flush, Htr'|]; split; [apply flush_not_skipped|].
  all: cbn [at_ tasks]; split; [discriminate|].
  all: intros h0 Hh0; apply (proj2 Htr') in Hh0 as (t & Ht & _).
  all: unfold flush_tasks; rewrite list_lookup_fmap, Ht; eexists; reflexivity.
Qed.

Lemma waits_well_alter (s s' : state) (p : phase) (h : nat) :
  waits_well s -> p <> Skipped -> tracked (tasks s') (running s') ->
  tasks s' = alter (set_phase p) h (tasks s) -> at_ s' = at_ s -> waits_well s'.
Proof.
  intros (_ & Hns & Hat) Hp Htr Hts Hpc. split; [exact Htr|]. rewrite Hts, Hpc. split.
  - apply Forall_alter; [exact Hns|]. intros t _ _. exact Hp.
  - destruct (at_ s) as [|raced| |]; try exact Hat.
    destruct Hat as [Hne Hall]. split; [exact Hne|]. intros h0 Hh0.
    destruct (Hall h0 Hh0) as (t & Ht).
    destruct (decide (h = h0)) as [->|Hneq].
    + rewrite list_lookup_alter_eq, Ht. eexists. reflexivity.
    + rewrite list_lookup_alter_ne by exact Hneq. eauto.
Qed.

Lemma step_waits_well (concurrency : nat) (s s' : state) (e : event) :
  1 <= concurrency ->
  waits_well s /\ length (running s) <= concurrency ->
  step concurrency s e = Some s' ->
  waits_well s' /\ length (running s') <= concurrency.
Proof.
  intros Hc [Hw Hlen] Hstep.
  destruct (step_bounded _ _ _ _ Hstep (proj1 Hw) Hlen) as [Htr' Hlen'].
  split; [|exact Hlen'].
  destruct e as [| |h r|h]; cbn [step] in Hstep.
  - destruct (at_ s) as [|raced| |] eqn:Hat.
    + injection Hstep as <-. apply turn_waits_well; assumption.
    + destruct (existsb _ raced); [|discriminate]. injection Hstep as <-.
      apply turn_waits_well; assumption.
    + discriminate.
    + destruct Hw as (_ & _ & Hw). rewrite Hat in Hw. destruct Hw.
  - destruct (suspended s); [|discriminate]. injection Hstep as <-.
    destruct Hw as (Htr & Hns & Hw). split; [exact Htr|]. split; [exact Hns|exact Hw].
  - destruct (suspended s); [|discriminate].
    destruct (tasks s !! h) as [t|] eqn:Ht; [|discriminate].
    destruct (t_phase t) eqn:Hph; try discriminate. injection Hstep as <-.
    destruct (on_result_store h t r s) as (u & _ & _ & _ & p & Hp & Hts).
    eapply (waits_well_alter s _ p h); [exact Hw| |exact Htr'|exact Hts|].
    + destruct Hp as [-> | ->]; discriminate.
    + unfold on_result. destruct r as [ok tok name err|err];
        [destruct (ok && truthy tok)|]; reflexivity.
  - destruct (suspended s); [|discriminate]. cbn [andb] in Hstep.
    destruct (has_phase (tasks s) Importing h); [|discriminate]. injection Hstep as <-.
    eapply (waits_well_alter s _ Settled h); [exact Hw|discriminate|exact Htr'| |];
      reflexivity.
Qed.

(** X5.  With a limit of at least one (what [setConcurrency] guarantees), the
    loop never turns without awaiting, and while it awaits something can
    happen: one of the promises it raced is settled, or its answer can
    arrive. *)
Theorem loop_is_never_idle (concurrency : nat) (st : AutoRegisterState)
        (es : list event) (s : state) :
  1 <= concurrency ->
  run concurrency (start st) es = Some s ->
  at_ s <> Spinning
  /\ (at_ s = Exited
      \/ exists e s', is_stop e = false /\ step concurrency s e = Some s').
Proof.
  intros Hc Hrun.
  assert (waits_well s /\ length (running s) <= concurrency) as [(_ & Hns & Hat) _].
  { apply (run_invariant concurrency
             (fun s => waits_well s /\ length (running s) <= concurrency))
      with (es := es) (s := start st); [| |exact Hrun].
    - intros s0 e s1 H0 Hstep. eapply step_waits_well; eassumption.
    - split; [|cbn; lia]. split; [apply start_tracked|].
      split; [constructor|exact I]. }
  destruct (at_ s) as [|raced| |] eqn:Hpc.
  - split; [discriminate|]. right. exists Tick, (turn concurrency s).
    split; [reflexivity|]. cbn. rewrite Hpc. reflexivity.
  - split; [discriminate|]. right. destruct Hat as [Hne Hall].
    destruct (existsb (has_phase (tasks s) Settled) raced) eqn:Hsettled.
    + exists Tick, (turn concurrency s). split; [reflexivity|].
      cbn. rewrite Hpc, Hsettled. reflexivity.
    + destruct raced as [|h raced]; [contradiction|].
      destruct (Hall h) as (t & Ht); [left|].
      cbn in Hsettled. apply orb_false_iff in Hsettled as [Hh _].
      unfold has_phase in Hh. rewrite Ht in Hh.
      pose proof (proj1 (Forall_lookup _ _) Hns h t Ht) as Hskip.
      destruct (t_phase t) eqn:Hph; try discriminate; [contradiction| |].
      * exists (Result h (ApiThrows [])). eexists. split; [reflexivity|].
        cbn. unfold suspended. rewrite Hpc, Ht, Hph. reflexivity.
      * exists (Imported h). eexists. split; [reflexivity|].
        cbn. unfold suspended, has_phase. rewrite Hpc, Ht, Hph. reflexivity.
  - split; [discriminate|]. left. reflexivity.
  - destruct Hat.
Qed.

Lemma loop_is_never_idle_witness :
  concurrency (setConcurrency 0 sample_store) = 1
  /\ exists s, run 1 (start sample_store) [Tick] = Some s
       /\ at_ s = Awaiting [0]
       /\ exists e s', is_stop e = false /\ step 1 s e = Some s'.
Proof.
  split; [reflexivity|].
  destruct (run 1 (start sample_store) [Tick]) as [s|] eqn:Hrun;
    [|vm_compute in Hrun; discriminate].
  exists s. split; [reflexivity|].
  destruct (loop_is_never_idle 1 sample_store [Tick] s (le_n 1) Hrun) as [_ [Hex|Hev]].
  - vm_compute in Hrun. injection Hrun as <-. discriminate Hex.
  - split; [vm_compute in Hrun; injection Hrun as <-; reflexivity|exact Hev].
Defined.

(** Without the clamp of [setConcurrency] the loop could be given a limit of
    zero, and would then turn for ever without awaiting. *)
Example zero_limit_spins :
  option_map at_ (run 0 (start sample_store) [Tick; Tick; Tick]) = Some Spinning.
Proof. vm_compute. reflexivity. Qed.

(* --------------------------------------------------------------------- *)
(** ** Updates and answers in either order *)
(* --------------------------------------------------------------------- *)

Lemma spread_twice (acc : RegisterAccount) (u : Updates) :
  spread (spread acc u) u = spread acc u.
Proof.
  unfold spread. cbn.
  destruct (u_id u), (u_email u), (u_status u), (u_awsName u), (u_ssoToken u), (u_error u);
    reflexivity.
Qed.

Lemma set_accounts_ext (f g : list RegisterAccount -> list RegisterAccount)
      (s : AutoRegisterState) :
  f (accounts s) = g (accounts s) -> set_accounts f s = set_accounts g s.
Proof. unfold set_accounts. intros ->. reflexivity. Qed.

Lemma updateAccountStatus_twice (i : jsstring) (u : Updates) (s : AutoRegisterState) :
  updateAccountStatus i u (updateAccountStatus i u s) = updateAccountStatus i u s.
Proof.
  unfold updateAccountStatus, set_accounts.
  cbn [accounts isRunning Store.logs concurrency shouldStop]. f_equal.
  rewrite map_map. apply map_ext. intros acc.
  destruct (eqs (id acc) i) eqn:E; [|rewrite E; reflexivity].
  destruct (eqs (id (spread acc u)) i); [apply spread_twice|reflexivity].
Qed.

Lemma updateAccountStatus_swap (i1 i2 : jsstring) (u1 u2 : Updates) (s : AutoRegisterState) :
  i1 <> i2 -> u_id u1 = None -> u_id u2 = None ->
  updateAccountStatus i1 u1 (updateAccountStatus i2 u2 s)
  = updateAccountStatus i2 u2 (updateAccountStatus i1 u1 s).
Proof.
  intros Hne H1 H2. unfold updateAccountStatus, set_accounts.
  cbn [accounts isRunning Store.logs concurrency shouldStop]. f_equal.
  rewrite !map_map. apply map_ext. intros acc.
  assert (forall u, u_id u = None -> id (spread acc u) = id acc) as Hid
    by (intros u Hu; unfold spread; cbn; rewrite Hu; reflexivity).
  cbv beta.
  destruct (eqs (id acc) i1) eqn:E1, (eqs (id acc) i2) eqn:E2;
    rewrite ?(Hid u1 H1), ?(Hid u2 H2), ?E1, ?E2; try reflexivity.
  apply eqs_spec in E1, E2. congruence.
Qed.

(** X7.  Writing the same update twice is writing it once; updates of two
    different accounts that leave the ids alone can be written in either
    order. *)
Theorem updateAccountStatus_twice_and_swap (s : AutoRegisterState) (i1 i2 : jsstring)
        (u1 u2 : Updates) :
  updateAccountStatus i1 u1 (updateAccountStatus i1 u1 s) = updateAccountStatus i1 u1 s
  /\ (i1 <> i2 -> u_id u1 = None -> u_id u2 = None ->
        updateAccountStatus i1 u1 (updateAccountStatus i2 u2 s)
        = updateAccountStatus i2 u2 (updateAccountStatus i1 u1 s)).
Proof. split; [apply updateAccountStatus_twice|apply updateAccountStatus_swap]. Qed.

Lemma updateAccountStatus_twice_and_swap_witness :
  updateAccountStatus (str "a") (just_status failed)
    (updateAccountStatus (str "b") (just_status success) sample_store)
  = updateAccountStatus (str "b") (just_status success)
      (updateAccountStatus (str "a") (just_status failed) sample_store).
Proof.
  apply (updateAccountStatus_twice_and_swap sample_store (str "a") (str "b")).
  - intros H. apply eqs_spec in H. vm_compute in H. discriminate.
  - reflexivity.
  - reflexivity.
Defined.








(* ===================================================================== *)
(** ** The extractor: what a returned code is *)

Import JS Extractor.

Lemma reach_refl (c : cursor) : reach c c.
Proof. exists []. split; [reflexivity|cbn; lia]. Qed.

Lemma reach_trans (c1 c2 c3 : cursor) : reach c1 c2 -> reach c2 c3 -> reach c1 c3.
Proof.
  intros (d1 & H1 & P1) (d2 & H2 & P2). exists (d1 ++ d2).
  rewrite H1, H2, <- app_assoc, length_app. split; [reflexivity|lia].
Qed.

Lemma reach_advance (c c' : cursor) (ch : N) : advance c = Some (ch, c') -> reach c c'.
Proof.
  unfold advance. destruct (rest c) as [|x t] eqn:Hr; [discriminate|].
  intros [= <- <-]. exists [x]. cbn. split; [exact Hr|lia].
Qed.

Lemma captured_refl (c : cursor) (cap : option jsstring) : captured c cap c cap.
Proof. left. reflexivity. Qed.

Lemma captured_trans (c1 c2 c3 : cursor) (cap1 cap2 cap3 : option jsstring) :
  reach c1 c2 -> reach c2 c3 ->
  captured c1 cap1 c2 cap2 -> captured c2 cap2 c3 cap3 -> captured c1 cap1 c3 cap3.
Proof.
  intros R12 R23 [->|(a & b & Ra & Rab & Rb & ->)] [->|(a' & b' & Ra' & Rab' & Rb' & ->)].
  - left. reflexivity.
  - right. exists a', b'. split; [exact (reach_trans _ _ _ R12 Ra')|].
    split; [exact Rab'|]. split; [exact Rb'|reflexivity].
  - right. exists a, b. split; [exact Ra|]. split; [exact Rab|].
    split; [exact (reach_trans _ _ _ Rb R23)|reflexivity].
  - right. exists a', b'. split; [exact (reach_trans _ _ _ R12 Ra')|].
    split; [exact Rab'|]. split; [exact Rb'|reflexivity].
Qed.

Section Engine.
Context {X : Type}.
Variable fl : flags.

Lemma star_reach (p : N -> bool) (rs : jsstring) :
  forall (pv : option N) (i : nat) (k : cursor -> option X) (x : X),
    star p pv rs i k = Some x ->
    exists c', k c' = Some x /\ reach {| prev := pv; rest := rs; pos := i |} c'.
Proof.
  induction rs as [|ch t IH]; intros pv i k x H; cbn [star] in H.
  - eexists. split; [exact H|apply reach_refl].
  - destruct (p ch).
    + destruct (star p (Some ch) t (S i) k) as [y|] eqn:Hs.
      * injection H as <-. destruct (IH _ _ _ _ Hs) as (c' & Hk & Hr).
        exists c'. split; [exact Hk|]. eapply reach_trans; [|exact Hr].
        exists [ch]. cbn. split; [reflexivity|lia].
      * eexists. split; [exact H|apply reach_refl].
    + eexists. split; [exact H|apply reach_refl].
Qed.

Lemma rmatch_reach (r : re) :
  forall (c : cursor) (cap : option jsstring)
         (k : cursor -> option jsstring -> option X) (x : X),
    rmatch fl r c cap k = Some x ->
    exists c' cap', k c' cap' = Some x /\ reach c c' /\ captured c cap c' cap'.
Proof.
  induction r as [a|p|r1 IH1 r2 IH2|r1 IH1 r2 IH2|p|r1 IH1| | | |];
    intros c cap k x H; cbn [rmatch] in H.
  - destruct (advance c) as [[ch c']|] eqn:Ha; [|discriminate].
    destruct (char_eq fl a ch); [|discriminate].
    exists c', cap. split; [exact H|]. split; [eapply reach_advance, Ha|left; reflexivity].
  - destruct (advance c) as [[ch c']|] eqn:Ha; [|discriminate].
    destruct (p ch); [|discriminate].
    exists c', cap. split; [exact H|]. split; [eapply reach_advance, Ha|left; reflexivity].
  - apply IH1 in H as (c1 & cap1 & H & R1 & C1).
    apply IH2 in H as (c2 & cap2 & H & R2 & C2).
    exists c2, cap2. split; [exact H|]. split; [eapply reach_trans; eassumption|].
    eapply captured_trans; eassumption.
  - destruct (rmatch fl r1 c cap k) as [y|] eqn:H1.
    + injection H as <-. apply IH1, H1.
    + apply IH2, H.
  - apply star_reach in H as (c' & H & R). exists c', cap.
    split; [exact H|]. split; [|left; reflexivity].
    destruct c as [pv rs i]. exact R.
  - apply IH1 in H as (c' & cap' & H & R & _).
    eexists c', _. split; [exact H|]. split; [exact R|].
    right. exists c, c'. split; [apply reach_refl|]. split; [exact R|].
    split; [apply reach_refl|reflexivity].
  - destruct (at_bol fl c); [|discriminate]. exists c, cap.
    split; [exact H|]. split; [apply reach_refl|left; reflexivity].
  - destruct (at_eol fl c); [|discriminate]. exists c, cap.
    split; [exact H|]. split; [apply reach_refl|left; reflexivity].
  - destruct (xorb _ _); [|discriminate]. exists c, cap.
    split; [exact H|]. split; [apply reach_refl|left; reflexivity].
  - exists c, cap. split; [exact H|]. split; [apply reach_refl|left; reflexivity].
Qed.

End Engine.

(** A match starts at the cursor and ends at or after it; its group, if
    any, is a piece of the subject between the two. *)
Lemma match_at_inside (fl : flags) (r : re) (pv : option N) (rs : jsstring) (i : nat)
      (m : rmatch_result) :
  match_at fl r {| prev := pv; rest := rs; pos := i |} = Some m ->
  m_index m = i
  /\ exists matched tail,
       rs = matched ++ tail /\ m_end m = i + length matched
       /\ forall code, m_group1 m = Some code ->
            exists before after, matched = before ++ code ++ after.
Proof.
  unfold match_at. intros H.
  apply rmatch_reach in H as (c' & cap' & [= <-] & (d & Hd & Hp) & Hcap).
  cbn [m_index m_end m_group1 pos rest] in *. split; [reflexivity|].
  exists d, (rest c'). split; [exact Hd|]. split; [exact Hp|].
  intros code Hcode. destruct Hcap as [->|(c1 & c2 & R1 & R12 & R2 & ->)]; [discriminate|].
  injection Hcode as <-.
  destruct R1 as (d0 & H0 & P0), R12 as (d1 & H1 & P1), R2 as (d2 & H2 & P2).
  cbn [pos rest] in *. exists d0, d2.
  replace (pos c2 - pos c1) with (length d1) by lia.
  rewrite H1, take_app_length.
  rewrite H0, H1, H2, !app_assoc in Hd. apply app_inv_tail in Hd.
  rewrite <- Hd, <- app_assoc. reflexivity.
Qed.

(** A code that [scan] returns is the group of a match that [accepts]
    let through, at some position of the text. *)
Lemma scan_found (fl : flags) (r : re) (text : jsstring) (rs : jsstring) :
  forall (pv : option N) (i skip : nat) (pre code : jsstring),
    text = pre ++ rs -> length pre = i ->
    scan fl r text pv rs i skip = Some code ->
    exists pre' rs' pv' m,
      text = pre' ++ rs'
      /\ match_at fl r {| prev := pv'; rest := rs'; pos := length pre' |} = Some m
      /\ accepts text m = true /\ m_group1 m = Some code.
Proof.
  induction rs as [|ch t IH]; intros pv i skip pre code Htext Hlen H; cbn [scan] in H.
  - destruct skip; [|discriminate].
    destruct (match_at fl r _) as [m|] eqn:Hm; [|discriminate].
    destruct (accepts text m) eqn:Ha; [|discriminate].
    exists pre, [], pv, m. subst i. auto.
  - assert (forall skip', scan fl r text (Some ch) t (S i) skip' = Some code ->
              exists pre' rs' pv' m,
                text = pre' ++ rs'
                /\ match_at fl r {| prev := pv'; rest := rs'; pos := length pre' |} = Some m
                /\ accepts text m = true /\ m_group1 m = Some code) as Hnext.
    { intros skip' Hs. apply (IH (Some ch) (S i) skip' (pre ++ [ch]) code); [| |exact Hs].
      - rewrite <- app_assoc. exact Htext.
      - rewrite length_app. cbn. lia. }
    destruct skip as [|skip].
    + destruct (match_at fl r _) as [m|] eqn:Hm; [|apply (Hnext _ H)].
      destruct (accepts text m) eqn:Ha; [|apply (Hnext _ H)].
      exists pre, (ch :: t), pv, m. subst i. auto.
    + apply (Hnext _ H).
Qed.

(** [/^\d{6}$/] holds of six digits only. *)
Lemma exactly_six_digits_spec (code : jsstring) :
  test g exactly_six_digits code = true ->
  length code = 6 /\ forallb is_digit code = true.
Proof.
  assert (forall rs ch i, search g exactly_six_digits (Some ch) rs i = None) as Hlater.
  { induction rs as [|x t IH]; intros ch i; cbn; [reflexivity|]. apply IH. }
  unfold test.
  destruct code as [|c1 [|c2 [|c3 [|c4 [|c5 [|c6 [|c7 code]]]]]]];
    cbn [search]; rewrite ?Hlater;
    try (cbn; repeat match goal with |- context [is_digit ?c] => destruct (is_digit c) end;
         cbn; discriminate).
  - cbn. repeat match goal with |- context [is_digit ?c] => destruct (is_digit c) eqn:? end;
      cbn; try discriminate. auto.
Qed.

Lemma startsWith_app (sub b : jsstring) : startsWith (sub ++ b) sub = true.
Proof.
  induction sub as [|x sub IH]; [destruct b; reflexivity|].
  cbn. rewrite N.eqb_refl. exact IH.
Qed.

Lemma includes_startsWith (s sub : jsstring) :
  startsWith s sub = true -> includes s sub = true.
Proof. intros H. destruct s; cbn [includes]; rewrite H; reflexivity. Qed.

(** [includes] finds every occurrence. *)
Lemma includes_app (a sub b : jsstring) : includes (a ++ sub ++ b) sub = true.
Proof.
  induction a as [|x a IH].
  - change ([] ++ sub ++ b) with (sub ++ b). apply includes_startsWith, startsWith_app.
  - cbn [app includes]. rewrite IH. apply orb_true_r.
Qed.

(** The leftmost search finds a match wherever one starts. *)
Lemma search_finds (fl : flags) (r : re) (a : jsstring) :
  forall (pv : option N) (rs : jsstring) (i : nat) (pv' : option N),
    match_at fl r {| prev := pv'; rest := rs; pos := i + length a |} <> None ->
    (pv' = match a with [] => pv | _ => last a end) ->
    search fl r pv (a ++ rs) i <> None.
Proof.
  induction a as [|x a IH]; intros pv rs i pv' Hm Hpv.
  - cbn [app]. subst pv'. rewrite Nat.add_0_r in Hm.
    destruct rs; cbn [search];
      match goal with |- context [match ?t with Some _ => _ | None => _ end] =>
        destruct t end; congruence.
  - cbn [app search].
    destruct (match_at fl r {| prev := pv; rest := x :: a ++ rs; pos := i |});
      [congruence|].
    apply (IH (Some x) rs (S i) pv').
    + replace (S i + length a) with (i + length (x :: a)) by (cbn; lia). exact Hm.
    + subst pv'. destruct a; reflexivity.
Qed.

(** [/\d{7,}/] finds every run of seven digits. *)
Lemma seven_digits_found (a ds b : jsstring) :
  length ds = 7 -> forallb is_digit ds = true ->
  test g seven_digits (a ++ ds ++ b) = true.
Proof.
  intros Hlen Hds. unfold test.
  destruct (search g seven_digits None (a ++ ds ++ b) 0) eqn:Hs; [reflexivity|].
  exfalso. revert Hs. eapply search_finds; [|reflexivity].
  destruct ds as [|d1 [|d2 [|d3 [|d4 [|d5 [|d6 [|d7 [|d8 ds]]]]]]]]; try discriminate.
  cbn in Hds. repeat (apply andb_true_iff in Hds as [? Hds]).
  unfold match_at, seven_digits. cbn [rep rmatch advance rest app prev pos].
  repeat match goal with H : is_digit _ = true |- _ => rewrite H; clear H end.
  cbn [rmatch prev rest pos].
  match goal with |- star ?p ?pv ?rs ?i ?k <> None =>
    assert (forall rs0 pv0 i0, star p pv0 rs0 i0 k <> None) as Hstar
  end.
  { induction rs0 as [|x t IH]; intros pv0 i0; cbn [star]; [discriminate|].
    destruct (is_digit x); [|discriminate].
    destruct (star _ _ _ _ _); discriminate. }
  apply Hstar.
Qed.

(** A window of the text that lies inside the bounds of a slice is in the
    slice. *)
Lemma slice_window (pre w post : jsstring) (start stop : nat) :
  start <= length pre -> length pre + length w <= stop ->
  exists a b, slice (pre ++ w ++ post) start stop = a ++ w ++ b.
Proof.
  intros Hstart Hstop. unfold slice.
  rewrite drop_app_le by exact Hstart.
  exists (drop start pre), (take (stop - start - length (drop start pre) - length w) post).
  rewrite take_app_ge by (rewrite length_drop; lia).
  f_equal. rewrite take_app_ge by (rewrite length_drop; lia). reflexivity.
Qed.

Lemma first_pattern_found (ps : list (flags * re)) (text code : jsstring) :
  first_pattern ps text = Some code ->
  exists fl r, scan fl r text None text 0 0 = Some code.
Proof.
  induction ps as [|[fl r] ps IH]; cbn [first_pattern]; [discriminate|].
  destruct (scan fl r text None text 0 0) as [c|] eqn:Hs; [|exact IH].
  intros [= ->]. eauto.
Qed.

(** What [accepts] has checked of a match it let through. *)
Lemma accepts_checked (text : jsstring) (m : rmatch_result) (code : jsstring) :
  accepts text m = true -> m_group1 m = Some code ->
  let context := slice text (m_index m - 20)
                   (Nat.min (length text) (m_index m + (m_end m - m_index m) + 20)) in
  test g exactly_six_digits code = true
  /\ includes context (35%N :: code) = false
  /\ test g seven_digits context = false.
Proof.
  unfold accepts. intros H Hc. rewrite Hc in H. cbn [Nat.max] in H. cbv zeta.
  destruct code as [|c code]; [discriminate|].
  destruct (test g exactly_six_digits (c :: code)); [|discriminate]. cbn [andb negb] in H.
  destruct (includes _ _); [discriminate|].
  destruct (test i_only css_color _); [discriminate|].
  destruct (test i_only css_function _); [discriminate|].
  destruct (test g seven_digits _); [discriminate|]. auto.
Qed.

(** The code that [extractCode] returns is six digits. *)
Lemma extractCode_digits (text code : jsstring) :
  extractCode text = Some code -> length code = 6 /\ forallb is_digit code = true.
Proof.
  unfold extractCode. destruct text as [|t0 text0] eqn:Etext; [discriminate|].
  rewrite <- Etext. clear Etext t0 text0. intros H.
  apply first_pattern_found in H as (fl & r & H).
  apply (scan_found fl r text text None 0 0 [] code eq_refl eq_refl) in H
    as (pre' & rs' & pv' & m & Htext & Hm & Hacc & Hcode).
  destruct (accepts_checked text m code Hacc Hcode) as (Hsix & _).
  apply exactly_six_digits_spec in Hsix. exact Hsix.
Qed.

(** X8.  The code that [extractCode] returns is made of six digits, it stands in
    the text, and there it is a number of its own: no digit and no [#]
    stands before it, and no digit after it. *)
Theorem extractCode_sound (text code : jsstring) :
  extractCode text = Some code ->
  length code = 6 /\ forallb is_digit code = true
  /\ exists pre post,
       text = pre ++ code ++ post
       /\ (forall c, last pre = Some c -> is_digit c = false /\ c <> 35%N)
       /\ (forall c, head post = Some c -> is_digit c = false).
Proof.
  unfold extractCode. destruct text as [|t0 text0] eqn:Etext; [discriminate|].
  rewrite <- Etext. clear Etext t0 text0. intros H.
  apply first_pattern_found in H as (fl & r & H).
  apply (scan_found fl r text text None 0 0 [] code eq_refl eq_refl) in H
    as (pre' & rs' & pv' & m & Htext & Hm & Hacc & Hcode).
  apply match_at_inside in Hm as (Hidx & matched & tail & Hrs & Hend & Hgroup).
  destruct (Hgroup code Hcode) as (before & after & Hmatched).
  destruct (accepts_checked text m code Hacc Hcode) as (Hsix & Hhash & Hseven).
  apply exactly_six_digits_spec in Hsix as [Hlen Hdigits].
  split; [exact Hlen|]. split; [exact Hdigits|].
  rewrite Hidx, Hend in Hhash, Hseven.
  replace (length pre' + (length pre' + length matched - length pre') + 20)
    with (length pre' + length matched + 20) in Hhash, Hseven by lia.
  assert (text = (pre' ++ before) ++ code ++ (after ++ tail)) as Hsplit
    by (rewrite Htext, Hrs, Hmatched, <- !app_assoc; reflexivity).
  assert (length text = length pre' + length matched + length tail) as Hlt
    by (rewrite Htext, Hrs, !length_app; lia).
  assert (length matched = length before + 6 + length after) as Hlm
    by (rewrite Hmatched, !length_app; lia).
  set (stop := Nat.min (length text) (length pre' + length matched + 20)) in *.
  assert (length pre' + length matched <= stop /\
          (tail <> [] \/ after <> [] -> length pre' + length before + 7 <= stop))
    as [Hstop Hstop'].
  { subst stop. split; [lia|]. intros [Ht|Ha].
    - destruct tail; [contradiction|]. cbn [length] in Hlt. lia.
    - destruct after; [contradiction|]. cbn [length] in Hlm. lia. }
  clearbody stop.
  exists (pre' ++ before), (after ++ tail). split; [exact Hsplit|]. split.
  - intros c Hc. apply last_Some in Hc as [p0 Hp0].
    assert (length pre' + length before = length p0 + 1) as Hl
      by (rewrite <- length_app, Hp0, length_app; reflexivity).
    assert (exists a b, slice text (length pre' - 20) stop = a ++ ([c] ++ code) ++ b) as (a & b & Hctx).
    { rewrite Hsplit, Hp0, <- !app_assoc.
      change (p0 ++ [c] ++ code ++ after ++ tail) with (p0 ++ [c] ++ code ++ (after ++ tail)).
      rewrite (app_assoc [c] code). apply slice_window.
      - lia.
      - rewrite length_app. cbn [length]. lia. }
    rewrite Hctx in Hhash, Hseven. split.
    + destruct (is_digit c) eqn:Hd; [|reflexivity].
      rewrite seven_digits_found in Hseven; [discriminate| |].
      * rewrite length_app. cbn. lia.
      * cbn. rewrite Hd. exact Hdigits.
    + intros ->. change ([35%N] ++ code) with (35%N :: code) in Hhash.
      rewrite includes_app in Hhash. discriminate.
  - intros c Hc. destruct (after ++ tail) as [|c' q0] eqn:Hq; [discriminate|].
    injection Hc as ->.
    assert (tail <> [] \/ after <> []) as Hne
      by (destruct after; [left; destruct tail; discriminate|right; discriminate]).
    assert (exists a b, slice text (length pre' - 20) stop = a ++ (code ++ [c]) ++ b) as (a & b & Hctx).
    { rewrite Hsplit.
      replace (code ++ c :: q0) with ((code ++ [c]) ++ q0)
        by (rewrite <- app_assoc; reflexivity).
      apply slice_window.
      - rewrite length_app. lia.
      - rewrite !length_app. cbn [length]. specialize (Hstop' Hne). lia. }
    rewrite Hctx in Hseven.
    destruct (is_digit c) eqn:Hd; [|reflexivity].
    rewrite seven_digits_found in Hseven; [discriminate| |].
    + rewrite length_app. cbn. lia.
    + rewrite forallb_app. cbn. rewrite Hdigits, Hd. reflexivity.
Qed.

Lemma extractCode_sound_witness :
  extractCode (str "Your code is:  482913.") = Some (str "482913")
  /\ exists pre post,
       str "Your code is:  482913." = pre ++ str "482913" ++ post
       /\ (forall c, last pre = Some c -> is_digit c = false /\ c <> 35%N)
       /\ (forall c, head post = Some c -> is_digit c = false).
Proof.
  assert (extractCode (str "Your code is:  482913.") = Some (str "482913")) as H
    by (vm_compute; reflexivity).
  split; [exact H|]. apply (extractCode_sound _ _ H).
Defined.


(* ===================================================================== *)
(** ** The two mailbox backends: where a code comes from *)
(* ===================================================================== *)

Import JS Extractor Backends.

Section Graph.
Variable htmlToText : jsstring -> jsstring.
Variable toLowerCase : jsstring -> jsstring.

Local Abbreviation mail_code := (Backends.mail_code htmlToText).
Local Abbreviation isAwsSender := (Backends.isAwsSender toLowerCase).
Local Abbreviation scan_mails := (Backends.scan_mails htmlToText toLowerCase).
Local Abbreviation poll := (Backends.poll htmlToText toLowerCase).

(** The code of a mail is what the extractor finds in its stripped body, in
    its body or in its preview. *)
Lemma mail_code_source (m : GraphMail) (code : jsstring) :
  fst (mail_code m) = Some code ->
  extractCode (htmlToText (body_content m)) = Some code
  \/ extractCode (body_content m) = Some code
  \/ extractCode (bodyPreview m) = Some code.
Proof.
  unfold Backends.mail_code, run_extractor.
  destruct (htmlToText (body_content m)) as [|c t] eqn:Hb.
  - destruct (extractCode (body_content m)) eqn:H1; cbn; [intros [= <-]; auto|].
    intros H. auto.
  - destruct (extractCode (c :: t)) eqn:H0; cbn; [intros [= <-]; auto|].
    destruct (extractCode (body_content m)) eqn:H1; cbn; [intros [= <-]; auto|].
    intros H. auto.
Qed.

Lemma has_app (ids more : list jsstring) (i : jsstring) :
  has (ids ++ more) i = has ids i || has more i.
Proof. unfold has. apply existsb_app. Qed.

(** One pass over the listed mails. *)
Lemma scan_mails_spec (mails : list GraphMail) :
  forall (checked : list jsstring) (res : option jsstring) (ids : list jsstring),
    scan_mails mails checked = (res, ids) ->
    (exists more, ids = checked ++ more
       /\ forall i, In i more ->
            exists m, In m mails /\ isAwsSender m = true /\ mail_id m = i
                      /\ has checked i = false)
    /\ match res with
       | Some code =>
           exists m, In m mails /\ isAwsSender m = true
                     /\ has checked (mail_id m) = false
                     /\ has ids (mail_id m) = true
                     /\ fst (mail_code m) = Some code
       | None =>
           forall m, In m mails -> isAwsSender m = true -> has ids (mail_id m) = true
       end.
Proof.
  induction mails as [|m mails IH]; intros checked res ids H; cbn [Backends.scan_mails] in H.
  - injection H as <- <-. split; [exists []; rewrite app_nil_r; split; [reflexivity|]|].
    + intros i [].
    + intros m [].
  - destruct (isAwsSender m && negb (has checked (mail_id m))) eqn:Hc.
    + apply andb_true_iff in Hc as [Haws Hnew]. apply negb_true_iff in Hnew.
      destruct (fst (mail_code m)) as [code|] eqn:Hcode.
      * injection H as <- <-. split.
        -- exists [mail_id m]. split; [reflexivity|]. intros i [<-|[]].
           exists m. split; [left; reflexivity|]. auto.
        -- exists m. split; [left; reflexivity|]. split; [exact Haws|].
           split; [exact Hnew|]. split; [|exact Hcode].
           rewrite has_app. cbn. rewrite eqs_refl. cbn. apply orb_true_r.
      * apply IH in H as [(more & -> & Hmore) Hres]. split.
        -- exists (mail_id m :: more). rewrite <- app_assoc. split; [reflexivity|].
           intros i [<-|Hi].
           ++ exists m. split; [left; reflexivity|]. auto.
           ++ destruct (Hmore i Hi) as (m' & Hin & Ha & Hid & Hh).
              exists m'. split; [right; exact Hin|]. split; [exact Ha|]. split; [exact Hid|].
              rewrite has_app in Hh. apply orb_false_iff in Hh. tauto.
        -- destruct res as [code|].
           ++ destruct Hres as (m' & Hin & Ha & Hh & Hi & Hc).
              exists m'. split; [right; exact Hin|]. split; [exact Ha|].
              split; [|split; [exact Hi|exact Hc]].
              rewrite has_app in Hh. apply orb_false_iff in Hh. tauto.
           ++ intros m' [<-|Hin] Ha; [|apply Hres; assumption].
              rewrite !has_app. cbn. rewrite eqs_refl. cbn. rewrite orb_true_r. reflexivity.
    + apply IH in H as [(more & -> & Hmore) Hres]. split.
      * exists more. split; [reflexivity|]. intros i Hi.
        destruct (Hmore i Hi) as (m' & Hin & H'). exists m'. split; [right; exact Hin|exact H'].
      * destruct res as [code|].
        -- destruct Hres as (m' & Hin & H'). exists m'. split; [right; exact Hin|exact H'].
        -- intros m' [<-|Hin] Ha; [|apply Hres; assumption].
           rewrite Ha in Hc. cbn in Hc. apply negb_false_iff in Hc.
           rewrite has_app, Hc. reflexivity.
Qed.


(** The checked ids only grow in a turn that goes on, whatever the
    network did. *)
Lemma poll_provenance (fuel : nat) (world : nat -> turn) (startTime timeout : N) :
  forall (k : nat) (s s' : poll_state) (code : jsstring),
    poll fuel world k startTime timeout s = Some (Some code, s') ->
    exists j mails m,
      k <= j /\ mail_list (world j) = MailOk mails /\ In m mails
      /\ isAwsSender m = true /\ fst (mail_code m) = Some code
      /\ has (checkedIds s) (mail_id m) = false
      /\ has (checkedIds s') (mail_id m) = true.
Proof.
  induction fuel as [|fuel IH]; intros k s s' code H; cbn [Backends.poll] in H.
  - destruct (negb _); discriminate.
  - destruct (negb _); [discriminate|]. cbv zeta in H.
    set (t := world k) in *.
    set (s1 := match refresh (tokenAttempts t) with
               | Some _ => logs [TokenRefreshed] (spend (elapsed t) s)
               | None => spend (elapsed t) s
               end) in *.
    assert (checkedIds s1 = checkedIds s) as Hs1
      by (subst s1; destruct (refresh (tokenAttempts t)); reflexivity).
    destruct (no_token (refresh (tokenAttempts t))); [discriminate|].
    destruct (mail_list t) as [mails|status|] eqn:Hlist.
    + destruct (scan_mails mails (checkedIds s1)) as [[c|] ids] eqn:Hscan.
      * injection H as <- <-.
        apply scan_mails_spec in Hscan as [_ (m & Hin & Ha & Hh & Hi & Hc)].
        exists k, mails, m. split; [lia|]. split; [exact Hlist|]. split; [exact Hin|].
        split; [exact Ha|]. split; [exact Hc|]. rewrite <- Hs1. split; [exact Hh|].
        exact Hi.
      * apply IH in H as (j & mails' & m & Hj & Hl & Hin & Ha & Hc & Hold & Hnew).
        exists j, mails', m. split; [lia|]. repeat (split; [assumption|]).
        split; [|exact Hnew]. cbn [sleep checkedIds] in Hold.
        apply scan_mails_spec in Hscan as [(more & -> & _) _].
        rewrite has_app, Hs1 in Hold. apply orb_false_iff in Hold. tauto.
    + apply IH in H as (j & mails' & m & Hj & H). exists j, mails', m.
      split; [lia|]. cbn [sleep logs checkedIds] in H. rewrite Hs1 in H. exact H.
    + apply IH in H as (j & mails' & m & Hj & H). exists j, mails', m.
      split; [lia|]. cbn [sleep logs checkedIds] in H. rewrite Hs1 in H. exact H.
Qed.


(** In a list whose mails from allowed senders have all been inspected,
    nothing is inspected. *)
Lemma scan_mails_skips (mails : list GraphMail) (checked : list jsstring) :
  (forall m, In m mails -> isAwsSender m = true -> has checked (mail_id m) = true) ->
  scan_mails mails checked = (None, checked).
Proof.
  induction mails as [|m mails IH]; intros H; cbn [Backends.scan_mails]; [reflexivity|].
  destruct (isAwsSender m) eqn:Ha; cbn [andb].
  - rewrite (H m (or_introl eq_refl) Ha). cbn [negb].
    apply IH. intros m' Hin. apply H. right. exact Hin.
  - apply IH. intros m' Hin. apply H. right. exact Hin.
Qed.

(** X9.  The Graph backend returns only a code of six digits that the
    extractor found in the stripped body, the body or the preview of a mail
    of the inbox listing of some turn, sent from an allowed sender; that
    mail is among the inspected ones when the call returns. *)
Theorem graph_code_is_from_an_aws_mail (fuel : nat) (world : nat -> turn) (t0 timeout : N)
        (code : jsstring) (s' : poll_state) :
  getOutlookVerificationCode htmlToText toLowerCase fuel world t0 timeout
    = Some (Some code, s') ->
  length code = 6 /\ forallb is_digit code = true
  /\ exists j mails m,
       mail_list (world j) = MailOk mails /\ In m mails /\ isAwsSender m = true
       /\ (extractCode (htmlToText (body_content m)) = Some code
           \/ extractCode (body_content m) = Some code
           \/ extractCode (bodyPreview m) = Some code)
       /\ has (checkedIds s') (mail_id m) = true.
Proof.
  unfold getOutlookVerificationCode. intros H.
  apply poll_provenance in H as (j & mails & m & _ & Hl & Hin & Ha & Hc & _ & Hnew).
  apply mail_code_source in Hc.
  assert (length code = 6 /\ forallb is_digit code = true) as [Hlen Hd]
    by (destruct Hc as [Hc|[Hc|Hc]]; exact (extractCode_digits _ _ Hc)).
  split; [exact Hlen|]. split; [exact Hd|].
  exists j, mails, m. auto.
Qed.

(** X10.  A mail is inspected once: after a pass over the inbox that found no
    code, a pass over any listing whose mails from allowed senders carry
    ids of mails of the first listing finds no code and inspects nothing,
    whatever those mails now contain. *)
Theorem inspected_mails_are_skipped (mails mails' : list GraphMail)
        (checked ids : list jsstring) :
  scan_mails mails checked = (None, ids) ->
  (forall m', In m' mails' -> isAwsSender m' = true ->
     exists m, In m mails /\ isAwsSender m = true /\ mail_id m' = mail_id m) ->
  scan_mails mails' ids = (None, ids).
Proof.
  intros H Hsame. apply scan_mails_spec in H as [_ Hall].
  apply scan_mails_skips. intros m' Hin Ha.
  destruct (Hsame m' Hin Ha) as (m & Hm & Hma & ->). exact (Hall m Hm Hma).
Qed.

End Graph.

Lemma graph_code_is_from_an_aws_mail_witness :
  length (str "482913") = 6 /\ forallb is_digit (str "482913") = true
  /\ exists j mails m,
       mail_list (arriving_network j) = MailOk mails /\ In m mails
       /\ isAwsSender Orchestrator.toLowerCase m = true
       /\ (extractCode (body_content m) = Some (str "482913")
           \/ extractCode (body_content m) = Some (str "482913")
           \/ extractCode (bodyPreview m) = Some (str "482913"))
       /\ has [str "m1"; str "m2"] (mail_id m) = true.
Proof.
  apply (graph_code_is_from_an_aws_mail (fun s => s) Orchestrator.toLowerCase
           3 arriving_network 1000 60 (str "482913")
           {| now := 6243; checkedIds := [str "m1"; str "m2"];
              log := [TokenRefreshed; NoCodeYet; Sleep 5000; TokenRefreshed;
                      FoundCode (str "482913")] |}).
  vm_compute. reflexivity.
Defined.

Lemma inspected_mails_are_skipped_witness :
  scan_mails (fun s => s) Orchestrator.toLowerCase
    [ {| mail_id := str "m1"; from_address := str "no-reply@signin.aws";
         body_content := str "Your verification code is 482913";
         bodyPreview := [] |} ] [str "m1"]
  = (None, [str "m1"]).
Proof.
  apply (inspected_mails_are_skipped (fun s => s) Orchestrator.toLowerCase
           [promo_mail] _ [] [str "m1"]).
  - vm_compute. reflexivity.
  - intros m' [<-|[]] _. exists promo_mail. split; [left; reflexivity|].
    split; vm_compute; reflexivity.
Defined.

Section Disposable.
Import MailService.
Variable toLowerCase : jsstring -> jsstring.

Local Abbreviation isFromAWS := (MailService.isFromAWS toLowerCase).
Local Abbreviation check_messages := (MailService.check_messages toLowerCase).
Local Abbreviation wait := (MailService.wait toLowerCase).

Lemma check_messages_found (listed : list EmailMessage) (code : jsstring) :
  check_messages listed = Found code ->
  exists message d,
    In message listed /\ isFromAWS message = true
    /\ detail message = Fetched d /\ extractCode (fullText d) = Some code.
Proof.
  induction listed as [|m listed IH]; cbn [MailService.check_messages]; [discriminate|].
  assert (check_messages listed = Found code ->
          exists message d, In message (m :: listed) /\ isFromAWS message = true
            /\ detail message = Fetched d /\ extractCode (fullText d) = Some code) as Hrest.
  { intros H. destruct (IH H) as (m' & d & Hin & H'). exists m', d. split; [right; exact Hin|exact H']. }
  destruct (isFromAWS m) eqn:Ha; [|exact Hrest].
  destruct (detail m) as [d|] eqn:Hd; [|discriminate].
  unfold detail_code, run_extractor. cbn [fst].
  destruct (extractCode (fullText d)) as [c|] eqn:Hc; [|exact Hrest].
  intros [= ->]. exists m, d. split; [left; reflexivity|]. auto.
Qed.

(** What the wait returns, and when. *)
Lemma wait_result (fuel : nat) (world : nat -> MailService.turn)
      (startTime maxWaitTime checkInterval : N) :
  forall (k : nat) (now : N) (a : answer) (now' : N) (k' : nat),
    wait fuel world k startTime maxWaitTime checkInterval now = Some (a, now', k') ->
    k <= k' /\ k' <= k + fuel /\ (now <= now')%N
    /\ match a with
       | MailService.TimedOut => (maxWaitTime <= now' - startTime)%N
       | Code code =>
           exists listed,
             messages (world k') = Fetched listed /\ check_messages listed = Found code
       end.
Proof.
  induction fuel as [|fuel IH]; intros k now a now' k' H; cbn [MailService.wait] in H.
  - destruct (now - startTime <? maxWaitTime)%N eqn:Hin; [discriminate|].
    injection H as <- <- <-. apply N.ltb_ge in Hin. repeat (split; [lia|]). exact Hin.
  - destruct (now - startTime <? maxWaitTime)%N eqn:Hin.
    2: { injection H as <- <- <-. apply N.ltb_ge in Hin. repeat (split; [lia|]). exact Hin. }
    cbn [negb] in H. cbv zeta in H.
    assert (forall now1, (now <= now1)%N ->
              wait fuel world (S k) startTime maxWaitTime checkInterval now1 = Some (a, now', k') ->
              k <= k' /\ k' <= k + S fuel /\ (now <= now')%N
              /\ match a with
                 | MailService.TimedOut => (maxWaitTime <= now' - startTime)%N
                 | Code code =>
                     exists listed,
                       messages (world k') = Fetched listed
                       /\ check_messages listed = Found code
                 end) as Hagain.
    { intros now1 Hle H1. destruct (IH _ _ _ _ _ H1) as (Hk & Hk' & Hn & Ha).
      repeat (split; [lia|]). exact Ha. }
    destruct (messages (world k)) as [listed|] eqn:Hm; [|eapply Hagain; [|exact H]; lia].
    destruct (check_messages listed) as [code| |] eqn:Hc;
      [|eapply Hagain; [|exact H]; lia|eapply Hagain; [|exact H]; lia].
    injection H as <- <- <-. repeat (split; [lia|]).
    exists listed. split; [exact Hm|exact Hc].
Qed.

(** Enough fuel for the time that is left always gives an answer. *)
Lemma wait_answers (world : nat -> MailService.turn) (startTime maxWaitTime checkInterval : N)
      (fuel : nat) :
  (0 < checkInterval)%N ->
  forall (k : nat) (now : N),
    (startTime <= now)%N ->
    (maxWaitTime - (now - startTime) <= checkInterval * N.of_nat fuel)%N ->
    wait fuel world k startTime maxWaitTime checkInterval now <> None.
Proof.
  intros Hpos. induction fuel as [|fuel IH]; intros k now Hs Hleft;
    cbn [MailService.wait].
  - destruct (now - startTime <? maxWaitTime)%N eqn:Hin; [|discriminate].
    apply N.ltb_lt in Hin. lia.
  - destruct (now - startTime <? maxWaitTime)%N eqn:Hin; [|discriminate].
    apply N.ltb_lt in Hin. cbn [negb]. cbv zeta.
    assert (wait fuel world (S k) startTime maxWaitTime checkInterval
              (now + elapsed (world k) + checkInterval + timer_lag (world k)) <> None) as Hagain
      by (apply IH; [lia|rewrite Nat2N.inj_succ, N.mul_succ_r in Hleft; lia]).
    destruct (messages (world k)) as [listed|]; [|exact Hagain].
    destruct (check_messages listed); [discriminate|exact Hagain|exact Hagain].
Qed.


(** X11.  The disposable backend returns only a code of six digits that the
    extractor found in the detail, fetched in the turn of the return, of a
    listed message whose first sender is an allowed one. *)
Theorem disposable_code_is_from_an_aws_mail (fuel : nat) (world : nat -> MailService.turn)
        (startTime maxWaitTime checkInterval : N) (code : jsstring) (now' : N) (k' : nat) :
  MailService.waitForVerificationCode toLowerCase fuel world startTime maxWaitTime checkInterval
    = Some (Code code, now', k') ->
  length code = 6 /\ forallb is_digit code = true
  /\ exists listed message d,
       messages (world k') = Fetched listed /\ In message listed
       /\ isFromAWS message = true /\ detail message = Fetched d
       /\ extractCode (fullText d) = Some code.
Proof.
  unfold MailService.waitForVerificationCode. intros H.
  apply wait_result in H as (_ & _ & _ & listed & Hm & Hc).
  destruct (check_messages_found _ _ Hc) as (m & d & Hin & Ha & Hd & Hx).
  destruct (extractCode_digits _ _ Hx) as [Hlen Hdig].
  split; [exact Hlen|]. split; [exact Hdig|]. exists listed, m, d. auto.
Qed.

(** X12.  The wait of the disposable backend ends: with a positive check
    interval it answers within [maxWaitTime / checkInterval] turns (rounded
    up), whatever the mail service does.  It gives up only when
    [maxWaitTime] has passed, and failing requests never end it sooner:
    when no turn finds a code the answer is the timeout. *)
Theorem disposable_wait_ends (world : nat -> MailService.turn)
        (startTime maxWaitTime checkInterval : N) (fuel : nat) :
  (0 < checkInterval)%N ->
  (maxWaitTime <= checkInterval * N.of_nat fuel)%N ->
  exists a now' k',
    MailService.waitForVerificationCode toLowerCase fuel world startTime maxWaitTime checkInterval
      = Some (a, now', k')
    /\ k' <= fuel
    /\ (a = MailService.TimedOut -> (maxWaitTime <= now' - startTime)%N)
    /\ ((forall k listed code,
           messages (world k) = Fetched listed -> check_messages listed <> Found code) ->
        a = MailService.TimedOut).
Proof.
  intros Hpos Hfuel. unfold MailService.waitForVerificationCode.
  destruct (wait fuel world 0 startTime maxWaitTime checkInterval startTime)
    as [[[a now'] k']|] eqn:H.
  2: { exfalso. revert H. apply wait_answers; [exact Hpos|lia|lia]. }
  exists a, now', k'. split; [reflexivity|].
  apply wait_result in H as (_ & Hk & _ & Ha). split; [lia|]. split.
  - intros ->. exact Ha.
  - intros Hnone. destruct a as [code|]; [|reflexivity].
    destruct Ha as (listed & Hm & Hc). destruct (Hnone _ _ _ Hm Hc).
Qed.

End Disposable.

Lemma disposable_code_is_from_an_aws_mail_witness :
  length (str "482913") = 6 /\ forallb is_digit (str "482913") = true
  /\ exists listed message d,
       MailService.messages (MailService.slow_api 2) = MailService.Fetched listed /\ In message listed
       /\ MailService.isFromAWS Orchestrator.toLowerCase message = true
       /\ MailService.detail message = MailService.Fetched d
       /\ extractCode (fullText d) = Some (str "482913").
Proof.
  apply (disposable_code_is_from_an_aws_mail Orchestrator.toLowerCase 5 MailService.slow_api
           1000 300000 5000 (str "482913") 11182 2).
  vm_compute. reflexivity.
Defined.

Lemma disposable_wait_ends_witness :
  exists a now' k',
    MailService.waitForVerificationCode Orchestrator.toLowerCase 60 MailService.dead_api 1000 300000 5000
      = Some (a, now', k')
    /\ k' <= 60
    /\ (a = MailService.TimedOut -> (300000 <= now' - 1000)%N)
    /\ ((forall k listed code,
           MailService.messages (MailService.dead_api k) = MailService.Fetched listed ->
           MailService.check_messages Orchestrator.toLowerCase listed <> MailService.Found code) ->
        a = MailService.TimedOut).
Proof.
  apply (disposable_wait_ends Orchestrator.toLowerCase MailService.dead_api 1000 300000 5000 60).
  - reflexivity.
  - vm_compute. discriminate.
Defined.

(* ===================================================================== *)
(** ** The page: what an import accepts, and what a start prepares *)
(* ===================================================================== *)

Import JS Store Pool Page.

Lemma trimStart_split (s : jsstring) :
  exists ws, s = ws ++ trimStart s /\ forallb is_space ws = true.
Proof.
  induction s as [|c t (ws & IH & Hws)]; [exists []; split; reflexivity|].
  cbn [trimStart]. destruct (is_space c) eqn:Hc.
  - exists (c :: ws). cbn. rewrite Hc, Hws, <- IH. split; reflexivity.
  - exists []. split; reflexivity.
Qed.

Lemma trimStart_head (s : jsstring) (c : N) :
  head (trimStart s) = Some c -> is_space c = false.
Proof.
  induction s as [|x t IH]; cbn [trimStart]; [discriminate|].
  destruct (is_space x) eqn:Hx; [exact IH|]. intros [= <-]. exact Hx.
Qed.

Lemma trimStart_id (s : jsstring) :
  (forall c, head s = Some c -> is_space c = false) -> trimStart s = s.
Proof.
  destruct s as [|x t]; [reflexivity|]. intros H. cbn [trimStart].
  rewrite (H x eq_refl). reflexivity.
Qed.

Lemma head_rev {A : Type} (l : list A) : head (rev l) = last l.
Proof.
  induction l as [|x l IH] using rev_ind; [reflexivity|].
  rewrite rev_app_distr, last_snoc. reflexivity.
Qed.

Lemma trimEnd_split (s : jsstring) :
  exists ws, s = trimEnd s ++ ws /\ forallb is_space ws = true.
Proof.
  unfold trimEnd. destruct (trimStart_split (rev s)) as (ws & H & Hws).
  exists (rev ws). split.
  - rewrite <- rev_app_distr, <- H, rev_involutive. reflexivity.
  - rewrite forallb_forall in *. intros c Hc. apply Hws, in_rev. exact Hc.
Qed.

Lemma trimEnd_last (s : jsstring) (c : N) :
  last (trimEnd s) = Some c -> is_space c = false.
Proof. unfold trimEnd. rewrite <- head_rev, rev_involutive. apply trimStart_head. Qed.

Lemma trimEnd_id (s : jsstring) :
  (forall c, last s = Some c -> is_space c = false) -> trimEnd s = s.
Proof.
  intros H. unfold trimEnd. rewrite trimStart_id, rev_involutive; [reflexivity|].
  intros c. rewrite head_rev. apply H.
Qed.

Lemma trimEnd_head (s : jsstring) (c : N) :
  (forall x, head s = Some x -> is_space x = false) ->
  head (trimEnd s) = Some c -> is_space c = false.
Proof.
  intros Hs. destruct (trimEnd_split s) as (ws & H & Hws).
  destruct (trimEnd s) as [|x t]; [discriminate|].
  intros [= ->]. apply Hs. rewrite H. reflexivity.
Qed.

(** What [trim] leaves: the string without the white space at its two
    ends. *)
Lemma trim_split (s : jsstring) :
  exists a b,
    s = a ++ trim s ++ b /\ forallb is_space a = true /\ forallb is_space b = true
    /\ (forall c, head (trim s) = Some c -> is_space c = false)
    /\ (forall c, last (trim s) = Some c -> is_space c = false).
Proof.
  unfold trim. destruct (trimStart_split s) as (a & Ha & Hwa).
  destruct (trimEnd_split (trimStart s)) as (b & Hb & Hwb).
  exists a, b. split; [rewrite <- Hb; exact Ha|]. split; [exact Hwa|]. split; [exact Hwb|].
  split.
  - intros c. apply trimEnd_head. apply trimStart_head.
  - apply trimEnd_last.
Qed.

Lemma trim_id (s : jsstring) :
  (forall c, head s = Some c -> is_space c = false) ->
  (forall c, last s = Some c -> is_space c = false) ->
  trim s = s.
Proof. intros Hh Hl. unfold trim. rewrite (trimStart_id s Hh). apply trimEnd_id, Hl. Qed.

Lemma trim_trim (s : jsstring) : trim (trim s) = trim s.
Proof.
  destruct (trim_split s) as (a & b & _ & _ & _ & Hh & Hl). apply trim_id; assumption.
Qed.

Lemma trim_In (s : jsstring) (c : N) : In c (trim s) -> In c s.
Proof.
  destruct (trim_split s) as (a & b & H & _). intros Hc. rewrite H.
  apply in_or_app. right. apply in_or_app. left. exact Hc.
Qed.

(** The pieces of a split hold no separator. *)
Lemma split_pieces (sep : N) (s : jsstring) :
  Forall (fun piece => ~ In sep piece) (split sep s).
Proof.
  induction s as [|c t IH]; cbn [split]; [repeat constructor; intros []|].
  destruct (N.eqb_spec c sep) as [->|Hne]; [constructor; [intros []|exact IH]|].
  destruct (split sep t) as [|piece pieces]; [repeat constructor; intros [?|[]]; congruence|].
  inversion IH as [|? ? Hp Hps]; subst. constructor; [|exact Hps].
  intros [?|?]; [congruence|contradiction].
Qed.

Section Importing.
Variable toLowerCase : jsstring -> jsstring.
Variable uuidv4 : nat -> jsstring.
Variable existingAccounts : list jsstring.

Local Abbreviation isEmailExists := (Page.isEmailExists toLowerCase existingAccounts).
Local Abbreviation parse_line := (Page.parse_line toLowerCase uuidv4 existingAccounts).
Local Abbreviation parseAccounts := (Page.parseAccounts toLowerCase uuidv4 existingAccounts).
Local Abbreviation virtualAccounts := (Page.virtualAccounts uuidv4).
Local Abbreviation prepare := (Page.prepare uuidv4).
Local Abbreviation startRegistration := (Page.startRegistration uuidv4).
Local Abbreviation issued := (Page.issued uuidv4).


(** The loop of [parseAccounts] over the lines. *)
Lemma parse_lines (lines : list jsstring) :
  forall (parsed0 : list RegisterAccount) (k0 : nat),
    exists new,
      fold_left parse_line lines (parsed0, k0) = (parsed0 ++ new, k0 + length new)
      /\ map email new = filter taken (map trim lines)
      /\ map id new = map uuidv4 (seq k0 (length new))
      /\ Forall (fun a => status a = (if isEmailExists (email a) then exists_ else pending)
                          /\ awsName a = None /\ ssoToken a = None /\ error a = None) new.
Proof.
  induction lines as [|line lines IH]; intros parsed0 k0; cbn [fold_left map].
  - exists []. rewrite app_nil_r, Nat.add_0_r. repeat split; constructor.
  - unfold Page.parse_line at 2.
    destruct (match trim line with [] => true | _ => false end
              || startsWith (trim line) (str "#")) eqn:Hskip.
    + rewrite filter_cons_False by (unfold taken; rewrite Hskip; exact (fun H => H)). apply IH.
    + cbn [negb andb]. destruct (includes (trim line) (str "@")) eqn:Hat.
      * rewrite filter_cons_True by (unfold taken; rewrite Hskip, Hat; exact I).
        destruct (IH (parsed0 ++ [fresh (uuidv4 k0) (trim (trim line))
                                    (if isEmailExists (trim (trim line))
                                     then exists_ else pending)]) (S k0))
          as (new & Hf & He & Hi & Hs).
        eexists (_ :: new). rewrite Hf, <- app_assoc. cbn [app length].
        rewrite Nat.add_succ_r. split; [reflexivity|].
        cbn [map email id fresh seq]. rewrite He, Hi, trim_trim.
        split; [reflexivity|]. split; [reflexivity|].
        constructor; [|exact Hs]. cbn [status email awsName ssoToken error fresh]. auto.
      * rewrite filter_cons_False by (unfold taken; rewrite Hskip, Hat; exact (fun H => H)). apply IH.
Qed.

(** X15.  What an import accepts.  The accounts that [parseAccounts] makes
    are, in the order of the lines, the trimmed lines of the trimmed text
    that are not empty, do not start with [#] and hold an [@]; their ids
    are the next ids drawn; an account is marked as existing exactly when
    its e-mail is, up to case, the e-mail of an account of the manager, and
    is pending otherwise.  Such an e-mail has no white space at its ends
    and no line feed in it. *)
Theorem parsed_accounts_are_clean (text : jsstring) (k : nat) :
  let parsed := fst (parseAccounts text k) in
  snd (parseAccounts text k) = k + length parsed
  /\ map email parsed = filter taken (map trim (split 10 (trim text)))
  /\ map id parsed = map uuidv4 (seq k (length parsed))
  /\ Forall (fun a =>
       status a = (if isEmailExists (email a) then exists_ else pending)
       /\ awsName a = None /\ ssoToken a = None /\ error a = None
       /\ includes (email a) (str "@") = true
       /\ startsWith (email a) (str "#") = false
       /\ trim (email a) = email a
       /\ ~ In 10%N (email a)) parsed.
Proof.
  cbv zeta. unfold Page.parseAccounts.
  destruct (parse_lines (split 10 (trim text)) [] k) as (new & Hf & He & Hi & Hs).
  rewrite Hf. cbn [fst snd app]. split; [reflexivity|]. split; [exact He|].
  split; [exact Hi|].
  apply Forall_forall. intros a Ha. rewrite Forall_forall in Hs.
  destruct (Hs a Ha) as (H1 & H2 & H3 & H4). repeat (split; [assumption|]).
  assert (In (email a) (filter taken (map trim (split 10 (trim text))))) as Hin
    by (rewrite <- He; apply in_map, list_elem_of_In; exact Ha).
  apply list_elem_of_In, list_elem_of_filter in Hin as [Htaken Hin].
  apply list_elem_of_In, in_map_iff in Hin as (line & Hline & Hin).
  unfold taken in Htaken. apply Is_true_true, andb_true_iff in Htaken as [Hn Hat].
  apply negb_true_iff, orb_false_iff in Hn as [_ Hhash].
  split; [exact Hat|]. split; [exact Hhash|]. split; [rewrite <- Hline; apply trim_trim|].
  intros Hnl. rewrite <- Hline in Hnl. apply trim_In in Hnl.
  pose proof (split_pieces 10 (trim text)) as Hp. rewrite Forall_forall in Hp.
  apply list_elem_of_In in Hin. exact (Hp line Hin Hnl).
Qed.


Lemma virtualAccounts_spec (count : nat) :
  forall k,
    length (virtualAccounts count k) = count
    /\ map id (virtualAccounts count k) = map uuidv4 (seq k count)
    /\ filter is_pending (virtualAccounts count k) = virtualAccounts count k
    /\ Forall (fun a => email a = virtualEmail /\ status a = pending)
              (virtualAccounts count k).
Proof.
  induction count as [|count IH]; intros k; cbn [Page.virtualAccounts].
  - repeat split; constructor.
  - destruct (IH (S k)) as (Hl & Hi & Hp & Ha). cbn [length map seq id fresh].
    rewrite Hl, Hi. split; [reflexivity|]. split; [reflexivity|]. split.
    + rewrite filter_cons_True by exact I. rewrite Hp. reflexivity.
    + constructor; [split; reflexivity|exact Ha].
Qed.

Lemma filter_all {A : Type} (P : A -> bool) (l : list A) :
  length (filter P l) = length l -> filter P l = l.
Proof.
  induction l as [|x l IH]; [reflexivity|].
  destruct (P x) eqn:Hx.
  - rewrite filter_cons_True by (rewrite Hx; exact I). cbn [length].
    intros [= H]. rewrite (IH H). reflexivity.
  - rewrite filter_cons_False by (rewrite Hx; exact (fun H => H)). cbn [length].
    intros H. pose proof (length_filter P l). lia.
Qed.

(** What [prepare] leaves in the store when it is not running. *)
Lemma prepare_accounts (registerCount : RegisterCount) (k : nat) (st : AutoRegisterState) :
  isRunning st = false ->
  let st' := fst (prepare true registerCount k st) in
  let kept := filter nonVirtual (accounts st) in
  accounts st' = kept ++ virtualAccounts (rounds registerCount) k
  /\ logs st' = (if length kept <? length (accounts st) then [] else logs st)
  /\ isRunning st' = false /\ concurrency st' = concurrency st
  /\ shouldStop st' = shouldStop st
  /\ snd (prepare true registerCount k st) = k + rounds registerCount.
Proof.
  intros Hrun. cbv zeta. unfold Page.prepare. cbv zeta. cbn [fst snd].
  destruct (length (filter nonVirtual (accounts st)) <? length (accounts st)) eqn:Hless.
  - unfold clearAccounts. rewrite Hrun.
    destruct (0 <? length (filter nonVirtual (accounts st))) eqn:Hsome;
      cbn [addAccounts set_accounts accounts logs isRunning concurrency shouldStop app].
    + repeat split; reflexivity.
    + apply Nat.ltb_ge in Hsome. destruct (filter nonVirtual (accounts st)); [|cbn in Hsome; lia].
      repeat split; reflexivity.
  - apply Nat.ltb_ge in Hless. pose proof (length_filter nonVirtual (accounts st)) as Hle.
    rewrite (filter_all nonVirtual (accounts st)) by lia.
    cbn [addAccounts set_accounts accounts logs isRunning concurrency shouldStop].
    repeat split; try reflexivity. exact Hrun.
Qed.

(** X16.  What a start prepares when the mail service is enabled and no run
    is under way.  The accounts of earlier starts that wait for a generated
    mailbox are removed, whatever became of them, and with them the log, if
    there were any; the other accounts stay, in their order; as many new
    pending accounts as asked for (one for an empty count) are added after
    them.  The run that follows queues the pending ones of the accounts
    that stayed and then the new ones, and is started whenever the count is
    at least one. *)
Theorem virtual_accounts_are_renewed (registerCount : RegisterCount) (k : nat)
        (st : AutoRegisterState) :
  isRunning st = false ->
  let st' := fst (prepare true registerCount k st) in
  let kept := filter nonVirtual (accounts st) in
  let made := virtualAccounts (rounds registerCount) k in
  accounts st' = kept ++ made
  /\ length made = rounds registerCount
  /\ Forall (fun a => email a = virtualEmail /\ status a = pending) made
  /\ logs st' = (if length kept <? length (accounts st) then [] else logs st)
  /\ (1 <= rounds registerCount ->
      fst (startRegistration true registerCount k st) = Some (start st')
      /\ queue (start st') = filter is_pending kept ++ made).
Proof.
  intros Hrun. cbv zeta.
  destruct (prepare_accounts registerCount k st Hrun) as (Hacc & Hlogs & _).
  cbv zeta in Hacc, Hlogs.
  destruct (virtualAccounts_spec (rounds registerCount) k) as (Hlen & _ & Hpending & Hmade).
  split; [exact Hacc|]. split; [exact Hlen|]. split; [exact Hmade|]. split; [exact Hlogs|].
  intros Hone.
  assert (filter is_pending (accounts (fst (prepare true registerCount k st)))
          = filter is_pending (filter nonVirtual (accounts st))
            ++ virtualAccounts (rounds registerCount) k) as Hq
    by (rewrite Hacc, filter_app, Hpending; reflexivity).
  split; [|exact Hq].
  unfold Page.startRegistration.
  destruct (prepare true registerCount k st) as [st' k'] eqn:Hp. cbn [fst] in *.
  rewrite Hq. destruct (virtualAccounts (rounds registerCount) k) as [|v vs] eqn:Hv.
  - cbn [length] in Hlen. lia.
  - destruct (filter is_pending (filter nonVirtual (accounts st))); reflexivity.
Qed.

Lemma issued_NoDup (k : nat) (st : AutoRegisterState) :
  (forall i j, uuidv4 i = uuidv4 j -> i = j) -> issued k st -> NoDup (map id (accounts st)).
Proof.
  intros Hinj (js & Hids & Hnd & _). rewrite Hids.
  apply (@NoDup_fmap_2 _ _ uuidv4 Hinj), Hnd.
Qed.

Lemma issued_add (k n : nat) (st : AutoRegisterState) (new : list RegisterAccount) :
  issued k st -> map id new = map uuidv4 (seq k n) -> issued (k + n) (addAccounts new st).
Proof.
  intros (js & Hids & Hnd & Hlt) Hnew. exists (js ++ seq k n).
  cbn [addAccounts set_accounts accounts]. rewrite !map_app, Hids, Hnew.
  split; [reflexivity|]. split.
  - apply NoDup_app. split; [exact Hnd|]. split; [|apply NoDup_seq].
    intros j Hj Hseq. apply elem_of_seq in Hseq. rewrite Forall_forall in Hlt.
    specialize (Hlt j Hj). lia.
  - apply Forall_app. split.
    + eapply Forall_impl; [exact Hlt|]. cbn. intros; lia.
    + apply Forall_forall. intros j Hj. apply elem_of_seq in Hj. lia.
Qed.

Lemma ids_filter (P : RegisterAccount -> bool) (accs : list RegisterAccount) :
  forall js, map id accs = map uuidv4 js ->
    exists js', map id (filter P accs) = map uuidv4 js' /\ sublist js' js.
Proof.
  induction accs as [|a accs IH]; intros [|j js] Hids; try discriminate.
  - exists []. split; [reflexivity|constructor].
  - cbn [map] in Hids. injection Hids as Hj Hids.
    destruct (IH js Hids) as (js' & Hids' & Hsub).
    destruct (P a) eqn:Hp.
    + rewrite filter_cons_True by (rewrite Hp; exact I). exists (j :: js').
      cbn [map]. rewrite Hj, Hids'. split; [reflexivity|constructor; exact Hsub].
    + rewrite filter_cons_False by (rewrite Hp; exact (fun H => H)).
      exists js'. split; [exact Hids'|constructor; exact Hsub].
Qed.

(** X17.  Ids stay distinct.  When [uuidv4] never returns a value twice, the
    accounts of a store whose ids it drew have distinct ids, and this stays
    so when the accounts parsed from a text are added, when a start
    prepares the store while no run is under way, and throughout the run
    of the pool. *)
Theorem ids_stay_distinct (k : nat) (st : AutoRegisterState) :
  (forall i j, uuidv4 i = uuidv4 j -> i = j) ->
  issued k st ->
  NoDup (map id (accounts st))
  /\ (forall text,
        let r := parseAccounts text k in issued (snd r) (addAccounts (fst r) st))
  /\ (forall enabled registerCount,
        isRunning st = false ->
        let r := prepare enabled registerCount k st in issued (snd r) (fst r))
  /\ (forall concurrency es s,
        run concurrency (start st) es = Some s -> issued k (store s)).
Proof.
  intros Hinj Hst. split; [exact (issued_NoDup k st Hinj Hst)|]. split; [|split].
  - intros text. cbv zeta. unfold Page.parseAccounts.
    destruct (parse_lines (split 10 (trim text)) [] k) as (new & Hf & _ & Hi & _).
    rewrite Hf. cbn [fst snd app]. apply issued_add; assumption.
  - intros [|] registerCount Hrun; [|exact Hst]. cbv zeta.
    destruct (prepare_accounts registerCount k st Hrun) as (Hacc & _ & _ & _ & _ & Hk).
    cbv zeta in Hacc. rewrite Hk.
    destruct Hst as (js & Hids & Hnd & Hlt).
    destruct (ids_filter nonVirtual _ _ Hids) as (js' & Hids' & Hsub).
    destruct (virtualAccounts_spec (rounds registerCount) k) as (_ & Hi & _).
    exists (js' ++ seq k (rounds registerCount)). rewrite Hacc, !map_app, Hids', Hi.
    split; [reflexivity|].
    assert (Forall (fun j => j < k) js') as Hlt'.
    { rewrite Forall_forall in *. intros j Hj. apply Hlt. eapply elem_of_sublist; eassumption. }
    split.
    + apply NoDup_app. split; [eapply sublist_NoDup; eassumption|].
      split; [|apply NoDup_seq].
      intros j Hj Hseq. apply elem_of_seq in Hseq. rewrite Forall_forall in Hlt'.
      specialize (Hlt' j Hj). lia.
    + apply Forall_app. split.
      * eapply Forall_impl; [exact Hlt'|]. cbn. intros; lia.
      * apply Forall_forall. intros j Hj. apply elem_of_seq in Hj. lia.
  - intros concurrency es s Hrun.
    destruct (framed_invariant st _ _ _ _ (framed_start st) Hrun)
      as (_ & _ & _ & Hlen & Hacc & _).
    destruct Hst as (js & Hids & Hnd & Hlt). exists js. split; [|split; assumption].
    rewrite <- Hids. apply list_eq. intros i. rewrite !list_lookup_fmap.
    destruct (accounts (store s) !! i) as [a|] eqn:Ha,
             (accounts st !! i) as [a0|] eqn:Ha0; cbn.
    + destruct (Hacc i a0 a Ha0 Ha) as (-> & _). reflexivity.
    + apply lookup_lt_Some in Ha. apply lookup_ge_None in Ha0. lia.
    + apply lookup_lt_Some in Ha0. apply lookup_ge_None in Ha. lia.
    + reflexivity.
Qed.

End Importing.

Lemma numbered_inj (i j : nat) : numbered i = numbered j -> i = j.
Proof. unfold numbered. intros H. apply app_inv_head in H. injection H as H. lia. Qed.

Example pasted_text_is_parsed :
  map email (fst (Page.parseAccounts Orchestrator.toLowerCase numbered
                    [str "ANN@example.com"] pasted 4))
    = [str "Ann@Example.com"; str "bob@example.com"]
  /\ map status (fst (Page.parseAccounts Orchestrator.toLowerCase numbered
                        [str "ANN@example.com"] pasted 4))
     = [exists_; pending]
  /\ map id (fst (Page.parseAccounts Orchestrator.toLowerCase numbered
                    [str "ANN@example.com"] pasted 4))
     = [numbered 4; numbered 5].
Proof. repeat split; vm_compute; reflexivity. Qed.

Lemma virtual_accounts_are_renewed_witness :
  accounts (fst (Page.prepare numbered true Blank 3 virtual_store))
    = [ fresh (numbered 0) (str "ann@example.com") pending;
        fresh (numbered 2) (str "bob@example.com") failed;
        fresh (numbered 3) virtualEmail pending ]
  /\ logs (fst (Page.prepare numbered true Blank 3 virtual_store)) = []
  /\ queue (start (fst (Page.prepare numbered true Blank 3 virtual_store)))
     = [ fresh (numbered 0) (str "ann@example.com") pending;
         fresh (numbered 3) virtualEmail pending ].
Proof.
  destruct (virtual_accounts_are_renewed numbered Blank 3 virtual_store eq_refl)
    as (Hacc & _ & _ & Hlogs & Hstart).
  destruct (Hstart (le_n 1)) as [_ Hq].
  split; [rewrite Hacc; reflexivity|]. split; [rewrite Hlogs; reflexivity|].
  rewrite Hq. reflexivity.
Defined.

Lemma ids_stay_distinct_witness :
  NoDup (map id (accounts virtual_store))
  /\ Page.issued numbered 5
       (fst (Page.prepare numbered true (Number 2) 3 virtual_store)).
Proof.
  assert (Page.issued numbered 3 virtual_store) as Hst.
  { exists [0; 1; 2]. split; [reflexivity|]. split.
    - exact (NoDup_seq 0 3).
    - repeat constructor. }
  destruct (ids_stay_distinct Orchestrator.toLowerCase numbered [] 3 virtual_store
              numbered_inj Hst) as (Hnd & _ & Hp & _).
  split; [exact Hnd|]. exact (Hp true (Number 2) eq_refl).
Defined.

(* ===================================================================== *)
(** ** The generated name and device code *)
(* ===================================================================== *)

Import JS Names.

Lemma pick_code_char (i : nat) :
  i < length code_chars -> exists c, pick code_chars i = Some c /\ unambiguous c = true.
Proof.
  intros Hi. unfold pick. destruct (lookup_lt_is_Some_2 code_chars i Hi) as [c Hc].
  exists c. split; [exact Hc|].
  assert (Forall (fun c => unambiguous c = true) code_chars) as Hall
    by (vm_compute; repeat constructor).
  exact (proj1 (Forall_lookup _ _) Hall i c Hc).
Qed.

Lemma pick_name_char (i : nat) :
  i < length name_chars -> exists c, pick name_chars i = Some c /\ in_range 65 90 c = true.
Proof.
  intros Hi. unfold pick. destruct (lookup_lt_is_Some_2 name_chars i Hi) as [c Hc].
  exists c. split; [exact Hc|].
  assert (Forall (fun c => in_range 65 90 c = true) name_chars) as Hall
    by (vm_compute; repeat constructor).
  exact (proj1 (Forall_lookup _ _) Hall i c Hc).
Qed.

Lemma part_drawn (draws : nat * nat * nat * nat) :
  drawn code_chars draws ->
  exists x1 x2 x3 x4,
    part draws = Some [x1; x2; x3; x4]
    /\ Forall (fun c => unambiguous c = true) [x1; x2; x3; x4].
Proof.
  destruct draws as [[[a b] c] d]. intros (Ha & Hb & Hc & Hd).
  destruct (pick_code_char a Ha) as (x1 & H1 & U1), (pick_code_char b Hb) as (x2 & H2 & U2),
           (pick_code_char c Hc) as (x3 & H3 & U3), (pick_code_char d Hd) as (x4 & H4 & U4).
  exists x1, x2, x3, x4. unfold part. rewrite H1, H2, H3, H4. cbn.
  split; [reflexivity|repeat constructor; assumption].
Qed.

(** X26.  The shape of what is generated, for indices drawn inside the
    strings: the name is two capital letters; the device code is four
    signs, a hyphen and four signs, each sign a capital letter or a digit
    other than [I], [O], [0] and [1]. *)
Theorem generated_names_shape (i j : nat) (draws1 draws2 : nat * nat * nat * nat) :
  i < length name_chars -> j < length name_chars ->
  drawn code_chars draws1 -> drawn code_chars draws2 ->
  (exists a b, generateRandomName i j = Some [a; b]
               /\ in_range 65 90 a = true /\ in_range 65 90 b = true)
  /\ exists part1 part2,
       generateUserCode draws1 draws2 = Some (part1 ++ [45%N] ++ part2)
       /\ length part1 = 4 /\ length part2 = 4
       /\ forallb unambiguous (part1 ++ part2) = true.
Proof.
  intros Hi Hj H1 H2. split.
  - destruct (pick_name_char i Hi) as (a & Ha & Ua), (pick_name_char j Hj) as (b & Hb & Ub).
    exists a, b. unfold generateRandomName. rewrite Ha, Hb. auto.
  - destruct (part_drawn draws1 H1) as (x1 & x2 & x3 & x4 & Hp1 & U1).
    destruct (part_drawn draws2 H2) as (y1 & y2 & y3 & y4 & Hp2 & U2).
    exists [x1; x2; x3; x4], [y1; y2; y3; y4]. unfold generateUserCode.
    rewrite Hp1, Hp2. split; [reflexivity|]. split; [reflexivity|]. split; [reflexivity|].
    apply forallb_forall. intros c Hc. apply in_app_or in Hc as [Hc|Hc].
    + apply list_elem_of_In in Hc. exact (proj1 (Forall_forall _ _) U1 c Hc).
    + apply list_elem_of_In in Hc. exact (proj1 (Forall_forall _ _) U2 c Hc).
Qed.

Lemma generated_names_shape_witness :
  generateRandomName 10 25 = Some (str "KZ")
  /\ generateUserCode (0, 7, 8, 23) (24, 31, 12, 13) = Some (str "AHJZ-29NP").
Proof.
  destruct (generated_names_shape 10 25 (0, 7, 8, 23) (24, 31, 12, 13))
    as [(a & b & Hname & _) (p1 & p2 & Hcode & _)];
    [vm_compute; lia|vm_compute; lia|vm_compute; lia|vm_compute; lia|].
  split; [rewrite Hname|rewrite Hcode]; [|]; revert Hname Hcode; vm_compute;
    intros [= <- <-] Hc; congruence.
Defined.

(* ===================================================================== *)
(** ** The orchestrator: the life of the browser *)
(* ===================================================================== *)

Import JS Orchestrator.

Lemma tidy_weaken {A : Type} (Qv Qv' : A -> Prop) (m : M A) :
  tidy Qv m -> (forall a, Qv a -> Qv' a) -> tidy Qv' m.
Proof.
  intros Hm HQ. eapply holds_weaken; [exact Hm| |]; cbn; [|auto].
  intros l a l' [Hk Ha]. auto.
Qed.

Lemma tidy_ret {A : Type} (Qv : A -> Prop) (a : A) : Qv a -> tidy Qv (ret a).
Proof. intros Ha. apply holds_ret. intros l. split; [reflexivity|exact Ha]. Qed.

Lemma tidy_throw {A : Type} (Qv : A -> Prop) (e : exn) : tidy Qv (throw e).
Proof. apply holds_throw. reflexivity. Qed.

Lemma tidy_bind {A B : Type} (Qv : A -> Prop) (Rv : B -> Prop) (m : M A) (f : A -> M B) :
  tidy Qv m -> (forall a, Qv a -> tidy Rv (f a)) -> tidy Rv (bind m f).
Proof.
  intros Hm Hf. eapply holds_bind; [exact Hm|]. intros l a l1 [Hk Ha].
  eapply sat_weaken; [apply (Hf a Ha l1)|]. unfold same_browser in *.
  intros [[b|e] l2]; [intros [Hk' Hb]; split; [|exact Hb]|intros Hk']; congruence.
Qed.

Lemma tidy_try_catch {A : Type} (Qv : A -> Prop) (m : M A) (h : exn -> M A) :
  tidy Qv m -> (forall e, tidy Qv (h e)) -> tidy Qv (try_catch m h).
Proof.
  intros Hm Hh. eapply holds_try_catch; [exact Hm|]. intros l e l1 Hk.
  eapply sat_weaken; [apply (Hh e l1)|]. unfold same_browser in *.
  intros [[b|e'] l2]; [intros [Hk' Hb]; split; [|exact Hb]|intros Hk']; congruence.
Qed.

Lemma tidy_call {X : Type} (e : eff X) : no_browser X e -> tidy (fun _ => True) (call e).
Proof. intros He. apply holds_call; [exact He|]. intros l _. split; [reflexivity|exact I]. Qed.

Lemma tidy_await {X : Type} (e : eff (outcome X)) :
  no_browser _ e -> tidy (fun _ => True) (await e).
Proof.
  intros He. apply holds_await; [exact He| |reflexivity].
  intros l _. split; [reflexivity|exact I].
Qed.

Lemma tidy_get : tidy (fun _ => True) get.
Proof. apply holds_get. intros l. split; [reflexivity|exact I]. Qed.

Lemma tidy_unless (b : bool) (e : exn) : tidy (fun _ => True) (unless b e).
Proof. destruct b; [apply tidy_ret; exact I|apply tidy_throw]. Qed.

Lemma tidy_when (b : bool) (m : M unit) :
  tidy (fun _ => True) m -> tidy (fun _ => True) (when b m).
Proof. intros Hm. destruct b; [exact Hm|apply tidy_ret; exact I]. Qed.

Lemma tidy_visible (selector : jsstring) : tidy (fun _ => True) (visible selector).
Proof.
  intros l. constructor; [exact I|]. intros x. constructor.
  split; [reflexivity|exact I].
Qed.

Lemma tidy_set_mailService : tidy (fun _ => True) set_mailService.
Proof. intros l. constructor. split; [reflexivity|exact I]. Qed.

Lemma tidy_set_tempMailbox (mb : Mailbox) : tidy (fun _ => True) (set_tempMailbox mb).
Proof. intros l. constructor. split; [reflexivity|exact I]. Qed.

Create HintDb tidy.
#[local] Hint Resolve tidy_get tidy_unless tidy_throw tidy_visible
  tidy_set_mailService tidy_set_tempMailbox : tidy.

Ltac tidy_steps :=
  repeat (intros;
    first
      [ exact I
      | solve [eauto with tidy]
      | apply tidy_when
      | apply tidy_call; exact I
      | apply tidy_await; exact I
      | apply tidy_ret; exact I
      | eapply tidy_bind with (Qv := fun _ => True)
      | apply tidy_try_catch
      | match goal with
        | |- tidy _ (if ?b then _ else _) => destruct b
        | |- tidy _ (match ?x with _ => _ end) => destruct x
        end ]).

Lemma tidy_create_mailbox (cfg : option MailServiceConfig) :
  tidy (fun _ => True) (create_mailbox_if_needed cfg).
Proof. unfold create_mailbox_if_needed. tidy_steps. Qed.

Lemma tidy_any_visible (selectors : list jsstring) :
  tidy (fun _ => True) (any_visible selectors).
Proof. induction selectors as [|selector rest IH]; cbn [any_visible]; tidy_steps. Qed.

Lemma tidy_classify : tidy (fun _ => True) classify.
Proof.
  pose proof tidy_any_visible. unfold classify, probe_sequentially. tidy_steps.
Qed.

Lemma tidy_first_visible (selectors : list jsstring) :
  tidy (fun _ => True) (first_visible selectors).
Proof. induction selectors as [|selector rest IH]; cbn [first_visible]; tidy_steps. Qed.

Lemma tidy_find_code_input (left : nat) : tidy (fun _ => True) (find_code_input left).
Proof.
  pose proof tidy_first_visible.
  induction left as [|left IH]; cbn [find_code_input]; unfold pause; tidy_steps.
Qed.

Lemma tidy_enter_code (codeInput : jsstring) (timed_out : exn) :
  tidy (fun _ => True) (enter_code codeInput timed_out).
Proof. unfold enter_code, pause. tidy_steps. Qed.

Lemma tidy_login_flow (isVerifyFlow : bool) : tidy (fun _ => True) (login_flow isVerifyFlow).
Proof.
  pose proof (tidy_find_code_input 999). pose proof tidy_enter_code.
  unfold login_flow, pause. tidy_steps.
Qed.

Lemma tidy_harvest_token (left : nat) : tidy (fun _ => True) (harvest_token left).
Proof. induction left as [|left IH]; cbn [harvest_token]; unfold pause; tidy_steps. Qed.

Lemma tidy_fill_name (selectors : list jsstring) (randomName : jsstring) :
  tidy (fun _ => True) (fill_name selectors randomName).
Proof. induction selectors as [|selector rest IH]; cbn [fill_name]; tidy_steps. Qed.

Lemma tidy_find_password_inputs (left : nat) (last : option nat * option nat) :
  tidy (fun _ => True) (find_password_inputs left last).
Proof.
  revert last. induction left as [|left IH]; intros last; cbn [find_password_inputs];
    unfold pause; tidy_steps.
Qed.

Lemma tidy_registration_flow (randomName : jsstring) :
  tidy (fun _ => True) (registration_flow randomName).
Proof.
  pose proof tidy_fill_name. pose proof (tidy_find_code_input 999).
  pose proof tidy_enter_code. pose proof (tidy_find_password_inputs 999 (None, None)).
  unfold registration_flow, pause. tidy_steps.
Qed.

Lemma tidy_clean_mailbox : tidy (fun _ => True) clean_mailbox.
Proof. unfold clean_mailbox. tidy_steps. Qed.

Lemma no_browser_trace (t : list entry) :
  Forall (allowed no_browser) t -> omap browsing t = [].
Proof.
  induction 1 as [|[X e x] t He _ IH]; [reflexivity|].
  cbn [omap list_omap]. rewrite IH. destruct e; cbn in *; tauto.
Qed.

Lemma tidy_exec {A : Type} (Qv : A -> Prop) (m : M A) (w : world) (n : nat) (l : locals) :
  tidy Qv m ->
  omap browsing (trace_of (exec w n (m l))) = []
  /\ browser (snd (value_of (exec w n (m l)))) = browser l.
Proof.
  intros Hm. destruct (sat_exec _ _ _ (Hm l) w n) as [Htr Hv].
  split; [apply no_browser_trace, Htr|].
  destruct (value_of (exec w n (m l))) as [[a|e] l']; cbn in *; unfold same_browser in *; tauto.
Qed.

Lemma omap_browsing_cons (en : entry) (t : list entry) :
  omap browsing (en :: t) = from_option (fun ev => [ev]) [] (browsing en) ++ omap browsing t.
Proof. cbn. destruct (browsing en); reflexivity. Qed.

(** The steps of [submit_email] after the launch. *)
Lemma submit_email_browsing (w : world) (n : nat) (proxyUrl : option jsstring)
      (userCode : jsstring) (l : locals) :
  let r := exec w n (submit_email proxyUrl userCode l) in
  (omap browsing (trace_of r) = [] /\ snd (value_of r) = l
   /\ exists e, fst (value_of r) = Err e)
  \/ (omap browsing (trace_of r) = [Launched] /\ browser (snd (value_of r)) = true).
Proof.
  cbv zeta. unfold submit_email. rewrite exec_bind. cbn [exec get].
  destruct (email l) as [[|c e]|]; [left; cbn; eauto|
                                    |left; cbn; eauto].
  rewrite exec_bind, exec_call.
  destruct (Fingerprint.generateSmartFingerprint (w _ n Draw)) as [fingerprint|];
    [|left; cbn; eauto].
  rewrite exec_bind, exec_await.
  destruct (w _ (S n) (Launch (if nonempty proxyUrl then proxyUrl else None))) as [[]|e0] eqn:Hl;
    [|left; cbn; eauto].
  right. rewrite exec_bind. cbn [exec set_browser bind get put pbind].
  match goal with
  | |- context [exec w ?n1 (?rest ?u ?l1)] =>
      assert (tidy (fun _ => True) (rest u)) as Hrest
        by (cbv beta; unfold pause; tidy_steps);
      destruct (tidy_exec _ _ w n1 l1 Hrest) as [Ht Hb];
      destruct (exec w n1 (rest u l1)) as [[[r l2] n2] t2]
  end.
  cbn [trace_of value_of fst snd browser] in *.
  cbn [app]. rewrite !omap_browsing_cons, Ht.
  split; [reflexivity|exact Hb].
Qed.

Lemma recover_browsing (w : world) (n : nat) (e : exn) (l : locals) :
  omap browsing (trace_of (exec w n (recover e l)))
  = (if browser l
     then [CloseAsked (match w _ (S n) BrowserClose with Ok _ => true | Err _ => false end)]
     else []).
Proof.
  unfold recover. rewrite exec_bind, exec_call, exec_bind. cbn [exec get].
  rewrite exec_bind.
  assert (exists n1 t1,
            exec w (S n) (when (browser l) (try_catch (await BrowserClose) (fun _ => ret tt)) l)
              = ((Ok tt, l), n1, t1)
            /\ omap browsing t1
               = (if browser l
                  then [CloseAsked (match w _ (S n) BrowserClose with
                                    | Ok _ => true | Err _ => false end)]
                  else [])) as (n1 & t1 & -> & Ht1).
  { destruct (browser l); cbn [when]; [|eexists _, _; split; reflexivity].
    rewrite exec_try_catch, exec_await.
    destruct (w _ (S n) BrowserClose) as [[]|e']; eexists _, _; split; reflexivity. }
  rewrite exec_bind.
  destruct (tidy_exec _ _ w n1 l tidy_clean_mailbox) as [Ht _].
  destruct (exec w n1 (clean_mailbox l)) as [[[[[]|e'] l'] n2] t2];
    cbn [trace_of value_of fst snd] in *.
  - rewrite exec_ret. cbn [trace_of snd app].
    rewrite omap_browsing_cons, !omap_app, Ht1, Ht, ?app_nil_r. reflexivity.
  - cbn [app]. rewrite omap_browsing_cons, !omap_app, Ht1, Ht, ?app_nil_r. reflexivity.
Qed.

(** What [finish] does with the browser. *)
Lemma finish_browsing (w : world) (n : nat) (randomName : jsstring)
      (testLoginDetection keepBrowserOpen : bool) (l : locals) :
  let r := exec w n (finish randomName testLoginDetection keepBrowserOpen l) in
  match fst (value_of r) with
  | Ok res =>
      (exists granted, In (Authorised granted) (omap traffic (trace_of r)))
      /\ omap browsing (trace_of r) = (if keepBrowserOpen then [] else [CloseAsked true])
  | Err _ =>
      omap browsing (trace_of r) = [] /\ browser (snd (value_of r)) = browser l
      \/ omap browsing (trace_of r) = [CloseAsked true] /\ browser (snd (value_of r)) = false
      \/ omap browsing (trace_of r) = [CloseAsked false]
         /\ browser (snd (value_of r)) = browser l
  end.
Proof.
  cbv zeta. unfold finish. rewrite exec_bind.
  destruct (tidy_exec _ _ w n l (tidy_harvest_token 999)) as [Ht1 Hb1].
  destruct (exec w n (harvest_token 999 l)) as [[[[ssoToken|e] l1] n1] t1];
    cbn [trace_of value_of fst snd] in *; [|left; split; assumption].
  destruct ssoToken as [[|c tok]|].
  1, 3: rewrite exec_bind, exec_await;
    destruct (w _ n1 BrowserClose) as [[]|e];
    cbn [exec set_browser bind get put pbind throw trace_of value_of fst snd app browser];
    [right; left|right; right]; rewrite ?omap_app, ?Ht1;
    (split; [reflexivity|]); [reflexivity|exact Hb1].
  rewrite exec_bind.
  set (before := when testLoginDetection (call TestLoginDetection)).
  assert (tidy (fun _ => True) before) as Hbefore by (unfold before; tidy_steps).
  destruct (tidy_exec _ _ w n1 l1 Hbefore) as [Ht2 Hb2].
  destruct (exec w n1 (before l1)) as [[[[[]|e] l2] n2] t2];
    cbn [trace_of value_of fst snd] in *;
    [|left; rewrite omap_app, Ht1, Ht2; split; [reflexivity|congruence]].
  rewrite exec_bind.
  set (closing := if keepBrowserOpen then call (Log L_browser_kept_open)
                  else (await BrowserClose ;; set_browser false ;;
                        call (Log L_browser_closed))%prog).
  assert (exists r3 l3 n3 t3,
            exec w n2 (closing l2) = ((r3, l3), n3, t3)
            /\ omap traffic t3 = []
            /\ match r3 with
               | Ok _ =>
                   omap browsing t3 = (if keepBrowserOpen then [] else [CloseAsked true])
                   /\ browser l3 = (if keepBrowserOpen then browser l2 else false)
               | Err _ => omap browsing t3 = [CloseAsked false] /\ l3 = l2
               end) as (r3 & l3 & n3 & t3 & -> & Hm3 & Hc3).
  { unfold closing. destruct keepBrowserOpen.
    - rewrite exec_call. eexists _, _, _, _. split; [reflexivity|]. repeat split; reflexivity.
    - rewrite exec_bind, exec_await. destruct (w _ n2 BrowserClose) as [[]|e].
      + rewrite exec_bind. cbn [exec set_browser bind get put pbind]. rewrite exec_call.
        eexists _, _, _, _. split; [reflexivity|]. repeat split; reflexivity.
      + eexists _, _, _, _. split; [reflexivity|]. repeat split; reflexivity. }
  destruct r3 as [[]|e]; cbn [trace_of value_of fst snd].
  2: { destruct Hc3 as [Hc3 ->]. right. right.
       rewrite !omap_app, Ht1, Ht2, Hc3. split; [reflexivity|congruence]. }
  destruct Hc3 as [Hc3 Hb3].
  rewrite exec_bind, exec_await.
  destruct (w _ n3 (SsoDeviceAuth (c :: tok) (str "us-east-1"))) as [ssoResult|e] eqn:Hsso.
  2: { cbn [trace_of value_of fst snd]. rewrite !omap_app, Ht1, Ht2, Hc3.
       cbn [omap list_omap browsing app]. rewrite app_nil_r.
       destruct keepBrowserOpen; [left|right; left]; (split; [reflexivity|]); congruence. }
  assert (forall t, In (Authorised (sso_success ssoResult))
                       (omap traffic
                          (t1 ++ t2 ++ t3
                           ++ [Did (SsoDeviceAuth (c :: tok) (str "us-east-1")) (Ok ssoResult)]
                           ++ t))) as Hauth.
  { intros t. rewrite !omap_app. do 3 (apply in_or_app; right).
    apply in_or_app. left. left. reflexivity. }
  destruct (sso_success ssoResult) eqn:Hgranted; cbn [negb].
  - rewrite exec_bind, exec_call, exec_bind.
    destruct (tidy_exec _ _ w (S (S n3)) l3 tidy_clean_mailbox) as [Ht _].
    destruct (clean_mailbox_traffic w (S (S n3)) l3) as [_ Hv].
    destruct (exec w (S (S n3)) (clean_mailbox l3)) as [[[r l'] n4] t4].
    cbn [trace_of value_of fst snd] in Ht, Hv. injection Hv as -> ->.
    rewrite exec_ret. cbn [trace_of value_of fst snd]. split.
    + exists true. rewrite <- ?app_assoc. apply Hauth.
    + rewrite !omap_app, Ht1, Ht2, Hc3, Ht. cbn [omap list_omap browsing app].
      rewrite !app_nil_r. reflexivity.
  - rewrite exec_bind, exec_call, exec_ret. cbn [trace_of value_of fst snd]. split.
    + exists false. rewrite <- ?app_assoc. apply Hauth.
    + rewrite !omap_app, Ht1, Ht2, Hc3. cbn [omap list_omap browsing app].
      rewrite !app_nil_r. reflexivity.
Qed.

Lemma until_classified_browsing (w : world) (n : nat) (proxyUrl : option jsstring)
      (cfg : option MailServiceConfig) (userCode : jsstring) (email0 : option jsstring) :
  let r := exec w n (until_classified proxyUrl cfg userCode (at_entry email0)) in
  (omap browsing (trace_of r) = [] /\ browser (snd (value_of r)) = false
   /\ exists e, fst (value_of r) = Err e)
  \/ (omap browsing (trace_of r) = [Launched] /\ browser (snd (value_of r)) = true).
Proof.
  cbv zeta. unfold until_classified. rewrite exec_bind.
  destruct (tidy_exec _ _ w n (at_entry email0) (tidy_create_mailbox cfg)) as [Ht1 Hb1].
  destruct (exec w n (create_mailbox_if_needed cfg (at_entry email0)))
    as [[[[[]|e] l1] n1] t1]; cbn [trace_of value_of fst snd at_entry browser] in *;
    [|left; eauto].
  rewrite exec_bind.
  destruct (submit_email_browsing w n1 proxyUrl userCode l1) as [(Ht2 & Hl2 & e & He)|[Ht2 Hb2]].
  - destruct (exec w n1 (submit_email proxyUrl userCode l1)) as [[[r l2] n2] t2].
    cbn [trace_of value_of fst snd] in *. subst r l2. cbn [trace_of value_of fst snd]. left.
    rewrite omap_app, Ht1, Ht2. eauto.
  - destruct (exec w n1 (submit_email proxyUrl userCode l1)) as [[[[[]|e] l2] n2] t2];
      cbn [trace_of value_of fst snd] in *.
    + destruct (tidy_exec _ _ w n2 l2 tidy_classify) as [Ht3 Hb3].
      destruct (exec w n2 (classify l2)) as [[[r l3] n3] t3].
      cbn [trace_of value_of fst snd] in *. right.
      rewrite !omap_app, Ht1, Ht2, Ht3. split; [reflexivity|congruence].
    + right. rewrite omap_app, Ht1, Ht2. split; [reflexivity|exact Hb2].
Qed.

Lemma tidy_flow (flow : bool * bool) (randomName : jsstring) :
  tidy (fun _ => True)
    (if fst flow then login_flow (snd flow) else registration_flow randomName).
Proof. destruct (fst flow); [apply tidy_login_flow|apply tidy_registration_flow]. Qed.

(** X14.  The life of the browser in a run, whatever the outside answers.
    The browser is launched at most once.  A browser that was launched is
    asked to close; it is asked a second time only when the first request
    was rejected, and never after a request that went through.  It is left
    open only in a run that was told to keep it open and in which the
    device authorisation gave an answer. *)
Theorem browser_of_a_run (w : world) (email0 proxyUrl : option jsstring)
        (testLoginDetection keepBrowserOpen : bool) (cfg : option MailServiceConfig) :
  let run := exec w 0 (autoRegisterAWS email0 proxyUrl testLoginDetection keepBrowserOpen cfg) in
  let seen := omap browsing (trace_of run) in
  seen = []
  \/ (exists closed, seen = [Launched; CloseAsked closed])
  \/ (exists closed, seen = [Launched; CloseAsked false; CloseAsked closed])
  \/ (seen = [Launched] /\ keepBrowserOpen = true
      /\ exists granted, In (Authorised granted) (omap traffic (trace_of run))).
Proof.
  cbv zeta. unfold autoRegisterAWS. rewrite !trace_do.
  rewrite !omap_browsing_cons, !omap_traffic_cons. cbn [browsing traffic from_option app].
  set (randomName := w _ 0 GenerateRandomName). set (userCode := w _ 1 GenerateUserCode).
  rewrite exec_try_catch. unfold attempt. rewrite exec_bind.
  destruct (until_classified_browsing w 2 proxyUrl cfg userCode email0)
    as [(Ht1 & Hb1 & e1 & He1)|[Ht1 Hb1]].
  { destruct (exec w 2 (until_classified proxyUrl cfg userCode (at_entry email0)))
      as [[[r l1] n1] t1]; cbn [trace_of value_of fst snd] in *. subst r.
    cbn [trace_of value_of fst snd].
    pose proof (recover_browsing w n1 e1 l1) as Hr. rewrite Hb1 in Hr.
    destruct (exec w n1 (recover e1 l1)) as [[r l'] t2]. cbn [trace_of snd] in *.
    left. rewrite omap_app, Ht1, Hr. reflexivity. }
  destruct (exec w 2 (until_classified proxyUrl cfg userCode (at_entry email0)))
    as [[[[flow|e] l1] n1] t1]; cbn [trace_of value_of fst snd] in *.
  2: { pose proof (recover_browsing w n1 e l1) as Hr. rewrite Hb1 in Hr.
       destruct (exec w n1 (recover e l1)) as [[r l'] t2]. cbn [trace_of snd] in *.
       right. left. eexists. rewrite omap_app, Ht1, Hr. reflexivity. }
  rewrite exec_bind.
  destruct (tidy_exec _ _ w n1 l1 (tidy_flow flow randomName)) as [Ht2 Hb2].
  destruct (exec w n1 ((if fst flow then login_flow (snd flow)
                        else registration_flow randomName) l1))
    as [[[[[]|e] l2] n2] t2]; cbn [trace_of value_of fst snd] in *.
  2: { pose proof (recover_browsing w n2 e l2) as Hr. rewrite Hb2, Hb1 in Hr.
       destruct (exec w n2 (recover e l2)) as [[r l'] t3]. cbn [trace_of snd] in *.
       right. left. eexists. rewrite !omap_app, Ht1, Ht2, Hr. reflexivity. }
  pose proof (finish_browsing w n2 randomName testLoginDetection keepBrowserOpen l2) as Hfinish.
  cbv zeta in Hfinish.
  destruct (exec w n2 (finish randomName testLoginDetection keepBrowserOpen l2))
    as [[[[res|e] l3] n3] t3]; cbn [trace_of value_of fst snd] in *.
  - destruct Hfinish as [(granted & Hgranted) Hseen].
    rewrite !omap_app, Ht1, Ht2, Hseen. cbn [app].
    destruct keepBrowserOpen.
    + right. right. right. split; [reflexivity|]. split; [reflexivity|].
      exists granted. apply in_or_app. right. apply in_or_app. right. exact Hgranted.
    + right. left. eexists. reflexivity.
  - pose proof (recover_browsing w n3 e l3) as Hr.
    destruct (exec w n3 (recover e l3)) as [[r l'] t4]. cbn [trace_of snd] in *.
    rewrite !omap_app, Ht1, Ht2, Hr. cbn [app].
    destruct Hfinish as [[-> Hb3]|[[-> Hb3]|[-> Hb3]]]; rewrite Hb3, ?Hb2, ?Hb1; cbn [app].
    + right. left. eexists. reflexivity.
    + right. left. eexists. reflexivity.
    + right. right. left. eexists. reflexivity.
Qed.

(* ===================================================================== *)
(** ** The helpers of the interaction layer: what they answer *)
(* ===================================================================== *)

Import JS Orchestrator Helpers.

Lemma script_run {A : Type} (Q : list event -> A -> Prop) (p : script A) :
  forall (h : list event) (w : page_world) (n : nat),
    sat Q h p -> Q (h ++ asked_of (run_script w n p)) (answer_of (run_script w n p)).
Proof.
  induction p as [a|X e k IH]; intros h w n Hp; cbn in *.
  - rewrite app_nil_r. exact Hp.
  - specialize (IH (w X n e) (h ++ [Asked e (w X n e)]) w (S n) (Hp _)).
    destruct (run_script w (S n) (k (w X n e))) as [[a n'] t].
    unfold asked_of, answer_of in *. cbn in *. rewrite <- app_assoc in IH. exact IH.
Qed.

Lemma script_weaken {A : Type} (Q Q' : list event -> A -> Prop) (p : script A) :
  forall h, sat Q h p -> (forall h' a, Q h' a -> Q' h' a) -> sat Q' h p.
Proof.
  induction p as [a|X e k IH]; intros h Hp HQ; cbn in *; [apply HQ, Hp|].
  intros x. apply (IH x). - apply Hp. - exact HQ.
Qed.

Lemma sat_hbind {A B : Type} (Q : list event -> outcome B -> Prop) (p : H A) (f : A -> H B) :
  forall h,
    sat (fun h' r => match r with
                     | Ok a => sat Q h' (f a)
                     | Err e => Q h' (Err e)
                     end) h p ->
    sat Q h (hbind p f).
Proof.
  induction p as [[a|e]|X e k IH]; intros h Hp; cbn in *; [exact Hp|exact Hp|].
  intros x. apply IH, Hp.
Qed.

Lemma sat_htry {A : Type} (Q : list event -> outcome A -> Prop) (p : H A) (hd : exn -> H A) :
  forall h,
    sat (fun h' r => match r with
                     | Ok a => Q h' (Ok a)
                     | Err e => sat Q h' (hd e)
                     end) h p ->
    sat Q h (htry p hd).
Proof.
  induction p as [[a|e]|X e k IH]; intros h Hp; cbn in *; [exact Hp|exact Hp|].
  intros x. apply IH, Hp.
Qed.

Lemma never_rejects_run {A : Type} (p : H A) (w : page_world) (n : nat) :
  never_rejects p -> exists a, answer_of (run_script w n p) = Ok a.
Proof. intros Hp. exact (script_run _ p [] w n (Hp [])). Qed.

(** A handler that does not reject makes the whole [try] safe. *)
Lemma never_rejects_htry {A : Type} (p : H A) (hd : exn -> H A) :
  (forall e, never_rejects (hd e)) -> never_rejects (htry p hd).
Proof.
  intros Hh h. apply sat_htry. revert h.
  induction p as [[a|e]|X e k IH]; intros h; cbn; [eauto|apply Hh|].
  intros x. apply IH.
Qed.

Lemma never_rejects_hret {A : Type} (a : A) : never_rejects (hret a).
Proof. intros h. cbn. eauto. Qed.

Lemma never_rejects_hbind {A B : Type} (p : H A) (f : A -> H B) :
  never_rejects p -> (forall a, never_rejects (f a)) -> never_rejects (hbind p f).
Proof.
  intros Hp Hf h. apply sat_hbind. eapply script_weaken; [apply Hp|].
  cbn. intros h' r [a ->]. apply Hf.
Qed.

Lemma waitForPageStable_safe : never_rejects waitForPageStable.
Proof. apply never_rejects_htry. intros e. apply never_rejects_hret. Qed.

Lemma moveMouseToElement_safe (selector : jsstring) :
  never_rejects (moveMouseToElement selector).
Proof. apply never_rejects_htry. intros e. apply never_rejects_hret. Qed.

Lemma randomPageInteraction_safe : never_rejects randomPageInteraction.
Proof. apply never_rejects_htry. intros e. apply never_rejects_hret. Qed.

Lemma try_selectors_safe (selectors : list jsstring) (timeout : N) (parts : nat) :
  never_rejects (try_selectors selectors timeout parts).
Proof.
  induction selectors as [|selector rest IH]; cbn [try_selectors].
  - apply never_rejects_hret.
  - apply never_rejects_htry. intros _. exact IH.
Qed.

Lemma waitAndFill_once_safe (selector value : jsstring) (timeout : N) (typeCharByChar : bool) :
  never_rejects (waitAndFill selector value timeout 1 typeCharByChar)
  /\ never_rejects (waitAndFill selector value timeout 0 typeCharByChar).
Proof.
  split; [|apply never_rejects_hret].
  apply never_rejects_htry. intros _. apply never_rejects_hret.
Qed.

Lemma waitAndClickWithRetry_once_safe (selector : jsstring) (timeout : N) :
  never_rejects (waitAndClickWithRetry selector timeout 1).
Proof. apply never_rejects_htry. intros _. apply never_rejects_hret. Qed.

Lemma omap_snoc {A B : Type} (f : A -> option B) (l : list A) (x : A) :
  omap f (l ++ [x]) = omap f l ++ from_option (fun y => [y]) [] (f x).
Proof. rewrite omap_app. cbn. destruct (f x); reflexivity. Qed.

(** The loop of [tryClickSelectors] over the selectors that are left. *)
Lemma try_selectors_sat (timeout : N) (parts : nat) (selectors : list jsstring) :
  forall (left done : list jsstring) (h : list event),
    selectors = done ++ left -> omap waited h = done -> omap is_click h = [] ->
    sat (fun h' r =>
           match r with
           | Ok true =>
               exists tried s rest pre,
                 selectors = tried ++ s :: rest
                 /\ omap waited h' = tried ++ [s] /\ omap is_click h' = [s]
                 /\ h' = pre ++ [fulfilled (WaitFor s visible_ (Share timeout parts));
                                 fulfilled (WaitForTimeout (Ms 300));
                                 fulfilled (Click s)]
           | Ok false => omap waited h' = selectors /\ omap is_click h' = []
           | Err _ => False
           end) h (try_selectors left timeout parts).
Proof.
  induction left as [|s left IH]; intros done h Hsel Hw Hc; cbn [try_selectors].
  - cbn. rewrite app_nil_r in Hsel. subst. auto.
  - assert (forall h1, omap waited h1 = done ++ [s] -> omap is_click h1 = [] ->
              sat (fun h' r =>
                     match r with
                     | Ok true =>
                         exists tried s rest pre,
                           selectors = tried ++ s :: rest
                           /\ omap waited h' = tried ++ [s] /\ omap is_click h' = [s]
                           /\ h' = pre ++ [fulfilled (WaitFor s visible_ (Share timeout parts));
                                           fulfilled (WaitForTimeout (Ms 300));
                                           fulfilled (Click s)]
                     | Ok false => omap waited h' = selectors /\ omap is_click h' = []
                     | Err _ => False
                     end) h1 (try_selectors left timeout parts)) as Hnext.
    { intros h1 Hw1 Hc1. apply (IH (done ++ [s])); [|assumption|assumption].
      rewrite <- app_assoc. exact Hsel. }
    cbn [htry hbind attempt hret sat]. intros [[]|e1].
    2: { apply Hnext; rewrite omap_snoc; cbn; [rewrite Hw|rewrite Hc]; reflexivity. }
    cbn [htry hbind attempt hret sat]. intros [[]|e2].
    2: { apply Hnext; rewrite !omap_snoc; cbn; rewrite ?Hw, ?Hc, ?app_nil_r; reflexivity. }
    cbn [htry hbind attempt hret sat]. intros [[]|e3].
    2: { apply Hnext; rewrite !omap_snoc; cbn; rewrite ?Hw, ?Hc, ?app_nil_r; reflexivity. }
    cbn [htry hbind attempt hret sat].
    exists done, s, left, h. split; [exact Hsel|].
    rewrite !omap_snoc. cbn. rewrite Hw, Hc, ?app_nil_r.
    split; [reflexivity|]. split; [reflexivity|]. rewrite <- !app_assoc. reflexivity.
Qed.

(** X20.  [tryClickSelectors] is never rejected.  It tries the selectors in
    their order and stops at the first one whose element became visible
    and took the click: it answers [true] exactly then, having clicked
    that element and no other; it answers [false] after it has gone
    through all selectors without a click. *)
Theorem tryClickSelectors_contract (w : page_world) (n : nat) (selectors : list jsstring)
        (timeout : N) :
  let r := run_script w n (tryClickSelectors selectors timeout) in
  let parts := length selectors in
  (answer_of r = Ok true
   /\ exists tried s rest pre,
        selectors = tried ++ s :: rest
        /\ omap waited (asked_of r) = tried ++ [s]
        /\ omap is_click (asked_of r) = [s]
        /\ asked_of r = pre ++ [fulfilled (WaitFor s visible_ (Share timeout parts));
                               fulfilled (WaitForTimeout (Ms 300));
                               fulfilled (Click s)])
  \/ (answer_of r = Ok false
      /\ omap waited (asked_of r) = selectors /\ omap is_click (asked_of r) = []).
Proof.
  cbv zeta. unfold tryClickSelectors.
  pose proof (script_run _ _ [] w n
                (try_selectors_sat timeout (length selectors) selectors selectors [] []
                   eq_refl eq_refl eq_refl)) as H.
  cbn [app] in H.
  destruct (answer_of (run_script w n (try_selectors selectors timeout (length selectors))))
    as [[|]|e]; [left|right|destruct H]; (split; [reflexivity|exact H]).
Qed.

Lemma plain_omap (t : list event) :
  Forall plain t -> omap waited t = [] /\ omap is_click t = [] /\ forallb (fun ev => negb (saw_error ev)) t = true.
Proof.
  induction 1 as [|ev t (Hw & Hc & He) _ (IHw & IHc & IHe)]; [repeat split|].
  cbn. rewrite Hw, Hc, He, IHw, IHc, IHe. repeat split.
Qed.

Ltac count_filter :=
  repeat first [ rewrite filter_cons_True by exact I
               | rewrite filter_cons_False by exact (fun H => H)
               | rewrite filter_nil ];
  cbn [length].

Lemma mouse_path_sat (points : nat) :
  forall h,
    sat (fun h' r => exists t, h' = h ++ t /\ Forall plain t
                               /\ length (filter is_mouse_move t) <= points
                               /\ (r = Ok tt -> length (filter is_mouse_move t) = points))
        h (mouse_path points).
Proof.
  induction points as [|points IH]; intros h; cbn [mouse_path].
  - cbn. exists []. rewrite app_nil_r. repeat split; auto.
  - cbn [hbind attempt hret sat]. intros [[]|e1].
    2: { cbn. eexists [_]. split; [reflexivity|]. split; [repeat constructor|].
         count_filter. split; [lia|discriminate]. }
    cbn [hbind attempt hret sat]. intros [[]|e2].
    2: { cbn. eexists [_; _]. rewrite <- app_assoc. split; [reflexivity|].
         split; [repeat constructor|]. count_filter. split; [lia|discriminate]. }
    eapply script_weaken; [apply IH|]. cbn beta.
    intros h' r (t & -> & Hp & Hle & Heq).
    eexists (_ :: _ :: t). rewrite <- !app_assoc. split; [reflexivity|].
    split; [repeat constructor; exact Hp|]. count_filter.
    split; [lia|]. intros Hr. rewrite (Heq Hr). reflexivity.
Qed.

(** [moveMouseToElement] answers, after at most 21 moves of the mouse. *)
Lemma moveMouseToElement_sat (selector : jsstring) :
  forall h,
    sat (fun h' r => r = Ok tt
                     /\ exists t, h' = h ++ t /\ Forall plain t
                                  /\ length (filter is_mouse_move t) <= 21)
        h (moveMouseToElement selector).
Proof.
  intros h. unfold moveMouseToElement. cbn [htry hbind attempt ask hret sat].
  intros [[|]|e].
  - cbn [htry hbind attempt ask hret sat]. intros d.
    apply sat_htry. eapply script_weaken; [apply mouse_path_sat|]. cbn beta.
    intros h' r (t & -> & Hp & Hle & _). rewrite <- !app_assoc.
    assert (Forall plain (Asked (BoundingBox selector) (Ok true) :: Asked PathSteps d :: t)
            /\ length (filter is_mouse_move
                         (Asked (BoundingBox selector) (Ok true) :: Asked PathSteps d :: t))
               <= 21) as [Hp' Hl'].
    { split; [repeat constructor; exact Hp|]. count_filter. lia. }
    destruct r as [[]|e]; cbn [sat hret]; (split; [reflexivity|]); eexists;
      (split; [reflexivity|]); split; assumption.
  - cbn. split; [reflexivity|]. eexists [_]. split; [reflexivity|].
    split; [repeat constructor|]. count_filter. lia.
  - cbn. split; [reflexivity|]. eexists [_]. split; [reflexivity|].
    split; [repeat constructor|]. count_filter. lia.
Qed.

Lemma type_chars_sat (value : jsstring) :
  forall h,
    sat (fun h' r => exists t, h' = h ++ t /\ omap waited t = []
                               /\ match r with
                                  | Ok _ => t = typing [] value true
                                  | Err _ => True
                                  end) h (type_chars value).
Proof.
  induction value as [|char value IH]; intros h; cbn [type_chars].
  - cbn. exists []. rewrite app_nil_r. auto.
  - cbn [hbind attempt hret sat]. intros [[]|e1].
    2: { cbn. eexists [_]. auto. }
    cbn [hbind attempt hret sat]. intros [[]|e2].
    2: { cbn. eexists [_; _]. rewrite <- app_assoc. auto. }
    eapply script_weaken; [apply IH|]. cbn beta. intros h' r (t & -> & Hw & Hr).
    eexists (_ :: _ :: t). rewrite <- !app_assoc. split; [reflexivity|].
    split; [exact Hw|]. destruct r as [u|e]; [|exact I]. subst t. reflexivity.
Qed.

(** One attempt of [waitAndFill]: one wait for the element, and, when the
    attempt goes through, the filling at the end. *)
Lemma fill_once_sat (selector value : jsstring) (timeout : N) (typeCharByChar : bool) :
  forall h,
    sat (fun h' r =>
           length (omap waited h') = length (omap waited h) + 1
           /\ match r with
              | Ok b => b = true
                        /\ exists pre, h' = pre ++ filling selector value typeCharByChar
              | Err _ => True
              end) h (fill_once selector value timeout typeCharByChar).
Proof.
  intros h. unfold fill_once.
  assert (forall ev, waited ev = None ->
            forall h1, length (omap waited h1) = length (omap waited h) + 1 ->
                       length (omap waited (h1 ++ [ev])) = length (omap waited h) + 1) as Hmore.
  { intros ev Hev h1 H1. rewrite omap_snoc, Hev. cbn. rewrite app_nil_r. exact H1. }
  cbn [hbind attempt hret sat]. intros [[]|e1].
  2: { cbn. rewrite omap_snoc, length_app. auto. }
  assert (length (omap waited (h ++ [Asked (WaitFor selector visible_ (Ms timeout)) (Ok tt)]))
          = length (omap waited h) + 1) as H1 by (rewrite omap_snoc, length_app; reflexivity).
  set (h1 := h ++ [Asked (WaitFor selector visible_ (Ms timeout)) (Ok tt)]) in *.
  clearbody h1.
  cbn [hbind attempt hret sat]. intros [[]|e2]; [|cbn; auto].
  cbn [hbind attempt hret sat]. intros [[]|e3]; [|cbn; auto].
  apply sat_hbind. eapply script_weaken; [apply moveMouseToElement_sat|]. cbn beta.
  intros h' r (-> & t & -> & Hp & _).
  assert (length (omap waited (((h1 ++ [Asked (WaitFor selector attached (Ms 5000)) (Ok tt)])
                                  ++ [Asked (WaitForTimeout (Ms 800)) (Ok tt)]) ++ t))
          = length (omap waited h) + 1) as H2.
  { rewrite omap_app. destruct (plain_omap t Hp) as (-> & _). rewrite app_nil_r.
    auto. }
  set (h2 := ((h1 ++ _) ++ _) ++ t) in *. clearbody h2.
  cbn [hbind attempt hret sat]. intros [[]|e4]; [|cbn; auto].
  cbn [hbind attempt hret sat]. intros [[]|e5]; [|cbn; auto].
  cbn [hbind attempt hret sat]. intros [[]|e6]; [|cbn; auto 6].
  cbn [hbind attempt hret sat]. intros [[]|e7]; [|cbn; auto 7].
  cbn [hbind attempt hret sat]. intros [[]|e8]; [|cbn; auto 8].
  destruct typeCharByChar.
  - apply sat_hbind. eapply script_weaken; [apply type_chars_sat|]. cbn beta.
    intros h' r (t' & -> & Hw & Hr). destruct r as [[]|e]; cbn [sat hret].
    + subst t'. split.
      * rewrite omap_app, Hw, app_nil_r. auto 8.
      * split; [reflexivity|]. exists (h2 ++ [Asked (WaitForTimeout Random) (Ok tt)]).
        unfold filling. rewrite <- !app_assoc. reflexivity.
    + split; [|exact I]. rewrite omap_app, Hw, app_nil_r. auto 8.
  - cbn [hbind attempt hret sat]. intros [[]|e9]; [|cbn; auto 9].
    cbn. split; [auto 9|]. split; [reflexivity|].
    exists (h2 ++ [Asked (WaitForTimeout Random) (Ok tt)]).
    unfold filling. rewrite <- !app_assoc. reflexivity.
Qed.

(** The loop of [waitAndFill]. *)
Lemma waitAndFill_from_sat (selector value : jsstring) (timeout : N) (typeCharByChar : bool)
      (maxRetries : nat) :
  forall (left : nat) (h : list event),
    length (omap waited h) + left = maxRetries ->
    sat (fun h' r =>
           match r with
           | Ok true =>
               1 <= length (omap waited h') <= maxRetries
               /\ exists pre, h' = pre ++ filling selector value typeCharByChar
           | Ok false => length (omap waited h') = maxRetries
           | Err e =>
               2 <= maxRetries
               /\ exists pre, h' = pre ++ [Asked (WaitForTimeout Random) (Err e)]
           end) h (waitAndFill_from left selector value timeout typeCharByChar).
Proof.
  induction left as [|left IH]; intros h Hleft; cbn [waitAndFill_from].
  - cbn. lia.
  - apply sat_htry. eapply script_weaken; [apply fill_once_sat|]. cbn beta.
    intros h' r [Hcount Hr]. destruct r as [b|e].
    + destruct Hr as [-> Hpre]. split; [lia|exact Hpre].
    + destruct left as [|left]; cbn [Nat.ltb Nat.leb].
      * cbn. lia.
      * cbn [hbind attempt hret sat]. intros [[]|e'].
        -- apply IH. rewrite omap_snoc. cbn. rewrite app_nil_r. lia.
        -- cbn. split; [lia|]. eexists. reflexivity.
Qed.

(** X18.  What [waitAndFill] answers.  It answers [true] only after an
    attempt at whose end the field was cleared and clicked and the value
    typed code unit by code unit, or filled in at once, every step having
    gone through; it has then waited for the field between once and
    [maxRetries] times.  It answers [false] only after [maxRetries]
    attempts.  It is rejected only when the pause before a further attempt
    is, which takes a [maxRetries] of two or more. *)
Theorem waitAndFill_contract (w : page_world) (n : nat) (selector value : jsstring)
        (timeout : N) (maxRetries : nat) (typeCharByChar : bool) :
  let r := run_script w n (waitAndFill selector value timeout maxRetries typeCharByChar) in
  match answer_of r with
  | Ok true =>
      1 <= length (omap waited (asked_of r)) <= maxRetries
      /\ exists pre, asked_of r = pre ++ filling selector value typeCharByChar
  | Ok false => length (omap waited (asked_of r)) = maxRetries
  | Err e =>
      2 <= maxRetries
      /\ exists pre, asked_of r = pre ++ [Asked (WaitForTimeout Random) (Err e)]
  end.
Proof.
  cbv zeta. unfold waitAndFill.
  exact (script_run _ _ [] w n
           (waitAndFill_from_sat selector value timeout typeCharByChar maxRetries
              maxRetries [] eq_refl)).
Qed.

Example late_field_is_filled :
  let r := run_script late_field 0 (waitAndFill (str "#email") (str "ab") 30000 3 true) in
  answer_of r = Ok true
  /\ omap waited (asked_of r) = [str "#email"; str "#email"]
  /\ length (asked_of r) = 15.
Proof. repeat split; vm_compute; reflexivity. Qed.

Lemma no_error_seen_snoc (h : list event) (ev : event) :
  no_error_seen h -> saw_error ev = false -> no_error_seen (h ++ [ev]).
Proof.
  unfold no_error_seen. intros Hh Hev. rewrite forallb_app, Hh. cbn. rewrite Hev. reflexivity.
Qed.

Lemma no_error_seen_app (h t : list event) :
  no_error_seen h -> Forall plain t -> no_error_seen (h ++ t).
Proof.
  unfold no_error_seen. intros Hh Ht. rewrite forallb_app, Hh.
  destruct (plain_omap t Ht) as (_ & _ & ->). reflexivity.
Qed.

Lemma scan_texts_sat (selector : jsstring) (count : nat) :
  forall (index : nat) (h : list event),
    sat (fun h' r => omap is_click h' = omap is_click h
                     /\ (r <> Ok true -> no_error_seen h -> no_error_seen h'))
        h (scan_texts selector index count).
Proof.
  induction count as [|count IH]; intros index h; cbn [scan_texts].
  - cbn. auto.
  - cbn [hbind attempt hret sat]. intros [text|e].
    2: { cbn. rewrite omap_snoc. cbn. rewrite app_nil_r. split; [reflexivity|].
         intros _ Hh. apply no_error_seen_snoc; [exact Hh|reflexivity]. }
    destruct (is_error_text text) eqn:Htext.
    + cbn. rewrite omap_snoc. cbn. rewrite app_nil_r. split; [reflexivity|].
      intros H. contradiction.
    + eapply script_weaken; [apply IH|]. cbn beta. intros h' r [Hc Hn].
      rewrite Hc, omap_snoc. cbn. rewrite app_nil_r. split; [reflexivity|].
      intros Hr Hh. apply (Hn Hr). apply no_error_seen_snoc; [exact Hh|exact Htext].
Qed.

Lemma has_error_sat (selectors : list jsstring) :
  forall h,
    sat (fun h' r => omap is_click h' = omap is_click h
                     /\ exists b, r = Ok b /\ (b = false -> no_error_seen h -> no_error_seen h'))
        h (has_error selectors).
Proof.
  induction selectors as [|selector rest IH]; intros h; cbn [has_error].
  - cbn. eauto.
  - apply sat_hbind, sat_htry. cbn [hbind attempt hret sat]. intros [count|e].
    2: { cbn [sat hret]. eapply script_weaken; [apply IH|]. cbn beta.
         intros h' r (Hc & b & -> & Hb). rewrite Hc, omap_snoc. cbn. rewrite app_nil_r.
         split; [reflexivity|]. exists b. split; [reflexivity|].
         intros Hf Hh. apply (Hb Hf). apply no_error_seen_snoc; [exact Hh|reflexivity]. }
    eapply script_weaken; [apply scan_texts_sat|]. cbn beta. intros h' r [Hc Hn].
    rewrite omap_snoc in Hc. cbn in Hc. rewrite app_nil_r in Hc.
    assert (no_error_seen h -> no_error_seen (h ++ [Asked (CountAll selector) (Ok count)]))
      as Hstep by (intros Hh; apply no_error_seen_snoc; [exact Hh|reflexivity]).
    assert (r <> Ok true ->
            sat (fun h'0 r0 => omap is_click h'0 = omap is_click h
                               /\ exists b, r0 = Ok b
                                   /\ (b = false -> no_error_seen h -> no_error_seen h'0))
                h' (has_error rest)) as Hrest.
    { intros Hr. eapply script_weaken; [apply IH|]. cbn beta.
      intros h'' r' (Hc' & b & -> & Hb). rewrite Hc', Hc. split; [reflexivity|].
      exists b. split; [reflexivity|]. intros Hf Hh. apply (Hb Hf), (Hn Hr), Hstep, Hh. }
    destruct r as [[|]|e]; cbn [sat hret].
    + split; [exact Hc|]. exists true. split; [reflexivity|discriminate].
    + apply Hrest. discriminate.
    + apply Hrest. discriminate.
Qed.

(** One attempt of [waitAndClickWithRetry] with a [maxRetries] of one. *)
Lemma click_once_sat (selector : jsstring) (timeout : N) :
  forall h,
    omap is_click h = [] -> no_error_seen h ->
    sat (fun h' r =>
           (omap is_click h' = [] \/ omap is_click h' = [selector])
           /\ (r = Ok true -> omap is_click h' = [selector] /\ no_error_seen h'))
        h (click_once selector timeout 1).
Proof.
  intros h Hc Hn. unfold click_once.
  assert (forall ev h1, is_click ev = None /\ saw_error ev = false ->
            omap is_click h1 = [] /\ no_error_seen h1 ->
            omap is_click (h1 ++ [ev]) = [] /\ no_error_seen (h1 ++ [ev])) as Hplain.
  { intros ev h1 (Hev & Hee) [H1 H2]. rewrite omap_snoc, Hev, H1.
    split; [reflexivity|apply no_error_seen_snoc; assumption]. }
  assert (forall h1 e, omap is_click h1 = [] ->
            (omap is_click h1 = [] \/ omap is_click h1 = [selector])
            /\ (@Err bool e = Ok true -> omap is_click h1 = [selector] /\ no_error_seen h1))
    as Hfail by (intros h1 e H1; split; [left; exact H1|discriminate]).
  pose proof (conj Hc Hn) as H0.
  cbn [hbind attempt hret sat]. intros x1.
  apply (Hplain (Asked (WaitFor selector visible_ (Ms timeout)) x1)) in H0;
    [|split; reflexivity].
  destruct x1 as [[]|e1]; [|cbn; apply Hfail, H0].
  cbn [hbind attempt hret sat]. intros x2.
  apply (Hplain (Asked (WaitFor selector attached (Ms 5000)) x2)) in H0; [|split; reflexivity].
  destruct x2 as [[]|e2]; [|cbn; apply Hfail, H0].
  cbn [hbind attempt hret sat]. intros x3.
  apply (Hplain (Asked (WaitForTimeout (Ms 800)) x3)) in H0; [|split; reflexivity].
  destruct x3 as [[]|e3]; [|cbn; apply Hfail, H0].
  apply sat_hbind. eapply script_weaken; [apply moveMouseToElement_sat|]. cbn beta.
  intros h' r (-> & t & -> & Hp & _).
  assert (omap is_click ((((h ++ [Asked (WaitFor selector visible_ (Ms timeout)) (Ok tt)])
                             ++ [Asked (WaitFor selector attached (Ms 5000)) (Ok tt)])
                            ++ [Asked (WaitForTimeout (Ms 800)) (Ok tt)]) ++ t) = []
          /\ no_error_seen ((((h ++ [Asked (WaitFor selector visible_ (Ms timeout)) (Ok tt)])
                                ++ [Asked (WaitFor selector attached (Ms 5000)) (Ok tt)])
                               ++ [Asked (WaitForTimeout (Ms 800)) (Ok tt)]) ++ t)) as H1.
  { destruct H0 as [H01 H02]. split; [|apply no_error_seen_app; assumption].
    rewrite omap_app, H01. destruct (plain_omap t Hp) as (_ & -> & _). reflexivity. }
  clear H0. set (h1 := (((h ++ _) ++ _) ++ _) ++ t) in *. clearbody h1.
  cbn [hbind attempt hret sat]. intros x4.
  apply (Hplain (Asked (WaitForTimeout Random) x4)) in H1; [|split; reflexivity].
  destruct x4 as [[]|e4]; [|cbn; apply Hfail, H1].
  set (h2 := h1 ++ _) in *. clearbody h2.
  cbn [hbind attempt hret sat]. intros [[]|e5].
  2: { cbn. destruct (Hplain (Asked (Click selector) (Err e5)) h2 ltac:(split; reflexivity) H1)
         as [H2 _]. apply Hfail, H2. }
  assert (omap is_click (h2 ++ [Asked (Click selector) (Ok tt)]) = [selector]
          /\ no_error_seen (h2 ++ [Asked (Click selector) (Ok tt)])) as H2.
  { destruct H1 as [H11 H12]. rewrite omap_snoc, H11.
    split; [reflexivity|apply no_error_seen_snoc; [exact H12|reflexivity]]. }
  clear H1. set (h3 := h2 ++ _) in *. clearbody h3.
  unfold checkAndRetryOnError. cbn [checkAndRetryOnError_from].
  cbn [hbind attempt hret sat]. intros x6.
  assert (omap is_click (h3 ++ [Asked (WaitForTimeout (Ms 1500)) x6]) = [selector]
          /\ no_error_seen (h3 ++ [Asked (WaitForTimeout (Ms 1500)) x6])) as H3.
  { destruct H2 as [H21 H22]. rewrite omap_snoc, H21.
    split; [destruct x6; reflexivity|apply no_error_seen_snoc; [exact H22|reflexivity]]. }
  clear H2. set (h4 := h3 ++ _) in *. clearbody h4.
  destruct x6 as [[]|e6]; [|cbn; split; [right; apply H3|discriminate]].
  apply sat_hbind. eapply script_weaken; [apply has_error_sat|]. cbn beta.
  intros h' r (Hc' & b & -> & Hb). destruct H3 as [H31 H32]. rewrite H31 in Hc'.
  destruct b; cbn [negb Nat.ltb Nat.leb hbind hret sat].
  - split; [right; exact Hc'|discriminate].
  - split; [right; exact Hc'|]. intros _. split; [exact Hc'|apply Hb; [reflexivity|exact H32]].
Qed.

(** X19.  What [waitAndClickWithRetry] answers when it is called, as
    everywhere in the module, with its default of one attempt.  It is never
    rejected and it clicks the button at most once.  It answers [true]
    only when the click went through and the check that followed read no
    text of an error panel. *)
Theorem waitAndClickWithRetry_contract (w : page_world) (n : nat) (selector : jsstring)
        (timeout : N) :
  let r := run_script w n (waitAndClickWithRetry selector timeout 1) in
  (exists b, answer_of r = Ok b)
  /\ (omap is_click (asked_of r) = [] \/ omap is_click (asked_of r) = [selector])
  /\ (answer_of r = Ok true ->
      omap is_click (asked_of r) = [selector] /\ no_error_seen (asked_of r)).
Proof.
  cbv zeta.
  assert (sat (fun h' r =>
                 (exists b, r = Ok b)
                 /\ (omap is_click h' = [] \/ omap is_click h' = [selector])
                 /\ (r = Ok true -> omap is_click h' = [selector] /\ no_error_seen h'))
              [] (waitAndClickWithRetry selector timeout 1)) as H.
  { unfold waitAndClickWithRetry. cbn [waitAndClickWithRetry_from]. apply sat_htry.
    eapply script_weaken; [apply (click_once_sat selector timeout [] eq_refl eq_refl)|].
    cbn beta. intros h' r [Hc Ht]. destruct r as [b|e]; cbn [Nat.ltb Nat.leb sat hret].
    - split; [eauto|]. split; assumption.
    - split; [eauto|]. split; [exact Hc|discriminate]. }
  exact (script_run _ _ [] w n H).
Qed.

(** X22.  The helpers that only prepare the page are never rejected:
    [waitForPageStable], [randomPageInteraction] and [moveMouseToElement]
    answer whatever the page does, and the path of the mouse to an element
    has at most 21 points. *)
Theorem page_helpers_never_reject (w : page_world) (n : nat) (selector : jsstring) :
  answer_of (run_script w n waitForPageStable) = Ok tt
  /\ answer_of (run_script w n randomPageInteraction) = Ok tt
  /\ answer_of (run_script w n (moveMouseToElement selector)) = Ok tt
  /\ length (filter is_mouse_move (asked_of (run_script w n (moveMouseToElement selector))))
     <= 21.
Proof.
  destruct (never_rejects_run _ w n waitForPageStable_safe) as [[] H1].
  destruct (never_rejects_run _ w n randomPageInteraction_safe) as [[] H2].
  pose proof (script_run _ _ [] w n (moveMouseToElement_sat selector [])) as (H3 & t & Ht & _ & Hl).
  cbn [app] in Ht. rewrite Ht. auto.
Qed.

Section Manual.
Import Extractor.

Lemma watch_input_result (fuel : nat) (world : nat -> look) (startTime timeout : N) :
  forall (k : nat) (now : N) (b : bool) (now' : N) (k' : nat),
    watch_input fuel world k startTime timeout now = Some (b, now', k') ->
    k <= k' /\ k' <= k + fuel /\ (now <= now')%N
    /\ if b
       then exists value, input_value (world k') = Ok value /\ six_digits_typed value = true
       else (timeout <= now' - startTime)%N
            \/ (exists e, input_value (world k') = Err e)
            \/ (exists e, paused (world k') = Err e).
Proof.
  induction fuel as [|fuel IH]; intros k now b now' k' H; cbn [watch_input] in H.
  - destruct (now - startTime <? timeout)%N eqn:Hin; [discriminate|].
    injection H as <- <- <-. apply N.ltb_ge in Hin. repeat (split; [lia|]). left. exact Hin.
  - destruct (now - startTime <? timeout)%N eqn:Hin.
    2: { injection H as <- <- <-. apply N.ltb_ge in Hin. repeat (split; [lia|]).
         left. exact Hin. }
    cbn [negb] in H. cbv zeta in H.
    destruct (input_value (world k)) as [value|e] eqn:Hv.
    2: { injection H as <- <- <-. repeat (split; [lia|]). right. left. eauto. }
    destruct (six_digits_typed value) eqn:Hsix.
    { injection H as <- <- <-. repeat (split; [lia|]). eauto. }
    destruct (paused (world k)) as [[]|e] eqn:Hp.
    2: { injection H as <- <- <-. repeat (split; [lia|]). right. right. eauto. }
    destruct (IH _ _ _ _ _ H) as (Hk & Hk' & Hn & Hb). repeat (split; [lia|]). exact Hb.
Qed.

Lemma watch_input_answers (world : nat -> look) (startTime timeout : N) (fuel : nat) :
  forall (k : nat) (now : N),
    (startTime <= now)%N ->
    (timeout - (now - startTime) <= 1000 * N.of_nat fuel)%N ->
    watch_input fuel world k startTime timeout now <> None.
Proof.
  induction fuel as [|fuel IH]; intros k now Hs Hleft; cbn [watch_input].
  - destruct (now - startTime <? timeout)%N eqn:Hin; [|discriminate].
    apply N.ltb_lt in Hin. lia.
  - destruct (now - startTime <? timeout)%N eqn:Hin; [|discriminate].
    apply N.ltb_lt in Hin. cbn [negb]. cbv zeta.
    destruct (input_value (world k)) as [value|e]; [|discriminate].
    destruct (six_digits_typed value); [discriminate|].
    destruct (paused (world k)) as [[]|e]; [|discriminate].
    apply IH; [lia|rewrite Nat2N.inj_succ, N.mul_succ_r in Hleft; lia].
Qed.

(** X21.  [waitForManualInput] always answers: with enough turns for the
    time allowed (one per second) it returns, and it is never rejected.
    It answers [true] only when the field, read in the last turn, holds
    exactly six digits between white space; it answers [false] when the
    element did not appear, when the time allowed has passed or when a
    request was rejected. *)
Theorem waitForManualInput_contract (appeared : outcome unit) (world : nat -> look)
        (startTime timeout : N) (fuel : nat) :
  (timeout <= 1000 * N.of_nat fuel)%N ->
  exists b now' k',
    waitForManualInput appeared fuel world startTime timeout = Some (b, now', k')
    /\ k' <= fuel
    /\ if b
       then appeared = Ok tt
            /\ exists value,
                 input_value (world k') = Ok value
                 /\ length (Page.trim value) = 6
                 /\ forallb is_digit (Page.trim value) = true
       else (exists e, appeared = Err e)
            \/ (timeout <= now' - startTime)%N
            \/ (exists e, input_value (world k') = Err e)
            \/ (exists e, paused (world k') = Err e).
Proof.
  intros Hfuel. unfold waitForManualInput. destruct appeared as [[]|e].
  2: { exists false, startTime, 0. split; [reflexivity|]. split; [lia|]. left. eauto. }
  destruct (watch_input fuel world 0 startTime timeout startTime) as [[[b now'] k']|] eqn:H.
  2: { exfalso. revert H. apply watch_input_answers; lia. }
  exists b, now', k'. split; [reflexivity|].
  apply watch_input_result in H as (_ & Hk & _ & Hb). split; [lia|].
  destruct b.
  - split; [reflexivity|]. destruct Hb as (value & Hv & Hsix). exists value.
    split; [exact Hv|]. unfold six_digits_typed in Hsix.
    apply andb_true_iff in Hsix as [_ Hsix]. exact (exactly_six_digits_spec _ Hsix).
  - right. exact Hb.
Qed.

End Manual.

Lemma waitForManualInput_contract_witness :
  exists b now' k',
    waitForManualInput (Ok tt) 300 slow_typist 5000 300000 = Some (b, now', k')
    /\ k' <= 300
    /\ if b
       then Ok tt = Ok tt
            /\ exists value,
                 input_value (slow_typist k') = Ok value
                 /\ length (Page.trim value) = 6
                 /\ forallb is_digit (Page.trim value) = true
       else (exists e, Ok tt = Err e)
            \/ (300000 <= now' - 5000)%N
            \/ (exists e, input_value (slow_typist k') = Err e)
            \/ (exists e, paused (slow_typist k') = Err e).
Proof.
  apply (waitForManualInput_contract (Ok tt) slow_typist 5000 300000 300).
  vm_compute. discriminate.
Defined.

Example slow_typist_is_heard :
  waitForManualInput (Ok tt) 300 slow_typist 5000 300000 = Some (true, 7049%N, 2)
  /\ option_map (fun r => fst (fst r)) (waitForManualInput (Ok tt) 300 absent_user 5000 300000)
     = Some false.
Proof. split; vm_compute; reflexivity. Qed.

(* --------------------------------------------------------------------- *)
(** ** The activation of an Outlook mailbox *)
(* --------------------------------------------------------------------- *)

Lemma after_refl (h : list event) : after h [] [] [] h.
Proof. unfold after. rewrite !app_nil_r. auto. Qed.

Lemma after_trans (h h1 h2 : list event) (bs bs' : list browser_step)
      (fs fs' : list (jsstring * jsstring)) (cs cs' : list jsstring) :
  after h bs fs cs h1 -> after h1 bs' fs' cs' h2 ->
  after h (bs ++ bs') (fs ++ fs') (cs ++ cs') h2.
Proof.
  intros (H1 & H2 & H3) (H1' & H2' & H3'). unfold after.
  rewrite H1', H2', H3', H1, H2, H3, <- !app_assoc. auto.
Qed.

Lemma after_snoc (h : list event) (ev : event) :
  after h (from_option (fun y => [y]) [] (browser_step_of ev))
          (from_option (fun y => [y]) [] (is_fill ev))
          (from_option (fun y => [y]) [] (is_click ev)) (h ++ [ev]).
Proof. unfold after. rewrite !omap_snoc. auto. Qed.

(** One more event that is no launch, no close, no fill and no click. *)
Lemma after_quiet (h h1 : list event) (bs : list browser_step)
      (fs : list (jsstring * jsstring)) (cs : list jsstring) (ev : event) :
  after h bs fs cs h1 ->
  browser_step_of ev = None -> is_fill ev = None -> is_click ev = None ->
  after h bs fs cs (h1 ++ [ev]).
Proof.
  intros H Hb Hf Hc. pose proof (after_trans _ _ _ _ _ _ _ _ _ H (after_snoc h1 ev)) as H'.
  rewrite Hb, Hf, Hc in H'. cbn in H'. rewrite !app_nil_r in H'. exact H'.
Qed.

Lemma fill_first_sat (value : jsstring) (timeout : N) (selectors : list jsstring) :
  forall h,
    sat (fun h' r =>
           exists (b : bool) fs, r = Ok b /\ after h [] fs [] h'
             /\ if b then exists s, In s selectors /\ fs = [(s, value)] else fs = [])
        h (fill_first selectors value timeout).
Proof.
  induction selectors as [|s rest IH]; intros h; cbn [fill_first].
  - cbn. exists false, []. split; [reflexivity|]. split; [apply after_refl|reflexivity].
  - assert (forall h1, after h [] [] [] h1 ->
              sat (fun h' r =>
                     exists (b : bool) fs, r = Ok b /\ after h [] fs [] h'
                       /\ if b then exists s0, In s0 (s :: rest) /\ fs = [(s0, value)]
                          else fs = []) h1 (fill_first rest value timeout)) as Hnext.
    { intros h1 H1. eapply script_weaken; [apply IH|]. cbn beta.
      intros h' r (b & fs & -> & Ha & Hb). exists b, fs. split; [reflexivity|].
      split; [exact (after_trans _ _ _ _ _ _ _ _ _ H1 Ha)|].
      destruct b; [|exact Hb]. destruct Hb as (s0 & Hin & ->). exists s0.
      split; [right; exact Hin|reflexivity]. }
    cbn [htry hbind attempt hret sat]. intros x1.
    pose proof (after_quiet _ _ _ _ _ (Asked (WaitFor s visible_ (Ms timeout)) x1)
                  (after_refl h) eq_refl eq_refl eq_refl) as H1.
    destruct x1 as [[]|e1]; [|apply Hnext, H1].
    cbn [htry hbind attempt hret sat]. intros [[]|e2].
    + cbn. exists true, [(s, value)]. split; [reflexivity|]. split.
      * exact (after_trans _ _ _ _ _ _ _ _ _ H1 (after_snoc _ _)).
      * exists s. split; [left; reflexivity|reflexivity].
    + apply Hnext. apply (after_quiet _ _ _ _ _ _ H1); reflexivity.
Qed.

Lemma try_selectors_frame (timeout : N) (parts : nat) (selectors : list jsstring) :
  forall h,
    sat (fun h' r =>
           exists (b : bool) cs, r = Ok b /\ after h [] [] cs h'
             /\ if b then exists s, In s selectors /\ cs = [s] else cs = [])
        h (try_selectors selectors timeout parts).
Proof.
  induction selectors as [|s rest IH]; intros h; cbn [try_selectors].
  - cbn. exists false, []. split; [reflexivity|]. split; [apply after_refl|reflexivity].
  - assert (forall h1, after h [] [] [] h1 ->
              sat (fun h' r =>
                     exists (b : bool) cs, r = Ok b /\ after h [] [] cs h'
                       /\ if b then exists s0, In s0 (s :: rest) /\ cs = [s0] else cs = [])
                  h1 (try_selectors rest timeout parts)) as Hnext.
    { intros h1 H1. eapply script_weaken; [apply IH|]. cbn beta.
      intros h' r (b & cs & -> & Ha & Hb). exists b, cs. split; [reflexivity|].
      split; [exact (after_trans _ _ _ _ _ _ _ _ _ H1 Ha)|].
      destruct b; [|exact Hb]. destruct Hb as (s0 & Hin & ->). exists s0.
      split; [right; exact Hin|reflexivity]. }
    cbn [htry hbind attempt hret sat]. intros x1.
    pose proof (after_quiet _ _ _ _ _ (Asked (WaitFor s visible_ (Share timeout parts)) x1)
                  (after_refl h) eq_refl eq_refl eq_refl) as H1.
    destruct x1 as [[]|e1]; [|apply Hnext, H1].
    cbn [htry hbind attempt hret sat]. intros x2.
    pose proof (after_quiet _ _ _ _ _ (Asked (WaitForTimeout (Ms 300)) x2)
                  H1 eq_refl eq_refl eq_refl) as H2.
    destruct x2 as [[]|e2]; [|apply Hnext, H2].
    cbn [htry hbind attempt hret sat]. intros [[]|e3].
    + cbn. exists true, [s]. split; [reflexivity|]. split.
      * exact (after_trans _ _ _ _ _ _ _ _ _ H2 (after_snoc _ _)).
      * exists s. split; [left; reflexivity|reflexivity].
    + apply Hnext. apply (after_quiet _ _ _ _ _ _ H2); reflexivity.
Qed.

Lemma skip_if_shown_sat (timeout : N) :
  forall h,
    sat (fun h' r => r = Ok tt /\ exists cs, after h [] [] cs h') h (skip_if_shown timeout).
Proof.
  intros h. unfold skip_if_shown. cbn [htry hbind attempt hret sat]. intros x1.
  pose proof (after_quiet _ _ _ _ _ (Asked (WaitFor skipSelector visible_ (Ms timeout)) x1)
                (after_refl h) eq_refl eq_refl eq_refl) as H1.
  destruct x1 as [[]|e1]; [|cbn; eauto].
  cbn [htry hbind attempt hret sat]. intros x2.
  pose proof (after_trans _ _ _ _ _ _ _ _ _ H1 (after_snoc _ (Asked (Click skipSelector) x2)))
    as H2.
  cbn [app] in H2.
  destruct x2 as [[]|e2]; [|cbn; eauto].
  cbn [htry hbind attempt hret sat]. intros x3.
  pose proof (after_quiet _ _ _ _ _ (Asked (WaitForTimeout (Ms 3000)) x3)
                H2 eq_refl eq_refl eq_refl) as H3.
  destruct x3 as [[]|e3]; cbn; eauto.
Qed.

Lemma any_shown_sat (timeout : N) (selectors : list jsstring) :
  forall h,
    sat (fun h' r => (exists b, r = Ok b) /\ after h [] [] [] h')
        h (any_shown selectors timeout).
Proof.
  induction selectors as [|s rest IH]; intros h; cbn [any_shown].
  - cbn. split; [eauto|apply after_refl].
  - cbn [htry hbind attempt hret sat]. intros x1.
    pose proof (after_quiet _ _ _ _ _ (Asked (WaitFor s visible_ (Ms timeout)) x1)
                  (after_refl h) eq_refl eq_refl eq_refl) as H1.
    destruct x1 as [[]|e1]; [cbn; eauto|].
    eapply script_weaken; [apply IH|]. cbn beta. intros h' r [Hb Ha].
    split; [exact Hb|]. exact (after_trans _ _ _ _ _ _ _ _ _ H1 Ha).
Qed.

(** Steps over an awaited request that is no launch, close, fill or click;
    [H] says what the history has seen so far. *)
Ltac quiet_attempt H :=
  cbn [hbind attempt ask hret hthrow sat];
  let x := fresh "x" in
  intros x;
  match goal with
  | |- sat _ (_ ++ [?ev]) _ =>
      let H' := fresh "Ha" in
      pose proof (after_quiet _ _ _ _ _ ev H eq_refl eq_refl eq_refl) as H';
      clear H; rename H' into H
  end;
  destruct x as [[]|?]; [|cbn [hbind sat]; eauto].

(** The steps of the activation between the launch and the closing of the
    browser. *)
Lemma activation_steps_sat (email emailPassword : jsstring) :
  forall h,
    sat (fun h' r =>
           match r with
           | Ok _ =>
               exists s1 s2 c1 c2 more,
                 after h [] [(s1, email); (s2, emailPassword)] (c1 :: c2 :: more) h'
                 /\ In s1 emailInputSelectors /\ In s2 passwordInputSelectors
                 /\ In c1 firstNextSelectors /\ In c2 loginButtonSelectors
           | Err _ => exists fs cs, after h [] fs cs h'
           end) h (activation_steps email emailPassword).
Proof.
  intros h. unfold activation_steps. pose proof (after_refl h) as H.
  quiet_attempt H. quiet_attempt H. quiet_attempt H. quiet_attempt H.
  (* the e-mail *)
  apply sat_hbind. eapply script_weaken; [apply fill_first_sat|]. cbn beta.
  intros h1 r (filled & fs & -> & Hf & Hfs).
  pose proof (after_trans _ _ _ _ _ _ _ _ _ H Hf) as H1. cbn [app] in H1. clear H Hf.
  destruct filled; [|cbn; eauto]. destruct Hfs as (s1 & Hs1 & ->).
  quiet_attempt H1.
  (* the first button *)
  apply sat_hbind. eapply script_weaken; [apply try_selectors_frame|]. cbn beta.
  intros h2 r (clicked & cs & -> & Hc & Hcs).
  pose proof (after_trans _ _ _ _ _ _ _ _ _ H1 Hc) as H2. cbn [app] in H2. clear H1 Hc.
  destruct clicked; [|cbn; eauto]. destruct Hcs as (c1 & Hc1 & ->).
  quiet_attempt H2.
  (* the password *)
  apply sat_hbind. eapply script_weaken; [apply fill_first_sat|]. cbn beta.
  intros h3 r (filled & fs & -> & Hf & Hfs).
  pose proof (after_trans _ _ _ _ _ _ _ _ _ H2 Hf) as H3. cbn [app] in H3. clear H2 Hf.
  destruct filled; [|cbn; eauto]. destruct Hfs as (s2 & Hs2 & ->).
  quiet_attempt H3.
  (* the second button *)
  apply sat_hbind. eapply script_weaken; [apply try_selectors_frame|]. cbn beta.
  intros h4 r (clicked & cs & -> & Hc & Hcs).
  pose proof (after_trans _ _ _ _ _ _ _ _ _ H3 Hc) as H4. cbn [app] in H4. clear H3 Hc.
  destruct clicked; [|cbn; eauto]. destruct Hcs as (c2 & Hc2 & ->).
  quiet_attempt H4.
  (* what may be skipped *)
  apply sat_hbind. eapply script_weaken; [apply skip_if_shown_sat|]. cbn beta.
  intros h5 r (-> & cs5 & Hc).
  pose proof (after_trans _ _ _ _ _ _ _ _ _ H4 Hc) as H5. cbn [app] in H5. clear H4 Hc.
  apply sat_hbind. eapply script_weaken; [apply skip_if_shown_sat|]. cbn beta.
  intros h6 r (-> & cs6 & Hc).
  pose proof (after_trans _ _ _ _ _ _ _ _ _ H5 Hc) as H6. cbn [app] in H6. clear H5 Hc.
  apply sat_hbind. eapply script_weaken; [apply try_selectors_frame|]. cbn beta.
  intros h7 r (clicked & cs7 & -> & Hc & _).
  pose proof (after_trans _ _ _ _ _ _ _ _ _ H6 Hc) as H7. cbn [app] in H7. clear H6 Hc.
  quiet_attempt H7.
  apply sat_hbind. eapply script_weaken; [apply try_selectors_frame|]. cbn beta.
  intros h8 r (clicked' & cs8 & -> & Hc & _).
  pose proof (after_trans _ _ _ _ _ _ _ _ _ H7 Hc) as H8. cbn [app] in H8. clear H7 Hc.
  quiet_attempt H8.
  (* the inbox *)
  apply sat_hbind. eapply script_weaken; [apply any_shown_sat|]. cbn beta.
  intros h9 r ([shown ->] & Hc).
  pose proof (after_trans _ _ _ _ _ _ _ _ _ H8 Hc) as H9. cbn [app] in H9. clear H8 Hc.
  rewrite !app_nil_r in H9.
  assert (forall (loaded : bool) more h10,
            after h [] [(s1, email); (s2, emailPassword)] (c1 :: c2 :: more) h10 ->
            sat (fun h' (r : outcome bool) =>
                   match r with
                   | Ok _ =>
                       exists s1 s2 c1 c2 more,
                         after h [] [(s1, email); (s2, emailPassword)] (c1 :: c2 :: more) h'
                         /\ In s1 emailInputSelectors /\ In s2 passwordInputSelectors
                         /\ In c1 firstNextSelectors /\ In c2 loginButtonSelectors
                   | Err _ => exists fs cs, after h [] fs cs h'
                   end) h10
                (hbind (attempt (WaitForTimeout (Ms 2000))) (fun _ => hret loaded))) as Hlast.
  { intros loaded more h10 H10. quiet_attempt H10. cbn. eauto 12. }
  destruct shown; cbn [hbind hret].
  - eapply Hlast, H9.
  - cbn [hbind ask sat]. intros currentUrl. eapply Hlast.
    apply (after_quiet _ _ _ _ _ _ H9); reflexivity.
Qed.

(** X23.  What [activateOutlook] does and answers, whatever the page does.
    It is never rejected.  A browser that was launched is asked to close,
    and asked again only when the first request was rejected; it is never
    left alone.  It reports success only when the address and the password
    were each filled into a field of their lists, in this order and with
    no other fill, the two buttons that must be clicked were, and the
    browser was closed at the first request; a report of failure carries
    an error. *)
Theorem activateOutlook_contract (w : page_world) (n : nat) (email emailPassword : jsstring) :
  let r := run_script w n (activateOutlook email emailPassword) in
  let steps := omap browser_step_of (asked_of r) in
  exists res,
    answer_of r = Ok res
    /\ (steps = []
        \/ (exists closed, steps = [Opened; CloseAsked closed])
        \/ (exists closed, steps = [Opened; CloseAsked false; CloseAsked closed]))
    /\ (if act_success res
        then steps = [Opened; CloseAsked true] /\ act_error res = None
             /\ exists s1 s2 c1 c2 more,
                  omap is_fill (asked_of r) = [(s1, email); (s2, emailPassword)]
                  /\ omap is_click (asked_of r) = c1 :: c2 :: more
                  /\ In s1 emailInputSelectors /\ In s2 passwordInputSelectors
                  /\ In c1 firstNextSelectors /\ In c2 loginButtonSelectors
        else act_error res <> None).
Proof.
  cbv zeta.
  pose (Q := fun (h' : list event) (r : outcome Activation) =>
    exists res,
      r = Ok res
      /\ (omap browser_step_of h' = []
          \/ (exists closed, omap browser_step_of h' = [Opened; CloseAsked closed])
          \/ (exists closed,
                omap browser_step_of h' = [Opened; CloseAsked false; CloseAsked closed]))
      /\ (if act_success res
          then omap browser_step_of h' = [Opened; CloseAsked true] /\ act_error res = None
               /\ exists s1 s2 c1 c2 more,
                    omap is_fill h' = [(s1, email); (s2, emailPassword)]
                    /\ omap is_click h' = c1 :: c2 :: more
                    /\ In s1 emailInputSelectors /\ In s2 passwordInputSelectors
                    /\ In c1 firstNextSelectors /\ In c2 loginButtonSelectors
          else act_error res <> None)).
  assert (sat Q [] (activateOutlook email emailPassword)) as H.
  { unfold activateOutlook. cbn [htry hbind attempt hret sat]. intros [[]|e0].
    2: { cbn. eexists. split; [reflexivity|]. split; [left; reflexivity|intros ?; discriminate]. }
    cbn [app]. apply sat_htry, sat_htry, sat_hbind.
    eapply script_weaken; [apply activation_steps_sat|]. cbn beta.
    intros h1 r Hr. destruct r as [loaded|e].
    - destruct Hr as (s1 & s2 & c1 & c2 & more & (Hb & Hf & Hc) & Hin).
      cbn in Hb, Hf, Hc.
      cbn [htry hbind attempt hret sat]. intros [[]|e1].
      + cbn [sat]. unfold Q. eexists. split; [reflexivity|].
        rewrite !omap_snoc, Hb, Hf, Hc. cbn [from_option browser_step_of is_fill is_click app].
        rewrite !app_nil_r. split; [right; left; eauto|].
        destruct loaded; cbn [act_success act_error]; [|intros ?; discriminate].
        split; [reflexivity|]. split; [reflexivity|]. exists s1, s2, c1, c2, more. tauto.
      + cbn [sat htry hbind attempt hret]. intros [[]|e2];
          cbn [sat htry hbind attempt hret]; unfold Q; (eexists; split; [reflexivity|]);
          rewrite !omap_snoc, Hb; cbn [from_option browser_step_of app];
          (split; [|cbn [act_success act_error]; intros ?; discriminate]);
          right; right; eexists; reflexivity.
    - destruct Hr as (fs & cs & Hb & _). cbn in Hb.
      cbn [sat htry hbind attempt hret]. intros [[]|e2];
        cbn [sat htry hbind attempt hret]; unfold Q; (eexists; split; [reflexivity|]);
        rewrite !omap_snoc, Hb; cbn [from_option browser_step_of app];
        (split; [|cbn [act_success act_error]; intros ?; discriminate]);
        right; left; eexists; reflexivity. }
  exact (script_run Q _ [] w n H).
Qed.

Example outlook_is_activated :
  let r := run_script late_field 1 (activateOutlook (str "a@outlook.com") (str "pw")) in
  option_map act_success (match answer_of r with Ok res => Some res | Err _ => None end)
    = Some true
  /\ omap browser_step_of (asked_of r) = [Opened; CloseAsked true]
  /\ map snd (omap is_fill (asked_of r)) = [str "a@outlook.com"; str "pw"].
Proof. repeat split; vm_compute; reflexivity. Qed.

(* ===================================================================== *)
(** ** The device connection: timers and silence *)
(* ===================================================================== *)

Import JS Device.

Lemma stopHeartbeat_held (s : state) :
  held s ->
  timers (stopHeartbeat s) = [] /\ heartbeatInterval (stopHeartbeat s) = None
  /\ socket (stopHeartbeat s) = socket s /\ sent (stopHeartbeat s) = sent s
  /\ intervals (stopHeartbeat s) = intervals s.
Proof.
  unfold held, stopHeartbeat. destruct (heartbeatInterval s) as [t|] eqn:Hh; intros H; cbn.
  - rewrite H. rewrite filter_cons_False by (rewrite Nat.eqb_refl; exact (fun H => H)).
    rewrite filter_nil. auto.
  - auto.
Qed.

Lemma sendHeartbeat_timers (connected : bool) (s : state) :
  timers (sendHeartbeat connected s) = timers s
  /\ heartbeatInterval (sendHeartbeat connected s) = heartbeatInterval s
  /\ socket (sendHeartbeat connected s) = socket s
  /\ intervals (sendHeartbeat connected s) = intervals s.
Proof. unfold sendHeartbeat. destruct (socket s) eqn:Hs, connected; cbn; rewrite ?Hs; auto. Qed.

Lemma register_timers (connected : bool) (s : state) :
  timers (register connected s) = timers s
  /\ heartbeatInterval (register connected s) = heartbeatInterval s
  /\ socket (register connected s) = socket s.
Proof. unfold register. destruct (socket s) eqn:Hs, connected; cbn; rewrite ?Hs; auto. Qed.

Lemma disconnect_held (s : state) :
  held s ->
  timers (disconnect s) = [] /\ heartbeatInterval (disconnect s) = None
  /\ socket (disconnect s) = None
  /\ sent (disconnect s)
     = sent s ++ match socket s with Some k => [SocketDisconnect k] | None => [] end.
Proof.
  intros H. destruct (stopHeartbeat_held s H) as (Ht & Hh & Hs & Hm & _).
  unfold disconnect. cbv zeta. rewrite Hs.
  destruct (socket s) as [k|] eqn:Hk; cbn; rewrite ?Ht, ?Hh, ?Hm, ?app_nil_r; auto.
Qed.

Lemma held_of (s : state) :
  timers s = [] -> heartbeatInterval s = None -> held s.
Proof. unfold held. intros -> ->. reflexivity. Qed.

Lemma run_app (s : state) (es1 es2 : list event) :
  run s (es1 ++ es2) = match run s es1 with Some s' => run s' es2 | None => None end.
Proof.
  revert s. induction es1 as [|e es1 IH]; intros s; cbn; [reflexivity|].
  destruct (step s e); [apply IH|reflexivity].
Qed.

Lemma step_held (s s' : state) (e : event) : held s -> step s e = Some s' -> held s'.
Proof.
  intros H Hstep. destruct e as [c url tok dev name acc| |c| |c success|message| |t c];
    cbn [step] in Hstep.
  - injection Hstep as <-. unfold connect. cbv zeta. unfold held. cbn.
    destruct (socket_connected c s); [|exact H].
    destruct (disconnect_held s H) as (-> & -> & _). reflexivity.
  - injection Hstep as <-. destruct (disconnect_held s H) as (Ht & Hh & _).
    apply held_of; assumption.
  - injection Hstep as <-. unfold startHeartbeat. cbv zeta.
    assert (held (register c s)) as Hr.
    { unfold held. destruct (register_timers c s) as (-> & -> & _). exact H. }
    destruct (stopHeartbeat_held _ Hr) as (Ht & _ & _ & _ & Hi).
    destruct (sendHeartbeat_timers c (stopHeartbeat (register c s))) as (Ht' & _ & _ & Hi').
    unfold held. cbn. rewrite Ht', Ht. reflexivity.
  - injection Hstep as <-. destruct (stopHeartbeat_held s H) as (Ht & Hh & _).
    apply held_of; assumption.
  - injection Hstep as <-. destruct success; [|exact H].
    unfold held. destruct (sendHeartbeat_timers c s) as (-> & -> & _). exact H.
  - injection Hstep as <-. destruct (eqs message _); [|exact H].
    destruct (disconnect_held s H) as (Ht & Hh & _). apply held_of; assumption.
  - injection Hstep as <-. exact H.
  - destruct (existsb _ _); [|discriminate]. injection Hstep as <-.
    unfold held. destruct (sendHeartbeat_timers c s) as (-> & -> & _). exact H.
Qed.

Lemma run_held (es : list event) :
  forall s s', held s -> run s es = Some s' -> held s'.
Proof.
  induction es as [|e es IH]; intros s s' H Hrun; cbn in Hrun.
  - injection Hrun as <-. exact H.
  - destruct (step s e) as [s1|] eqn:Hstep; [|discriminate].
    exact (IH s1 s' (step_held _ _ _ H Hstep) Hrun).
Qed.

(** X24.  The service never has more than one heartbeat timer: after any
    events, the interval timers that were set and not cleared are the one
    the service holds, if it holds one, and none otherwise; so only that
    timer can tick, and a [stopHeartbeat] or a [disconnect] leaves no
    timer behind. *)
Theorem one_heartbeat_timer (es : list event) (s : state) :
  run initial es = Some s ->
  timers s = match heartbeatInterval s with Some t => [t] | None => [] end
  /\ (forall t c, step s (Tick t c) <> None -> heartbeatInterval s = Some t)
  /\ timers (stopHeartbeat s) = [] /\ timers (disconnect s) = [].
Proof.
  intros Hrun. assert (held s) as H by (apply (run_held es initial); [reflexivity|exact Hrun]).
  split; [exact H|]. split.
  - intros t c Htick. cbn [step] in Htick. rewrite H in Htick.
    destruct (heartbeatInterval s) as [t'|]; cbn in Htick; [|contradiction].
    destruct (Nat.eqb_spec t t') as [->|]; [reflexivity|contradiction].
  - destruct (stopHeartbeat_held s H) as (-> & _). destruct (disconnect_held s H) as (-> & _).
    split; reflexivity.
Qed.

Lemma step_without_socket (s s' : state) (e : event) :
  socket s = None -> is_connect e = false -> step s e = Some s' ->
  socket s' = None /\ sent s' = sent s.
Proof.
  intros Hs He Hstep.
  assert (socket (stopHeartbeat s) = None /\ sent (stopHeartbeat s) = sent s) as [Hs1 Hm1]
    by (unfold stopHeartbeat; destruct (heartbeatInterval s); cbn; auto).
  assert (forall c, sendHeartbeat c s = s) as Hsend
    by (intros c; unfold sendHeartbeat; rewrite Hs; reflexivity).
  assert (disconnect s = stopHeartbeat s) as Hd
    by (unfold disconnect; cbv zeta; rewrite Hs1; reflexivity).
  destruct e as [c url tok dev name acc| |c| |c success|message| |t c];
    cbn [step is_connect] in *; try discriminate.
  - injection Hstep as <-. rewrite Hd. auto.
  - injection Hstep as <-. unfold register. rewrite Hs. unfold startHeartbeat.
    cbv zeta. unfold sendHeartbeat. rewrite Hs1. cbn. auto.
  - injection Hstep as <-. auto.
  - injection Hstep as <-. destruct success; rewrite ?Hsend; auto.
  - injection Hstep as <-. destruct (eqs message _); rewrite ?Hd; auto.
  - injection Hstep as <-. auto.
  - destruct (existsb _ _); [|discriminate]. injection Hstep as <-. rewrite Hsend. auto.
Qed.

Lemma run_without_socket (es : list event) :
  forall s s',
    socket s = None -> forallb (fun e => negb (is_connect e)) es = true ->
    run s es = Some s' -> socket s' = None /\ sent s' = sent s.
Proof.
  induction es as [|e es IH]; intros s s' Hs Hes Hrun; cbn in *.
  - injection Hrun as <-. auto.
  - apply andb_true_iff in Hes as [He Hes]. apply negb_true_iff in He.
    destruct (step s e) as [s1|] eqn:Hstep; [|discriminate].
    destruct (step_without_socket _ _ _ Hs He Hstep) as [Hs1 Hm1].
    destruct (IH s1 s' Hs1 Hes Hrun) as [Hs' Hm']. split; [exact Hs'|congruence].
Qed.

(** X25.  After a call of [disconnect], or after the server has answered
    [Authentication failed], the service is silent until [connect] is
    called again: the socket it held is disconnected and dropped, no timer
    is left, and whatever events follow (late events of old sockets
    included), nothing is emitted. *)
Theorem silent_after_disconnect (es es' : list event) (e : event) (s s1 s' : state) :
  run initial es = Some s ->
  e = CallDisconnect \/ e = OnError (str "Authentication failed") ->
  step s e = Some s1 ->
  forallb (fun e => negb (is_connect e)) es' = true ->
  run s1 es' = Some s' ->
  socket s1 = None /\ timers s1 = [] /\ heartbeatInterval s1 = None
  /\ sent s1 = sent s ++ match socket s with Some k => [SocketDisconnect k] | None => [] end
  /\ socket s' = None /\ sent s' = sent s1.
Proof.
  intros Hrun He Hstep Hes Hrun'.
  assert (held s) as H by (apply (run_held es initial); [reflexivity|exact Hrun]).
  assert (s1 = disconnect s) as ->
    by (destruct He as [-> | ->]; cbn [step] in Hstep; rewrite ?eqs_refl in Hstep; congruence).
  destruct (disconnect_held s H) as (Ht & Hh & Hs & Hm).
  repeat (split; [assumption|]). exact (run_without_socket es' _ s' Hs Hes Hrun').
Qed.

Lemma one_heartbeat_timer_witness :
  exists s, run initial refused_session = Some s
    /\ timers s = [] /\ heartbeatInterval s = None
    /\ filter is_message (sent s)
       = [ EmitRegister 0 (str "t1") (str "d1") (str "desk") (str "desktop") (str "supplier");
           EmitHeartbeat 0 (str "d1"); EmitHeartbeat 0 (str "d1"); EmitHeartbeat 0 (str "d1");
           EmitRegister 0 (str "t1") (str "d1") (str "desk") (str "desktop") (str "supplier");
           EmitHeartbeat 0 (str "d1") ].
Proof.
  destruct (run initial refused_session) as [s|] eqn:Hrun; [|vm_compute in Hrun; discriminate].
  exists s. split; [reflexivity|].
  destruct (one_heartbeat_timer refused_session s Hrun) as (Hheld & _).
  assert (heartbeatInterval s = None) as Hnone
    by (vm_compute in Hrun; injection Hrun as <-; reflexivity).
  rewrite Hheld, Hnone. split; [reflexivity|]. split; [reflexivity|].
  vm_compute in Hrun. injection Hrun as <-. vm_compute. reflexivity.
Defined.

Lemma silent_after_disconnect_witness :
  exists s',
    run initial (refused_session ++ [OnConnect true; Tick 2 true; OnRegistered true true])
      = Some s'
    /\ socket s' = None
    /\ length (filter is_message (sent s')) = 6.
Proof.
  destruct (run initial (removelast refused_session)) as [s|] eqn:Hrun;
    [|vm_compute in Hrun; discriminate].
  destruct (step s (OnError (str "Authentication failed"))) as [s1|] eqn:Hstep;
    [|discriminate].
  destruct (run s1 [OnConnect true; Tick 2 true; OnRegistered true true]) as [s'|] eqn:Hrun';
    [|vm_compute in Hrun; injection Hrun as <-; vm_compute in Hstep; injection Hstep as <-;
      vm_compute in Hrun'; discriminate].
  exists s'.
  destruct (silent_after_disconnect (removelast refused_session)
              [OnConnect true; Tick 2 true; OnRegistered true true] _ s s1 s'
              Hrun (or_intror eq_refl) Hstep eq_refl Hrun')
    as (_ & _ & _ & Hsent1 & Hsock & Hsent).
  split.
  - change refused_session
      with (removelast refused_session ++ [OnError (str "Authentication failed")]).
    rewrite <- app_assoc, run_app, Hrun. cbn [app run]. rewrite Hstep. exact Hrun'.
  - split; [exact Hsock|]. rewrite Hsent, Hsent1.
    vm_compute in Hrun. injection Hrun as <-. vm_compute. reflexivity.
Defined.


(* ===================================================================== *)
(** ** The fingerprints: where the fields come from *)
(* ===================================================================== *)

Import JS Fingerprint.

Lemma randomChoice_In {A : Type} (array : list A) (i : nat) (x : A) :
  randomChoice array i = Some x -> In x array.
Proof. unfold randomChoice. intros H. apply list_elem_of_In, list_elem_of_lookup. eauto. Qed.

Lemma platform_of_listed_agent (ua : jsstring) :
  In ua USER_AGENTS ->
  In (getPlatformFromUserAgent ua) [str "Linux armv8l"; str "iPhone"; str "iPad"].
Proof.
  intros H. repeat (destruct H as [<-|H]; [vm_compute; tauto|]). destruct H.
Qed.

(** X27.  Where the fields of a fingerprint come from.  With indices drawn
    inside the lists, [generateSmartFingerprint] returns a fingerprint
    with every field set: the user agent, the viewport, the locale, the
    time zone and the scale factor are entries of their lists, chosen as
    [generateRandomFingerprint] chooses them, and the platform is
    [Linux armv8l], [iPhone] or [iPad], never the [Linux aarch64] that a
    random fingerprint can carry. *)
Theorem smart_fingerprint_fields (d : draws) :
  d_userAgent d < length USER_AGENTS -> d_viewport d < length VIEWPORTS ->
  d_locale d < length LOCALES -> d_timezone d < length TIMEZONES ->
  d_scale d < length DEVICE_SCALE_FACTORS ->
  exists fp,
    generateSmartFingerprint d = Some fp
    /\ In (userAgent fp) USER_AGENTS /\ In (viewport fp) VIEWPORTS
    /\ In (locale fp) LOCALES /\ In (timezone fp) TIMEZONES
    /\ In (deviceScaleFactor fp) DEVICE_SCALE_FACTORS
    /\ In (platform fp) [str "Linux armv8l"; str "iPhone"; str "iPad"]
    /\ forall fp', generateRandomFingerprint d = Some fp' ->
         userAgent fp' = userAgent fp /\ viewport fp' = viewport fp
         /\ locale fp' = locale fp /\ timezone fp' = timezone fp
         /\ deviceScaleFactor fp' = deviceScaleFactor fp.
Proof.
  intros Hua Hvp Hlc Htz Hsf.
  destruct (lookup_lt_is_Some_2 _ _ Hua) as [ua Eua], (lookup_lt_is_Some_2 _ _ Hvp) as [vp Evp],
           (lookup_lt_is_Some_2 _ _ Hlc) as [lc Elc], (lookup_lt_is_Some_2 _ _ Htz) as [tz Etz],
           (lookup_lt_is_Some_2 _ _ Hsf) as [sf Esf].
  eexists. unfold generateSmartFingerprint, generateRandomFingerprint, randomChoice.
  rewrite Eua, Evp, Elc, Etz, Esf. cbn [mbind option_bind]. split; [reflexivity|].
  cbn [userAgent viewport locale timezone platform deviceScaleFactor].
  assert (In ua USER_AGENTS) as Iua by (apply (randomChoice_In _ _ _ Eua)).
  split; [exact Iua|]. split; [apply (randomChoice_In _ _ _ Evp)|].
  split; [apply (randomChoice_In _ _ _ Elc)|]. split; [apply (randomChoice_In _ _ _ Etz)|].
  split; [apply (randomChoice_In _ _ _ Esf)|]. split; [apply platform_of_listed_agent, Iua|].
  intros fp'. destruct (PLATFORMS !! d_platform d); cbn [mbind option_bind]; [|discriminate].
  intros [= <-]. cbn. auto.
Qed.

Lemma smart_fingerprint_fields_witness :
  exists fp,
    generateSmartFingerprint sample_draws = Some fp
    /\ platform fp = str "iPad" /\ deviceScaleFactor fp = 3
    /\ viewport fp = {| width := 768; height := 1024 |}.
Proof.
  destruct (smart_fingerprint_fields sample_draws) as (fp & Hfp & _);
    [vm_compute; lia|vm_compute; lia|vm_compute; lia|vm_compute; lia|vm_compute; lia|].
  exists fp. split; [exact Hfp|]. vm_compute in Hfp. injection Hfp as <-.
  repeat split; reflexivity.
Defined.
